(** * HQSession: the HTTP-over-QUIC session core

    A shallow embedding of [proxygen/lib/http/session/HQSession.cpp].

    The session is a record of the fields the source keeps in the
    [HQSession] object; every method is a function that passes the record
    along.  What the source asks of its collaborators (the QUIC socket, the
    control codec, the HTTP transaction) enters as an explicit answer in an
    environment value, and what it tells them leaves as an [Event] appended
    to the session trace.  Logging, qlog, info callbacks and timers are not
    part of the model. *)

From stdpp Require Import base gmap list strings.
From Stdlib Require Import ZArith Lia.
From Stdlib.Init Require Import Byte.

Open Scope Z_scope.

(** ** Machine integers *)

(** [uint64_t] and [size_t] arithmetic wraps around at 2^64. *)
Definition wrap64 (z : Z) : Z := z mod 2 ^ 64.

(** A chain length ([IOBufQueue::chainLength], [computeChainDataLength]). *)
Definition chainLength (buf : list byte) : Z := Z.of_nat (length buf).

(** [IOBufQueue::splitAtMost n]: the first [n] bytes (or all of them) leave
    the queue. *)
Definition splitAtMost (n : Z) (buf : list byte) : list byte * list byte :=
  (take (Z.to_nat n) buf, drop (Z.to_nat n) buf).

(** [IOBufQueue::trimStartAtMost n]. *)
Definition trimStartAtMost (n : Z) (buf : list byte) : list byte :=
  drop (Z.to_nat n) buf.

(** ** The transport's constants and stream-id classes *)

Module quic.

(** The maximum representable stream id in a quic varint. *)
Definition kEightByteLimit : Z := 2 ^ 62 - 1.

(** The socket's classification of stream ids.  It belongs to the QUIC
    library, which this file only calls; it is written here after the QUIC
    stream-id encoding: bit 1 of an id tells unidirectional from
    bidirectional, bit 0 tells server-initiated from client-initiated. *)
Definition isUnidirectionalStream (id : Z) : bool := Z.testbit id 1.

Definition isBidirectionalStream (id : Z) : bool := negb (Z.testbit id 1).

Definition isServerStream (id : Z) : bool := Z.testbit id 0.

Definition isClientStream (id : Z) : bool := negb (Z.testbit id 0).

Inductive LocalErrorCode : Set :=
| NO_ERROR
| CONNECT_FAILED
| INTERNAL_ERROR
| STREAM_NOT_EXISTS.

Inductive TransportErrorCode : Set :=
| PROTOCOL_VIOLATION
| FLOW_CONTROL_ERROR.

End quic.

(** ** Enumerations *)

Inductive TransportDirection : Set := UPSTREAM | DOWNSTREAM.

Inductive HQVersion : Set := H1Q_FB_V1 | H1Q_FB_V2 | HQ.

Inductive DrainState : Set :=
| NONE
| PENDING
| CLOSE_SENT
| CLOSE_RECEIVED
| FIRST_GOAWAY
| SECOND_GOAWAY
| DONE.

Inductive UnidirectionalStreamType : Set :=
| CONTROL
| PUSH
| QPACK_ENCODER
| QPACK_DECODER
| H1Q_CONTROL.

(** [HTTP3::ErrorCode], the application error codes this file names. *)
Module HTTP3.
Inductive ErrorCode : Set :=
| HTTP_NO_ERROR
| HTTP_WRONG_STREAM
| HTTP_WRONG_STREAM_COUNT
| HTTP_CLOSED_CRITICAL_STREAM
| HTTP_REQUEST_CANCELLED
| HTTP_REQUEST_REJECTED
| HTTP_INTERNAL_ERROR
| HTTP_UNKNOWN_STREAM_TYPE
| HTTP_MALFORMED_FRAME_PUSH_PROMISE
| GIVEUP_ZERO_RTT.
End HTTP3.

(** [proxygen::ErrorCode], the codec-level codes. *)
Inductive ErrorCode : Set :=
| EC_NO_ERROR
| EC_PROTOCOL_ERROR
| EC_INTERNAL_ERROR.

Inductive ProxygenError : Set :=
| kErrorNone
| kErrorStreamAbort
| kErrorStreamUnacknowledged
| kErrorEarlyDataFailed
| kErrorConnection
| kErrorConnectionReset
| kErrorConnect
| kErrorShutdown
| kErrorDropped
| kErrorWrite
| kErrorNetwork
| kErrorTimeout.

(** [quic::QuicErrorCode]: a tagged union of the three families. *)
Inductive QuicErrorCode : Set :=
| ApplicationErrorCode (e : HTTP3.ErrorCode)
| LocalErrorCode (e : quic.LocalErrorCode)
| TransportErrorCode (e : quic.TransportErrorCode).

Module HTTPException.
Inductive Direction : Set := INGRESS | EGRESS | INGRESS_AND_EGRESS.

Record t : Set := mk {
  direction : Direction;
  proxygenError : ProxygenError;
  errno : option QuicErrorCode
}.

Definition make (d : Direction) : t :=
  {| direction := d; proxygenError := kErrorNone; errno := None |}.

Definition setProxygenError (e : ProxygenError) (ex : t) : t :=
  {| direction := direction ex; proxygenError := e; errno := errno ex |}.

Definition setErrno (c : QuicErrorCode) (ex : t) : t :=
  {| direction := direction ex; proxygenError := proxygenError ex;
     errno := Some c |}.

Definition isIngressException (ex : t) : bool :=
  match direction ex with EGRESS => false | _ => true end.

Definition isEgressException (ex : t) : bool :=
  match direction ex with INGRESS => false | _ => true end.
End HTTPException.

#[global] Instance TransportDirection_eq_dec : EqDecision TransportDirection.
Proof. solve_decision. Defined.
#[global] Instance HQVersion_eq_dec : EqDecision HQVersion.
Proof. solve_decision. Defined.
#[global] Instance DrainState_eq_dec : EqDecision DrainState.
Proof. solve_decision. Defined.
#[global] Instance UnidirectionalStreamType_eq_dec :
  EqDecision UnidirectionalStreamType.
Proof. solve_decision. Defined.
#[global] Instance HTTP3_ErrorCode_eq_dec : EqDecision HTTP3.ErrorCode.
Proof. solve_decision. Defined.
#[global] Instance ProxygenError_eq_dec : EqDecision ProxygenError.
Proof. solve_decision. Defined.

Definition streamTypeIndex (t : UnidirectionalStreamType) : nat :=
  match t with
  | CONTROL => 0 | PUSH => 1 | QPACK_ENCODER => 2 | QPACK_DECODER => 3
  | H1Q_CONTROL => 4
  end%nat.

Definition streamTypeOfIndex (n : nat) : UnidirectionalStreamType :=
  match n with
  | 0 => CONTROL | 1 => PUSH | 2 => QPACK_ENCODER | 3 => QPACK_DECODER
  | _ => H1Q_CONTROL
  end%nat.

#[global] Instance UnidirectionalStreamType_countable :
  Countable UnidirectionalStreamType.
Proof.
  refine (inj_countable' streamTypeIndex streamTypeOfIndex _).
  by intros [].
Defined.

(** The order of the drain states, as the enumeration lists them. *)
Definition drainRank (d : DrainState) : nat :=
  match d with
  | NONE => 0
  | PENDING => 1
  | CLOSE_SENT => 2
  | CLOSE_RECEIVED => 3
  | FIRST_GOAWAY => 4
  | SECOND_GOAWAY => 5
  | DONE => 6
  end%nat.

Definition drain_le (a b : DrainState) : Prop := (drainRank a <= drainRank b)%nat.


(** ** The HTTP transaction, as the session sees it

    The transaction object is a collaborator: the session reads these
    observers and calls back into it.  The calls are recorded as events. *)
Record HTTPTransaction : Set := mkTxn {
  txnHasPendingBody : bool;      (* txn_.hasPendingBody() *)
  txnEgressEOMQueued : bool;     (* txn_.isEgressEOMQueued() *)
  txnIngressStarted : bool;      (* txn_.isIngressStarted() *)
  txnEgressComplete : bool;      (* txn_.isEgressComplete() *)
  txnEgressPaused : bool;        (* txn_.isEgressPaused() *)
  txnPendingByteEvents : Z       (* incrementPendingByteEvents count *)
}.

(** ** A request stream ([HQStreamTransport])

    A request stream is bound to one bidirectional stream id, which is both
    its ingress and its egress id. *)
Record HQStreamTransport : Set := mkStream {
  streamId : Z;
  detached_ : bool;
  ingressError_ : bool;
  readBuf_ : list byte;
  writeBuf_ : list byte;
  pendingEOM_ : bool;
  bytesWritten_ : Z;
  bytesSkipped_ : Z;
  transactionEnqueued : bool;      (* queueHandle_.isTransactionEnqueued() *)
  streamTransportEnqueued : bool;  (* queueHandle_.isStreamTransportEnqueued() *)
  txn_ : HTTPTransaction
}.

(** ** A control stream ([HQControlStream]) *)
Record HQControlStream : Set := mkControlStream {
  egressStreamId : Z;
  ingressStreamId : option Z;
  ingressCodec_ : bool;            (* whether ingressCodec_ is installed *)
  ctrlReadBuf_ : list byte;        (* readBuf_ *)
  ctrlReadEOF_ : bool;             (* readEOF_ *)
  ctrlWriteBuf_ : list byte
}.

(** What [sock_->writeChain] answers: an error, or the part of the data it
    hands back unwritten. *)
Inductive WriteResult : Set :=
| WriteError (e : quic.LocalErrorCode)
| WriteOk (notWritten : list byte).

(** ** Events: the calls the session makes on its collaborators *)
Inductive Event : Set :=
| EvWriteChain (id : Z) (data : list byte) (eof : bool) (res : WriteResult)
| EvOnWriteReady (id : Z) (maxBodySend : Z)
| EvTxnOnError (id : Z) (ex : HTTPException.t)
| EvTxnOnGoaway (id : Z) (code : ErrorCode)
| EvStopSending (id : Z) (code : HTTP3.ErrorCode)
| EvResetStream (id : Z) (code : HTTP3.ErrorCode)
| EvQpackCancel (id : Z)
| EvSockClose (code : option QuicErrorCode)
| EvOnConnectionError (code : QuicErrorCode) (msg : string)
| EvGenerateGoaway (ctrl : UnidirectionalStreamType) (lastStream : Z)
| EvRegisterDeliveryCallback (id : Z) (offset : Z)
| EvSendDataExpired (id : Z) (offset : Z)
| EvStreamAccepted (id : Z)
| EvStreamCreated (id : Z)
| EvDestroy.

(** ** The session *)
Record HQSession : Type := mkSession {
  direction_ : TransportDirection;
  version_ : option HQVersion;
  versionUtils_ : option HQVersion;   (* which VersionUtils is installed *)
  alpn_ : string;
  drainState_ : DrainState;
  maxIncomingStreamId_ : Z;
  maxAllowedStreamId_ : Z;
  dropInNextLoop_ : option (QuicErrorCode * string * ProxygenError);
  dropping_ : bool;
  sock_ : bool;                       (* whether sock_ is still held *)
  loopCallbackScheduled_ : bool;
  writesPaused_ : bool;               (* kept by the write loop *)
  destroyed_ : bool;
  checkFailed_ : bool;                (* a drop stopped on its final check *)
  partialReliabilityEnabled_ : bool;
  streams_ : gmap Z HQStreamTransport;
  controlStreams_ : gmap UnidirectionalStreamType HQControlStream;
  pendingUniStreams_ : list Z;        (* ids the dispatcher owns *)
  trace_ : list Event
}.

(** *** Field updates *)

Definition set_txnEgressPaused (v : bool) (r : HTTPTransaction) : HTTPTransaction :=
  {| txnHasPendingBody := txnHasPendingBody r; txnEgressEOMQueued :=
     txnEgressEOMQueued r; txnIngressStarted := txnIngressStarted r;
     txnEgressComplete := txnEgressComplete r; txnEgressPaused := v;
     txnPendingByteEvents := txnPendingByteEvents r |}.

Definition set_txnPendingByteEvents (v : Z) (r : HTTPTransaction) : HTTPTransaction :=
  {| txnHasPendingBody := txnHasPendingBody r; txnEgressEOMQueued :=
     txnEgressEOMQueued r; txnIngressStarted := txnIngressStarted r;
     txnEgressComplete := txnEgressComplete r; txnEgressPaused :=
     txnEgressPaused r; txnPendingByteEvents := v |}.
Definition set_detached_ (v : bool) (r : HQStreamTransport) : HQStreamTransport :=
  {| streamId := streamId r; detached_ := v; ingressError_ := ingressError_ r;
     readBuf_ := readBuf_ r; writeBuf_ := writeBuf_ r; pendingEOM_ :=
     pendingEOM_ r; bytesWritten_ := bytesWritten_ r; bytesSkipped_ :=
     bytesSkipped_ r; transactionEnqueued := transactionEnqueued r;
     streamTransportEnqueued := streamTransportEnqueued r; txn_ := txn_ r |}.

Definition set_ingressError_ (v : bool) (r : HQStreamTransport) : HQStreamTransport :=
  {| streamId := streamId r; detached_ := detached_ r; ingressError_ := v;
     readBuf_ := readBuf_ r; writeBuf_ := writeBuf_ r; pendingEOM_ :=
     pendingEOM_ r; bytesWritten_ := bytesWritten_ r; bytesSkipped_ :=
     bytesSkipped_ r; transactionEnqueued := transactionEnqueued r;
     streamTransportEnqueued := streamTransportEnqueued r; txn_ := txn_ r |}.

Definition set_readBuf_ (v : list byte) (r : HQStreamTransport) : HQStreamTransport :=
  {| streamId := streamId r; detached_ := detached_ r; ingressError_ :=
     ingressError_ r; readBuf_ := v; writeBuf_ := writeBuf_ r; pendingEOM_ :=
     pendingEOM_ r; bytesWritten_ := bytesWritten_ r; bytesSkipped_ :=
     bytesSkipped_ r; transactionEnqueued := transactionEnqueued r;
     streamTransportEnqueued := streamTransportEnqueued r; txn_ := txn_ r |}.

Definition set_writeBuf_ (v : list byte) (r : HQStreamTransport) : HQStreamTransport :=
  {| streamId := streamId r; detached_ := detached_ r; ingressError_ :=
     ingressError_ r; readBuf_ := readBuf_ r; writeBuf_ := v; pendingEOM_ :=
     pendingEOM_ r; bytesWritten_ := bytesWritten_ r; bytesSkipped_ :=
     bytesSkipped_ r; transactionEnqueued := transactionEnqueued r;
     streamTransportEnqueued := streamTransportEnqueued r; txn_ := txn_ r |}.

Definition set_pendingEOM_ (v : bool) (r : HQStreamTransport) : HQStreamTransport :=
  {| streamId := streamId r; detached_ := detached_ r; ingressError_ :=
     ingressError_ r; readBuf_ := readBuf_ r; writeBuf_ := writeBuf_ r;
     pendingEOM_ := v; bytesWritten_ := bytesWritten_ r; bytesSkipped_ :=
     bytesSkipped_ r; transactionEnqueued := transactionEnqueued r;
     streamTransportEnqueued := streamTransportEnqueued r; txn_ := txn_ r |}.

Definition set_bytesWritten_ (v : Z) (r : HQStreamTransport) : HQStreamTransport :=
  {| streamId := streamId r; detached_ := detached_ r; ingressError_ :=
     ingressError_ r; readBuf_ := readBuf_ r; writeBuf_ := writeBuf_ r;
     pendingEOM_ := pendingEOM_ r; bytesWritten_ := v; bytesSkipped_ :=
     bytesSkipped_ r; transactionEnqueued := transactionEnqueued r;
     streamTransportEnqueued := streamTransportEnqueued r; txn_ := txn_ r |}.

Definition set_bytesSkipped_ (v : Z) (r : HQStreamTransport) : HQStreamTransport :=
  {| streamId := streamId r; detached_ := detached_ r; ingressError_ :=
     ingressError_ r; readBuf_ := readBuf_ r; writeBuf_ := writeBuf_ r;
     pendingEOM_ := pendingEOM_ r; bytesWritten_ := bytesWritten_ r;
     bytesSkipped_ := v; transactionEnqueued := transactionEnqueued r;
     streamTransportEnqueued := streamTransportEnqueued r; txn_ := txn_ r |}.

Definition set_transactionEnqueued (v : bool) (r : HQStreamTransport) : HQStreamTransport :=
  {| streamId := streamId r; detached_ := detached_ r; ingressError_ :=
     ingressError_ r; readBuf_ := readBuf_ r; writeBuf_ := writeBuf_ r;
     pendingEOM_ := pendingEOM_ r; bytesWritten_ := bytesWritten_ r;
     bytesSkipped_ := bytesSkipped_ r; transactionEnqueued := v;
     streamTransportEnqueued := streamTransportEnqueued r; txn_ := txn_ r |}.

Definition set_streamTransportEnqueued (v : bool) (r : HQStreamTransport) : HQStreamTransport :=
  {| streamId := streamId r; detached_ := detached_ r; ingressError_ :=
     ingressError_ r; readBuf_ := readBuf_ r; writeBuf_ := writeBuf_ r;
     pendingEOM_ := pendingEOM_ r; bytesWritten_ := bytesWritten_ r;
     bytesSkipped_ := bytesSkipped_ r; transactionEnqueued :=
     transactionEnqueued r; streamTransportEnqueued := v; txn_ := txn_ r |}.

Definition set_txn_ (v : HTTPTransaction) (r : HQStreamTransport) : HQStreamTransport :=
  {| streamId := streamId r; detached_ := detached_ r; ingressError_ :=
     ingressError_ r; readBuf_ := readBuf_ r; writeBuf_ := writeBuf_ r;
     pendingEOM_ := pendingEOM_ r; bytesWritten_ := bytesWritten_ r;
     bytesSkipped_ := bytesSkipped_ r; transactionEnqueued :=
     transactionEnqueued r; streamTransportEnqueued := streamTransportEnqueued
     r; txn_ := v |}.

Definition set_ingressStreamId (v : option Z) (r : HQControlStream) : HQControlStream :=
  {| egressStreamId := egressStreamId r; ingressStreamId := v; ingressCodec_
     := ingressCodec_ r; ctrlReadBuf_ := ctrlReadBuf_ r; ctrlReadEOF_ :=
     ctrlReadEOF_ r; ctrlWriteBuf_ := ctrlWriteBuf_ r |}.

Definition set_ingressCodec_ (v : bool) (r : HQControlStream) : HQControlStream :=
  {| egressStreamId := egressStreamId r; ingressStreamId := ingressStreamId
     r; ingressCodec_ := v; ctrlReadBuf_ := ctrlReadBuf_ r; ctrlReadEOF_ :=
     ctrlReadEOF_ r; ctrlWriteBuf_ := ctrlWriteBuf_ r |}.

Definition set_ctrlReadBuf_ (v : list byte) (r : HQControlStream) : HQControlStream :=
  {| egressStreamId := egressStreamId r; ingressStreamId := ingressStreamId
     r; ingressCodec_ := ingressCodec_ r; ctrlReadBuf_ := v; ctrlReadEOF_ :=
     ctrlReadEOF_ r; ctrlWriteBuf_ := ctrlWriteBuf_ r |}.

Definition set_ctrlReadEOF_ (v : bool) (r : HQControlStream) : HQControlStream :=
  {| egressStreamId := egressStreamId r; ingressStreamId := ingressStreamId
     r; ingressCodec_ := ingressCodec_ r; ctrlReadBuf_ := ctrlReadBuf_ r;
     ctrlReadEOF_ := v; ctrlWriteBuf_ := ctrlWriteBuf_ r |}.

Definition set_ctrlWriteBuf_ (v : list byte) (r : HQControlStream) : HQControlStream :=
  {| egressStreamId := egressStreamId r; ingressStreamId := ingressStreamId
     r; ingressCodec_ := ingressCodec_ r; ctrlReadBuf_ := ctrlReadBuf_ r;
     ctrlReadEOF_ := ctrlReadEOF_ r; ctrlWriteBuf_ := v |}.

Definition set_version_ (v : option HQVersion) (r : HQSession) : HQSession :=
  {| direction_ := direction_ r; version_ := v; versionUtils_ :=
     versionUtils_ r; alpn_ := alpn_ r; drainState_ := drainState_ r;
     maxIncomingStreamId_ := maxIncomingStreamId_ r; maxAllowedStreamId_ :=
     maxAllowedStreamId_ r; dropInNextLoop_ := dropInNextLoop_ r; dropping_ :=
     dropping_ r; sock_ := sock_ r; loopCallbackScheduled_ :=
     loopCallbackScheduled_ r; writesPaused_ := writesPaused_ r; destroyed_ :=
     destroyed_ r; checkFailed_ := checkFailed_ r; partialReliabilityEnabled_
     := partialReliabilityEnabled_ r; streams_ := streams_ r; controlStreams_
     := controlStreams_ r; pendingUniStreams_ := pendingUniStreams_ r; trace_
     := trace_ r |}.

Definition set_versionUtils_ (v : option HQVersion) (r : HQSession) : HQSession :=
  {| direction_ := direction_ r; version_ := version_ r; versionUtils_ := v;
     alpn_ := alpn_ r; drainState_ := drainState_ r; maxIncomingStreamId_ :=
     maxIncomingStreamId_ r; maxAllowedStreamId_ := maxAllowedStreamId_ r;
     dropInNextLoop_ := dropInNextLoop_ r; dropping_ := dropping_ r; sock_ :=
     sock_ r; loopCallbackScheduled_ := loopCallbackScheduled_ r; writesPaused_
     := writesPaused_ r; destroyed_ := destroyed_ r; checkFailed_ :=
     checkFailed_ r; partialReliabilityEnabled_ := partialReliabilityEnabled_
     r; streams_ := streams_ r; controlStreams_ := controlStreams_ r;
     pendingUniStreams_ := pendingUniStreams_ r; trace_ := trace_ r |}.

Definition set_alpn_ (v : string) (r : HQSession) : HQSession :=
  {| direction_ := direction_ r; version_ := version_ r; versionUtils_ :=
     versionUtils_ r; alpn_ := v; drainState_ := drainState_ r;
     maxIncomingStreamId_ := maxIncomingStreamId_ r; maxAllowedStreamId_ :=
     maxAllowedStreamId_ r; dropInNextLoop_ := dropInNextLoop_ r; dropping_ :=
     dropping_ r; sock_ := sock_ r; loopCallbackScheduled_ :=
     loopCallbackScheduled_ r; writesPaused_ := writesPaused_ r; destroyed_ :=
     destroyed_ r; checkFailed_ := checkFailed_ r; partialReliabilityEnabled_
     := partialReliabilityEnabled_ r; streams_ := streams_ r; controlStreams_
     := controlStreams_ r; pendingUniStreams_ := pendingUniStreams_ r; trace_
     := trace_ r |}.

Definition set_drainState_ (v : DrainState) (r : HQSession) : HQSession :=
  {| direction_ := direction_ r; version_ := version_ r; versionUtils_ :=
     versionUtils_ r; alpn_ := alpn_ r; drainState_ := v; maxIncomingStreamId_
     := maxIncomingStreamId_ r; maxAllowedStreamId_ := maxAllowedStreamId_ r;
     dropInNextLoop_ := dropInNextLoop_ r; dropping_ := dropping_ r; sock_ :=
     sock_ r; loopCallbackScheduled_ := loopCallbackScheduled_ r; writesPaused_
     := writesPaused_ r; destroyed_ := destroyed_ r; checkFailed_ :=
     checkFailed_ r; partialReliabilityEnabled_ := partialReliabilityEnabled_
     r; streams_ := streams_ r; controlStreams_ := controlStreams_ r;
     pendingUniStreams_ := pendingUniStreams_ r; trace_ := trace_ r |}.

Definition set_maxIncomingStreamId_ (v : Z) (r : HQSession) : HQSession :=
  {| direction_ := direction_ r; version_ := version_ r; versionUtils_ :=
     versionUtils_ r; alpn_ := alpn_ r; drainState_ := drainState_ r;
     maxIncomingStreamId_ := v; maxAllowedStreamId_ := maxAllowedStreamId_ r;
     dropInNextLoop_ := dropInNextLoop_ r; dropping_ := dropping_ r; sock_ :=
     sock_ r; loopCallbackScheduled_ := loopCallbackScheduled_ r; writesPaused_
     := writesPaused_ r; destroyed_ := destroyed_ r; checkFailed_ :=
     checkFailed_ r; partialReliabilityEnabled_ := partialReliabilityEnabled_
     r; streams_ := streams_ r; controlStreams_ := controlStreams_ r;
     pendingUniStreams_ := pendingUniStreams_ r; trace_ := trace_ r |}.

Definition set_maxAllowedStreamId_ (v : Z) (r : HQSession) : HQSession :=
  {| direction_ := direction_ r; version_ := version_ r; versionUtils_ :=
     versionUtils_ r; alpn_ := alpn_ r; drainState_ := drainState_ r;
     maxIncomingStreamId_ := maxIncomingStreamId_ r; maxAllowedStreamId_ := v;
     dropInNextLoop_ := dropInNextLoop_ r; dropping_ := dropping_ r; sock_ :=
     sock_ r; loopCallbackScheduled_ := loopCallbackScheduled_ r; writesPaused_
     := writesPaused_ r; destroyed_ := destroyed_ r; checkFailed_ :=
     checkFailed_ r; partialReliabilityEnabled_ := partialReliabilityEnabled_
     r; streams_ := streams_ r; controlStreams_ := controlStreams_ r;
     pendingUniStreams_ := pendingUniStreams_ r; trace_ := trace_ r |}.

Definition set_dropInNextLoop_ (v : option (QuicErrorCode * string * ProxygenError)) (r : HQSession) : HQSession :=
  {| direction_ := direction_ r; version_ := version_ r; versionUtils_ :=
     versionUtils_ r; alpn_ := alpn_ r; drainState_ := drainState_ r;
     maxIncomingStreamId_ := maxIncomingStreamId_ r; maxAllowedStreamId_ :=
     maxAllowedStreamId_ r; dropInNextLoop_ := v; dropping_ := dropping_ r;
     sock_ := sock_ r; loopCallbackScheduled_ := loopCallbackScheduled_ r;
     writesPaused_ := writesPaused_ r; destroyed_ := destroyed_ r; checkFailed_
     := checkFailed_ r; partialReliabilityEnabled_ :=
     partialReliabilityEnabled_ r; streams_ := streams_ r; controlStreams_ :=
     controlStreams_ r; pendingUniStreams_ := pendingUniStreams_ r; trace_ :=
     trace_ r |}.

Definition set_dropping_ (v : bool) (r : HQSession) : HQSession :=
  {| direction_ := direction_ r; version_ := version_ r; versionUtils_ :=
     versionUtils_ r; alpn_ := alpn_ r; drainState_ := drainState_ r;
     maxIncomingStreamId_ := maxIncomingStreamId_ r; maxAllowedStreamId_ :=
     maxAllowedStreamId_ r; dropInNextLoop_ := dropInNextLoop_ r; dropping_ :=
     v; sock_ := sock_ r; loopCallbackScheduled_ := loopCallbackScheduled_ r;
     writesPaused_ := writesPaused_ r; destroyed_ := destroyed_ r; checkFailed_
     := checkFailed_ r; partialReliabilityEnabled_ :=
     partialReliabilityEnabled_ r; streams_ := streams_ r; controlStreams_ :=
     controlStreams_ r; pendingUniStreams_ := pendingUniStreams_ r; trace_ :=
     trace_ r |}.

Definition set_sock_ (v : bool) (r : HQSession) : HQSession :=
  {| direction_ := direction_ r; version_ := version_ r; versionUtils_ :=
     versionUtils_ r; alpn_ := alpn_ r; drainState_ := drainState_ r;
     maxIncomingStreamId_ := maxIncomingStreamId_ r; maxAllowedStreamId_ :=
     maxAllowedStreamId_ r; dropInNextLoop_ := dropInNextLoop_ r; dropping_ :=
     dropping_ r; sock_ := v; loopCallbackScheduled_ := loopCallbackScheduled_
     r; writesPaused_ := writesPaused_ r; destroyed_ := destroyed_ r;
     checkFailed_ := checkFailed_ r; partialReliabilityEnabled_ :=
     partialReliabilityEnabled_ r; streams_ := streams_ r; controlStreams_ :=
     controlStreams_ r; pendingUniStreams_ := pendingUniStreams_ r; trace_ :=
     trace_ r |}.

Definition set_loopCallbackScheduled_ (v : bool) (r : HQSession) : HQSession :=
  {| direction_ := direction_ r; version_ := version_ r; versionUtils_ :=
     versionUtils_ r; alpn_ := alpn_ r; drainState_ := drainState_ r;
     maxIncomingStreamId_ := maxIncomingStreamId_ r; maxAllowedStreamId_ :=
     maxAllowedStreamId_ r; dropInNextLoop_ := dropInNextLoop_ r; dropping_ :=
     dropping_ r; sock_ := sock_ r; loopCallbackScheduled_ := v; writesPaused_
     := writesPaused_ r; destroyed_ := destroyed_ r; checkFailed_ :=
     checkFailed_ r; partialReliabilityEnabled_ := partialReliabilityEnabled_
     r; streams_ := streams_ r; controlStreams_ := controlStreams_ r;
     pendingUniStreams_ := pendingUniStreams_ r; trace_ := trace_ r |}.

Definition set_writesPaused_ (v : bool) (r : HQSession) : HQSession :=
  {| direction_ := direction_ r; version_ := version_ r; versionUtils_ :=
     versionUtils_ r; alpn_ := alpn_ r; drainState_ := drainState_ r;
     maxIncomingStreamId_ := maxIncomingStreamId_ r; maxAllowedStreamId_ :=
     maxAllowedStreamId_ r; dropInNextLoop_ := dropInNextLoop_ r; dropping_ :=
     dropping_ r; sock_ := sock_ r; loopCallbackScheduled_ :=
     loopCallbackScheduled_ r; writesPaused_ := v; destroyed_ := destroyed_ r;
     checkFailed_ := checkFailed_ r; partialReliabilityEnabled_ :=
     partialReliabilityEnabled_ r; streams_ := streams_ r; controlStreams_ :=
     controlStreams_ r; pendingUniStreams_ := pendingUniStreams_ r; trace_ :=
     trace_ r |}.

Definition set_destroyed_ (v : bool) (r : HQSession) : HQSession :=
  {| direction_ := direction_ r; version_ := version_ r; versionUtils_ :=
     versionUtils_ r; alpn_ := alpn_ r; drainState_ := drainState_ r;
     maxIncomingStreamId_ := maxIncomingStreamId_ r; maxAllowedStreamId_ :=
     maxAllowedStreamId_ r; dropInNextLoop_ := dropInNextLoop_ r; dropping_ :=
     dropping_ r; sock_ := sock_ r; loopCallbackScheduled_ :=
     loopCallbackScheduled_ r; writesPaused_ := writesPaused_ r; destroyed_ :=
     v; checkFailed_ := checkFailed_ r; partialReliabilityEnabled_ :=
     partialReliabilityEnabled_ r; streams_ := streams_ r; controlStreams_ :=
     controlStreams_ r; pendingUniStreams_ := pendingUniStreams_ r; trace_ :=
     trace_ r |}.

Definition set_checkFailed_ (v : bool) (r : HQSession) : HQSession :=
  {| direction_ := direction_ r; version_ := version_ r; versionUtils_ :=
     versionUtils_ r; alpn_ := alpn_ r; drainState_ := drainState_ r;
     maxIncomingStreamId_ := maxIncomingStreamId_ r; maxAllowedStreamId_ :=
     maxAllowedStreamId_ r; dropInNextLoop_ := dropInNextLoop_ r; dropping_ :=
     dropping_ r; sock_ := sock_ r; loopCallbackScheduled_ :=
     loopCallbackScheduled_ r; writesPaused_ := writesPaused_ r; destroyed_ :=
     destroyed_ r; checkFailed_ := v; partialReliabilityEnabled_ :=
     partialReliabilityEnabled_ r; streams_ := streams_ r; controlStreams_ :=
     controlStreams_ r; pendingUniStreams_ := pendingUniStreams_ r; trace_ :=
     trace_ r |}.

Definition set_streams_ (v : gmap Z HQStreamTransport) (r : HQSession) : HQSession :=
  {| direction_ := direction_ r; version_ := version_ r; versionUtils_ :=
     versionUtils_ r; alpn_ := alpn_ r; drainState_ := drainState_ r;
     maxIncomingStreamId_ := maxIncomingStreamId_ r; maxAllowedStreamId_ :=
     maxAllowedStreamId_ r; dropInNextLoop_ := dropInNextLoop_ r; dropping_ :=
     dropping_ r; sock_ := sock_ r; loopCallbackScheduled_ :=
     loopCallbackScheduled_ r; writesPaused_ := writesPaused_ r; destroyed_ :=
     destroyed_ r; checkFailed_ := checkFailed_ r; partialReliabilityEnabled_
     := partialReliabilityEnabled_ r; streams_ := v; controlStreams_ :=
     controlStreams_ r; pendingUniStreams_ := pendingUniStreams_ r; trace_ :=
     trace_ r |}.

Definition set_controlStreams_ (v : gmap UnidirectionalStreamType HQControlStream) (r : HQSession) : HQSession :=
  {| direction_ := direction_ r; version_ := version_ r; versionUtils_ :=
     versionUtils_ r; alpn_ := alpn_ r; drainState_ := drainState_ r;
     maxIncomingStreamId_ := maxIncomingStreamId_ r; maxAllowedStreamId_ :=
     maxAllowedStreamId_ r; dropInNextLoop_ := dropInNextLoop_ r; dropping_ :=
     dropping_ r; sock_ := sock_ r; loopCallbackScheduled_ :=
     loopCallbackScheduled_ r; writesPaused_ := writesPaused_ r; destroyed_ :=
     destroyed_ r; checkFailed_ := checkFailed_ r; partialReliabilityEnabled_
     := partialReliabilityEnabled_ r; streams_ := streams_ r; controlStreams_
     := v; pendingUniStreams_ := pendingUniStreams_ r; trace_ := trace_ r |}.

Definition set_pendingUniStreams_ (v : list Z) (r : HQSession) : HQSession :=
  {| direction_ := direction_ r; version_ := version_ r; versionUtils_ :=
     versionUtils_ r; alpn_ := alpn_ r; drainState_ := drainState_ r;
     maxIncomingStreamId_ := maxIncomingStreamId_ r; maxAllowedStreamId_ :=
     maxAllowedStreamId_ r; dropInNextLoop_ := dropInNextLoop_ r; dropping_ :=
     dropping_ r; sock_ := sock_ r; loopCallbackScheduled_ :=
     loopCallbackScheduled_ r; writesPaused_ := writesPaused_ r; destroyed_ :=
     destroyed_ r; checkFailed_ := checkFailed_ r; partialReliabilityEnabled_
     := partialReliabilityEnabled_ r; streams_ := streams_ r; controlStreams_
     := controlStreams_ r; pendingUniStreams_ := v; trace_ := trace_ r |}.

Definition set_trace_ (v : list Event) (r : HQSession) : HQSession :=
  {| direction_ := direction_ r; version_ := version_ r; versionUtils_ :=
     versionUtils_ r; alpn_ := alpn_ r; drainState_ := drainState_ r;
     maxIncomingStreamId_ := maxIncomingStreamId_ r; maxAllowedStreamId_ :=
     maxAllowedStreamId_ r; dropInNextLoop_ := dropInNextLoop_ r; dropping_ :=
     dropping_ r; sock_ := sock_ r; loopCallbackScheduled_ :=
     loopCallbackScheduled_ r; writesPaused_ := writesPaused_ r; destroyed_ :=
     destroyed_ r; checkFailed_ := checkFailed_ r; partialReliabilityEnabled_
     := partialReliabilityEnabled_ r; streams_ := streams_ r; controlStreams_
     := controlStreams_ r; pendingUniStreams_ := pendingUniStreams_ r; trace_
     := v |}.

Definition emit (evs : list Event) (s : HQSession) : HQSession :=
  set_trace_ (trace_ s ++ evs) s.

(** ** Request-stream operations ([HQStreamTransportBase]) *)

Definition hasPendingBody (st : HQStreamTransport) : bool :=
  negb (chainLength (writeBuf_ st) =? 0)
  || (transactionEnqueued st && txnHasPendingBody (txn_ st)).

Definition hasPendingEOM (st : HQStreamTransport) : bool :=
  pendingEOM_ st || (transactionEnqueued st && txnEgressEOMQueued (txn_ st)).

Definition hasPendingEgress (st : HQStreamTransport) : bool :=
  (chainLength (writeBuf_ st) >? 0) || pendingEOM_ st || transactionEnqueued st.

(** The txn wants onWriteReady if it is enqueued AND
    a) there is available flow control and it has body, OR
    b) all body is egressed and it has only pending EOM. *)
Definition wantsOnWriteReady (canSend : Z) (st : HQStreamTransport) : bool :=
  transactionEnqueued st
  && (((canSend >? chainLength (writeBuf_ st)) && txnHasPendingBody (txn_ st))
      || (negb (txnHasPendingBody (txn_ st)) && txnEgressEOMQueued (txn_ st))).

Definition incrementPendingByteEvents (st : HQStreamTransport) : HQStreamTransport :=
  set_txn_ (set_txnPendingByteEvents (txnPendingByteEvents (txn_ st) + 1) (txn_ st)) st.

Definition pauseEgress (st : HQStreamTransport) : HQStreamTransport :=
  set_txn_ (set_txnEgressPaused true (txn_ st)) st.

Definition abortIngress (st : HQStreamTransport) : HQStreamTransport :=
  set_readBuf_ [] (set_ingressError_ true st).

Definition abortEgress (st : HQStreamTransport) : HQStreamTransport :=
  let st1 := set_pendingEOM_ false (set_writeBuf_ [] st) in
  if streamTransportEnqueued st1
  then set_streamTransportEnqueued false st1
  else st1.

(** [errorOnTransaction(HTTPException ex)]: the transaction hears of the
    error unless the stream is detached; the directions the exception
    names are aborted. *)
Definition errorOnTransaction (ex : HTTPException.t) (st : HQStreamTransport)
  : HQStreamTransport * list Event :=
  let ev := if detached_ st then [] else [EvTxnOnError (streamId st) ex] in
  let st1 := if HTTPException.isIngressException ex then abortIngress st else st in
  let st2 := if HTTPException.isEgressException ex then abortEgress st1 else st1 in
  (st2, ev).

(** [errorOnTransaction(ProxygenError err, errorMsg)]. *)
Definition errorOnTransactionErr (err : ProxygenError) (st : HQStreamTransport)
  : HQStreamTransport * list Event :=
  errorOnTransaction
    (HTTPException.setProxygenError err
       (HTTPException.make HTTPException.INGRESS_AND_EGRESS)) st.

(** Modelled from the spec: [isPeerUniStream] and [isSelfUniStream] are
    declared in the session's header, which is not among the sources.  A
    unidirectional stream is the peer's when the other role initiated it. *)
Definition isPeerUniStream (dir : TransportDirection) (id : Z) : bool :=
  quic.isUnidirectionalStream id
  && match dir with
     | DOWNSTREAM => quic.isClientStream id
     | UPSTREAM => quic.isServerStream id
     end.

Definition isSelfUniStream (dir : TransportDirection) (id : Z) : bool :=
  quic.isUnidirectionalStream id
  && match dir with
     | DOWNSTREAM => quic.isServerStream id
     | UPSTREAM => quic.isClientStream id
     end.

(** [versionUtils_->abortStream(id)]: the HTTP/3 profile emits a QPACK
    cancel; the other profiles have nothing to do. *)
Definition versionUtilsAbortStream (s : HQSession) (id : Z) : list Event :=
  match versionUtils_ s with
  | Some HQ => [EvQpackCancel id]
  | _ => []
  end.

(** [HQSession::abortStream(dir, id, err)].  Its callers hold the socket. *)
Definition abortStream (s : HQSession) (dir : HTTPException.Direction)
    (id : Z) (err : HTTP3.ErrorCode) : list Event :=
  (if match dir with HTTPException.EGRESS => false | _ => true end
      && (quic.isBidirectionalStream id || isPeerUniStream (direction_ s) id)
   then versionUtilsAbortStream s id ++ [EvStopSending id err]
   else [])
  ++
  (if match dir with HTTPException.INGRESS => false | _ => true end
      && (quic.isBidirectionalStream id || isSelfUniStream (direction_ s) id)
   then [EvResetStream id err]
   else []).

(** [sendAbortImpl(code, errorMsg)].  A request stream is always bound to
    its stream id, in both directions. *)
Definition sendAbortImpl (s : HQSession) (code : HTTP3.ErrorCode)
    (st : HQStreamTransport) : HQStreamTransport * list Event :=
  let ev := abortStream s HTTPException.INGRESS_AND_EGRESS (streamId st) code in
  (abortEgress st, ev).

(** [onResetStream(errorCode, ex)]: the peer reset the stream. *)
Definition onResetStream (s : HQSession) (errorCode : HTTP3.ErrorCode)
    (ex : HTTPException.t) (st : HQStreamTransport)
  : HQStreamTransport * list Event :=
  let replyError :=
    if decide (direction_ s = UPSTREAM) then HTTP3.HTTP_REQUEST_CANCELLED
    else if negb (txnIngressStarted (txn_ st)) then HTTP3.HTTP_REQUEST_REJECTED
    else HTTP3.HTTP_NO_ERROR in
  let ex1 :=
    if decide (errorCode = HTTP3.HTTP_REQUEST_REJECTED)
    then HTTPException.setProxygenError kErrorStreamUnacknowledged ex
    else HTTPException.setProxygenError kErrorStreamAbort ex in
  let ex2 :=
    if decide (errorCode = HTTP3.GIVEUP_ZERO_RTT)
    then HTTPException.setProxygenError kErrorEarlyDataFailed ex1
    else ex1 in
  let ex3 := HTTPException.setErrno (ApplicationErrorCode errorCode) ex2 in
  let '(st1, ev1) := errorOnTransaction ex3 st in
  let '(st2, ev2) := sendAbortImpl s replyError st1 in
  (st2, ev1 ++ ev2).

(** [writeBase]: hand [data] to the transport; what it gives back goes to
    the front of the write buffer. *)
Definition writeBase (id : Z) (writeBuf data : list byte) (tryToSend : Z)
    (sendEof : bool) (res : WriteResult)
  : (quic.LocalErrorCode + Z) * list byte * list Event :=
  let ev := [EvWriteChain id data sendEof res] in
  match res with
  | WriteError e => (inl e, writeBuf, ev)
  | WriteOk notWritten =>
      if negb (chainLength notWritten =? 0)
      then (inr (wrap64 (tryToSend - chainLength notWritten)),
            notWritten ++ writeBuf, ev)
      else (inr tryToSend, writeBuf, ev)
  end.

(** [handleWriteError(hqStream, err)].  A transport error code is not
    expected here ([CHECK(false)]): no result. *)
Definition handleWriteError (s : HQSession) (err : QuicErrorCode)
    (st : HQStreamTransport) : option (HQStreamTransport * list Event) :=
  let ex0 := HTTPException.make HTTPException.INGRESS_AND_EGRESS in
  let exo :=
    match err with
    | ApplicationErrorCode h3ErrorCode =>
        Some (HTTPException.setProxygenError
                (if decide (h3ErrorCode = HTTP3.HTTP_REQUEST_REJECTED)
                 then kErrorStreamUnacknowledged
                 else kErrorStreamAbort) ex0)
    | LocalErrorCode _ =>
        Some (HTTPException.setProxygenError kErrorWrite
                (HTTPException.setErrno err ex0))
    | TransportErrorCode _ => None
    end in
  match exo with
  | None => None
  | Some ex =>
      let ev1 := abortStream s (HTTPException.direction ex) (streamId st)
                   HTTP3.HTTP_REQUEST_CANCELLED in
      let '(st1, ev2) := errorOnTransaction ex st in
      Some (st1, ev1 ++ ev2)
  end.

(** [handleWrite(hqStream, data, tryToSend, sendEof)]; [res] is the
    transport's answer to the write. *)
Definition handleWrite (s : HQSession) (data : list byte) (tryToSend : Z)
    (sendEof : bool) (res : WriteResult) (st : HQStreamTransport)
  : option (HQStreamTransport * list Event * Z) :=
  let '(writeRes, wb, ev) :=
    writeBase (streamId st) (writeBuf_ st) data tryToSend sendEof res in
  let st0 := set_writeBuf_ wb st in
  match writeRes with
  | inl e =>
      match handleWriteError s (LocalErrorCode e) st0 with
      | Some (st1, ev1) => Some (st1, ev ++ ev1, 0)
      | None => None
      end
  | inr sent =>
      let st1 :=
        if (sent =? tryToSend) && sendEof
        then set_pendingEOM_ false (incrementPendingByteEvents st0)
        else st0 in
      Some (set_bytesWritten_ (wrap64 (bytesWritten_ st1 + sent)) st1, ev, sent)
  end.

(** What the transport and the transaction answer during one
    [requestStreamWriteImpl]. *)
Record WriteEnv : Type := mkWriteEnv {
  flowControl : quic.LocalErrorCode + Z;   (* sendWindowAvailable, or error *)
  writeResult : WriteResult;
  (* txn_.onWriteReady(maxBodySend, ratio): what it does to the stream *)
  txnOnWriteReady : Z -> HQStreamTransport -> HQStreamTransport
}.

(** [requestStreamWriteImpl(hqStream, maxEgress, ratio)].  A failed
    [CHECK] gives no result. *)
Definition requestStreamWriteImpl (s : HQSession) (env : WriteEnv)
    (maxEgress : Z) (st : HQStreamTransport)
  : option (HQStreamTransport * list Event * Z) :=
  if negb (streamTransportEnqueued st) then None
  else
    match flowControl env with
    | inl e =>
        match handleWriteError s (LocalErrorCode e) st with
        | Some (st1, ev1) => Some (st1, ev1, 0)
        | None => None
        end
    | inr streamSendWindow =>
        let canSend := Z.min streamSendWindow maxEgress in
        let wants := wantsOnWriteReady canSend st in
        let maxBodySend := wrap64 (canSend - chainLength (writeBuf_ st)) in
        let st1 := if wants then txnOnWriteReady env maxBodySend st else st in
        let ev1 :=
          if wants then [EvOnWriteReady (streamId st) maxBodySend] else [] in
        if wants && (chainLength (writeBuf_ st1) =? 0) && negb (pendingEOM_ st1)
        then Some (st1, ev1, 0)
        else
          let sendLen := Z.min canSend (chainLength (writeBuf_ st1)) in
          let '(tryWriteBuf, rest) := splitAtMost canSend (writeBuf_ st1) in
          let st2 := set_writeBuf_ rest st1 in
          let sendEof := pendingEOM_ st2 && negb (hasPendingBody st2) in
          if negb ((sendLen >? 0) || sendEof) then None
          else
            match handleWrite s tryWriteBuf sendLen sendEof (writeResult env) st2 with
            | None => None
            | Some (st3, ev2, sent) =>
                if negb (maxEgress >=? sent) then None
                else
                  let flowControlBlocked :=
                    (sent =? streamSendWindow) && negb sendEof in
                  let st4 :=
                    if streamTransportEnqueued st3
                       && (negb (hasPendingEgress st3) || flowControlBlocked)
                    then set_streamTransportEnqueued false st3
                    else st3 in
                  let st5 :=
                    if flowControlBlocked && negb (txnEgressComplete (txn_ st4))
                    then pauseEgress st4
                    else st4 in
                  Some (st5, ev1 ++ ev2, sent)
            end
    end.

(** ** Partial reliability: trimming the egress buffer *)

Section PartialReliability.

(** [streamEgressCommittedByteOffset()] is declared in the session's header,
    which is not among the sources: the count of stream bytes already
    committed to the wire is kept abstract. *)
Variable streamEgressCommittedByteOffset : HQStreamTransport -> Z.

(** [trimPendingEgressBody(trimOffset)]: the bytes trimmed, and the
    stream afterwards. *)
Definition trimPendingEgressBody (trimOffset : Z) (st : HQStreamTransport)
  : Z * HQStreamTransport :=
  let bytesCommited := streamEgressCommittedByteOffset st in
  if bytesCommited >? trimOffset then (0, st)
  else
    let trimBytes := trimOffset - bytesCommited in
    (trimBytes,
     if trimBytes >? 0
     then set_writeBuf_ (trimStartAtMost trimBytes (writeBuf_ st)) st
     else st).

(** What the codec and the transport answer during one [skipBodyTo]. *)
Record SkipEnv : Set := mkSkipEnv {
  (* versionUtils_->onEgressBodySkip(nextBodyOffset): a stream offset,
     or a tracker error *)
  onEgressBodySkip : Z -> option Z;
  (* sock_->sendDataExpired(id, streamOffset) *)
  sendDataExpired : quic.LocalErrorCode + option Z
}.

(** [skipBodyTo(txn, nextBodyOffset)].  [CHECK(session_.versionUtils_)]
    failing gives no result. *)
Definition skipBodyTo (s : HQSession) (env : SkipEnv) (nextBodyOffset : Z)
    (st : HQStreamTransport)
  : option ((ErrorCode + option Z) * HQStreamTransport * list Event) :=
  if negb (partialReliabilityEnabled_ s) then Some (inl EC_PROTOCOL_ERROR, st, [])
  else
    match versionUtils_ s with
    | None => None
    | Some _ =>
        match onEgressBodySkip env nextBodyOffset with
        | None =>
            let '(st1, ev) :=
              errorOnTransaction (HTTPException.make HTTPException.EGRESS) st in
            Some (inl EC_INTERNAL_ERROR, st1, ev)
        | Some streamOffset =>
            let '(trimmed, st1) := trimPendingEgressBody streamOffset st in
            let st2 := set_bytesSkipped_ (wrap64 (bytesSkipped_ st1 + trimmed)) st1 in
            let ev := [EvSendDataExpired (streamId st) streamOffset] in
            match sendDataExpired env with
            | inr r => Some (inr r, st2, ev)
            | inl _ => Some (inl EC_INTERNAL_ERROR, st2, ev)
            end
        end
    end.

End PartialReliability.

(** ** Session operations *)

(** What the socket, the codecs and the transactions answer while one
    session method runs. *)
Record SessionEnv : Type := mkSessionEnv {
  (* the bytes generateGoaway appended; none when nothing was generated *)
  goawayFrame : list byte;
  streamWriteOffset : option Z;            (* getStreamWriteOffset *)
  streamWriteBufferedBytes : option Z;     (* getStreamWriteBufferedBytes *)
  registerDeliveryCallbackOk : bool;
  proxygenErrorOf : ProxygenError;         (* toProxygenError(code, fromPeer) *)
  sockGood : bool;                         (* sock_->good() *)
  createBidirectionalStream : option Z;
  createUnidirectionalStream : UnidirectionalStreamType -> option Z;
  streamPreface : UnidirectionalStreamType -> list byte;
  settingsFrame : list byte;
  connectionBufferAvailable : Z;           (* getConnectionBufferAvailable *)
  (* getConnectionFlowControl: the send window available, none on error *)
  connectionSendWindow : option Z;
  (* whether the transaction of a stream detaches from its transport while
     it handles onError *)
  txnDetachesOnError : Z -> bool
}.

Definition kH1QV1ProtocolString : string := "h1q-fb".
Definition kH1QLigerProtocolString : string := "h1q".
Definition kH1QV2ProtocolString : string := "h1q-fb-v2".
Definition kH3FBCurrentDraft : string := "h3-fb-05".
Definition kH3CurrentDraft : string := "h3-27".
Definition kHQCurrentDraft : string := "hq-27".

(** The number of request streams the session holds. *)
Definition getNumStreams (s : HQSession) : nat := size (streams_ s).

Definition scheduleLoopCallback (s : HQSession) : HQSession :=
  if loopCallbackScheduled_ s then s else set_loopCallbackScheduled_ true s.

Definition cancelLoopCallback (s : HQSession) : HQSession :=
  set_loopCallbackScheduled_ false s.

(** Run [f] on every stream that satisfies [p]; the events of all the
    streams are appended to the trace. *)
Definition invokeOnStreams (p : HQStreamTransport -> bool)
    (f : HQStreamTransport -> HQStreamTransport * list Event)
    (s : HQSession) : HQSession :=
  let m := streams_ s in
  let evs :=
    concat ((fun kv : Z * HQStreamTransport =>
               if p kv.2 then (f kv.2).2 else []) <$> map_to_list m) in
  emit evs
    (set_streams_ ((fun st => if p st then (f st).1 else st) <$> m) s).

Definition invokeOnAllStreams := invokeOnStreams (fun _ => true).

Definition invokeOnNonDetachedStreams :=
  invokeOnStreams (fun st => negb (detached_ st)).

(** [checkForDetach()]: whether the stream is ready to be erased. *)
Definition readyForDetach (st : HQStreamTransport) : bool :=
  detached_ st
  && (chainLength (readBuf_ st) =? 0)
  && (chainLength (writeBuf_ st) =? 0)
  && negb (pendingEOM_ st)
  && negb (streamTransportEnqueued st).

(** [checkForShutdown()]. *)
Definition checkForShutdown (s : HQSession) : HQSession :=
  let s1 :=
    if bool_decide (version_ s ≠ Some H1Q_FB_V1)
       && bool_decide (direction_ s = UPSTREAM)
       && bool_decide (drainState_ s = PENDING)
    then set_drainState_ DONE s
    else s in
  let s2 :=
    set_streams_
      (filter (fun kv : Z * HQStreamTransport => readyForDetach kv.2 = false)
         (streams_ s1)) s1 in
  if bool_decide (drainState_ s2 = DONE)
     && bool_decide (getNumStreams s2 = 0%nat)
     && negb (loopCallbackScheduled_ s2)
  then
    let s3 :=
      if sock_ s2 then emit [EvSockClose None] (set_sock_ false s2) else s2 in
    emit [EvDestroy] (set_destroyed_ true s3)
  else s2.

(** Modelled from the spec: [detach] is declared in the session's header,
    which is not among the sources.  It marks the stream detached; the
    stream stays in the registry until [checkForDetach] reaps it. *)
Definition detach (st : HQStreamTransport) : HQStreamTransport :=
  set_detached_ true st.

(** What [dropConnectionSync] does on every stream:
    [stream->errorOnTransaction(proxygenError, "Dropped connection")].
    A transaction that hears the error may detach before [onError]
    returns; the transaction decides ([txnDetachesOnError]). *)
Definition errorOnDroppedTransaction (env : SessionEnv)
    (proxygenError : ProxygenError) (st : HQStreamTransport)
  : HQStreamTransport * list Event :=
  let '(st1, ev) := errorOnTransactionErr proxygenError st in
  (if negb (detached_ st) && txnDetachesOnError env (streamId st)
   then detach st1 else st1,
   ev).

(** [dropConnectionSync(errorCode, proxygenError)].  Its callers have a
    result in every state, so a failure of the final
    [CHECK_EQ(getNumStreams(), 0)] is recorded in the session
    ([checkFailed_]): the process stops there, and the session takes no
    further call. *)
Definition dropConnectionSync (env : SessionEnv)
    (errorCode : QuicErrorCode * string)
    (proxygenError : ProxygenError) (s : HQSession) : HQSession :=
  if dropping_ s then s
  else
    let s1 := set_dropping_ true s in
    let s2 :=
      if bool_decide (0 < getNumStreams s1)%nat
      then
        let s' := emit [EvSockClose (Some errorCode.1)] (set_sock_ false s1) in
        invokeOnAllStreams (errorOnDroppedTransaction env proxygenError) s'
      else if sock_ s1 then emit [EvSockClose None] (set_sock_ false s1)
      else s1 in
    let s3 := checkForShutdown (cancelLoopCallback (set_drainState_ DONE s2)) in
    if bool_decide (getNumStreams s3 = 0%nat) then s3
    else set_checkFailed_ true s3.

(** [dropConnectionAsync]: the single-slot latch. *)
Definition dropConnectionAsync (errorCode : QuicErrorCode * string)
    (proxygenError : ProxygenError) (s : HQSession) : HQSession :=
  match dropInNextLoop_ s with
  | None =>
      scheduleLoopCallback
        (set_dropInNextLoop_ (Some (errorCode.1, errorCode.2, proxygenError)) s)
  | Some _ => s
  end.

(** [onConnectionError(code)]; the hook of the subclass is an event. *)
Definition onConnectionError (env : SessionEnv)
    (code : QuicErrorCode * string) (s : HQSession) : HQSession :=
  dropConnectionSync env code (proxygenErrorOf env)
    (emit [EvOnConnectionError code.1 code.2] s).

Definition getGoawayStreamId (s : HQSession) : Z :=
  if bool_decide (drainState_ s = NONE) || bool_decide (drainState_ s = PENDING)
  then quic.kEightByteLimit
  else maxIncomingStreamId_ s.

(** [GoawayUtils::sendGoaway(session)].  Without the control stream the
    source dereferences a null pointer: no result. *)
Definition GoawayUtils_sendGoaway (env : SessionEnv) (s : HQSession)
  : option HQSession :=
  if bool_decide (direction_ s = UPSTREAM) then Some s
  else if bool_decide (drainState_ s = DONE) then Some s
  else
    let ctrlType :=
      if bool_decide (version_ s = Some H1Q_FB_V2) then H1Q_CONTROL else CONTROL in
    match controlStreams_ s !! ctrlType with
    | None => None
    | Some connCtrlStream =>
        let goawayStreamId := getGoawayStreamId s in
        let cs1 :=
          set_ctrlWriteBuf_ (ctrlWriteBuf_ connCtrlStream ++ goawayFrame env)
            connCtrlStream in
        let generated := chainLength (goawayFrame env) in
        let s1 :=
          emit [EvGenerateGoaway ctrlType goawayStreamId]
            (set_controlStreams_ (<[ctrlType := cs1]> (controlStreams_ s)) s) in
        match streamWriteOffset env, streamWriteBufferedBytes env with
        | Some writeOffset, Some writeBufferedBytes =>
            if generated =? 0 then Some (set_drainState_ DONE s1)
            else
              let s2 :=
                emit [EvRegisterDeliveryCallback (egressStreamId cs1)
                        (wrap64 (writeOffset + writeBufferedBytes
                                 + chainLength (ctrlWriteBuf_ cs1)))] s1 in
              if negb (registerDeliveryCallbackOk env)
              then Some (set_drainState_ DONE s2)
              else if bool_decide (drainState_ s2 = PENDING)
              then Some (set_drainState_ FIRST_GOAWAY s2)
              else Some (set_drainState_ SECOND_GOAWAY s2)
        | _, _ => Some (set_drainState_ DONE s1)
        end
    end.

(** [versionUtils_->sendGoaway()].  The unframed profile asks every stream
    codec to announce the close, which changes nothing in the session. *)
Definition sendGoaway (v : HQVersion) (env : SessionEnv) (s : HQSession)
  : option HQSession :=
  match v with
  | H1Q_FB_V1 => Some s
  | H1Q_FB_V2 | HQ => GoawayUtils_sendGoaway env s
  end.

(** [drainImpl()]. *)
Definition drainImpl (env : SessionEnv) (s : HQSession) : option HQSession :=
  if bool_decide (drainState_ s ≠ NONE) then Some s
  else
    let s1 := set_drainState_ PENDING s in
    match versionUtils_ s1 with
    | Some v => sendGoaway v env s1
    | None => Some s1
    end.

Definition notifyPendingShutdown := drainImpl.

(** [closeWhenIdle()]. *)
Definition closeWhenIdle (env : SessionEnv) (s : HQSession) : option HQSession :=
  s1 ← drainImpl env s;
  let s2 :=
    if bool_decide (version_ s1 = Some H1Q_FB_V1)
    then set_drainState_ DONE s1
    else s1 in
  Some (checkForShutdown s2).

(** [dropConnection(errorMsg)]. *)
Definition dropConnection (env : SessionEnv) (errorMsg : string)
    (s : HQSession) : HQSession :=
  let msg := if bool_decide (errorMsg = "") then "Stopping" else errorMsg in
  dropConnectionSync env (ApplicationErrorCode HTTP3.HTTP_NO_ERROR, msg)
    kErrorDropped s.

(** [onGoawayAck()]: the GOAWAY reached the remote endpoint. *)
Definition onGoawayAck (env : SessionEnv) (s : HQSession) : option HQSession :=
  s1 ← (if bool_decide (drainState_ s = FIRST_GOAWAY)
        then match versionUtils_ s with
             | Some v => sendGoaway v env s
             | None => None
             end
        else if bool_decide (drainState_ s = SECOND_GOAWAY)
        then Some (set_drainState_ DONE s)
        else Some s);
  Some (scheduleLoopCallback s1).

(** [HQControlStream::onCanceled]: the delivery callback was canceled. *)
Definition onGoawayCanceled (s : HQSession) : HQSession :=
  scheduleLoopCallback (set_drainState_ DONE s).

(** [H1QFBV1VersionUtils::headersComplete(msg)]; [connectionClose] tells
    whether the message carries [Connection: close]. *)
Definition H1QFBV1_headersComplete (env : SessionEnv) (connectionClose : bool)
    (s : HQSession) : option HQSession :=
  if bool_decide (drainState_ s = DONE) then Some s
  else if connectionClose then
    if bool_decide (drainState_ s = CLOSE_SENT)
    then Some (set_drainState_ DONE s)
    else
      s1 ← (if bool_decide (drainState_ s = NONE) then drainImpl env s else Some s);
      Some (set_drainState_ CLOSE_RECEIVED s1)
  else Some s.

(** [H1QFBV1VersionUtils::checkSendingGoaway(msg)]. *)
Definition H1QFBV1_checkSendingGoaway (env : SessionEnv) (wantsKeepalive : bool)
    (s : HQSession) : option HQSession :=
  s1 ← (if bool_decide (drainState_ s = NONE) && negb wantsKeepalive
        then notifyPendingShutdown env s
        else Some s);
  Some (if bool_decide (drainState_ s1 = CLOSE_RECEIVED)
        then set_drainState_ DONE s1
        else if bool_decide (drainState_ s1 = PENDING)
        then set_drainState_ CLOSE_SENT s1
        else s1).

(** [versionUtils_->headersComplete(msg)].  The HTTP/3 profile only
    schedules a write.  Modelled from the spec: the override of the framed
    HTTP/1 profile is declared in the header, which is not among the
    sources; only the unframed profile drains on [Connection: close]. *)
Definition headersComplete (env : SessionEnv) (connectionClose : bool)
    (s : HQSession) : option HQSession :=
  match versionUtils_ s with
  | None => None
  | Some H1Q_FB_V1 => H1QFBV1_headersComplete env connectionClose s
  | Some _ => Some s
  end.

(** [versionUtils_->checkSendingGoaway(msg)], called from [sendHeaders]
    when the version utils are set.  Modelled from the spec: the overrides
    of the framed profiles are declared in the header, which is not among
    the sources; only the unframed profile drains on [Connection: close]. *)
Definition checkSendingGoaway (env : SessionEnv) (wantsKeepalive : bool)
    (s : HQSession) : option HQSession :=
  match versionUtils_ s with
  | Some H1Q_FB_V1 => H1QFBV1_checkSendingGoaway env wantsKeepalive s
  | _ => Some s
  end.

(** [onGoaway(lastGoodStreamID, code, debugData)].  The source asserts an
    upstream session of a framed profile; otherwise no result. *)
Definition onGoaway (env : SessionEnv) (lastGoodStreamID : Z) (code : ErrorCode)
    (s : HQSession) : option HQSession :=
  if negb (bool_decide (direction_ s = UPSTREAM)) then None
  else if bool_decide (version_ s = Some H1Q_FB_V1) then None
  else
    let s1 :=
      set_maxAllowedStreamId_ (Z.min (maxAllowedStreamId_ s) lastGoodStreamID) s in
    s2 ← drainImpl env s1;
    let s3 :=
      invokeOnNonDetachedStreams
        (fun st =>
           let ev := [EvTxnOnGoaway (streamId st) code] in
           if streamId st >? maxAllowedStreamId_ s2
           then
             let '(st1, ev1) := errorOnTransactionErr kErrorStreamUnacknowledged st in
             (st1, ev ++ ev1)
           else (st, ev)) s2 in
    let s4 :=
      if bool_decide (drainState_ s3 = NONE) || bool_decide (drainState_ s3 = PENDING)
      then set_drainState_ FIRST_GOAWAY s3
      else if bool_decide (drainState_ s3 = FIRST_GOAWAY)
      then set_drainState_ DONE s3
      else s3 in
    Some (checkForShutdown s4).

(** *** New streams *)

Definition abortStreamS (dir : HTTPException.Direction) (id : Z)
    (err : HTTP3.ErrorCode) (s : HQSession) : HQSession :=
  emit (abortStream s dir id err) s.

(** [H1QFBV1VersionUtils::checkNewStream(id)]: reject all unidirectional
    streams and all server-initiated streams. *)
Definition H1QFBV1_checkNewStream (id : Z) (s : HQSession) : bool * HQSession :=
  if quic.isUnidirectionalStream id || quic.isServerStream id
  then (false, abortStreamS HTTPException.INGRESS_AND_EGRESS id
                 HTTP3.HTTP_WRONG_STREAM s)
  else (true, s).

(** [GoawayUtils::checkNewStream(session, id)]. *)
Definition GoawayUtils_checkNewStream (id : Z) (s : HQSession) : bool * HQSession :=
  if quic.isBidirectionalStream id && quic.isServerStream id
  then (false, abortStreamS HTTPException.INGRESS_AND_EGRESS id
                 HTTP3.HTTP_WRONG_STREAM s)
  else if bool_decide (drainState_ s ≠ NONE)
          && ((bool_decide (direction_ s = UPSTREAM)
               && (id >? maxAllowedStreamId_ s))
              || (bool_decide (direction_ s = DOWNSTREAM)
                  && quic.isBidirectionalStream id
                  && (id >? maxIncomingStreamId_ s)))
  then (false, abortStreamS HTTPException.INGRESS_AND_EGRESS id
                 HTTP3.HTTP_REQUEST_REJECTED s)
  else (true, s).

Definition checkNewStream (v : HQVersion) (id : Z) (s : HQSession)
  : bool * HQSession :=
  match v with
  | H1Q_FB_V1 => H1QFBV1_checkNewStream id s
  | H1Q_FB_V2 | HQ => GoawayUtils_checkNewStream id s
  end.

Definition newTxn : HTTPTransaction :=
  {| txnHasPendingBody := false; txnEgressEOMQueued := false;
     txnIngressStarted := false; txnEgressComplete := false;
     txnEgressPaused := false; txnPendingByteEvents := 0 |}.

Definition newStream (id : Z) : HQStreamTransport :=
  {| streamId := id; detached_ := false; ingressError_ := false;
     readBuf_ := []; writeBuf_ := []; pendingEOM_ := false;
     bytesWritten_ := 0; bytesSkipped_ := 0; transactionEnqueued := false;
     streamTransportEnqueued := false; txn_ := newTxn |}.

(** [createStreamTransport(streamId)]: whether a stream was created. *)
Definition createStreamTransport (env : SessionEnv) (id : Z) (s : HQSession)
  : bool * HQSession :=
  if negb (sockGood env) || bool_decide (is_Some (streams_ s !! id))
  then (false, s)
  else (true, emit [EvStreamCreated id]
                (set_streams_ (<[id := newStream id]> (streams_ s)) s)).

(** [onNewBidirectionalStream(id)].  The transport never calls it before
    the version utils are set. *)
Definition onNewBidirectionalStream (env : SessionEnv) (id : Z) (s : HQSession)
  : option HQSession :=
  match versionUtils_ s with
  | None => None
  | Some v =>
      let '(ok, s1) := checkNewStream v id s in
      if negb ok then Some s1
      else
        let '(_, s2) := createStreamTransport env id (emit [EvStreamAccepted id] s1) in
        Some (set_maxIncomingStreamId_ (Z.max (maxIncomingStreamId_ s2) id) s2)
  end.

(** [onNewUnidirectionalStream(id)]: the dispatcher takes the stream until
    its preface is read. *)
Definition onNewUnidirectionalStream (id : Z) (s : HQSession) : option HQSession :=
  match versionUtils_ s with
  | None => None
  | Some v =>
      let '(ok, s1) := checkNewStream v id s in
      if negb ok then Some s1
      else
        Some (set_pendingUniStreams_ (pendingUniStreams_ s1 ++ [id])
                (emit [EvStreamAccepted id] s1))
  end.

(** [setNewTransactionPauseState(txn)], on the stream of the new
    transaction: the transaction starts with its egress paused when the
    writes are paused or the connection has no room to send. *)
Definition setNewTransactionPauseState (env : SessionEnv) (s : HQSession)
    (st : HQStreamTransport) : HQStreamTransport :=
  let pauseNew :=
    writesPaused_ s
    || (sock_ s
        && ((connectionBufferAvailable env =? 0)
            || match connectionSendWindow env with
               | Some sendWindowAvailable => sendWindowAvailable =? 0
               | None => false
               end)) in
  if pauseNew then pauseEgress st else st.

(** [newTransaction(handler)]: the id of the new transaction, if any. *)
Definition newTransaction (env : SessionEnv) (s : HQSession)
  : option Z * HQSession :=
  if bool_decide (drainState_ s = CLOSE_SENT)
     || bool_decide (drainState_ s = FIRST_GOAWAY)
     || bool_decide (drainState_ s = DONE)
  then (None, s)
  else if negb (sockGood env) then (None, s)
  else
    match createBidirectionalStream env with
    | None => (None, s)
    | Some quicStreamId =>
        let '(created, s1) := createStreamTransport env quicStreamId s in
        if created
        then (Some quicStreamId,
              set_streams_
                (alter (setNewTransactionPauseState env s1) quicStreamId
                   (streams_ s1)) s1)
        else (None, abortStreamS HTTPException.INGRESS_AND_EGRESS quicStreamId
                      HTTP3.HTTP_INTERNAL_ERROR s1)
    end.

(** *** Control streams *)

(** [createEgressControlStream(streamType)].  A second stream of one type
    fails the emplacement [CHECK]: no result. *)
Definition createEgressControlStream (env : SessionEnv)
    (streamType : UnidirectionalStreamType) (s : HQSession)
  : option (bool * HQSession) :=
  match createUnidirectionalStream env streamType with
  | None =>
      Some (false,
            onConnectionError env
              (LocalErrorCode quic.CONNECT_FAILED,
               "Failed to create unidirectional stream") s)
  | Some id =>
      match controlStreams_ s !! streamType with
      | Some _ => None
      | None =>
          let cs :=
            {| egressStreamId := id; ingressStreamId := None;
               ingressCodec_ := false; ctrlReadBuf_ := [];
               ctrlReadEOF_ := false;
               ctrlWriteBuf_ := streamPreface env streamType |} in
          Some (true,
                set_controlStreams_ (<[streamType := cs]> (controlStreams_ s)) s)
      end
  end.

(** [HQVersionUtils::sendSettings()]: the SETTINGS frame goes to the
    control stream. *)
Definition HQ_sendSettings (env : SessionEnv) (s : HQSession) : option HQSession :=
  match controlStreams_ s !! CONTROL with
  | None => None
  | Some cs =>
      Some (set_controlStreams_
              (<[CONTROL := set_ctrlWriteBuf_ (ctrlWriteBuf_ cs ++ settingsFrame env) cs]>
                 (controlStreams_ s)) s)
  end.

(** [versionUtils_->createEgressControlStreams()].  The unframed profile
    has no control stream. *)
Definition createEgressControlStreams (v : HQVersion) (env : SessionEnv)
    (s : HQSession) : option (bool * HQSession) :=
  match v with
  | H1Q_FB_V1 => Some (true, s)
  | H1Q_FB_V2 => createEgressControlStream env H1Q_CONTROL s
  | HQ =>
      '(ok1, s1) ← createEgressControlStream env CONTROL s;
      if negb ok1 then Some (false, s1)
      else
        '(ok2, s2) ← createEgressControlStream env QPACK_ENCODER s1;
        if negb ok2 then Some (false, s2)
        else
          '(ok3, s3) ← createEgressControlStream env QPACK_DECODER s2;
          if negb ok3 then Some (false, s3)
          else s4 ← HQ_sendSettings env s3; Some (true, s4)
  end.

(** [createIngressControlStream(id, streamType)]: whether the ingress
    codec was installed.  Without the egress stream of the type the
    source stops with [LOG(FATAL)]: no result. *)
Definition createIngressControlStream (id : Z)
    (streamType : UnidirectionalStreamType) (s : HQSession)
  : option (bool * HQSession) :=
  match controlStreams_ s !! streamType with
  | None => None
  | Some ctrlStream =>
      if ingressCodec_ ctrlStream
      then
        Some (false,
              dropConnectionAsync
                (ApplicationErrorCode HTTP3.HTTP_WRONG_STREAM_COUNT,
                 "HTTP wrong stream count") kErrorConnection s)
      else
        let cs := set_ingressCodec_ true (set_ingressStreamId (Some id) ctrlStream) in
        Some (true,
              set_controlStreams_ (<[streamType := cs]> (controlStreams_ s)) s)
  end.

(** [versionUtils_->parseStreamPreface(preface)]. *)
Definition parseStreamPreface (v : HQVersion) (type : UnidirectionalStreamType)
  : option UnidirectionalStreamType :=
  match v with
  | H1Q_FB_V2 =>
      match type with
      | H1Q_CONTROL => Some type
      | _ => None
      end
  | HQ =>
      match type with
      | CONTROL | PUSH | QPACK_ENCODER | QPACK_DECODER => Some type
      | _ => None
      end
  | H1Q_FB_V1 => None
  end.

(** [tryCreateIngressControlStream(id, preface)]. *)
Definition tryCreateIngressControlStream (v : HQVersion) (id : Z)
    (preface : UnidirectionalStreamType) (s : HQSession)
  : option (bool * HQSession) :=
  match parseStreamPreface v preface with
  | None => Some (false, s)
  | Some type => createIngressControlStream id type s
  end.

(** [rejectStream(id)]. *)
Definition rejectStream (id : Z) (s : HQSession) : HQSession :=
  emit [EvStopSending id HTTP3.HTTP_UNKNOWN_STREAM_TYPE] s.

(** [findStream(id)] and [findNonDetachedStream(id)] ([findStreamImpl]).
    Push streams are kept by the subclasses and are not part of the
    model. *)
Definition findStream (id : Z) (s : HQSession) : option HQStreamTransport :=
  streams_ s !! id.

Definition findNonDetachedStream (id : Z) (s : HQSession)
  : option HQStreamTransport :=
  match streams_ s !! id with
  | Some st => if detached_ st then None else Some st
  | None => None
  end.

(** [errorOnTransactionId(id, ex)]. *)
Definition errorOnTransactionId (id : Z) (ex : HTTPException.t) (s : HQSession)
  : HQSession :=
  match findStream id s with
  | Some st =>
      let '(st1, ev) := errorOnTransaction ex st in
      emit ev (set_streams_ (<[id := st1]> (streams_ s)) s)
  | None => s
  end.

(** [readError(id, error)], for the three families of error codes. *)
Definition readError (id : Z) (error : QuicErrorCode) (s : HQSession)
  : HQSession :=
  let ex := HTTPException.make HTTPException.INGRESS_AND_EGRESS in
  match error with
  | ApplicationErrorCode errorCode =>
      match findNonDetachedStream id s with
      | Some st =>
          let '(st1, ev) := onResetStream s errorCode ex st in
          emit ev (set_streams_ (<[id := st1]> (streams_ s)) s)
      | None => s
      end
  | LocalErrorCode errorCode =>
      errorOnTransactionId id
        (HTTPException.setProxygenError
           match errorCode with
           | quic.CONNECT_FAILED => kErrorConnect
           | _ => kErrorShutdown
           end ex) s
  | TransportErrorCode errorCode =>
      errorOnTransactionId id
        (HTTPException.setErrno (TransportErrorCode errorCode)
           (HTTPException.setProxygenError kErrorConnectionReset ex)) s
  end.

(** [handleSessionError(stream, streamDir, err, proxygenError)];
    [isControl] tells a control stream from a request stream. *)
Definition handleSessionError (isControl : bool) (err : QuicErrorCode)
    (proxygenError : ProxygenError) (s : HQSession) : HQSession :=
  let appErrorMsg :=
    if isControl then "HTTP error on control stream"
    else "HTTP error on request stream" in
  let '(appError, shouldDrop) :=
    match err with
    | ApplicationErrorCode e => (e, true)
    | LocalErrorCode e =>
        (HTTP3.HTTP_NO_ERROR,
         match e with quic.NO_ERROR => false | _ => true end)
    | TransportErrorCode _ => (HTTP3.HTTP_NO_ERROR, true)
    end in
  if negb shouldDrop then s
  else
    let appError1 :=
      if isControl && bool_decide (appError = HTTP3.HTTP_NO_ERROR)
      then HTTP3.HTTP_CLOSED_CRITICAL_STREAM
      else appError in
    dropConnectionAsync (ApplicationErrorCode appError1, appErrorMsg)
      proxygenError s.

(** *** Reading a control stream *)

(** Modelled from the spec: [isUsing] is declared in the session's header,
    which is not among the sources.  A control stream uses its egress id
    and, once the dispatcher bound it, its ingress id. *)
Definition isUsing (id : Z) (cs : HQControlStream) : bool :=
  bool_decide (egressStreamId cs = id)
  || bool_decide (ingressStreamId cs = Some id).

(** [findControlStream(streamId)]: the first control stream that uses the
    id, in the order in which the container lists them. *)
Definition findControlStream (id : Z) (s : HQSession)
  : option (UnidirectionalStreamType * HQControlStream) :=
  head (filter (fun kv : UnidirectionalStreamType * HQControlStream =>
                  isUsing id kv.2 = true)
          (map_to_list (controlStreams_ s))).

(** Modelled from the spec: [HQControlStream] forwards the callbacks of
    its ingress codec to the session in the header, which is not among
    the sources.  What the codec reports while it parses: SETTINGS and
    GOAWAY frames reach [onSettings] and [onGoaway], and a parse error
    reaches [HQControlStream::onError] with the code
    [toHTTP3ErrorCode(error)]. *)
Inductive ControlCallback : Type :=
| CbSettings
| CbGoaway (env : SessionEnv) (lastGoodStreamID : Z) (code : ErrorCode)
| CbError (error : HTTP3.ErrorCode).

(** What the socket and the ingress codec answer while one control
    stream is read. *)
Record ReadEnv : Type := mkReadEnv {
  consumeOk : bool;                                   (* sock_->consume *)
  readResult : QuicErrorCode + list byte * bool;      (* sock_->read *)
  (* the callbacks made while the bytes are parsed, and the bytes left *)
  onUnidirectionalIngress : list byte -> list ControlCallback * list byte;
  onUnidirectionalIngressEOF : list ControlCallback
}.

(** [onSettings(settings)]: the settings go to the QPACK codec, which the
    session does not hold in this model. *)
Definition onSettings (s : HQSession) : option HQSession :=
  match versionUtils_ s with
  | None => None
  | Some _ => Some s
  end.

(** [HQControlStream::onError(streamID, error, newTxn)] on the control
    stream bound to the ingress id [ingressId]. *)
Definition HQControlStream_onError (ingressId : Z) (error : HTTP3.ErrorCode)
    (s : HQSession) : option HQSession :=
  match findControlStream ingressId s with
  | None => None
  | Some _ =>
      Some (handleSessionError true (ApplicationErrorCode error)
              kErrorConnection s)
  end.

(** One callback of the ingress codec of the control stream bound to
    [ingressId]. *)
Definition controlCallback (ingressId : Z) (cb : ControlCallback)
    (s : HQSession) : option HQSession :=
  match cb with
  | CbSettings => onSettings s
  | CbGoaway env lastGoodStreamID code => onGoaway env lastGoodStreamID code s
  | CbError error => HQControlStream_onError ingressId error s
  end.

Fixpoint controlCallbacks (ingressId : Z) (cbs : list ControlCallback)
    (s : HQSession) : option HQSession :=
  match cbs with
  | [] => Some s
  | cb :: rest =>
      s1 ← controlCallback ingressId cb s; controlCallbacks ingressId rest s1
  end.

(** [HQControlStream::processReadData()] on the control stream of type
    [type]: the codec takes the whole read buffer and hands back what it
    did not parse; at the end of the stream it is told so.  Without an
    ingress codec the source dereferences a null pointer: no result. *)
Definition HQControlStream_processReadData (env : ReadEnv)
    (type : UnidirectionalStreamType) (s : HQSession) : option HQSession :=
  ctrlStream ← controlStreams_ s !! type;
  ingressId ← ingressStreamId ctrlStream;
  if negb (ingressCodec_ ctrlStream) then None
  else
    s1 ← (if chainLength (ctrlReadBuf_ ctrlStream) >? 0
          then
            let '(cbs, ret) :=
              onUnidirectionalIngress env (ctrlReadBuf_ ctrlStream) in
            s' ← controlCallbacks ingressId cbs
                   (set_controlStreams_
                      (<[type := set_ctrlReadBuf_ [] ctrlStream]>
                         (controlStreams_ s)) s);
            cs' ← controlStreams_ s' !! type;
            Some (set_controlStreams_
                    (<[type := set_ctrlReadBuf_ (ctrlReadBuf_ cs' ++ ret) cs']>
                       (controlStreams_ s')) s')
          else Some s);
    cs1 ← controlStreams_ s1 !! type;
    if ctrlReadEOF_ cs1 && (chainLength (ctrlReadBuf_ cs1) =? 0)
    then controlCallbacks ingressId (onUnidirectionalIngressEOF env) s1
    else Some s1.

(** [readControlStream(ctrlStream)] on the control stream of type
    [type]. *)
Definition readControlStream (env : ReadEnv) (type : UnidirectionalStreamType)
    (s : HQSession) : option HQSession :=
  ctrlStream ← controlStreams_ s !! type;
  ingressId ← ingressStreamId ctrlStream;
  match readResult env with
  | inl error => Some (readError ingressId error s)
  | inr (data, eof) =>
      let cs1 :=
        set_ctrlReadEOF_ eof
          (set_ctrlReadBuf_ (ctrlReadBuf_ ctrlStream ++ data) ctrlStream) in
      HQControlStream_processReadData env type
        (set_controlStreams_ (<[type := cs1]> (controlStreams_ s)) s)
  end.

(** [controlStreamReadAvailable(id)]. *)
Definition controlStreamReadAvailable (env : ReadEnv) (id : Z) (s : HQSession)
  : option HQSession :=
  match findControlStream id s with
  | None => Some s
  | Some (type, _) => readControlStream env type s
  end.

(** [assignReadCallback(id, type, toConsume, cb)]: the dispatcher has
    read the preface of stream [id] and gives the stream up.  A stream
    that is bound to a control stream is read at once, since the
    transport announces only the data to come. *)
Definition assignReadCallback (env : ReadEnv) (id : Z)
    (type : UnidirectionalStreamType) (s : HQSession) : option HQSession :=
  if negb (consumeOk env) then None
  else
    match versionUtils_ s with
    | None => None
    | Some v =>
        let s0 :=
          set_pendingUniStreams_
            (filter (fun i => i ≠ id) (pendingUniStreams_ s)) s in
        '(ok, s1) ← tryCreateIngressControlStream v id type s0;
        if negb ok then Some (rejectStream id s1)
        else controlStreamReadAvailable env id s1
    end.

(** *** Session setup *)

Definition setVersionUtils (s : HQSession) : HQSession :=
  set_versionUtils_ (version_ s) s.

(** [getAndCheckApplicationProtocol()]; [alpn] is what the socket reports. *)
Definition getAndCheckApplicationProtocol (env : SessionEnv)
    (alpn : option string) (s : HQSession) : bool * HQSession :=
  let s1 :=
    match alpn with
    | Some a =>
        if bool_decide (a = kH1QV1ProtocolString)
           || bool_decide (a = kH1QLigerProtocolString)
           || bool_decide (a = kHQCurrentDraft)
        then set_version_ (Some H1Q_FB_V1) s
        else if bool_decide (a = kH1QV2ProtocolString)
        then set_version_ (Some H1Q_FB_V2) s
        else if bool_decide (a = kH3FBCurrentDraft)
                || bool_decide (a = kH3CurrentDraft)
        then set_version_ (Some HQ) s
        else s
    | None => s
    end in
  match alpn, version_ s1 with
  | Some a, Some _ => (true, setVersionUtils (set_alpn_ a s1))
  | _, _ =>
      (false,
       onConnectionError env
         (LocalErrorCode quic.CONNECT_FAILED, "ALPN not supported") s1)
  end.

(** [onTransportReadyCommon()]. *)
Definition onTransportReadyCommon (env : SessionEnv) (alpn : option string)
    (s : HQSession) : option (bool * HQSession) :=
  let '(ok, s1) := getAndCheckApplicationProtocol env alpn s in
  if negb ok then Some (false, s1)
  else
    match versionUtils_ s1 with
    | None => None
    | Some v =>
        '(ok2, s2) ← createEgressControlStreams v env s1;
        if negb ok2 then Some (false, s2)
        else
          s3 ← (if bool_decide (drainState_ s2 = PENDING)
                then sendGoaway v env s2
                else Some s2);
          Some (true, s3)
    end.

(** *** The loop callback *)

(** [runLoopCallback()]: a latched drop is executed first; reading and
    writing the streams are operations of their own; the scope guard
    checks for shutdown last. *)
Definition runLoopCallback (env : SessionEnv) (s : HQSession) : HQSession :=
  let s0 := set_loopCallbackScheduled_ false s in
  let s1 :=
    match dropInNextLoop_ s0 with
    | Some (code, msg, proxygenError) =>
        dropConnectionSync env (code, msg) proxygenError s0
    | None => s0
    end in
  checkForShutdown s1.

(** *** Operations on one request stream of the session *)

Definition onStream (id : Z)
    (f : HQStreamTransport -> option (HQStreamTransport * list Event))
    (s : HQSession) : option HQSession :=
  st ← streams_ s !! id;
  '(st1, ev) ← f st;
  Some (emit ev (set_streams_ (<[id := st1]> (streams_ s)) s)).

(** [readError(id, error)] with an application error code: the peer
    reset a stream that is not detached. *)
Definition readErrorApplication (id : Z) (errorCode : HTTP3.ErrorCode)
    (s : HQSession) : option HQSession :=
  onStream id
    (fun st =>
       if detached_ st then Some (st, [])
       else Some (onResetStream s errorCode
                    (HTTPException.make HTTPException.INGRESS_AND_EGRESS) st))
    s.

(** The scheduler serves request stream [id] with [maxEgress]. *)
Definition writeRequestStream (id : Z) (env : WriteEnv) (maxEgress : Z)
    (s : HQSession) : option HQSession :=
  onStream id
    (fun st =>
       '(st1, ev, _) ← requestStreamWriteImpl s env maxEgress st;
       Some (st1, ev))
    s.

(** The transaction of stream [id] detaches from its transport. *)
Definition detachTransaction (id : Z) (s : HQSession) : option HQSession :=
  onStream id (fun st => Some (detach st, [])) s.

(** ** The session as a state machine *)

(** The calls the session receives from the transport, the codecs, the
    transactions and its owner. *)
Inductive Op : Type :=
| OpTransportReady (env : SessionEnv) (alpn : option string)
| OpNotifyPendingShutdown (env : SessionEnv)
| OpCloseWhenIdle (env : SessionEnv)
| OpDropConnection (env : SessionEnv) (errorMsg : string)
| OpConnectionError (env : SessionEnv) (code : QuicErrorCode) (msg : string)
| OpDropConnectionAsync (code : QuicErrorCode) (msg : string)
    (proxygenError : ProxygenError)
| OpNewBidirectionalStream (env : SessionEnv) (id : Z)
| OpNewUnidirectionalStream (id : Z)
| OpAssignReadCallback (env : ReadEnv) (id : Z) (type : UnidirectionalStreamType)
| OpGoawayAck (env : SessionEnv)
| OpGoawayCanceled
| OpHeadersComplete (env : SessionEnv) (connectionClose : bool)
| OpCheckSendingGoaway (env : SessionEnv) (wantsKeepalive : bool)
| OpGoaway (env : SessionEnv) (lastGoodStreamID : Z) (code : ErrorCode)
| OpNewTransaction (env : SessionEnv)
| OpRunLoopCallback (env : SessionEnv)
| OpCheckForShutdown
| OpReadError (id : Z) (errorCode : HTTP3.ErrorCode)
| OpWriteRequestStream (id : Z) (env : WriteEnv) (maxEgress : Z)
| OpDetachTransaction (id : Z).

(** The method a call runs, on a live session.  There is no result when
    the call cannot happen in the state (the transport is ready once,
    talks to the session only while the socket is held, and announces a
    new stream through the callback of its kind; a GOAWAY arrives on the
    control stream of a framed profile), or when the source stops on a
    failed check. *)
Definition dispatch (op : Op) (s : HQSession) : option HQSession :=
  match op with
  | OpTransportReady env alpn =>
      if sock_ s && bool_decide (versionUtils_ s = None)
         && bool_decide (version_ s = None)
      then snd <$> onTransportReadyCommon env alpn s
      else None
  | OpNotifyPendingShutdown env => notifyPendingShutdown env s
  | OpCloseWhenIdle env => closeWhenIdle env s
  | OpDropConnection env errorMsg => Some (dropConnection env errorMsg s)
  | OpConnectionError env code msg =>
      if sock_ s then Some (onConnectionError env (code, msg) s) else None
  | OpDropConnectionAsync code msg proxygenError =>
      Some (dropConnectionAsync (code, msg) proxygenError s)
  | OpNewBidirectionalStream env id =>
      if sock_ s && quic.isBidirectionalStream id
      then onNewBidirectionalStream env id s
      else None
  | OpNewUnidirectionalStream id =>
      if sock_ s && quic.isUnidirectionalStream id
      then onNewUnidirectionalStream id s
      else None
  | OpAssignReadCallback env id type =>
      if sock_ s then assignReadCallback env id type s else None
  | OpGoawayAck env => if sock_ s then onGoawayAck env s else None
  | OpGoawayCanceled => Some (onGoawayCanceled s)
  | OpHeadersComplete env connectionClose =>
      headersComplete env connectionClose s
  | OpCheckSendingGoaway env wantsKeepalive =>
      checkSendingGoaway env wantsKeepalive s
  | OpGoaway env lastGoodStreamID code =>
      match versionUtils_ s with
      | Some H1Q_FB_V2 | Some HQ => onGoaway env lastGoodStreamID code s
      | _ => None
      end
  | OpNewTransaction env => Some (newTransaction env s).2
  | OpRunLoopCallback env => Some (runLoopCallback env s)
  | OpCheckForShutdown => Some (checkForShutdown s)
  | OpReadError id errorCode =>
      if sock_ s then readErrorApplication id errorCode s else None
  | OpWriteRequestStream id env maxEgress =>
      if sock_ s then writeRequestStream id env maxEgress s else None
  | OpDetachTransaction id => detachTransaction id s
  end.

(** One call.  There is no result once the session is destroyed or the
    process has stopped on the failed check of a drop, nor when the call
    itself has none or stops on that check. *)
Definition apply_op (op : Op) (s : HQSession) : option HQSession :=
  if destroyed_ s || checkFailed_ s then None
  else
    s' ← dispatch op s;
    if checkFailed_ s' then None else Some s'.

(** Run a list of calls, first to last. *)
Fixpoint run (ops : list Op) (s : HQSession) : option HQSession :=
  match ops with
  | [] => Some s
  | op :: rest => s1 ← apply_op op s; run rest s1
  end.

(** A session as its constructor leaves it: no version yet, not
    draining, nothing latched, no stream.  The stream-id marks and the
    pause of the writes are not fixed here (their initial values are set
    in the header). *)
Definition initial (s : HQSession) : Prop :=
  version_ s = None /\ versionUtils_ s = None /\ drainState_ s = NONE
  /\ dropInNextLoop_ s = None /\ dropping_ s = false /\ sock_ s = true
  /\ loopCallbackScheduled_ s = false /\ destroyed_ s = false
  /\ streams_ s = ∅ /\ controlStreams_ s = ∅ /\ pendingUniStreams_ s = []
  /\ trace_ s = [].

Inductive reachable : HQSession -> Prop :=
| reachable_initial s : initial s -> reachable s
| reachable_step s op s' :
    reachable s -> apply_op op s = Some s' -> reachable s'.

(** A fresh session of the given role. *)
Definition newSession (dir : TransportDirection) : HQSession :=
  {| direction_ := dir; version_ := None; versionUtils_ := None; alpn_ := "";
     drainState_ := NONE; maxIncomingStreamId_ := 0;
     maxAllowedStreamId_ := quic.kEightByteLimit; dropInNextLoop_ := None;
     dropping_ := false; sock_ := true; loopCallbackScheduled_ := false;
     writesPaused_ := false; destroyed_ := false; checkFailed_ := false;
     partialReliabilityEnabled_ := false;
     streams_ := ∅; controlStreams_ := ∅; pendingUniStreams_ := [];
     trace_ := [] |}.

(** A transport and codecs that answer without error. *)
Definition goodEnv : SessionEnv :=
  {| goawayFrame := [x07; x01; x00]%byte;
     streamWriteOffset := Some 0;
     streamWriteBufferedBytes := Some 0;
     registerDeliveryCallbackOk := true;
     proxygenErrorOf := kErrorConnectionReset;
     sockGood := true;
     createBidirectionalStream := Some 0;
     createUnidirectionalStream :=
       fun t => Some (4 * Z.of_nat (streamTypeIndex t) + 3);
     streamPreface := fun _ => [x00]%byte;
     settingsFrame := [x04; x00]%byte;
     connectionBufferAvailable := 65536;
     connectionSendWindow := Some 65536;
     txnDetachesOnError := fun _ => true |}.

(** A control stream on which nothing has arrived yet. *)
Definition quietRead : ReadEnv :=
  {| consumeOk := true;
     readResult := inr ([], false);
     onUnidirectionalIngress := fun buf => ([], buf);
     onUnidirectionalIngressEOF := [] |}.

(** The GOAWAY ids the control codec was asked to announce, in order. *)
Definition goawayIds (tr : list Event) : list Z :=
  omap (fun ev => match ev with
                  | EvGenerateGoaway _ id => Some id
                  | _ => None
                  end) tr.

(** The peer-initiated stream ids the session accepted, in order. *)
Definition acceptedStreams (tr : list Event) : list Z :=
  omap (fun ev => match ev with
                  | EvStreamAccepted id => Some id
                  | _ => None
                  end) tr.

(** ** Predicates the statements use *)

(** The socket closes the session asked for, in order. *)
Definition sockCloses (tr : list Event) : list (option QuicErrorCode) :=
  omap (fun ev => match ev with
                  | EvSockClose c => Some c
                  | _ => None
                  end) tr.

(** The errors the transaction of stream [id] heard, in order. *)
Definition txnErrors (id : Z) (tr : list Event) : list ProxygenError :=
  omap (fun ev => match ev with
                  | EvTxnOnError i ex =>
                      if bool_decide (i = id)
                      then Some (HTTPException.proxygenError ex)
                      else None
                  | _ => None
                  end) tr.

(** The bytes passed to [writeChain] for stream [id]. *)
Fixpoint bytesPassed (id : Z) (tr : list Event) : Z :=
  match tr with
  | [] => 0
  | EvWriteChain i data _ _ :: rest =>
      (if bool_decide (i = id) then chainLength data else 0) + bytesPassed id rest
  | _ :: rest => bytesPassed id rest
  end.

(** The bytes the transport took for stream [id]: what was passed to a
    write that did not fail, less what it handed back. *)
Fixpoint bytesAccepted (id : Z) (tr : list Event) : Z :=
  match tr with
  | [] => 0
  | EvWriteChain i data _ (WriteOk notWritten) :: rest =>
      (if bool_decide (i = id)
       then chainLength data - chainLength notWritten
       else 0) + bytesAccepted id rest
  | _ :: rest => bytesAccepted id rest
  end.

(** The transaction, called back with [onWriteReady], does not touch the
    identity of the stream or its counter of written bytes. *)
Definition txnKeepsCounters (env : WriteEnv) : Prop :=
  forall n st,
    streamId (txnOnWriteReady env n st) = streamId st
    /\ bytesWritten_ (txnOnWriteReady env n st) = bytesWritten_ st.

(** What happens to one request stream over its life. *)
Inductive StreamOp : Type :=
| SWrite (env : WriteEnv) (maxEgress : Z)     (* the scheduler serves it *)
| SReset (errorCode : HTTP3.ErrorCode)        (* the peer resets it *)
| SSendAbort (code : HTTP3.ErrorCode)         (* the transaction aborts it *)
| SWriteError (err : QuicErrorCode).          (* onStopSending *)

Definition streamStep (s : HQSession) (op : StreamOp) (st : HQStreamTransport)
  : option (HQStreamTransport * list Event) :=
  match op with
  | SWrite env maxEgress =>
      '(st1, ev, _) ← requestStreamWriteImpl s env maxEgress st; Some (st1, ev)
  | SReset errorCode =>
      Some (onResetStream s errorCode
              (HTTPException.make HTTPException.INGRESS_AND_EGRESS) st)
  | SSendAbort code => Some (sendAbortImpl s code st)
  | SWriteError err => handleWriteError s err st
  end.

Fixpoint streamRun (s : HQSession) (ops : list StreamOp) (st : HQStreamTransport)
  : option (HQStreamTransport * list Event) :=
  match ops with
  | [] => Some (st, [])
  | op :: rest =>
      '(st1, ev1) ← streamStep s op st;
      '(st2, ev2) ← streamRun s rest st1;
      Some (st2, ev1 ++ ev2)
  end.

(** What the statements ask of a stream operation: the window and the
    budget are unsigned, and the transaction keeps the counters. *)
Definition streamOpOk (op : StreamOp) : Prop :=
  match op with
  | SWrite env maxEgress =>
      txnKeepsCounters env
      /\ 0 <= maxEgress
      /\ match flowControl env with
         | inr w => 0 <= w
         | inl _ => True
         end
  | _ => True
  end.

(** An event other than a write to the transport or a call of
    [onWriteReady]. *)
Definition notWriteEvent (ev : Event) : Prop :=
  match ev with
  | EvWriteChain _ _ _ _ | EvOnWriteReady _ _ => False
  | _ => True
  end.

(** A write of which the transport took every byte. *)
Definition fullyTaken (ev : Event) : Prop :=
  match ev with
  | EvWriteChain _ _ _ res => res = WriteOk []
  | _ => True
  end.

(** The reply code to a peer reset, in the words of the specification. *)
Definition replyCodeSpec (dir : TransportDirection) (ingressStarted : bool)
  : HTTP3.ErrorCode :=
  match dir, ingressStarted with
  | UPSTREAM, _ => HTTP3.HTTP_REQUEST_CANCELLED
  | DOWNSTREAM, false => HTTP3.HTTP_REQUEST_REJECTED
  | DOWNSTREAM, true => HTTP3.HTTP_NO_ERROR
  end.

(** The error of the transaction after a peer reset with code [R], in the
    words of the specification. *)
Definition resetErrorSpec (R : HTTP3.ErrorCode) : ProxygenError :=
  match R with
  | HTTP3.HTTP_REQUEST_REJECTED => kErrorStreamUnacknowledged
  | HTTP3.GIVEUP_ZERO_RTT => kErrorEarlyDataFailed
  | _ => kErrorStreamAbort
  end.

(** The version profile of an ALPN string, in the words of the
    specification. *)
Definition alpnTable : list (string * HQVersion) :=
  [("h1q-fb", H1Q_FB_V1); ("h1q", H1Q_FB_V1); ("hq-27", H1Q_FB_V1);
   ("h1q-fb-v2", H1Q_FB_V2);
   ("h3-fb-05", HQ); ("h3-27", HQ)].

Definition profileOfAlpn (alpn : option string) : option HQVersion :=
  a ← alpn;
  snd <$> head (filter (fun kv : string * HQVersion => kv.1 = a) alpnTable).


(** A counter of unsigned 64 bits. *)
Definition uint64 (z : Z) : Prop := 0 <= z < 2 ^ 64.

(** *** How a session evolves

    [evolves s s'] gathers what no operation undoes: the role stays; the
    version is chosen once; the stream-id marks move one way; the drain
    state does not go back; a latched drop stays latched; the trace grows,
    and the bidirectional streams accepted on the way are below the new
    mark; an upstream session does not send a second GOAWAY; the GOAWAY
    states belong to the framed profiles and the close states to the
    unframed one. *)
Record evolves (s s' : HQSession) : Prop := Evolves {
  ev_direction : direction_ s' = direction_ s;
  ev_version :
    (version_ s' = version_ s /\ versionUtils_ s' = versionUtils_ s)
    \/ (versionUtils_ s = None /\ version_ s = None
        /\ version_ s' = versionUtils_ s');
  ev_maxIncoming : maxIncomingStreamId_ s <= maxIncomingStreamId_ s';
  ev_maxAllowed : maxAllowedStreamId_ s' <= maxAllowedStreamId_ s;
  ev_drain : drain_le (drainState_ s) (drainState_ s');
  ev_latch :
    forall x, dropInNextLoop_ s = Some x -> dropInNextLoop_ s' = Some x;
  ev_trace :
    exists evs,
      trace_ s' = trace_ s ++ evs
      /\ Forall (fun id => quic.isBidirectionalStream id = true ->
                           id <= maxIncomingStreamId_ s')
           (acceptedStreams evs);
  ev_second :
    direction_ s = UPSTREAM -> drainState_ s' = SECOND_GOAWAY ->
    drainState_ s = SECOND_GOAWAY;
  ev_goaway :
    versionUtils_ s' = None \/ versionUtils_ s' = Some H1Q_FB_V1 ->
    drainState_ s' = FIRST_GOAWAY \/ drainState_ s' = SECOND_GOAWAY ->
    drainState_ s = FIRST_GOAWAY \/ drainState_ s = SECOND_GOAWAY;
  ev_close :
    versionUtils_ s' <> Some H1Q_FB_V1 ->
    drainState_ s' = CLOSE_SENT \/ drainState_ s' = CLOSE_RECEIVED ->
    drainState_ s = CLOSE_SENT \/ drainState_ s = CLOSE_RECEIVED
}.

(** What holds of the version in every reachable state: the version and
    its utils agree, and only a framed profile sends or receives GOAWAY. *)
Definition versionInv (s : HQSession) : Prop :=
  version_ s = versionUtils_ s
  /\ (versionUtils_ s = None \/ versionUtils_ s = Some H1Q_FB_V1 ->
      drainState_ s <> FIRST_GOAWAY /\ drainState_ s <> SECOND_GOAWAY).

(** What holds of the drain state in every reachable state: the close
    states belong to the unframed profile, and an upstream session never
    sent a second GOAWAY. *)
Definition drainInv (s : HQSession) : Prop :=
  (versionUtils_ s <> Some H1Q_FB_V1 ->
   drainState_ s <> CLOSE_SENT /\ drainState_ s <> CLOSE_RECEIVED)
  /\ (direction_ s = UPSTREAM -> drainState_ s <> SECOND_GOAWAY).

(** The version utils of a framed profile are installed. *)
Definition framedUtils (s : HQSession) : Prop :=
  versionUtils_ s = Some H1Q_FB_V2 \/ versionUtils_ s = Some HQ.

(** The control stream that carries GOAWAY in a framed profile. *)
Definition goawayControlType (v : HQVersion) : UnidirectionalStreamType :=
  match v with
  | H1Q_FB_V2 => H1Q_CONTROL
  | _ => CONTROL
  end.

(** A server session of a framed profile after setup: its version utils
    are set and its control stream exists. *)
Definition framedDownstream (s : HQSession) : Prop :=
  direction_ s = DOWNSTREAM
  /\ (exists v, (v = H1Q_FB_V2 \/ v = HQ)
                /\ version_ s = Some v /\ versionUtils_ s = Some v
                /\ is_Some (controlStreams_ s !! goawayControlType v)).

(** The codec generates the GOAWAY frame and the socket takes the
    delivery callback. *)
Definition goawayDelivered (env : SessionEnv) : Prop :=
  goawayFrame env <> []
  /\ is_Some (streamWriteOffset env)
  /\ is_Some (streamWriteBufferedBytes env)
  /\ registerDeliveryCallbackOk env = true.


(** ** Concrete sessions for the examples *)

(** A server session of the HTTP/3 profile with two open peer streams
    (ids 0 and 4), as in scenario S3. *)
Definition serverSetup : list Op :=
  [OpTransportReady goodEnv (Some kH3CurrentDraft);
   OpNewBidirectionalStream goodEnv 0;
   OpNewBidirectionalStream goodEnv 4].

Definition serverWithTwoStreams : HQSession :=
  default (newSession DOWNSTREAM) (run serverSetup (newSession DOWNSTREAM)).


(** A server session of the HTTP/3 profile with partial reliability. *)
Definition partiallyReliableSession : HQSession :=
  {| direction_ := DOWNSTREAM; version_ := Some HQ; versionUtils_ := Some HQ;
     alpn_ := kH3CurrentDraft; drainState_ := NONE; maxIncomingStreamId_ := 0;
     maxAllowedStreamId_ := quic.kEightByteLimit; dropInNextLoop_ := None;
     dropping_ := false; sock_ := true; loopCallbackScheduled_ := false;
     writesPaused_ := false; destroyed_ := false; checkFailed_ := false;
     partialReliabilityEnabled_ := true;
     streams_ := ∅; controlStreams_ := ∅; pendingUniStreams_ := [];
     trace_ := [] |}.

(** A request stream that has written 100 bytes and buffers three more. *)
Definition streamWithEgress : HQStreamTransport :=
  set_bytesWritten_ 100 (set_writeBuf_ [x01; x02; x03]%byte (newStream 0)).

(** The header's count of committed bytes: written plus skipped. *)
Definition writtenPlusSkipped (st : HQStreamTransport) : Z :=
  wrap64 (bytesWritten_ st + bytesSkipped_ st).

(** A codec that places body offset [n] at stream offset [n + 10], and a
    socket that takes the expiry. *)
Definition skipEnv : SkipEnv :=
  {| onEgressBodySkip := fun n => Some (n + 10);
     sendDataExpired := inr (Some 60) |}.

(** The same server once the peer's control stream (id 2) is bound: the
    ingress codec of the control stream is installed. *)
Definition serverWithControl : HQSession :=
  default (newSession DOWNSTREAM)
    (run (serverSetup
          ++ [OpNewUnidirectionalStream 2; OpAssignReadCallback quietRead 2 CONTROL])
       (newSession DOWNSTREAM)).

Definition serverControlStream : HQControlStream :=
  default
    {| egressStreamId := 0; ingressStreamId := None; ingressCodec_ := false;
       ctrlReadBuf_ := []; ctrlReadEOF_ := false; ctrlWriteBuf_ := [] |}
    (controlStreams_ serverWithControl !! CONTROL).



(** A socket that hands out [id] for the next bidirectional stream. *)
Definition envWithStream (id : Z) : SessionEnv :=
  {| goawayFrame := goawayFrame goodEnv;
     streamWriteOffset := streamWriteOffset goodEnv;
     streamWriteBufferedBytes := streamWriteBufferedBytes goodEnv;
     registerDeliveryCallbackOk := true;
     proxygenErrorOf := proxygenErrorOf goodEnv;
     sockGood := true;
     createBidirectionalStream := Some id;
     createUnidirectionalStream := createUnidirectionalStream goodEnv;
     streamPreface := streamPreface goodEnv;
     settingsFrame := settingsFrame goodEnv;
     connectionBufferAvailable := connectionBufferAvailable goodEnv;
     connectionSendWindow := connectionSendWindow goodEnv;
     txnDetachesOnError := txnDetachesOnError goodEnv |}.

(** Transactions that stay attached when they hear an error. *)
Definition attachedEnv : SessionEnv :=
  {| goawayFrame := goawayFrame goodEnv;
     streamWriteOffset := streamWriteOffset goodEnv;
     streamWriteBufferedBytes := streamWriteBufferedBytes goodEnv;
     registerDeliveryCallbackOk := true;
     proxygenErrorOf := proxygenErrorOf goodEnv;
     sockGood := true;
     createBidirectionalStream := createBidirectionalStream goodEnv;
     createUnidirectionalStream := createUnidirectionalStream goodEnv;
     streamPreface := streamPreface goodEnv;
     settingsFrame := settingsFrame goodEnv;
     connectionBufferAvailable := connectionBufferAvailable goodEnv;
     connectionSendWindow := connectionSendWindow goodEnv;
     txnDetachesOnError := fun _ => false |}.

(** A connection without send window. *)
Definition blockedEnv : SessionEnv :=
  {| goawayFrame := goawayFrame goodEnv;
     streamWriteOffset := streamWriteOffset goodEnv;
     streamWriteBufferedBytes := streamWriteBufferedBytes goodEnv;
     registerDeliveryCallbackOk := true;
     proxygenErrorOf := proxygenErrorOf goodEnv;
     sockGood := true;
     createBidirectionalStream := createBidirectionalStream goodEnv;
     createUnidirectionalStream := createUnidirectionalStream goodEnv;
     streamPreface := streamPreface goodEnv;
     settingsFrame := settingsFrame goodEnv;
     connectionBufferAvailable := connectionBufferAvailable goodEnv;
     connectionSendWindow := Some 0;
     txnDetachesOnError := txnDetachesOnError goodEnv |}.

(** A client session of the HTTP/3 profile with three transactions, on
    the streams 0, 4 and 8. *)
Definition clientWithThreeStreams : HQSession :=
  default (newSession UPSTREAM)
    (run [OpTransportReady goodEnv (Some kH3CurrentDraft);
          OpNewTransaction (envWithStream 0);
          OpNewTransaction (envWithStream 4);
          OpNewTransaction (envWithStream 8)]
       (newSession UPSTREAM)).

(** The same client after the server's GOAWAY with the id 4. *)
Definition clientAfterGoaway : HQSession :=
  default clientWithThreeStreams
    (apply_op (OpGoaway goodEnv 4 EC_NO_ERROR) clientWithThreeStreams).

(** Request stream 16, enqueued, with ten bytes to write. *)
Definition streamWithTenBytes : HQStreamTransport :=
  set_streamTransportEnqueued true
    (set_writeBuf_ [x01; x02; x03; x04; x05; x06; x07; x08; x09; x0a]%byte
       (newStream 16)).

(** A transport with a window of 100 bytes that hands back the last four
    bytes of the write; the transaction adds nothing. *)
Definition handBackEnv : WriteEnv :=
  {| flowControl := inr 100;
     writeResult := WriteOk [x07; x08; x09; x0a]%byte;
     txnOnWriteReady := fun _ st => st |}.

(** A transport with a window of [w] bytes that takes all it is given;
    the transaction adds nothing. *)
Definition windowEnv (w : Z) : WriteEnv :=
  {| flowControl := inr w;
     writeResult := WriteOk [];
     txnOnWriteReady := fun _ st => st |}.

(** The stream and the events after the scheduler served
    [streamWithTenBytes] against [handBackEnv]. *)
Definition streamAfterHandBack : HQStreamTransport :=
  set_bytesWritten_ 6
    (set_writeBuf_ [x07; x08; x09; x0a]%byte streamWithTenBytes).

Definition handBackEvents : list Event :=
  [EvWriteChain 16 [x01; x02; x03; x04; x05; x06; x07; x08; x09; x0a]%byte
     false (WriteOk [x07; x08; x09; x0a]%byte)].

(** Request stream 16 with ten bytes and the end of the message to write. *)
Definition streamWithTenBytesAndEOM : HQStreamTransport :=
  set_pendingEOM_ true streamWithTenBytes.

(** [streamWithTenBytesAndEOM] after the scheduler served it against a
    window of four bytes: blocked on flow control. *)
Definition streamAfterWindow : HQStreamTransport :=
  pauseEgress
    (set_streamTransportEnqueued false
       (set_bytesWritten_ 4
          (set_writeBuf_ [x05; x06; x07; x08; x09; x0a]%byte
             streamWithTenBytesAndEOM))).

Definition windowEvents : list Event :=
  [EvWriteChain 16 [x01; x02; x03; x04]%byte false (WriteOk [])].

(** Request stream 16 with two bytes buffered and a transaction that has
    body to add. *)
Definition streamWithBodyToAdd : HQStreamTransport :=
  set_transactionEnqueued true
    (set_txn_ {| txnHasPendingBody := true; txnEgressEOMQueued := false;
                 txnIngressStarted := false; txnEgressComplete := false;
                 txnEgressPaused := false; txnPendingByteEvents := 0 |}
       (set_streamTransportEnqueued true
          (set_writeBuf_ [x01; x02]%byte (newStream 16)))).

(** A transport with a window of eight bytes; the transaction adds at most
    three bytes of body. *)
Definition bodyEnv : WriteEnv :=
  {| flowControl := inr 8;
     writeResult := WriteOk [];
     txnOnWriteReady := fun n st =>
       set_writeBuf_
         (writeBuf_ st ++ replicate (Z.to_nat (Z.min n 3)) x00%byte) st |}.

(** Request stream 16 with ten bytes buffered and a transaction that has
    only its end of message left. *)
Definition streamWithEOMQueued : HQStreamTransport :=
  set_transactionEnqueued true
    (set_txn_ {| txnHasPendingBody := false; txnEgressEOMQueued := true;
                 txnIngressStarted := false; txnEgressComplete := false;
                 txnEgressPaused := false; txnPendingByteEvents := 0 |}
       streamWithTenBytes).

(** The peer's control stream holds a GOAWAY frame with the id 4, which
    its codec reports as soon as it is read. *)
Definition goawayRead : ReadEnv :=
  {| consumeOk := true;
     readResult := inr ([x07; x01; x04]%byte, false);
     onUnidirectionalIngress :=
       fun _ => ([CbGoaway goodEnv 4 EC_NO_ERROR], []);
     onUnidirectionalIngressEOF := [] |}.

(** ** Further operations of the session *)

(** [onStopSending(id, error)]: the peer asks to stop sending on stream
    [id]. *)
Definition onStopSending (id : Z) (error : HTTP3.ErrorCode) (s : HQSession)
  : option HQSession :=
  match findStream id s with
  | Some st =>
      '(st1, ev) ← handleWriteError s (ApplicationErrorCode error) st;
      Some (emit ev (set_streams_ (<[id := st1]> (streams_ s)) s))
  | None => Some s
  end.

(** What the socket answers while one control stream is written.  The
    maps of the error codes, [quicControlStreamError] (which gives a
    local error code back as it is) and [toProxygenError] (of another
    file), are kept abstract: what is proved holds for every such map. *)
Record CtrlWriteEnv : Type := mkCtrlWriteEnv {
  ctrlFlowControl : quic.LocalErrorCode + Z;
  ctrlWriteResult : WriteResult;
  quicControlStreamError : quic.LocalErrorCode -> QuicErrorCode;
  toProxygenError : quic.LocalErrorCode -> ProxygenError
}.

(** [controlStreamWriteImpl(ctrlStream, maxEgress)] on the control stream
    of type [type]: the bytes sent, and the session afterwards. *)
Definition controlStreamWriteImpl (env : CtrlWriteEnv)
    (type : UnidirectionalStreamType) (maxEgress : Z) (s : HQSession)
  : option (Z * HQSession) :=
  match controlStreams_ s !! type with
  | None => None
  | Some ctrlStream =>
      match ctrlFlowControl env with
      | inl e =>
          Some (0, handleSessionError true (quicControlStreamError env e)
                     (toProxygenError env e) s)
      | inr streamSendWindow =>
          let canSend := Z.min streamSendWindow maxEgress in
          let sendLen := Z.min canSend (chainLength (ctrlWriteBuf_ ctrlStream)) in
          let '(tryWriteBuf, rest) :=
            splitAtMost canSend (ctrlWriteBuf_ ctrlStream) in
          let '(writeRes, wb, ev) :=
            writeBase (egressStreamId ctrlStream) rest tryWriteBuf sendLen false
              (ctrlWriteResult env) in
          let s1 :=
            emit ev
              (set_controlStreams_
                 (<[type := set_ctrlWriteBuf_ wb ctrlStream]> (controlStreams_ s))
                 s) in
          match writeRes with
          | inl e =>
              Some (0, handleSessionError true (quicControlStreamError env e)
                         kErrorWrite s1)
          | inr sent =>
              if negb (maxEgress >=? sent) then None else Some (sent, s1)
          end
      end
  end.

(** The loop of [writeControlStreams]: the budget left after the control
    streams [types], in this order. *)
Fixpoint writeControlStreamsLoop (env : UnidirectionalStreamType -> CtrlWriteEnv)
    (types : list UnidirectionalStreamType) (maxEgress : Z) (s : HQSession)
  : option (Z * HQSession) :=
  match types with
  | [] => Some (maxEgress, s)
  | type :: rest =>
      match controlStreams_ s !! type with
      | None => None
      | Some ctrlStream =>
          if chainLength (ctrlWriteBuf_ ctrlStream) =? 0
          then writeControlStreamsLoop env rest maxEgress s
          else
            '(sent, s1) ← controlStreamWriteImpl (env type) type maxEgress s;
            let maxEgress1 := maxEgress - sent in
            if maxEgress1 =? 0 then Some (maxEgress1, s1)
            else writeControlStreamsLoop env rest maxEgress1 s1
      end
  end.

(** [writeControlStreams(maxEgress)]: the bytes sent.  The control streams
    are served in the order the map stores them. *)
Definition writeControlStreams (env : UnidirectionalStreamType -> CtrlWriteEnv)
    (maxEgress : Z) (s : HQSession) : option (Z * HQSession) :=
  '(remaining, s1) ←
    writeControlStreamsLoop env (fst <$> map_to_list (controlStreams_ s))
      maxEgress s;
  Some (maxEgress - remaining, s1).

(** [writeRequestStreams(maxEgress)]: the budget left.  [queue] is what
    the egress queue hands out ([nextEgress]), with the answers of the
    transport and the transaction for each stream. *)
Fixpoint writeRequestStreams (queue : list (Z * WriteEnv)) (maxEgress : Z)
    (s : HQSession) : option (Z * HQSession) :=
  match queue with
  | [] => Some (maxEgress, s)
  | (id, env) :: rest =>
      match streams_ s !! id with
      | None => None
      | Some hqStream =>
          '(st1, ev, sent) ← requestStreamWriteImpl s env maxEgress hqStream;
          let s1 := emit ev (set_streams_ (<[id := st1]> (streams_ s)) s) in
          let maxEgress1 := maxEgress - sent in
          if (maxEgress1 =? 0) && negb (bool_decide (rest = []))
          then Some (maxEgress1, s1)
          else writeRequestStreams rest maxEgress1 s1
      end
  end.

(** [timeoutExpired()]: the idle timeout of the connection. *)
Definition timeoutExpired (env : SessionEnv) (s : HQSession) : option HQSession :=
  if bool_decide (0 < getNumStreams s)%nat then Some s
  else closeWhenIdle env s.

(** What the codec and the transport answer during one [rejectBodyTo]. *)
Record RejectEnv : Set := mkRejectEnv {
  onEgressBodyReject : Z -> option Z;
  sendDataRejected : quic.LocalErrorCode + option Z
}.

(** [rejectBodyTo(txn, nextBodyOffset)]. *)
Definition rejectBodyTo (s : HQSession) (env : RejectEnv) (nextBodyOffset : Z)
    (st : HQStreamTransport)
  : option ((ErrorCode + option Z) * HQStreamTransport * list Event) :=
  if negb (partialReliabilityEnabled_ s) then Some (inl EC_PROTOCOL_ERROR, st, [])
  else
    match versionUtils_ s with
    | None => None
    | Some _ =>
        match onEgressBodyReject env nextBodyOffset with
        | None =>
            let '(st1, ev) :=
              errorOnTransaction (HTTPException.make HTTPException.EGRESS) st in
            Some (inl EC_INTERNAL_ERROR, st1, ev)
        | Some streamOffset =>
            match sendDataRejected env with
            | inr r => Some (inr r, st, [])
            | inl _ => Some (inl EC_INTERNAL_ERROR, st, [])
            end
        end
    end.

(** ** Predicates the further statements use *)

(** The profiles with control streams. *)
Definition framed (v : HQVersion) : Prop := v = H1Q_FB_V2 \/ v = HQ.

(** The control streams a profile opens at setup, in order. *)
Definition egressControlTypes (v : HQVersion) : list UnidirectionalStreamType :=
  match v with
  | H1Q_FB_V1 => []
  | H1Q_FB_V2 => [H1Q_CONTROL]
  | HQ => [CONTROL; QPACK_ENCODER; QPACK_DECODER]
  end.

(** The bytes the transport took, over all streams: what was passed to
    the writes that did not fail, less what they handed back. *)
Fixpoint bytesTaken (tr : list Event) : Z :=
  match tr with
  | [] => 0
  | EvWriteChain _ data _ (WriteOk notWritten) :: rest =>
      chainLength data - chainLength notWritten + bytesTaken rest
  | _ :: rest => bytesTaken rest
  end.

(** A write of which the transport handed back no more than it was
    given. *)
Definition handsBackPart (ev : Event) : Prop :=
  match ev with
  | EvWriteChain _ data _ (WriteOk notWritten) =>
      chainLength notWritten <= chainLength data
  | _ => True
  end.

(** The stream windows the socket reports are unsigned. *)
Definition windowOk (env : WriteEnv) : Prop :=
  match flowControl env with
  | inr w => 0 <= w
  | inl _ => True
  end.

Definition ctrlWindowOk (env : CtrlWriteEnv) : Prop :=
  match ctrlFlowControl env with
  | inr w => 0 <= w
  | inl _ => True
  end.

(** A socket for the control streams with a window of [w] bytes that takes
    all it is given. *)
Definition ctrlWindowEnv (w : Z) : CtrlWriteEnv :=
  {| ctrlFlowControl := inr w;
     ctrlWriteResult := WriteOk [];
     quicControlStreamError := LocalErrorCode;
     toProxygenError := fun _ => kErrorNetwork |}.

(** A server with two request streams, 16 and 20, each enqueued with ten
    bytes to write, and the queue that serves them in this order against
    windows of four bytes. *)
Definition serverWritingTwo : HQSession :=
  set_streams_
    (<[16 := streamWithTenBytes]>
       (<[20 := set_streamTransportEnqueued true
                  (set_writeBuf_
                     [x01; x02; x03; x04; x05; x06; x07; x08; x09; x0a]%byte
                     (newStream 20))]> ∅))
    (set_versionUtils_ (Some HQ)
       (set_version_ (Some HQ) (newSession DOWNSTREAM))).

Definition twoStreamQueue : list (Z * WriteEnv) :=
  [(16, windowEnv 4); (20, windowEnv 4)].

(** *** What the calls leave alone

    [lifeKept s s'] is what a call that neither closes the socket nor
    destroys the session keeps: the session stays as alive as it was, no
    close is asked of the socket, a pending loop callback stays pending,
    and a latched drop stays latched (one that is latched on the way
    leaves the loop callback pending). *)
Record lifeKept (s s' : HQSession) : Prop := LifeKept {
  lk_destroyed : destroyed_ s' = destroyed_ s;
  lk_sock : sock_ s' = sock_ s;
  lk_dropping : dropping_ s' = dropping_ s;
  lk_closes : sockCloses (trace_ s') = sockCloses (trace_ s);
  lk_sched :
    loopCallbackScheduled_ s = true -> loopCallbackScheduled_ s' = true;
  lk_latch :
    dropInNextLoop_ s' = dropInNextLoop_ s
    \/ (dropInNextLoop_ s = None /\ loopCallbackScheduled_ s' = true)
}.

(** [marksKept s s'] is what a call that neither announces a GOAWAY nor
    accepts a stream keeps: the role, the greatest incoming stream id, the
    GOAWAYs announced and the streams accepted so far; and it does not
    enter a GOAWAY state. *)
Record marksKept (s s' : HQSession) : Prop := MarksKept {
  mk_direction : direction_ s' = direction_ s;
  mk_maxIncoming : maxIncomingStreamId_ s' = maxIncomingStreamId_ s;
  mk_goaways : goawayIds (trace_ s') = goawayIds (trace_ s);
  mk_accepted : acceptedStreams (trace_ s') = acceptedStreams (trace_ s);
  mk_drain :
    drainState_ s' = FIRST_GOAWAY \/ drainState_ s' = SECOND_GOAWAY ->
    drainState_ s' = drainState_ s
}.

(** What holds of the socket in every reachable state: a session that is
    not destroyed holds its socket, is not dropping, has asked for no
    close, and has the loop callback pending when a drop is latched; a
    destroyed session has released the socket after one close, holds no
    stream, and its drain is DONE. *)
Definition lifeInv (s : HQSession) : Prop :=
  if destroyed_ s
  then sock_ s = false /\ streams_ s = ∅ /\ drainState_ s = DONE
       /\ length (sockCloses (trace_ s)) = 1%nat
  else sock_ s = true /\ dropping_ s = false /\ sockCloses (trace_ s) = []
       /\ (dropInNextLoop_ s <> None -> loopCallbackScheduled_ s = true).

(** What holds of the GOAWAYs a session announced, in every reachable
    state: none, and then the session is in no GOAWAY state of its own
    sending; or the first, with the greatest stream id there is; or the
    first and the second, the second with the greatest incoming stream id,
    which no longer moves.  Only a server of a framed profile announces
    any. *)
Definition goawayInv (s : HQSession) : Prop :=
  (goawayIds (trace_ s) = []
   /\ drainState_ s <> SECOND_GOAWAY
   /\ (drainState_ s = FIRST_GOAWAY -> direction_ s = UPSTREAM))
  \/ (direction_ s = DOWNSTREAM
      /\ (exists v, versionUtils_ s = Some v /\ framed v)
      /\ ((goawayIds (trace_ s) = [quic.kEightByteLimit]
           /\ (drainState_ s = FIRST_GOAWAY \/ drainState_ s = DONE))
          \/ (goawayIds (trace_ s)
              = [quic.kEightByteLimit; maxIncomingStreamId_ s]
              /\ (drainState_ s = SECOND_GOAWAY \/ drainState_ s = DONE)))).

(** What holds of the streams a session accepted, in every reachable
    state: none before the version profile is installed; a bidirectional
    one was initiated by the client; and the unframed profile accepted no
    other. *)
Definition acceptedInv (s : HQSession) : Prop :=
  (versionUtils_ s = None -> acceptedStreams (trace_ s) = [])
  /\ Forall (fun id =>
               (quic.isBidirectionalStream id = true ->
                quic.isClientStream id = true)
               /\ (versionUtils_ s = Some H1Q_FB_V1 ->
                   quic.isBidirectionalStream id = true))
       (acceptedStreams (trace_ s)).

(** An event that is neither a close of the socket, nor a GOAWAY, nor an
    accepted stream. *)
Definition quietEvent (ev : Event) : Prop :=
  match ev with
  | EvSockClose _ | EvGenerateGoaway _ _ | EvStreamAccepted _ => False
  | _ => True
  end.

(** What holds of the GOAWAYs and of the accepted streams together. *)
Definition marksInv (s : HQSession) : Prop := goawayInv s /\ acceptedInv s.

(** A server session of the HTTP/3 profile right after its transport is
    ready: the egress control streams exist, no request stream yet. *)
Definition idleServer : HQSession :=
  default (newSession DOWNSTREAM)
    (run [OpTransportReady goodEnv (Some kH3CurrentDraft)]
       (newSession DOWNSTREAM)).

(** The server with two streams after its whole drain: both GOAWAYs were
    announced and acknowledged. *)
Definition drainOps : list Op :=
  [OpNotifyPendingShutdown goodEnv; OpGoawayAck goodEnv; OpGoawayAck goodEnv].

Definition drainedServer : HQSession :=
  default serverWithTwoStreams (run drainOps serverWithTwoStreams).

(** The drained server after [dropConnection]. *)
Definition droppedServer : HQSession :=
  default drainedServer (apply_op (OpDropConnection goodEnv "") drainedServer).

(** The server with two streams and a drop latched for the next loop. *)
Definition latchedServer : HQSession :=
  default serverWithTwoStreams
    (apply_op
       (OpDropConnectionAsync
          (ApplicationErrorCode HTTP3.HTTP_WRONG_STREAM_COUNT)
          "HTTP wrong stream count" kErrorConnection)
       serverWithTwoStreams).

(** The exception a failed write raises on the transaction. *)
Definition writeException (e : quic.LocalErrorCode) : HTTPException.t :=
  HTTPException.setProxygenError kErrorWrite
    (HTTPException.setErrno (LocalErrorCode e)
       (HTTPException.make HTTPException.INGRESS_AND_EGRESS)).

(** What a failed write leaves of request stream [st]: [st'] holds
    nothing to read or to write and is out of the egress queue, its count
    of written bytes is as it was, and [ev] asks the peer to stop sending,
    resets the stream and tells the transaction, if it is attached. *)
Definition endedByWriteError (s : HQSession) (e : quic.LocalErrorCode)
    (st st' : HQStreamTransport) (ev : list Event) : Prop :=
  writeBuf_ st' = [] /\ readBuf_ st' = [] /\ pendingEOM_ st' = false
  /\ ingressError_ st' = true /\ streamTransportEnqueued st' = false
  /\ bytesWritten_ st' = bytesWritten_ st /\ detached_ st' = detached_ st
  /\ streamId st' = streamId st
  /\ ev = versionUtilsAbortStream s (streamId st)
          ++ [EvStopSending (streamId st) HTTP3.HTTP_REQUEST_CANCELLED;
              EvResetStream (streamId st) HTTP3.HTTP_REQUEST_CANCELLED]
          ++ (if detached_ st then []
              else [EvTxnOnError (streamId st) (writeException e)]).

(** What an egress error leaves of request stream [st]: [st'] holds
    nothing more to write and is out of the egress queue, while what it
    read and what it counted stay. *)
Definition egressAborted (st st' : HQStreamTransport) : Prop :=
  writeBuf_ st' = [] /\ pendingEOM_ st' = false
  /\ streamTransportEnqueued st' = false
  /\ readBuf_ st' = readBuf_ st /\ ingressError_ st' = ingressError_ st
  /\ bytesWritten_ st' = bytesWritten_ st
  /\ bytesSkipped_ st' = bytesSkipped_ st
  /\ detached_ st' = detached_ st.

(** [ctrlKept s s'] is what a call after setup keeps of the control
    streams: the profile, and every control stream there is. *)
Record ctrlKept (s s' : HQSession) : Prop := CtrlKept {
  ck_utils : versionUtils_ s' = versionUtils_ s;
  ck_version : version_ s' = version_ s;
  ck_streams :
    forall t, is_Some (controlStreams_ s !! t) ->
              is_Some (controlStreams_ s' !! t)
}.

(** What holds of the control streams in every reachable state: a
    session that is not destroyed has the egress control streams of its
    profile. *)
Definition ctrlInv (s : HQSession) : Prop :=
  destroyed_ s = false ->
  forall v, versionUtils_ s = Some v ->
  forall t, t ∈ egressControlTypes v -> is_Some (controlStreams_ s !! t).

(** * Properties *)

(** ** Evolution is a preorder *)

Lemma drain_le_refl d : drain_le d d.
Proof. unfold drain_le. lia. Qed.

Lemma drain_le_trans a b c : drain_le a b -> drain_le b c -> drain_le a c.
Proof. unfold drain_le. lia. Qed.

Lemma drain_le_DONE d : drain_le d DONE.
Proof. destruct d; unfold drain_le; simpl; lia. Qed.

Lemma acceptedStreams_app tr1 tr2 :
  acceptedStreams (tr1 ++ tr2) = acceptedStreams tr1 ++ acceptedStreams tr2.
Proof. unfold acceptedStreams. apply omap_app. Qed.

Lemma evolves_refl s : evolves s s.
Proof.
  constructor; auto using drain_le_refl; try lia.
  exists []. rewrite app_nil_r. split; [done | constructor].
Qed.

Lemma evolves_trans s1 s2 s3 : evolves s1 s2 -> evolves s2 s3 -> evolves s1 s3.
Proof.
  intros [d1 v1 i1 a1 r1 l1 (e1 & t1 & f1) g1 w1 c1]
         [d2 v2 i2 a2 r2 l2 (e2 & t2 & f2) g2 w2 c2].
  constructor.
  - congruence.
  - destruct v1 as [[? ?] | (? & ? & ?)], v2 as [[? ?] | (? & ? & ?)].
    + left. split; congruence.
    + right. repeat split; congruence.
    + right. repeat split; congruence.
    + right. repeat split; congruence.
  - lia.
  - lia.
  - eauto using drain_le_trans.
  - auto.
  - exists (e1 ++ e2). split.
    + rewrite t2, t1. by rewrite app_assoc.
    + rewrite acceptedStreams_app. apply Forall_app. split; [| done].
      eapply Forall_impl; [exact f1 |]. simpl. intros id H Hb.
      specialize (H Hb). lia.
  - intros Hu Hs. apply g1; [done |]. apply g2; [congruence | done].
  - intros Hv Hs. apply w1.
    + destruct v2 as [[? Hvu] | (Hn & ? & ?)].
      * by rewrite <- Hvu.
      * by left.
    + by apply w2.
  - intros Hv Hs. apply c1.
    + destruct v2 as [[? Hvu] | (Hn & ? & ?)].
      * by rewrite <- Hvu.
      * by rewrite Hn.
    + by apply c2.
Qed.

(** An update that leaves alone every field [evolves] reads. *)
Lemma evolves_frame s s' :
  direction_ s' = direction_ s ->
  version_ s' = version_ s ->
  versionUtils_ s' = versionUtils_ s ->
  maxIncomingStreamId_ s' = maxIncomingStreamId_ s ->
  maxAllowedStreamId_ s' = maxAllowedStreamId_ s ->
  drainState_ s' = drainState_ s ->
  dropInNextLoop_ s' = dropInNextLoop_ s ->
  trace_ s' = trace_ s ->
  evolves s s'.
Proof.
  intros Hd Hv Hu Hi Ha Hr Hl Ht. constructor; rewrite ?Hd, ?Hv, ?Hu, ?Hr; auto.
  - lia.
  - lia.
  - apply drain_le_refl.
  - by rewrite Hl.
  - exists []. rewrite Ht, app_nil_r. split; [done | constructor].
Qed.

(** An update of the drain state alone, to a state not before the
    present one and that the role and the profile allow. *)
Lemma evolves_set_drain s d :
  drain_le (drainState_ s) d ->
  (d = SECOND_GOAWAY -> direction_ s = DOWNSTREAM) ->
  (d = FIRST_GOAWAY \/ d = SECOND_GOAWAY ->
   versionUtils_ s = Some H1Q_FB_V2 \/ versionUtils_ s = Some HQ) ->
  (d = CLOSE_SENT \/ d = CLOSE_RECEIVED -> versionUtils_ s = Some H1Q_FB_V1) ->
  evolves s (set_drainState_ d s).
Proof.
  intros Hle H2 Hg Hc. constructor; simpl; auto; try lia.
  - exists []. rewrite app_nil_r. split; [done | constructor].
  - intros Hu Hd. specialize (H2 Hd). congruence.
  - intros Hv Hd. destruct (Hg Hd), Hv; congruence.
  - intros Hv Hd. specialize (Hc Hd). congruence.
Qed.

Lemma evolves_drain s d :
  drain_le (drainState_ s) d ->
  d = PENDING \/ d = DONE ->
  evolves s (set_drainState_ d s).
Proof.
  intros Hle Hd. apply evolves_set_drain; [done | ..];
    intros; destruct Hd; intuition congruence.
Qed.

(** Events that accept no stream. *)
Lemma evolves_emit s evs :
  acceptedStreams evs = [] -> evolves s (emit evs s).
Proof.
  intros He. constructor; simpl; auto using drain_le_refl; try lia.
  exists evs. rewrite He. split; [done | constructor].
Qed.

(** ** No stream operation accepts a stream *)

Lemma abortStream_accepts s dir id err :
  acceptedStreams (abortStream s dir id err) = [].
Proof.
  unfold abortStream, versionUtilsAbortStream.
  rewrite acceptedStreams_app.
  repeat case_match; reflexivity.
Qed.

Lemma errorOnTransaction_accepts ex st :
  acceptedStreams (errorOnTransaction ex st).2 = [].
Proof. unfold errorOnTransaction. simpl. by destruct (detached_ st). Qed.

Lemma onResetStream_accepts s code ex st :
  acceptedStreams (onResetStream s code ex st).2 = [].
Proof.
  unfold onResetStream, sendAbortImpl.
  destruct (errorOnTransaction _ st) as [st1 ev1] eqn:E. simpl.
  rewrite acceptedStreams_app, abortStream_accepts, app_nil_r.
  change ev1 with (st1, ev1).2. rewrite <- E. apply errorOnTransaction_accepts.
Qed.

Lemma handleWriteError_accepts s err st st1 ev :
  handleWriteError s err st = Some (st1, ev) -> acceptedStreams ev = [].
Proof.
  unfold handleWriteError. intros H.
  destruct err; simpl in H; try discriminate;
    injection H as <- <-;
    rewrite acceptedStreams_app, abortStream_accepts;
    by destruct (detached_ st).
Qed.

Lemma handleWrite_accepts s data n eof res st st1 ev sent :
  handleWrite s data n eof res st = Some (st1, ev, sent) ->
  acceptedStreams ev = [].
Proof.
  unfold handleWrite, writeBase. intros H.
  destruct res as [e | nw].
  - destruct (handleWriteError _ _ _) as [[st' ev1] |] eqn:E; [| discriminate].
    injection H as <- <- <-. simpl.
    exact (handleWriteError_accepts _ _ _ _ _ E).
  - destruct (negb _); injection H as <- <- <-; reflexivity.
Qed.

Lemma requestStreamWriteImpl_accepts s env maxEgress st st1 ev sent :
  requestStreamWriteImpl s env maxEgress st = Some (st1, ev, sent) ->
  acceptedStreams ev = [].
Proof.
  unfold requestStreamWriteImpl. intros H.
  destruct (negb (streamTransportEnqueued st)); [discriminate |].
  destruct (flowControl env) as [e | w].
  - destruct (handleWriteError _ _ _) as [[st' ev1] |] eqn:E; [| discriminate].
    injection H as <- <- <-. eapply handleWriteError_accepts, E.
  - set (canSend := Z.min w maxEgress) in *.
    set (wants := wantsOnWriteReady canSend st) in *.
    destruct (wants && _ && _).
    + injection H as <- <- <-. by destruct wants.
    + unfold splitAtMost in H. simpl in H.
      destruct (negb _); [discriminate |].
      destruct (handleWrite _ _ _ _ _ _) as [[[st3 ev2] sent'] |] eqn:E;
        [| discriminate].
      destruct (negb (maxEgress >=? sent')); [discriminate |].
      injection H as <- <- <-. rewrite acceptedStreams_app.
      rewrite (handleWrite_accepts _ _ _ _ _ _ _ _ _ E). by destruct wants.
Qed.

(** ** Every helper evolves the session *)

Lemma acceptedStreams_concat {A} (g : A -> list Event) (l : list A) :
  (forall a, acceptedStreams (g a) = []) ->
  acceptedStreams (concat (g <$> l)) = [].
Proof.
  intros Hg. induction l as [| a l IH]; [done |].
  rewrite fmap_cons. cbn [concat].
  by rewrite acceptedStreams_app, Hg, IH.
Qed.

Lemma invokeOnStreams_evolves p f s :
  (forall st, acceptedStreams (f st).2 = []) ->
  evolves s (invokeOnStreams p f s).
Proof.
  intros Hf. unfold invokeOnStreams.
  eapply evolves_trans; [| apply evolves_emit].
  - by apply evolves_frame.
  - apply acceptedStreams_concat. intros [k st]. simpl.
    destruct (p st); [apply Hf | done].
Qed.

(** Peel the updates off the right-hand side, outermost first. *)
Ltac evo_frame s t :=
  apply (evolves_trans s t); [| by apply evolves_frame].

Ltac evo_emit s t :=
  apply (evolves_trans s t);
  [| first [ by apply evolves_emit
           | apply evolves_emit, abortStream_accepts ] ].

Ltac evo_basic :=
  lazymatch goal with
  | |- evolves ?s ?s => apply evolves_refl
  | |- evolves ?s (emit _ ?t) => evo_emit s t
  | |- evolves ?s (abortStreamS _ _ _ ?t) => unfold abortStreamS
  | |- evolves ?s (rejectStream _ ?t) => unfold rejectStream
  | |- evolves ?s (set_streams_ _ ?t) => evo_frame s t
  | |- evolves ?s (set_sock_ _ ?t) => evo_frame s t
  | |- evolves ?s (set_destroyed_ _ ?t) => evo_frame s t
  | |- evolves ?s (set_checkFailed_ _ ?t) => evo_frame s t
  | |- evolves ?s (set_dropping_ _ ?t) => evo_frame s t
  | |- evolves ?s (set_alpn_ _ ?t) => evo_frame s t
  | |- evolves ?s (set_loopCallbackScheduled_ _ ?t) => evo_frame s t
  | |- evolves ?s (cancelLoopCallback ?t) => evo_frame s t
  | |- evolves ?s (set_controlStreams_ _ ?t) => evo_frame s t
  | |- evolves ?s (set_pendingUniStreams_ _ ?t) => evo_frame s t
  | |- evolves ?s (set_drainState_ DONE ?t) =>
      apply (evolves_trans s t);
      [| apply evolves_drain; [apply drain_le_DONE | by right] ]
  | |- evolves ?s (if ?c then _ else _) => destruct c eqn:?
  end.

Lemma scheduleLoopCallback_evolves s : evolves s (scheduleLoopCallback s).
Proof. unfold scheduleLoopCallback. repeat evo_basic. Qed.

Lemma checkForShutdown_evolves s : evolves s (checkForShutdown s).
Proof. unfold checkForShutdown. cbv zeta. repeat evo_basic. Qed.

Lemma errorOnTransactionErr_accepts perr st :
  acceptedStreams (errorOnTransactionErr perr st).2 = [].
Proof. apply errorOnTransaction_accepts. Qed.

Lemma errorOnDroppedTransaction_events env perr st :
  (errorOnDroppedTransaction env perr st).2 = (errorOnTransactionErr perr st).2.
Proof.
  unfold errorOnDroppedTransaction.
  by destruct (errorOnTransactionErr perr st).
Qed.

Lemma dropConnectionSync_evolves env code perr s :
  evolves s (dropConnectionSync env code perr s).
Proof.
  unfold dropConnectionSync. cbv zeta.
  destruct (dropping_ s); [apply evolves_refl |].
  assert (forall t, evolves s t ->
            evolves s (if bool_decide (getNumStreams t = 0%nat) then t
                       else set_checkFailed_ true t)) as Hend.
  { intros t Ht. case_bool_decide; [done |]. evo_frame s t. exact Ht. }
  apply Hend.
  eapply evolves_trans; [| apply checkForShutdown_evolves].
  repeat evo_basic.
  unfold invokeOnAllStreams.
  eapply evolves_trans; [| apply invokeOnStreams_evolves].
  - repeat evo_basic.
  - intros st. rewrite errorOnDroppedTransaction_events.
    apply errorOnTransactionErr_accepts.
Qed.

Lemma dropConnectionAsync_evolves code perr s :
  evolves s (dropConnectionAsync code perr s).
Proof.
  unfold dropConnectionAsync.
  destruct (dropInNextLoop_ s) eqn:E; [apply evolves_refl |].
  eapply evolves_trans; [| apply scheduleLoopCallback_evolves].
  constructor; simpl; auto using drain_le_refl; try lia.
  - intros x. by rewrite E.
  - exists []. rewrite app_nil_r. split; [done | constructor].
Qed.

Lemma onConnectionError_evolves env code s :
  evolves s (onConnectionError env code s).
Proof.
  unfold onConnectionError.
  eapply evolves_trans; [| apply dropConnectionSync_evolves].
  repeat evo_basic.
Qed.

(** A move into a GOAWAY state on a session of a framed profile. *)
Lemma evolves_drain_framed s d :
  drain_le (drainState_ s) d ->
  d = FIRST_GOAWAY \/ (d = SECOND_GOAWAY /\ direction_ s = DOWNSTREAM) ->
  versionUtils_ s = Some H1Q_FB_V2 \/ versionUtils_ s = Some HQ ->
  evolves s (set_drainState_ d s).
Proof.
  intros Hle Hd Hv. apply evolves_set_drain; [done | ..];
    intros; intuition congruence.
Qed.

(** A move into a close state on a session of the unframed profile. *)
Lemma evolves_drain_unframed s d :
  drain_le (drainState_ s) d ->
  d = CLOSE_SENT \/ d = CLOSE_RECEIVED ->
  versionUtils_ s = Some H1Q_FB_V1 ->
  evolves s (set_drainState_ d s).
Proof.
  intros Hle Hd Hv. apply evolves_set_drain; [done | ..];
    intros; intuition congruence.
Qed.

Lemma GoawayUtils_sendGoaway_evolves env s s' :
  versionUtils_ s = Some H1Q_FB_V2 \/ versionUtils_ s = Some HQ ->
  GoawayUtils_sendGoaway env s = Some s' ->
  evolves s s'.
Proof.
  intros Hv. unfold GoawayUtils_sendGoaway. cbv zeta.
  case_bool_decide as Hdir; [intros [= <-]; apply evolves_refl |].
  case_bool_decide as Hdone; [intros [= <-]; apply evolves_refl |].
  assert (direction_ s = DOWNSTREAM) as Hdown by by destruct (direction_ s).
  destruct (controlStreams_ s !! _) as [cs |]; [| discriminate].
  destruct (streamWriteOffset env), (streamWriteBufferedBytes env);
    try (intros [= <-]; repeat evo_basic).
  destruct (_ =? 0); [intros [= <-]; repeat evo_basic |].
  destruct (negb _); [intros [= <-]; repeat evo_basic |].
  case_bool_decide as Hp; intros [= <-].
  - eapply evolves_trans; [| apply evolves_drain_framed; simpl; auto].
    + repeat evo_basic.
    + simpl in Hp. rewrite Hp. unfold drain_le. simpl. lia.
  - eapply evolves_trans; [| apply evolves_drain_framed; simpl; auto].
    + repeat evo_basic.
    + simpl in Hp. simpl.
      destruct (drainState_ s) eqn:?; unfold drain_le; simpl; try lia; congruence.
Qed.

Lemma sendGoaway_evolves v env s s' :
  versionUtils_ s = Some v ->
  sendGoaway v env s = Some s' ->
  evolves s s'.
Proof.
  intros Hv. destruct v; simpl.
  - intros [= <-]. apply evolves_refl.
  - apply GoawayUtils_sendGoaway_evolves. auto.
  - apply GoawayUtils_sendGoaway_evolves. auto.
Qed.

Lemma drainImpl_evolves env s s' :
  drainImpl env s = Some s' -> evolves s s'.
Proof.
  unfold drainImpl. cbv zeta.
  case_bool_decide as Hn; [intros [= <-]; apply evolves_refl |].
  assert (drainState_ s = NONE) as Hnone by by destruct (drainState_ s).
  assert (evolves s (set_drainState_ PENDING s)) as H1.
  { apply evolves_drain; [| by left].
    rewrite Hnone. unfold drain_le. simpl. lia. }
  simpl. destruct (versionUtils_ s) as [v |] eqn:Hv.
  - intros H. eapply evolves_trans; [exact H1 |].
    eapply sendGoaway_evolves; [| exact H]. done.
  - by intros [= <-].
Qed.

Lemma closeWhenIdle_evolves env s s' :
  closeWhenIdle env s = Some s' -> evolves s s'.
Proof.
  unfold closeWhenIdle. destruct (drainImpl env s) as [s1 |] eqn:E; [| done].
  simpl. intros [= <-].
  eapply evolves_trans; [eapply drainImpl_evolves, E |].
  eapply evolves_trans; [| apply checkForShutdown_evolves].
  repeat evo_basic.
Qed.

Lemma onGoawayAck_evolves env s s' :
  onGoawayAck env s = Some s' -> evolves s s'.
Proof.
  unfold onGoawayAck.
  case_bool_decide as H1.
  - destruct (versionUtils_ s) as [v |] eqn:Hv; [| done].
    destruct (sendGoaway v env s) as [s1 |] eqn:E; [| done].
    simpl. intros [= <-].
    eapply evolves_trans; [eapply sendGoaway_evolves; eauto |].
    apply scheduleLoopCallback_evolves.
  - case_bool_decide as H2; simpl; intros [= <-];
      (eapply evolves_trans; [| apply scheduleLoopCallback_evolves]);
      repeat evo_basic.
Qed.

Lemma onGoawayCanceled_evolves s : evolves s (onGoawayCanceled s).
Proof.
  unfold onGoawayCanceled.
  eapply evolves_trans; [| apply scheduleLoopCallback_evolves].
  repeat evo_basic.
Qed.

Lemma H1QFBV1_headersComplete_evolves env close s s' :
  versionUtils_ s = Some H1Q_FB_V1 ->
  drainState_ s <> FIRST_GOAWAY -> drainState_ s <> SECOND_GOAWAY ->
  H1QFBV1_headersComplete env close s = Some s' ->
  evolves s s'.
Proof.
  intros Hv Hf Hs. unfold H1QFBV1_headersComplete.
  case_bool_decide as Hd; [intros [= <-]; apply evolves_refl |].
  destruct close; [| intros [= <-]; apply evolves_refl].
  case_bool_decide as Hc; [intros [= <-]; repeat evo_basic |].
  case_bool_decide as Hn.
  - unfold drainImpl. rewrite bool_decide_false by (rewrite Hn; auto).
    cbv zeta. simpl. rewrite Hv. simpl. intros [= <-].
    eapply evolves_trans;
      [apply (evolves_drain s PENDING); [| by left] |
       apply evolves_drain_unframed; [| by right | done]].
    + rewrite Hn. unfold drain_le. simpl. lia.
    + unfold drain_le. simpl. lia.
  - simpl. intros [= <-].
    apply evolves_drain_unframed; [| by right | done].
    destruct (drainState_ s) eqn:?; unfold drain_le; simpl; try lia; congruence.
Qed.

Lemma headersComplete_evolves env close s s' :
  versionInv s ->
  headersComplete env close s = Some s' ->
  evolves s s'.
Proof.
  intros [_ Hinv]. unfold headersComplete.
  destruct (versionUtils_ s) as [[] |] eqn:Hv; try done.
  all: try (intros [= <-]; apply evolves_refl).
  destruct Hinv as [? ?]; [by right |].
  by apply H1QFBV1_headersComplete_evolves.
Qed.

Lemma H1QFBV1_checkSendingGoaway_evolves env keepalive s s' :
  versionUtils_ s = Some H1Q_FB_V1 ->
  H1QFBV1_checkSendingGoaway env keepalive s = Some s' ->
  evolves s s'.
Proof.
  intros Hv. unfold H1QFBV1_checkSendingGoaway, notifyPendingShutdown.
  set (o := if _ && _ then _ else _).
  destruct o as [s1 |] eqn:E; [| done]. simpl. intros [= <-].
  assert (evolves s s1) as H1.
  { subst o. destruct (_ && _).
    - by eapply drainImpl_evolves.
    - injection E as <-. apply evolves_refl. }
  eapply evolves_trans; [exact H1 |].
  case_bool_decide as Hc; [repeat evo_basic |].
  case_bool_decide as Hp; [| apply evolves_refl].
  apply evolves_drain_unframed; [| by left |].
  - rewrite Hp. unfold drain_le. simpl. lia.
  - destruct (ev_version _ _ H1) as [[_ ->] | [Hn _]]; congruence.
Qed.

Lemma checkSendingGoaway_evolves env keepalive s s' :
  checkSendingGoaway env keepalive s = Some s' ->
  evolves s s'.
Proof.
  unfold checkSendingGoaway.
  destruct (versionUtils_ s) as [[] |] eqn:Hv;
    try (intros [= <-]; apply evolves_refl).
  by apply H1QFBV1_checkSendingGoaway_evolves.
Qed.

Lemma onGoaway_evolves env lastGood code s s' :
  versionUtils_ s = Some H1Q_FB_V2 \/ versionUtils_ s = Some HQ ->
  onGoaway env lastGood code s = Some s' ->
  evolves s s'.
Proof.
  intros Hv. unfold onGoaway. cbv zeta.
  destruct (negb _); [done |]. case_bool_decide; [done |].
  set (s1 := set_maxAllowedStreamId_ _ s).
  assert (evolves s s1) as H1.
  { subst s1. constructor; simpl; auto using drain_le_refl; try lia.
    exists []. rewrite app_nil_r. split; [done | constructor]. }
  destruct (drainImpl env s1) as [s2 |] eqn:E; [| done].
  cbn [mbind option_bind]. intros [= <-].
  pose proof (drainImpl_evolves _ _ _ E) as H2.
  pose proof (evolves_trans _ _ _ H1 H2) as H12.
  set (s3 := invokeOnNonDetachedStreams _ s2).
  assert (evolves s2 s3) as H3.
  { subst s3. apply invokeOnStreams_evolves. intros st.
    destruct (_ >? _); [| done].
    pose proof (errorOnTransactionErr_accepts kErrorStreamUnacknowledged st) as Ha.
    destruct (errorOnTransactionErr _ st) as [st1 ev1].
    first [exact Ha | simpl; by destruct (detached_ st)]. }
  pose proof (evolves_trans _ _ _ H12 H3) as H123.
  eapply evolves_trans; [| apply checkForShutdown_evolves].
  eapply evolves_trans; [exact H123 |].
  assert (versionUtils_ s3 = Some H1Q_FB_V2 \/ versionUtils_ s3 = Some HQ) as Hv3.
  { destruct (ev_version _ _ H123) as [[_ ->] | [Hn _]]; [done |].
    destruct Hv; congruence. }
  assert (drainState_ s3 = drainState_ s2) as Hds by reflexivity.
  destruct (bool_decide (drainState_ s2 = NONE) || bool_decide (drainState_ s2 = PENDING))
    eqn:Hb.
  - apply evolves_drain_framed; [| by left | done].
    apply orb_true_iff in Hb as [Hb | Hb]; apply bool_decide_eq_true in Hb;
      rewrite Hds, Hb; unfold drain_le; simpl; lia.
  - destruct (bool_decide (drainState_ s2 = FIRST_GOAWAY));
      [repeat evo_basic | apply evolves_refl].
Qed.

Lemma checkNewStream_evolves v id s :
  evolves s (checkNewStream v id s).2.
Proof.
  destruct v; simpl;
    [ unfold H1QFBV1_checkNewStream
    | unfold GoawayUtils_checkNewStream
    | unfold GoawayUtils_checkNewStream ];
    repeat case_match; simpl; repeat evo_basic.
Qed.

Lemma createStreamTransport_evolves env id s :
  evolves s (createStreamTransport env id s).2.
Proof.
  unfold createStreamTransport. case_match; simpl; repeat evo_basic.
Qed.

Lemma onNewBidirectionalStream_evolves env id s s' :
  onNewBidirectionalStream env id s = Some s' -> evolves s s'.
Proof.
  unfold onNewBidirectionalStream.
  destruct (versionUtils_ s) as [v |]; [| done].
  pose proof (checkNewStream_evolves v id s) as H1.
  destruct (checkNewStream v id s) as [ok s1]. simpl in H1.
  destruct ok; simpl; [| by intros [= <-]].
  set (s1a := emit [EvStreamAccepted id] s1).
  pose proof (createStreamTransport_evolves env id s1a) as H2.
  destruct (createStreamTransport env id s1a) as [b s2]. simpl in H2.
  intros [= <-].
  eapply evolves_trans; [exact H1 |].
  destruct H2 as [d2 v2 i2 a2 r2 l2 (e2 & t2 & f2) g2 w2].
  subst s1a. simpl in *.
  constructor; simpl; auto; try lia.
  - exists (EvStreamAccepted id :: e2). split.
    + rewrite t2. by rewrite <- app_assoc.
    + change (EvStreamAccepted id :: e2) with ([EvStreamAccepted id] ++ e2).
      rewrite acceptedStreams_app. apply Forall_app. split.
      * repeat constructor. lia.
      * eapply Forall_impl; [exact f2 |]. simpl. intros x Hx Hb.
        specialize (Hx Hb). lia.
Qed.

Lemma onNewUnidirectionalStream_evolves id s s' :
  quic.isUnidirectionalStream id = true ->
  onNewUnidirectionalStream id s = Some s' -> evolves s s'.
Proof.
  intros Hu. unfold onNewUnidirectionalStream.
  destruct (versionUtils_ s) as [v |]; [| done].
  pose proof (checkNewStream_evolves v id s) as H1.
  destruct (checkNewStream v id s) as [ok s1]. simpl in H1.
  destruct ok; simpl; intros [= <-]; [| done].
  eapply evolves_trans; [exact H1 |].
  constructor; simpl; auto using drain_le_refl; try lia.
  exists [EvStreamAccepted id]. split; [done |].
  repeat constructor. unfold quic.isBidirectionalStream.
  unfold quic.isUnidirectionalStream in Hu. rewrite Hu. done.
Qed.

Lemma newTransaction_evolves env s : evolves s (newTransaction env s).2.
Proof.
  unfold newTransaction.
  destruct (_ || _ || _); [apply evolves_refl |].
  destruct (negb _); [apply evolves_refl |].
  destruct (createBidirectionalStream env) as [id |]; [| apply evolves_refl].
  pose proof (createStreamTransport_evolves env id s) as H1.
  destruct (createStreamTransport env id s) as [b s1]. simpl in H1.
  destruct b; simpl.
  - eapply evolves_trans; [exact H1 |]. repeat evo_basic.
  - eapply evolves_trans; [exact H1 |]. repeat evo_basic.
Qed.

Lemma createEgressControlStream_evolves env type s ok s' :
  createEgressControlStream env type s = Some (ok, s') -> evolves s s'.
Proof.
  unfold createEgressControlStream.
  destruct (createUnidirectionalStream env type).
  - destruct (controlStreams_ s !! type); [done |].
    intros [= <- <-]. repeat evo_basic.
  - intros [= <- <-]. apply onConnectionError_evolves.
Qed.

Lemma HQ_sendSettings_evolves env s s' :
  HQ_sendSettings env s = Some s' -> evolves s s'.
Proof.
  unfold HQ_sendSettings. destruct (controlStreams_ s !! CONTROL); [| done].
  intros [= <-]. repeat evo_basic.
Qed.

Lemma createEgressControlStreams_evolves v env s ok s' :
  createEgressControlStreams v env s = Some (ok, s') -> evolves s s'.
Proof.
  destruct v; simpl.
  - intros [= <- <-]. apply evolves_refl.
  - apply createEgressControlStream_evolves.
  - destruct (createEgressControlStream env CONTROL s) as [[ok1 s1] |] eqn:E1;
      [| done]. simpl.
    pose proof (createEgressControlStream_evolves _ _ _ _ _ E1) as H1.
    destruct ok1; simpl; [| by intros [= <- <-]].
    destruct (createEgressControlStream env QPACK_ENCODER s1) as [[ok2 s2] |] eqn:E2;
      [| done]. simpl.
    pose proof (createEgressControlStream_evolves _ _ _ _ _ E2) as H2.
    destruct ok2; simpl; [| intros [= <- <-]; eauto using evolves_trans].
    destruct (createEgressControlStream env QPACK_DECODER s2) as [[ok3 s3] |] eqn:E3;
      [| done]. simpl.
    pose proof (createEgressControlStream_evolves _ _ _ _ _ E3) as H3.
    destruct ok3; simpl; [| intros [= <- <-]; eauto using evolves_trans].
    destruct (HQ_sendSettings env s3) as [s4 |] eqn:E4; [| done]. simpl.
    pose proof (HQ_sendSettings_evolves _ _ _ E4) as H4.
    intros [= <- <-]. eauto using evolves_trans.
Qed.

Lemma createIngressControlStream_evolves id type s ok s' :
  createIngressControlStream id type s = Some (ok, s') -> evolves s s'.
Proof.
  unfold createIngressControlStream.
  destruct (controlStreams_ s !! type) as [cs |]; [| done].
  destruct (ingressCodec_ cs); intros [= <- <-].
  - apply dropConnectionAsync_evolves.
  - repeat evo_basic.
Qed.

Lemma errorOnTransactionId_evolves id ex s :
  evolves s (errorOnTransactionId id ex s).
Proof.
  unfold errorOnTransactionId, findStream.
  destruct (streams_ s !! id) as [st |]; [| apply evolves_refl].
  pose proof (errorOnTransaction_accepts ex st) as Ha.
  destruct (errorOnTransaction ex st) as [st1 ev]. simpl in Ha.
  repeat evo_basic.
Qed.

Lemma readError_evolves id error s : evolves s (readError id error s).
Proof.
  unfold readError. cbv zeta.
  destruct error as [code | code | code];
    [| apply errorOnTransactionId_evolves | apply errorOnTransactionId_evolves].
  unfold findNonDetachedStream.
  destruct (streams_ s !! id) as [st |]; [| apply evolves_refl].
  destruct (detached_ st); [apply evolves_refl |].
  pose proof (onResetStream_accepts s code
                (HTTPException.make HTTPException.INGRESS_AND_EGRESS) st) as Ha.
  destruct (onResetStream _ _ _ st) as [st1 ev]. simpl in Ha.
  repeat evo_basic.
Qed.

Lemma handleSessionError_evolves isControl err perr s :
  evolves s (handleSessionError isControl err perr s).
Proof.
  unfold handleSessionError. cbv zeta.
  destruct err as [e | e | e]; cbn [negb].
  - apply dropConnectionAsync_evolves.
  - destruct e; cbn [negb];
      first [apply evolves_refl | apply dropConnectionAsync_evolves].
  - apply dropConnectionAsync_evolves.
Qed.

Lemma evolves_framedUtils s s' : framedUtils s -> evolves s s' -> framedUtils s'.
Proof.
  unfold framedUtils. intros Hv He.
  destruct (ev_version _ _ He) as [[_ ->] | [Hn _]]; [done |].
  destruct Hv; congruence.
Qed.

Lemma controlCallback_evolves ingressId cb s s' :
  framedUtils s ->
  controlCallback ingressId cb s = Some s' -> evolves s s'.
Proof.
  intros Hv. destruct cb as [| env lastGood code | error]; cbn [controlCallback].
  - unfold onSettings. destruct (versionUtils_ s); [| done].
    intros [= <-]. apply evolves_refl.
  - by apply onGoaway_evolves.
  - unfold HQControlStream_onError.
    destruct (findControlStream ingressId s); [| done].
    intros [= <-]. apply handleSessionError_evolves.
Qed.

Lemma controlCallbacks_evolves ingressId cbs s s' :
  framedUtils s ->
  controlCallbacks ingressId cbs s = Some s' -> evolves s s'.
Proof.
  revert s. induction cbs as [| cb cbs IH]; intros s Hv; cbn [controlCallbacks].
  - intros [= <-]. apply evolves_refl.
  - destruct (controlCallback ingressId cb s) as [s1 |] eqn:E; [| done].
    cbn [mbind option_bind]. intros H.
    pose proof (controlCallback_evolves _ _ _ _ Hv E) as H1.
    eapply evolves_trans; [exact H1 |].
    apply IH; [by eapply evolves_framedUtils | done].
Qed.

Lemma HQControlStream_processReadData_evolves env type s s' :
  framedUtils s ->
  HQControlStream_processReadData env type s = Some s' -> evolves s s'.
Proof.
  intros Hv. unfold HQControlStream_processReadData.
  destruct (controlStreams_ s !! type) as [cs |]; [| done].
  cbn [mbind option_bind].
  destruct (ingressStreamId cs) as [ingressId |]; [| done].
  cbn [mbind option_bind].
  destruct (negb (ingressCodec_ cs)); [done |].
  set (o := if chainLength (ctrlReadBuf_ cs) >? 0 then _ else _).
  assert (forall s1, o = Some s1 -> evolves s s1) as Ho.
  { subst o. intros s1. destruct (_ >? 0); [| by intros [= <-]; apply evolves_refl].
    destruct (onUnidirectionalIngress env _) as [cbs ret].
    destruct (controlCallbacks ingressId cbs _) as [s2 |] eqn:E; [| done].
    cbn [mbind option_bind].
    destruct (controlStreams_ s2 !! type) as [cs2 |]; [| done].
    cbn [mbind option_bind]. intros [= <-].
    apply controlCallbacks_evolves in E; [| exact Hv].
    eapply evolves_trans; [| evo_frame s2 s2; apply evolves_refl].
    eapply evolves_trans; [| exact E]. repeat evo_basic. }
  destruct o as [s1 |]; [| done]. cbn [mbind option_bind].
  specialize (Ho s1 eq_refl).
  destruct (controlStreams_ s1 !! type) as [cs1 |]; [| done].
  cbn [mbind option_bind].
  destruct (_ && _); [| by intros [= <-]].
  intros H. eapply evolves_trans; [exact Ho |].
  eapply controlCallbacks_evolves; [| exact H].
  by eapply evolves_framedUtils.
Qed.

Lemma readControlStream_evolves env type s s' :
  framedUtils s ->
  readControlStream env type s = Some s' -> evolves s s'.
Proof.
  intros Hv. unfold readControlStream.
  destruct (controlStreams_ s !! type) as [cs |]; [| done].
  cbn [mbind option_bind].
  destruct (ingressStreamId cs) as [ingressId |]; [| done].
  cbn [mbind option_bind].
  destruct (readResult env) as [error | [data eof]].
  - intros [= <-]. apply readError_evolves.
  - intros H. apply HQControlStream_processReadData_evolves in H; [| exact Hv].
    eapply evolves_trans; [| exact H]. repeat evo_basic.
Qed.

Lemma controlStreamReadAvailable_evolves env id s s' :
  framedUtils s ->
  controlStreamReadAvailable env id s = Some s' -> evolves s s'.
Proof.
  intros Hv. unfold controlStreamReadAvailable.
  destruct (findControlStream id s) as [[type cs] |].
  - by apply readControlStream_evolves.
  - intros [= <-]. apply evolves_refl.
Qed.

Lemma parseStreamPreface_framed v type t :
  parseStreamPreface v type = Some t -> v = H1Q_FB_V2 \/ v = HQ.
Proof. destruct v; [done | by left | by right]. Qed.

Lemma assignReadCallback_evolves env id type s s' :
  assignReadCallback env id type s = Some s' -> evolves s s'.
Proof.
  unfold assignReadCallback, tryCreateIngressControlStream.
  destruct (negb (consumeOk env)); [done |].
  destruct (versionUtils_ s) as [v |] eqn:Hv; [| done]. cbv zeta.
  set (s0 := set_pendingUniStreams_ _ s).
  assert (evolves s s0) as H0 by (subst s0; repeat evo_basic).
  destruct (parseStreamPreface v type) as [t |] eqn:Hp; simpl.
  - destruct (createIngressControlStream id t s0) as [[ok s1] |] eqn:E; [| done].
    pose proof (createIngressControlStream_evolves _ _ _ _ _ E) as H1.
    pose proof (evolves_trans _ _ _ H0 H1) as H01.
    simpl. destruct ok; simpl.
    + intros H. eapply evolves_trans; [exact H01 |].
      eapply controlStreamReadAvailable_evolves; [| exact H].
      apply (evolves_framedUtils s); [| exact H01].
      unfold framedUtils. rewrite Hv.
      destruct (parseStreamPreface_framed _ _ _ Hp) as [-> | ->]; auto.
    + intros [= <-]. eapply evolves_trans; [exact H01 |]. repeat evo_basic.
  - intros [= <-]. eapply evolves_trans; [exact H0 |]. repeat evo_basic.
Qed.

Lemma getAndCheckApplicationProtocol_evolves env alpn s :
  versionUtils_ s = None -> version_ s = None ->
  evolves s (getAndCheckApplicationProtocol env alpn s).2.
Proof.
  intros Hu Hv. unfold getAndCheckApplicationProtocol. cbv zeta.
  assert (forall a v,
    evolves s (setVersionUtils (set_alpn_ a (set_version_ (Some v) s)))) as Hset.
  { intros a v. constructor; simpl; auto using drain_le_refl; try lia.
    - exists []. rewrite app_nil_r. split; [done | constructor]. }
  destruct alpn as [a |]; simpl.
  - repeat case_match; simpl in *; try congruence;
      try apply Hset; try apply onConnectionError_evolves.
  - apply onConnectionError_evolves.
Qed.

Lemma getAndCheckApplicationProtocol_utils env alpn s s1 :
  getAndCheckApplicationProtocol env alpn s = (true, s1) ->
  exists v, versionUtils_ s1 = Some v /\ version_ s1 = Some v.
Proof.
  unfold getAndCheckApplicationProtocol. cbv zeta.
  destruct alpn as [a |]; [| done].
  repeat case_match; try done; intros [= <-]; simpl in *; eauto.
Qed.

Lemma onTransportReadyCommon_evolves env alpn s ok s' :
  versionUtils_ s = None -> version_ s = None ->
  onTransportReadyCommon env alpn s = Some (ok, s') ->
  evolves s s'.
Proof.
  intros Hu Hv. unfold onTransportReadyCommon.
  pose proof (getAndCheckApplicationProtocol_evolves env alpn s Hu Hv) as H1.
  pose proof (getAndCheckApplicationProtocol_utils env alpn s) as Hok.
  destruct (getAndCheckApplicationProtocol env alpn s) as [ok1 s1].
  simpl in H1. destruct ok1; simpl; [| by intros [= <- <-]].
  destruct (Hok s1 eq_refl) as (v & Hv1 & _). rewrite Hv1.
  destruct (createEgressControlStreams v env s1) as [[ok2 s2] |] eqn:E2; [| done].
  pose proof (createEgressControlStreams_evolves _ _ _ _ _ E2) as H2.
  cbn [mbind option_bind]. destruct ok2; simpl; [| intros [= <- <-]; eauto using evolves_trans].
  assert (versionUtils_ s2 = Some v) as Hv2.
  { destruct (ev_version _ _ H2) as [[_ ->] | [Hn _]]; congruence. }
  case_bool_decide.
  - destruct (sendGoaway v env s2) as [s3 |] eqn:E3; [| done].
    cbn [mbind option_bind]. intros [= <- <-].
    pose proof (sendGoaway_evolves _ _ _ _ Hv2 E3). eauto using evolves_trans.
  - cbn [mbind option_bind]. intros [= <- <-]. eauto using evolves_trans.
Qed.

Lemma runLoopCallback_evolves env s : evolves s (runLoopCallback env s).
Proof.
  unfold runLoopCallback. cbv zeta.
  eapply evolves_trans; [| apply checkForShutdown_evolves].
  destruct (dropInNextLoop_ _) as [[[c m] p] |].
  - eapply evolves_trans; [| apply dropConnectionSync_evolves]. repeat evo_basic.
  - repeat evo_basic.
Qed.

Lemma onStream_evolves id f s s' :
  (forall st st1 ev, f st = Some (st1, ev) -> acceptedStreams ev = []) ->
  onStream id f s = Some s' -> evolves s s'.
Proof.
  intros Hf. unfold onStream.
  destruct (streams_ s !! id) as [st |]; [| done]. cbn [mbind option_bind].
  destruct (f st) as [[st1 ev] |] eqn:E; [| done]. cbn [mbind option_bind].
  intros [= <-].
  eapply evolves_trans; [| apply evolves_emit; eauto]. repeat evo_basic.
Qed.

(** ** Every call evolves the session *)

(** What a call with a result tells: the session was live, and the call
    did not stop on the final check of a drop. *)
Lemma apply_op_dispatch op s s' :
  apply_op op s = Some s' ->
  destroyed_ s = false /\ checkFailed_ s = false
  /\ checkFailed_ s' = false /\ dispatch op s = Some s'.
Proof.
  unfold apply_op.
  destruct (destroyed_ s); [done |]. destruct (checkFailed_ s); [done |].
  cbn [orb]. destruct (dispatch op s) as [s1 |]; [| done].
  cbn [mbind option_bind].
  destruct (checkFailed_ s1) eqn:Hf; [done |]. by intros [= <-].
Qed.

Lemma dispatch_evolves op s s' :
  versionInv s -> dispatch op s = Some s' -> evolves s s'.
Proof.
  intros Hinv. unfold dispatch.
  destruct op.
  - destruct (sock_ s); [| done]. simpl.
    case_bool_decide as Hu; [| done]. case_bool_decide as Hv; [| done]. simpl.
    destruct (onTransportReadyCommon env alpn s) as [[ok s1] |] eqn:E; [| done].
    simpl. intros [= <-]. by eapply onTransportReadyCommon_evolves.
  - apply drainImpl_evolves.
  - apply closeWhenIdle_evolves.
  - intros [= <-]. unfold dropConnection. apply dropConnectionSync_evolves.
  - destruct (sock_ s); [| done]. intros [= <-]. apply onConnectionError_evolves.
  - intros [= <-]. apply dropConnectionAsync_evolves.
  - destruct (sock_ s && _); [| done]. apply onNewBidirectionalStream_evolves.
  - destruct (sock_ s); [| done]. simpl.
    destruct (quic.isUnidirectionalStream id) eqn:Hid; [| done].
    by apply onNewUnidirectionalStream_evolves.
  - destruct (sock_ s); [| done]. apply assignReadCallback_evolves.
  - destruct (sock_ s); [| done]. apply onGoawayAck_evolves.
  - intros [= <-]. apply onGoawayCanceled_evolves.
  - by apply headersComplete_evolves.
  - apply checkSendingGoaway_evolves.
  - destruct (versionUtils_ s) as [[] |] eqn:Hv; try done;
      apply onGoaway_evolves; auto.
  - intros [= <-]. apply newTransaction_evolves.
  - intros [= <-]. apply runLoopCallback_evolves.
  - intros [= <-]. apply checkForShutdown_evolves.
  - destruct (sock_ s); [| done]. unfold readErrorApplication.
    apply onStream_evolves. intros st st1 ev.
    destruct (detached_ st); intros [= <- <-]; [done |].
    apply onResetStream_accepts.
  - destruct (sock_ s); [| done]. unfold writeRequestStream.
    apply onStream_evolves. intros st st1 ev.
    destruct (requestStreamWriteImpl s env maxEgress st) as [[[st2 ev2] n] |] eqn:E;
      [| done].
    cbn [mbind option_bind]. intros [= <- <-].
    eapply requestStreamWriteImpl_accepts, E.
  - unfold detachTransaction. apply onStream_evolves.
    by intros st st1 ev [= <- <-].
Qed.

Lemma apply_op_evolves op s s' :
  versionInv s -> apply_op op s = Some s' -> evolves s s'.
Proof.
  intros Hinv H. apply apply_op_dispatch in H as (_ & _ & _ & H).
  by eapply dispatch_evolves.
Qed.

Lemma initial_versionInv s : initial s -> versionInv s.
Proof.
  intros (Hv & Hu & Hd & _). split; [congruence |].
  intros _. rewrite Hd. split; congruence.
Qed.

Lemma evolves_versionInv s s' : versionInv s -> evolves s s' -> versionInv s'.
Proof.
  intros [Hvu Hg] He. split.
  - destruct (ev_version _ _ He) as [[-> ->] | (_ & _ & ?)]; done.
  - intros Hv'.
    assert (versionUtils_ s = None \/ versionUtils_ s = Some H1Q_FB_V1) as Hv.
    { destruct (ev_version _ _ He) as [[_ <-] | (? & _)]; auto. }
    destruct (Hg Hv) as [Hf Hs].
    split; intros Hd; destruct (ev_goaway _ _ He Hv'); auto.
Qed.

Lemma reachable_versionInv s : reachable s -> versionInv s.
Proof.
  induction 1 as [s Hi | s op s' Hr IH Hop].
  - by apply initial_versionInv.
  - eauto using evolves_versionInv, apply_op_evolves.
Qed.

Lemma reachable_run ops s s' :
  reachable s -> run ops s = Some s' -> reachable s'.
Proof.
  revert s. induction ops as [| op ops IH]; simpl; intros s Hr.
  - by intros [= <-].
  - destruct (apply_op op s) as [s1 |] eqn:E; [| done].
    cbn [mbind option_bind]. apply IH. by eapply reachable_step.
Qed.

Lemma run_evolves ops s s' :
  reachable s -> run ops s = Some s' -> evolves s s'.
Proof.
  revert s. induction ops as [| op ops IH]; simpl; intros s Hr.
  - intros [= <-]. apply evolves_refl.
  - destruct (apply_op op s) as [s1 |] eqn:E; [| done].
    cbn [mbind option_bind]. intros H.
    eapply evolves_trans.
    + eapply apply_op_evolves; eauto using reachable_versionInv.
    + apply IH; [by eapply reachable_step | done].
Qed.

Lemma initial_drainInv s : initial s -> drainInv s.
Proof.
  intros (_ & _ & Hd & _). unfold drainInv. rewrite Hd.
  split; intros _; [split |]; done.
Qed.

Lemma evolves_drainInv s s' : drainInv s -> evolves s s' -> drainInv s'.
Proof.
  intros [Hc Hs] He. split.
  - intros Hv'.
    assert (versionUtils_ s <> Some H1Q_FB_V1) as Hv.
    { destruct (ev_version _ _ He) as [[_ <-] | (Hn & _)]; [done |].
      by rewrite Hn. }
    destruct (Hc Hv) as [H1 H2].
    split; intros Hd; destruct (ev_close _ _ He Hv'); auto.
  - intros Hu Hd. rewrite (ev_direction _ _ He) in Hu.
    apply (Hs Hu). by apply (ev_second _ _ He).
Qed.

Lemma reachable_drainInv s : reachable s -> drainInv s.
Proof.
  induction 1 as [s Hi | s op s' Hr IH Hop].
  - by apply initial_drainInv.
  - eauto using evolves_drainInv, apply_op_evolves, reachable_versionInv.
Qed.

Lemma initial_newSession dir : initial (newSession dir).
Proof. repeat split. Qed.

(** ** The two GOAWAYs of a draining server *)

Lemma goawayIds_app tr1 tr2 :
  goawayIds (tr1 ++ tr2) = goawayIds tr1 ++ goawayIds tr2.
Proof. unfold goawayIds. apply omap_app. Qed.

(** When the frame is generated and the callback is taken, sending a
    GOAWAY announces [getGoawayStreamId], registers the delivery callback
    behind the frame, and moves the drain state one step. *)
Lemma GoawayUtils_sendGoaway_delivered env s :
  framedDownstream s -> goawayDelivered env -> drainState_ s <> DONE ->
  exists s' ct id off,
    GoawayUtils_sendGoaway env s = Some s'
    /\ trace_ s' = trace_ s ++ [EvGenerateGoaway ct (getGoawayStreamId s);
                               EvRegisterDeliveryCallback id off]
    /\ drainState_ s' = (if bool_decide (drainState_ s = PENDING)
                         then FIRST_GOAWAY else SECOND_GOAWAY)
    /\ maxIncomingStreamId_ s' = maxIncomingStreamId_ s
    /\ framedDownstream s'.
Proof.
  intros (Hdir & v & Hv & Hver & Hutils & [cs Hcs]) (Hf & [wo Hwo] & [wb Hwb] & Hreg) Hd.
  unfold GoawayUtils_sendGoaway. cbv zeta.
  rewrite bool_decide_false by (rewrite Hdir; done).
  rewrite bool_decide_false by done.
  assert ((if bool_decide (version_ s = Some H1Q_FB_V2) then H1Q_CONTROL else CONTROL)
          = goawayControlType v) as ->.
  { rewrite Hver. destruct Hv as [-> | ->]; reflexivity. }
  rewrite Hcs, Hwo, Hwb, Hreg.
  assert ((chainLength (goawayFrame env) =? 0) = false) as ->.
  { apply Z.eqb_neq. unfold chainLength. destruct (goawayFrame env); [done |].
    simpl. lia. }
  simpl negb. cbv iota.
  assert (forall d s0, framedDownstream s0 ->
            framedDownstream (set_drainState_ d s0)) as Hfd by (intros ? ? H; exact H).
  assert (forall s0, direction_ s0 = DOWNSTREAM -> version_ s0 = Some v ->
            versionUtils_ s0 = Some v ->
            is_Some (controlStreams_ s0 !! goawayControlType v) ->
            framedDownstream s0) as Hmk.
  { intros s0 ? ? ? ?. split; [done |]. by exists v. }
  case_bool_decide as Hp; simpl in Hp.
  - eexists _, _, _, _. split; [reflexivity |]. simpl.
    rewrite <- app_assoc. repeat split; try done.
    + by rewrite bool_decide_true.
    + exists v. repeat split; try done. simpl. rewrite lookup_insert_eq. by eexists.
  - eexists _, _, _, _. split; [reflexivity |]. simpl.
    rewrite <- app_assoc. repeat split; try done.
    + by rewrite bool_decide_false.
    + exists v. repeat split; try done. simpl. rewrite lookup_insert_eq. by eexists.
Qed.

(** C1: on a server session of a framed profile, when the codec generates
    the frames and the socket takes the delivery callbacks: draining
    generates the first GOAWAY with the maximum representable varint
    (2^62-1) as stream id; the acknowledgement of its delivery generates a
    second GOAWAY with maxIncomingStreamId as stream id and moves the drain
    state to SECOND_GOAWAY; the acknowledgement of the second GOAWAY moves
    the drain state to DONE. *)
Theorem two_goaway_drain env s :
  framedDownstream s ->
  goawayDelivered env ->
  (drainState_ s = NONE ->
   exists s1,
     drainImpl env s = Some s1
     /\ goawayIds (trace_ s1) = goawayIds (trace_ s) ++ [2 ^ 62 - 1]
     /\ drainState_ s1 = FIRST_GOAWAY
     /\ maxIncomingStreamId_ s1 = maxIncomingStreamId_ s
     /\ framedDownstream s1)
  /\ (drainState_ s = FIRST_GOAWAY ->
      exists s2,
        onGoawayAck env s = Some s2
        /\ goawayIds (trace_ s2) = goawayIds (trace_ s) ++ [maxIncomingStreamId_ s]
        /\ drainState_ s2 = SECOND_GOAWAY
        /\ framedDownstream s2)
  /\ (drainState_ s = SECOND_GOAWAY ->
      exists s3,
        onGoawayAck env s = Some s3
        /\ goawayIds (trace_ s3) = goawayIds (trace_ s)
        /\ drainState_ s3 = DONE).
Proof.
  intros Hfd Henv. split; [| split]; intros Hd.
  - set (s0 := set_drainState_ PENDING s).
    assert (framedDownstream s0) as Hfd0 by exact Hfd.
    destruct (GoawayUtils_sendGoaway_delivered env s0 Hfd0 Henv)
      as (s1 & ct & id & off & Hs & Ht & Hst & Hm & Hf1); [done |].
    exists s1. destruct Hfd as (Hdir & v & Hv & Hver & Hutils & Hcs).
    split; [| split; [| split; [| split]]]; try done.
    + unfold drainImpl. rewrite bool_decide_false by (rewrite Hd; auto).
      cbv zeta. fold s0. change (versionUtils_ s0) with (versionUtils_ s).
      rewrite Hutils. destruct Hv as [-> | ->]; exact Hs.
    + rewrite Ht, goawayIds_app. reflexivity.
  - destruct (GoawayUtils_sendGoaway_delivered env s Hfd Henv)
      as (s1 & ct & id & off & Hs & Ht & Hst & Hm & Hf1); [congruence |].
    rewrite bool_decide_false in Hst by congruence.
    exists (scheduleLoopCallback s1).
    destruct Hfd as (Hdir & v & Hv & Hver & Hutils & Hcs).
    split; [| split; [| split]].
    + unfold onGoawayAck. rewrite bool_decide_true by done. rewrite Hutils.
      assert (sendGoaway v env s = Some s1) as -> by (destruct Hv as [-> | ->]; exact Hs).
      reflexivity.
    + unfold scheduleLoopCallback. destruct (loopCallbackScheduled_ s1); simpl;
        rewrite Ht, goawayIds_app; simpl;
        unfold getGoawayStreamId;
        rewrite !bool_decide_false by congruence; reflexivity.
    + unfold scheduleLoopCallback. by destruct (loopCallbackScheduled_ s1).
    + unfold scheduleLoopCallback. by destruct (loopCallbackScheduled_ s1).
  - exists (scheduleLoopCallback (set_drainState_ DONE s)). split; [| split].
    + unfold onGoawayAck. rewrite bool_decide_false by congruence.
      rewrite bool_decide_true by done. reflexivity.
    + unfold scheduleLoopCallback. by destruct (loopCallbackScheduled_ _).
    + unfold scheduleLoopCallback. by destruct (loopCallbackScheduled_ _).
Qed.

Lemma serverWithTwoStreams_framed : framedDownstream serverWithTwoStreams.
Proof.
  split; [vm_compute; reflexivity |].
  exists HQ. split; [by right |].
  split; [vm_compute; reflexivity |].
  split; [vm_compute; reflexivity |].
  eexists. vm_compute. reflexivity.
Defined.

Lemma goodEnv_delivered : goawayDelivered goodEnv.
Proof.
  split; [discriminate |].
  split; [by eexists |].
  split; [by eexists | reflexivity].
Defined.

Lemma two_goaway_drain_witness :
  exists s1,
    drainImpl goodEnv serverWithTwoStreams = Some s1
    /\ goawayIds (trace_ s1) = goawayIds (trace_ serverWithTwoStreams) ++ [2 ^ 62 - 1]
    /\ drainState_ s1 = FIRST_GOAWAY
    /\ maxIncomingStreamId_ s1 = maxIncomingStreamId_ serverWithTwoStreams
    /\ framedDownstream s1.
Proof.
  apply (two_goaway_drain goodEnv serverWithTwoStreams).
  - exact serverWithTwoStreams_framed.
  - exact goodEnv_delivered.
  - vm_compute. reflexivity.
Defined.

(** Scenario S3: a server with the open peer streams 0 and 4 drains; the
    GOAWAYs carry 2^62-1 and then 4; after the second acknowledgement the
    drain state is DONE. *)
Example scenario_S3 :
  (fun s => (goawayIds (trace_ s), drainState_ s))
    <$> run [OpNotifyPendingShutdown goodEnv; OpGoawayAck goodEnv;
             OpGoawayAck goodEnv] serverWithTwoStreams
  = Some ([2 ^ 62 - 1; 4], DONE).
Proof. vm_compute. reflexivity. Qed.

(** ** The drain state *)

(** C2: in every reachable state of the session, whatever the call (drain,
    GOAWAY send or acknowledgement, Connection: close seen or sent,
    connection drop, shutdown check, or any other), the drain state after
    the call is not before the drain state it had, in the order
    NONE, PENDING, CLOSE_SENT, CLOSE_RECEIVED, FIRST_GOAWAY, SECOND_GOAWAY,
    DONE. *)
Theorem drain_state_monotonic s op s' :
  reachable s ->
  apply_op op s = Some s' ->
  drain_le (drainState_ s) (drainState_ s').
Proof.
  intros Hr Hop.
  eapply ev_drain, apply_op_evolves; eauto using reachable_versionInv.
Qed.

(** The same over any run of calls. *)
Corollary drain_state_monotonic_run s ops s' :
  reachable s ->
  run ops s = Some s' ->
  drain_le (drainState_ s) (drainState_ s').
Proof. intros Hr Hrun. eapply ev_drain, run_evolves; eauto. Qed.

Lemma serverWithTwoStreams_reachable : reachable serverWithTwoStreams.
Proof.
  apply (reachable_run serverSetup (newSession DOWNSTREAM)).
  - apply reachable_initial, initial_newSession.
  - vm_compute. reflexivity.
Qed.

Lemma serverWithControl_reachable : reachable serverWithControl.
Proof.
  apply (reachable_run
           (serverSetup
            ++ [OpNewUnidirectionalStream 2;
                OpAssignReadCallback quietRead 2 CONTROL])
           (newSession DOWNSTREAM)).
  - apply reachable_initial, initial_newSession.
  - vm_compute. reflexivity.
Qed.

Lemma drain_state_monotonic_witness :
  drain_le (drainState_ serverWithTwoStreams)
    (drainState_
       (default serverWithTwoStreams
          (apply_op (OpNotifyPendingShutdown goodEnv) serverWithTwoStreams))).
Proof.
  apply (drain_state_monotonic serverWithTwoStreams
           (OpNotifyPendingShutdown goodEnv)).
  - exact serverWithTwoStreams_reachable.
  - vm_compute. reflexivity.
Defined.

(** ** The largest incoming stream id *)

(** C3, as the code has it: for every peer-initiated bidirectional stream
    id the session accepted, maxIncomingStreamId is greater than or equal
    to that id in every state reached after the acceptance.
    (Unidirectional streams do not move maxIncomingStreamId.) *)
Theorem accepted_bidirectional_below_max s :
  reachable s ->
  Forall (fun id => quic.isBidirectionalStream id = true ->
                    id <= maxIncomingStreamId_ s)
    (acceptedStreams (trace_ s)).
Proof.
  induction 1 as [s Hi | s op s' Hr IH Hop].
  - destruct Hi as (_ & _ & _ & _ & _ & _ & _ & _ & _ & _ & _ & ->).
    constructor.
  - pose proof (apply_op_evolves _ _ _ (reachable_versionInv _ Hr) Hop) as He.
    destruct (ev_trace _ _ He) as (evs & -> & Hevs).
    rewrite acceptedStreams_app. apply Forall_app. split; [| done].
    eapply Forall_impl; [exact IH |]. simpl. intros id Hid Hb.
    specialize (Hid Hb). pose proof (ev_maxIncoming _ _ He). lia.
Qed.

Lemma accepted_bidirectional_below_max_witness :
  Forall (fun id => quic.isBidirectionalStream id = true ->
                    id <= maxIncomingStreamId_ serverWithTwoStreams)
    (acceptedStreams (trace_ serverWithTwoStreams)).
Proof.
  apply (accepted_bidirectional_below_max serverWithTwoStreams).
  exact serverWithTwoStreams_reachable.
Defined.

(** C3 as stated fails on an accepted unidirectional stream: a server of
    the HTTP/3 profile accepts the peer's unidirectional stream 2 and its
    maxIncomingStreamId stays 0. *)
Lemma accepted_unidirectional_above_max :
  exists s,
    run [OpTransportReady goodEnv (Some kH3CurrentDraft);
         OpNewUnidirectionalStream 2] (newSession DOWNSTREAM) = Some s
    /\ acceptedStreams (trace_ s) = [2]
    /\ pendingUniStreams_ s = [2]
    /\ maxIncomingStreamId_ s = 0
    /\ ~ (maxIncomingStreamId_ s >= 2).
Proof.
  eexists. split; [vm_compute; reflexivity |].
  repeat split; try (vm_compute; reflexivity).
  vm_compute. intros H. by apply H.
Qed.

(** ** The reply to a peer reset *)

Lemma abortEgress_streamId st : streamId (abortEgress st) = streamId st.
Proof. unfold abortEgress. simpl. by destruct (streamTransportEnqueued st). Qed.

Lemma errorOnTransaction_streamId ex st :
  streamId (errorOnTransaction ex st).1 = streamId st.
Proof.
  unfold errorOnTransaction. cbn [fst].
  destruct (HTTPException.isIngressException ex),
    (HTTPException.isEgressException ex);
    rewrite ?abortEgress_streamId; reflexivity.
Qed.

Lemma errorOnTransaction_events ex st :
  (errorOnTransaction ex st).2
  = if detached_ st then [] else [EvTxnOnError (streamId st) ex].
Proof. reflexivity. Qed.

(** C4: when the peer resets a request stream with code R, the stream is
    reset in reply with a code that depends on the session only: upstream,
    HTTP_REQUEST_CANCELLED; downstream before any ingress,
    HTTP_REQUEST_REJECTED; downstream after ingress, HTTP_NO_ERROR.  The
    transaction hears an error that depends on R only:
    StreamUnacknowledged exactly when R is HTTP_REQUEST_REJECTED,
    EarlyDataFailed when R is GIVEUP_ZERO_RTT, StreamAbort otherwise. *)
Theorem onResetStream_mapping s R ex st :
  detached_ st = false ->
  quic.isBidirectionalStream (streamId st) = true ->
  let reply := replyCodeSpec (direction_ s) (txnIngressStarted (txn_ st)) in
  exists ex',
    (onResetStream s R ex st).2
    = EvTxnOnError (streamId st) ex'
      :: versionUtilsAbortStream s (streamId st)
      ++ [EvStopSending (streamId st) reply; EvResetStream (streamId st) reply]
    /\ HTTPException.proxygenError ex' = resetErrorSpec R
    /\ (HTTPException.proxygenError ex' = kErrorStreamUnacknowledged
        <-> R = HTTP3.HTTP_REQUEST_REJECTED)
    /\ (R = HTTP3.GIVEUP_ZERO_RTT ->
        HTTPException.proxygenError ex' = kErrorEarlyDataFailed)
    /\ (R <> HTTP3.HTTP_REQUEST_REJECTED -> R <> HTTP3.GIVEUP_ZERO_RTT ->
        HTTPException.proxygenError ex' = kErrorStreamAbort).
Proof.
  intros Hdet Hbidi reply. unfold onResetStream.
  set (ex3 := HTTPException.setErrno _ _).
  pose proof (errorOnTransaction_streamId ex3 st) as Hid.
  pose proof (errorOnTransaction_events ex3 st) as Hev.
  destruct (errorOnTransaction ex3 st) as [st1 ev1]. cbn [fst snd] in Hid, Hev.
  unfold sendAbortImpl, abortStream. cbn [fst snd].
  rewrite Hid, Hbidi, Hev, Hdet. cbn [orb andb app].
  exists ex3. split.
  - f_equal. rewrite <- app_assoc. f_equal. subst reply.
    unfold replyCodeSpec.
    destruct (direction_ s), (txnIngressStarted (txn_ st)); reflexivity.
  - subst ex3. clear Hev. destruct R; vm_compute; repeat split; intros; congruence.
Qed.

Lemma onResetStream_mapping_witness :
  exists ex',
    (onResetStream (newSession DOWNSTREAM) HTTP3.HTTP_REQUEST_CANCELLED
       (HTTPException.make HTTPException.INGRESS_AND_EGRESS) (newStream 12)).2
    = EvTxnOnError 12 ex'
      :: versionUtilsAbortStream (newSession DOWNSTREAM) 12
      ++ [EvStopSending 12 HTTP3.HTTP_REQUEST_REJECTED;
          EvResetStream 12 HTTP3.HTTP_REQUEST_REJECTED]
    /\ HTTPException.proxygenError ex' = kErrorStreamAbort
    /\ (HTTPException.proxygenError ex' = kErrorStreamUnacknowledged
        <-> HTTP3.HTTP_REQUEST_CANCELLED = HTTP3.HTTP_REQUEST_REJECTED)
    /\ (HTTP3.HTTP_REQUEST_CANCELLED = HTTP3.GIVEUP_ZERO_RTT ->
        HTTPException.proxygenError ex' = kErrorEarlyDataFailed)
    /\ (HTTP3.HTTP_REQUEST_CANCELLED <> HTTP3.HTTP_REQUEST_REJECTED ->
        HTTP3.HTTP_REQUEST_CANCELLED <> HTTP3.GIVEUP_ZERO_RTT ->
        HTTPException.proxygenError ex' = kErrorStreamAbort).
Proof.
  apply (onResetStream_mapping (newSession DOWNSTREAM)
           HTTP3.HTTP_REQUEST_CANCELLED
           (HTTPException.make HTTPException.INGRESS_AND_EGRESS) (newStream 12)).
  - reflexivity.
  - reflexivity.
Defined.

(** ** After a GOAWAY from the server *)

Lemma drainImpl_upstream env s :
  direction_ s = UPSTREAM ->
  drainImpl env s
  = Some (if bool_decide (drainState_ s ≠ NONE) then s
          else set_drainState_ PENDING s).
Proof.
  intros Hdir. unfold drainImpl. cbv zeta.
  case_bool_decide; [done |].
  change (versionUtils_ (set_drainState_ PENDING s)) with (versionUtils_ s).
  destruct (versionUtils_ s) as [[] |]; try done;
    unfold sendGoaway, GoawayUtils_sendGoaway;
    change (direction_ (set_drainState_ PENDING s)) with (direction_ s);
    by rewrite bool_decide_true.
Qed.

Lemma checkForShutdown_maxAllowed s :
  maxAllowedStreamId_ (checkForShutdown s) = maxAllowedStreamId_ s.
Proof. unfold checkForShutdown. cbv zeta. repeat case_match; reflexivity. Qed.

Lemma checkForShutdown_drainState s :
  drainState_ s <> PENDING ->
  drainState_ (checkForShutdown s) = drainState_ s.
Proof.
  intros Hp. unfold checkForShutdown. cbv zeta.
  rewrite (bool_decide_false (drainState_ s = PENDING)) by done.
  rewrite andb_false_r. repeat case_match; reflexivity.
Qed.

Lemma newTransaction_refused env s :
  drainState_ s = FIRST_GOAWAY \/ drainState_ s = DONE ->
  newTransaction env s = (None, s).
Proof.
  intros Hd. unfold newTransaction.
  destruct Hd as [-> | ->]; reflexivity.
Qed.

Lemma txnErrors_app id tr1 tr2 :
  txnErrors id (tr1 ++ tr2) = txnErrors id tr1 ++ txnErrors id tr2.
Proof. unfold txnErrors. apply omap_app. Qed.

Lemma txnErrors_elem id ex tr :
  EvTxnOnError id ex ∈ tr ->
  HTTPException.proxygenError ex ∈ txnErrors id tr.
Proof.
  intros Hin. unfold txnErrors. apply list_elem_of_omap.
  exists (EvTxnOnError id ex). split; [done |].
  by rewrite bool_decide_true.
Qed.

Lemma invokeOnStreams_events p f s :
  exists evs,
    trace_ (invokeOnStreams p f s) = trace_ s ++ evs
    /\ forall k st e,
         streams_ s !! k = Some st -> p st = true -> e ∈ (f st).2 -> e ∈ evs.
Proof.
  unfold invokeOnStreams. cbv zeta. eexists. split; [reflexivity |].
  intros k st e Hk Hp He. apply list_elem_of_In, in_concat.
  exists (f st).2. split; [| by apply list_elem_of_In].
  apply list_elem_of_In, list_elem_of_fmap. exists (k, st). split.
  - cbn [snd]. by rewrite Hp.
  - by apply elem_of_map_to_list.
Qed.

(** What [onGoaway] does to a stream above the limit. *)
Lemma onGoaway_fails_stream code limit st :
  detached_ st = false ->
  streamId st > limit ->
  EvTxnOnError (streamId st)
    (HTTPException.setProxygenError kErrorStreamUnacknowledged
       (HTTPException.make HTTPException.INGRESS_AND_EGRESS))
  ∈ (let ev := [EvTxnOnGoaway (streamId st) code] in
     if streamId st >? limit
     then
       let '(st1, ev1) := errorOnTransactionErr kErrorStreamUnacknowledged st in
       (st1, ev ++ ev1)
     else (st, ev)).2.
Proof.
  intros Hdet Hgt. cbv zeta.
  assert ((streamId st >? limit) = true) as -> by (apply Z.gtb_lt; lia).
  unfold errorOnTransactionErr, errorOnTransaction. cbv zeta.
  rewrite Hdet. cbn [snd].
  rewrite elem_of_app, !list_elem_of_singleton. by right.
Qed.

(** C5: after an upstream session received GOAWAY with the id maxId:
    the limit of accepted ids is the minimum of the former limit and
    maxId, and later calls, further GOAWAYs among them, never raise it;
    every stream created before whose transaction is still attached and
    whose id is greater than maxId has its transaction failed with
    StreamUnacknowledged; and from then on newTransaction returns null, so
    that no local transaction is created with an id above maxId. *)
Theorem goaway_limits_local_streams env maxId code s s1 :
  reachable s ->
  apply_op (OpGoaway env maxId code) s = Some s1 ->
  maxAllowedStreamId_ s1 = Z.min (maxAllowedStreamId_ s) maxId
  /\ (exists evs,
        trace_ s1 = trace_ s ++ evs
        /\ forall k st,
             streams_ s !! k = Some st ->
             detached_ st = false ->
             streamId st > maxId ->
             kErrorStreamUnacknowledged ∈ txnErrors (streamId st) evs)
  /\ (forall ops s2,
        run ops s1 = Some s2 ->
        maxAllowedStreamId_ s2 <= maxId
        /\ forall env', newTransaction env' s2 = (None, s2)).
Proof.
  intros Hr Hop.
  pose proof (reachable_step _ _ _ Hr Hop) as Hr1.
  pose proof (reachable_drainInv _ Hr) as [Hclose Hsecond].
  apply apply_op_dispatch in Hop as (_ & _ & _ & Hop).
  unfold dispatch in Hop.
  assert (versionUtils_ s <> Some H1Q_FB_V1
          /\ onGoaway env maxId code s = Some s1) as [Hv Hg].
  { destruct (versionUtils_ s) as [[] |]; done. }
  clear Hop. unfold onGoaway in Hg. cbv zeta in Hg.
  destruct (bool_decide (direction_ s = UPSTREAM)) eqn:Hdir; [| done].
  apply bool_decide_eq_true in Hdir. cbn [negb] in Hg.
  destruct (bool_decide (version_ s = Some H1Q_FB_V1)); [done |].
  set (sA := set_maxAllowedStreamId_ (Z.min (maxAllowedStreamId_ s) maxId) s) in *.
  rewrite (drainImpl_upstream env sA Hdir) in Hg. cbn [mbind option_bind] in Hg.
  set (sB := if bool_decide (drainState_ sA ≠ NONE) then sA
             else set_drainState_ PENDING sA) in *.
  assert (maxAllowedStreamId_ sB = Z.min (maxAllowedStreamId_ s) maxId
          /\ streams_ sB = streams_ s /\ trace_ sB = trace_ s) as (HmB & HsB & HtB).
  { unfold sB. clear. by destruct (bool_decide _). }
  assert (drainState_ sB = PENDING \/ drainState_ sB = FIRST_GOAWAY
          \/ drainState_ sB = DONE) as HdB.
  { destruct (Hclose Hv) as [Hc1 Hc2]. specialize (Hsecond Hdir).
    unfold sB. change (drainState_ sA) with (drainState_ s).
    clear - Hc1 Hc2 Hsecond.
    destruct (drainState_ s) eqn:E; cbn; auto; congruence. }
  set (f := fun st : HQStreamTransport => _) in Hg.
  set (sC := invokeOnNonDetachedStreams f sB) in *.
  set (sD := if _ || _ then _ else _) in Hg.
  injection Hg as <-.
  assert (drainState_ sD = FIRST_GOAWAY \/ drainState_ sD = DONE) as HdD.
  { unfold sD. change (drainState_ sC) with (drainState_ sB).
    clear - HdB.
    destruct HdB as [E | [E | E]]; rewrite E;
      repeat case_bool_decide; try congruence; cbn [orb];
      first [by left | by right | right; exact E]. }
  assert (maxAllowedStreamId_ sD = Z.min (maxAllowedStreamId_ s) maxId) as HmD.
  { rewrite <- HmB. unfold sD. clear. by repeat case_match. }
  assert (trace_ sD = trace_ sC) as HtD.
  { unfold sD. clear. by repeat case_match. }
  assert (drainState_ (checkForShutdown sD) = FIRST_GOAWAY
          \/ drainState_ (checkForShutdown sD) = DONE) as Hd1.
  { rewrite checkForShutdown_drainState; [done |].
    destruct HdD as [-> | ->]; done. }
  split; [by rewrite checkForShutdown_maxAllowed |]. split.
  - destruct (ev_trace _ _ (checkForShutdown_evolves sD)) as (evs2 & Ht2 & _).
    assert (exists evs1, trace_ sC = trace_ s ++ evs1
              /\ forall k st, streams_ s !! k = Some st -> detached_ st = false ->
                   streamId st > maxId ->
                   kErrorStreamUnacknowledged ∈ txnErrors (streamId st) evs1)
      as (evs1 & Ht1 & Hfail).
    { destruct (invokeOnStreams_events (fun st => negb (detached_ st)) f sB)
        as (evs1 & Ht1 & Hin).
      exists evs1. split; [by rewrite <- HtB |].
      intros k st Hk Hdet Hgt. rewrite <- HsB in Hk.
      apply (txnErrors_elem _
               (HTTPException.setProxygenError kErrorStreamUnacknowledged
                  (HTTPException.make HTTPException.INGRESS_AND_EGRESS))).
      apply (Hin k st); [exact Hk | by rewrite Hdet |].
      apply (onGoaway_fails_stream code (maxAllowedStreamId_ sB) st Hdet).
      lia. }
    exists (evs1 ++ evs2). split.
    + by rewrite Ht2, HtD, Ht1, app_assoc.
    + intros k st Hk Hdet Hgt. rewrite txnErrors_app.
      apply elem_of_app. left. by eapply Hfail.
  - intros ops s2 Hrun.
    pose proof (run_evolves _ _ _ Hr1 Hrun) as He.
    split.
    + pose proof (ev_maxAllowed _ _ He) as Hle.
      rewrite checkForShutdown_maxAllowed, HmD in Hle. lia.
    + intros env'. apply newTransaction_refused.
      pose proof (ev_drain _ _ He) as Hle.
      pose proof (ev_second _ _ He) as Hsec.
      change (direction_ (checkForShutdown sD) = UPSTREAM ->
              drainState_ s2 = SECOND_GOAWAY ->
              drainState_ (checkForShutdown sD) = SECOND_GOAWAY) in Hsec.
      assert (direction_ (checkForShutdown sD) = UPSTREAM) as Hd'.
      { rewrite (ev_direction _ _ (checkForShutdown_evolves sD)).
        rewrite <- Hdir. unfold sD, sC, sB, sA. clear. by repeat case_match. }
      specialize (Hsec Hd').
      unfold drain_le in Hle.
      destruct Hd1 as [Hd1 | Hd1]; rewrite Hd1 in *;
        destruct (drainState_ s2); simpl in Hle; auto; try lia;
        by specialize (Hsec eq_refl).
Qed.

Lemma clientWithThreeStreams_reachable : reachable clientWithThreeStreams.
Proof.
  apply (reachable_run
           [OpTransportReady goodEnv (Some kH3CurrentDraft);
            OpNewTransaction (envWithStream 0);
            OpNewTransaction (envWithStream 4);
            OpNewTransaction (envWithStream 8)] (newSession UPSTREAM)).
  - apply reachable_initial, initial_newSession.
  - vm_compute. reflexivity.
Qed.

Lemma goaway_limits_local_streams_witness :
  maxAllowedStreamId_ clientAfterGoaway
  = Z.min (maxAllowedStreamId_ clientWithThreeStreams) 4
  /\ (exists evs,
        trace_ clientAfterGoaway = trace_ clientWithThreeStreams ++ evs
        /\ forall k st,
             streams_ clientWithThreeStreams !! k = Some st ->
             detached_ st = false ->
             streamId st > 4 ->
             kErrorStreamUnacknowledged ∈ txnErrors (streamId st) evs)
  /\ (forall ops s2,
        run ops clientAfterGoaway = Some s2 ->
        maxAllowedStreamId_ s2 <= 4
        /\ forall env', newTransaction env' s2 = (None, s2)).
Proof.
  apply (goaway_limits_local_streams goodEnv 4 EC_NO_ERROR
           clientWithThreeStreams clientAfterGoaway).
  - exact clientWithThreeStreams_reachable.
  - vm_compute. reflexivity.
Defined.

(** The GOAWAY with the id 4 fails the transaction of stream 8 alone, and
    the session then refuses new transactions. *)
Example goaway_fails_stream_8 :
  (txnErrors 0 (trace_ clientAfterGoaway),
   txnErrors 4 (trace_ clientAfterGoaway),
   txnErrors 8 (trace_ clientAfterGoaway),
   maxAllowedStreamId_ clientAfterGoaway,
   drainState_ clientAfterGoaway,
   (newTransaction (envWithStream 12) clientAfterGoaway).1)
  = ([], [], [kErrorStreamUnacknowledged], 4, FIRST_GOAWAY, None).
Proof. vm_compute. reflexivity. Qed.
(** ** The counter of written bytes *)

Lemma bytesAccepted_app id tr1 tr2 :
  bytesAccepted id (tr1 ++ tr2) = bytesAccepted id tr1 + bytesAccepted id tr2.
Proof.
  induction tr1 as [|e tr1 IH]; [reflexivity |].
  destruct e; cbn [app bytesAccepted]; try exact IH.
  destruct res; cbn [bytesAccepted]; rewrite IH; lia.
Qed.

Lemma bytesAccepted_notWrite id tr :
  Forall notWriteEvent tr -> bytesAccepted id tr = 0.
Proof.
  induction 1 as [|e tr He _ IH]; [reflexivity |].
  destruct e; cbn [bytesAccepted]; try exact IH; destruct He.
Qed.

Lemma bytesAccepted_fullyTaken id tr :
  Forall fullyTaken tr -> bytesAccepted id tr = bytesPassed id tr.
Proof.
  induction 1 as [|e tr He _ IH]; [reflexivity |].
  destruct e; cbn [bytesAccepted bytesPassed]; try exact IH.
  cbn in He. subst res. rewrite IH. unfold chainLength at 2. cbn [length].
  case_bool_decide; lia.
Qed.

Lemma abortStream_notWrite s dir id err :
  Forall notWriteEvent (abortStream s dir id err).
Proof.
  unfold abortStream, versionUtilsAbortStream.
  apply Forall_app; split; repeat case_match;
    repeat (apply Forall_app; split);
    repeat constructor.
Qed.

Lemma errorOnTransaction_counter ex st :
  streamId (errorOnTransaction ex st).1 = streamId st
  /\ bytesWritten_ (errorOnTransaction ex st).1 = bytesWritten_ st
  /\ Forall notWriteEvent (errorOnTransaction ex st).2.
Proof.
  unfold errorOnTransaction, abortEgress, abortIngress. cbv zeta. cbn [fst snd].
  repeat split; repeat case_match; try reflexivity; repeat constructor.
Qed.

Lemma abortEgress_counter st :
  streamId (abortEgress st) = streamId st
  /\ bytesWritten_ (abortEgress st) = bytesWritten_ st.
Proof. unfold abortEgress. cbv zeta. by case_match. Qed.

Lemma handleWriteError_counter s err st st' ev :
  handleWriteError s err st = Some (st', ev) ->
  streamId st' = streamId st
  /\ bytesWritten_ st' = bytesWritten_ st
  /\ Forall notWriteEvent ev.
Proof.
  unfold handleWriteError. cbv zeta.
  destruct err as [h | l | t]; [| | discriminate];
    match goal with
    | |- context [errorOnTransaction ?ex st] =>
        destruct (errorOnTransaction_counter ex st) as (Hi & Hb & Hn);
        destruct (errorOnTransaction ex st) as [st1 ev2]
    end;
    cbn [fst snd] in *; intros [= <- <-];
    (split; [exact Hi | split; [exact Hb |]]);
    (apply Forall_app; split; [apply abortStream_notWrite | exact Hn]).
Qed.

Lemma onResetStream_counter s code ex st :
  streamId (onResetStream s code ex st).1 = streamId st
  /\ bytesWritten_ (onResetStream s code ex st).1 = bytesWritten_ st
  /\ Forall notWriteEvent (onResetStream s code ex st).2.
Proof.
  unfold onResetStream. cbv zeta.
  match goal with
  | |- context [errorOnTransaction ?e st] =>
      destruct (errorOnTransaction_counter e st) as (Hi & Hb & Hn);
      destruct (errorOnTransaction e st) as [st1 ev1]
  end.
  cbn [fst snd] in *. unfold sendAbortImpl. cbv zeta. cbn [fst snd].
  destruct (abortEgress_counter st1) as [Hi' Hb'].
  split; [congruence | split; [congruence |]].
  apply Forall_app; split; [exact Hn | apply abortStream_notWrite].
Qed.

Lemma uint64_wrap64 z : uint64 (wrap64 z).
Proof. unfold uint64, wrap64. apply Z.mod_pos_bound. lia. Qed.

Lemma wrap64_uint64 z : uint64 z -> wrap64 z = z.
Proof. unfold uint64, wrap64. intros H. by apply Z.mod_small. Qed.

Lemma wrap64_add_r a b : wrap64 (a + wrap64 b) = wrap64 (a + b).
Proof. unfold wrap64. apply Zplus_mod_idemp_r. Qed.

Lemma wrap64_add_l a b : wrap64 (wrap64 a + b) = wrap64 (a + b).
Proof. unfold wrap64. apply Zplus_mod_idemp_l. Qed.

Lemma chainLength_take n buf :
  0 <= n -> chainLength (take (Z.to_nat n) buf) = Z.min n (chainLength buf).
Proof.
  intros Hn. unfold chainLength. rewrite length_take. lia.
Qed.

Lemma bytesWritten_set v st : bytesWritten_ (set_bytesWritten_ v st) = v.
Proof. reflexivity. Qed.

(** One write: the counter grows by what the transport took. *)
Lemma handleWrite_counter s data eof res st st' ev sent :
  uint64 (bytesWritten_ st) ->
  handleWrite s data (chainLength data) eof res st = Some (st', ev, sent) ->
  streamId st' = streamId st
  /\ uint64 (bytesWritten_ st')
  /\ bytesWritten_ st'
     = wrap64 (bytesWritten_ st + bytesAccepted (streamId st) ev).
Proof.
  intros Hr. unfold handleWrite, writeBase. cbv zeta.
  destruct res as [e | notWritten].
  - destruct (handleWriteError s (LocalErrorCode e)
                (set_writeBuf_ (writeBuf_ st) st)) as [[st1 ev1]|] eqn:He;
      [| discriminate].
    intros [= <- <- <-].
    apply handleWriteError_counter in He as (Hi & Hb & Hn).
    cbn [app bytesAccepted]. rewrite bytesAccepted_notWrite by exact Hn.
    cbn in Hi, Hb. rewrite Hi, Hb, Z.add_0_r.
    split; [reflexivity | split; [exact Hr |]].
    symmetry. by apply wrap64_uint64.
  - destruct (negb (chainLength notWritten =? 0)) eqn:Hnw;
      intros [= <- <- <-];
      (split; [by case_match |]);
      (split; [apply uint64_wrap64 |]);
      cbn [bytesAccepted]; rewrite bool_decide_eq_true_2 by reflexivity.
    + rewrite bytesWritten_set, wrap64_add_r. f_equal.
      case_match; cbn; lia.
    + apply negb_false_iff, Z.eqb_eq in Hnw.
      rewrite bytesWritten_set, Hnw. f_equal.
      case_match; cbn; lia.
Qed.

Lemma requestStreamWriteImpl_counter s env maxEgress st st' ev sent :
  streamOpOk (SWrite env maxEgress) ->
  uint64 (bytesWritten_ st) ->
  requestStreamWriteImpl s env maxEgress st = Some (st', ev, sent) ->
  streamId st' = streamId st
  /\ uint64 (bytesWritten_ st')
  /\ bytesWritten_ st'
     = wrap64 (bytesWritten_ st + bytesAccepted (streamId st) ev).
Proof.
  intros (Hk & Hm & Hw) Hr. unfold requestStreamWriteImpl.
  destruct (negb (streamTransportEnqueued st)); [discriminate |].
  destruct (flowControl env) as [e | w].
  - destruct (handleWriteError s (LocalErrorCode e) st) as [[st1 ev1]|] eqn:He;
      [| discriminate].
    intros [= <- <- <-].
    apply handleWriteError_counter in He as (Hi & Hb & Hn).
    rewrite bytesAccepted_notWrite by exact Hn.
    rewrite Hi, Hb, Z.add_0_r.
    split; [reflexivity | split; [exact Hr |]].
    symmetry. by apply wrap64_uint64.
  - cbv zeta. unfold splitAtMost.
    set (canSend := Z.min w maxEgress).
    set (n := wrap64 (canSend - chainLength (writeBuf_ st))).
    assert (0 <= canSend) as Hc by (unfold canSend; lia).
    set (st1 := if wantsOnWriteReady canSend st
                then txnOnWriteReady env n st else st).
    set (ev1 := if wantsOnWriteReady canSend st
                then [EvOnWriteReady (streamId st) n] else []).
    assert (streamId st1 = streamId st /\ bytesWritten_ st1 = bytesWritten_ st)
      as [Hi1 Hb1].
    { unfold st1. destruct (wantsOnWriteReady canSend st); [apply Hk | done]. }
    assert (bytesAccepted (streamId st) ev1 = 0) as Ha1.
    { unfold ev1. by destruct (wantsOnWriteReady canSend st). }
    destruct (wantsOnWriteReady canSend st && (chainLength (writeBuf_ st1) =? 0)
              && negb (pendingEOM_ st1)).
    { intros [= <- <- <-]. rewrite Ha1, Z.add_0_r, Hb1, Hi1.
      split; [reflexivity | split; [exact Hr |]].
      symmetry. by apply wrap64_uint64. }
    set (st2 := set_writeBuf_ (drop (Z.to_nat canSend) (writeBuf_ st1)) st1).
    set (eof := pendingEOM_ st2 && negb (hasPendingBody st2)).
    destruct (negb ((Z.min canSend (chainLength (writeBuf_ st1)) >? 0) || eof));
      [discriminate |].
    rewrite <- (chainLength_take canSend (writeBuf_ st1)) by exact Hc.
    destruct (handleWrite s (take (Z.to_nat canSend) (writeBuf_ st1))
                (chainLength (take (Z.to_nat canSend) (writeBuf_ st1)))
                eof (writeResult env) st2) as [[[st3 ev2] sent2]|] eqn:Hh;
      [| discriminate].
    destruct (negb (maxEgress >=? sent2)); [discriminate |].
    intros [= <- <- <-].
    apply handleWrite_counter in Hh as (Hi3 & Hr3 & Hb3);
      [| change (bytesWritten_ st2) with (bytesWritten_ st1);
         by rewrite Hb1].
    change (streamId st2) with (streamId st1) in Hi3, Hb3.
    change (bytesWritten_ st2) with (bytesWritten_ st1) in Hb3.
    rewrite Hi1 in Hi3, Hb3. rewrite Hb1 in Hb3.
    rewrite bytesAccepted_app, Ha1, Z.add_0_l.
    unfold pauseEgress.
    repeat case_match; cbn; auto.
Qed.

Lemma streamStep_counter s op st st' ev :
  streamOpOk op ->
  uint64 (bytesWritten_ st) ->
  streamStep s op st = Some (st', ev) ->
  streamId st' = streamId st
  /\ uint64 (bytesWritten_ st')
  /\ bytesWritten_ st'
     = wrap64 (bytesWritten_ st + bytesAccepted (streamId st) ev).
Proof.
  intros Hok Hr. destruct op as [env maxEgress | code | code | err];
    cbn [streamStep].
  - destruct (requestStreamWriteImpl s env maxEgress st)
      as [[[st1 ev1] sent]|] eqn:Hw; [| discriminate].
    cbn. intros [= <- <-].
    by apply (requestStreamWriteImpl_counter s env maxEgress st st1 ev1 sent).
  - intros Hs%(inj Some).
    destruct (onResetStream_counter s code
                (HTTPException.make HTTPException.INGRESS_AND_EGRESS) st)
      as (Hi & Hb & Hn).
    rewrite Hs in Hi, Hb, Hn. cbn [fst snd] in *.
    rewrite bytesAccepted_notWrite by exact Hn.
    rewrite Hi, Hb, Z.add_0_r, wrap64_uint64 by exact Hr. done.
  - unfold sendAbortImpl. cbv zeta. intros [= <- <-].
    destruct (abortEgress_counter st) as [Hi Hb].
    rewrite bytesAccepted_notWrite by apply abortStream_notWrite.
    rewrite Hi, Hb, Z.add_0_r, wrap64_uint64 by exact Hr. done.
  - intros He. apply handleWriteError_counter in He as (Hi & Hb & Hn).
    rewrite bytesAccepted_notWrite by exact Hn.
    rewrite Hi, Hb, Z.add_0_r, wrap64_uint64 by exact Hr. done.
Qed.

(** C6 (as amended): over the life of a request stream, the counter
    [bytesWritten_] grows, as an unsigned 64-bit number, by the bytes the
    transport took: what was passed to a [writeChain] that did not fail,
    less what that call handed back.  When the transport took every byte
    of every write, this is the sum of the bytes passed to [writeChain]. *)
Theorem bytesWritten_counts_accepted s ops st st' ev :
  Forall streamOpOk ops ->
  uint64 (bytesWritten_ st) ->
  streamRun s ops st = Some (st', ev) ->
  bytesWritten_ st'
  = wrap64 (bytesWritten_ st + bytesAccepted (streamId st) ev)
  /\ (Forall fullyTaken ev ->
      bytesWritten_ st'
      = wrap64 (bytesWritten_ st + bytesPassed (streamId st) ev)).
Proof.
  intros Hok Hr Hrun.
  assert (bytesWritten_ st'
          = wrap64 (bytesWritten_ st + bytesAccepted (streamId st) ev)) as H.
  { revert st st' ev Hr Hrun.
    induction Hok as [|op ops Hop _ IH]; intros st st' ev Hr.
    - intros [= <- <-]. cbn. rewrite Z.add_0_r. symmetry.
      by apply wrap64_uint64.
    - cbn [streamRun].
      destruct (streamStep s op st) as [[st1 ev1]|] eqn:H1; [| discriminate].
      cbn [mbind option_bind].
      destruct (streamRun s ops st1) as [[st2 ev2]|] eqn:H2; [| discriminate].
      cbn [mbind option_bind]. intros [= <- <-].
      apply streamStep_counter in H1 as (Hi & Hr1 & Hb); [| done | done].
      rewrite (IH _ _ _ Hr1 H2), Hb, Hi, bytesAccepted_app, wrap64_add_l.
      f_equal. lia. }
  split; [exact H |].
  intros Hf. by rewrite <- bytesAccepted_fullyTaken.
Qed.

Lemma bytesWritten_counts_accepted_witness :
  bytesWritten_ streamAfterHandBack
  = wrap64 (bytesWritten_ streamWithTenBytes
            + bytesAccepted (streamId streamWithTenBytes) handBackEvents)
  /\ (Forall fullyTaken handBackEvents ->
      bytesWritten_ streamAfterHandBack
      = wrap64 (bytesWritten_ streamWithTenBytes
                + bytesPassed (streamId streamWithTenBytes) handBackEvents)).
Proof.
  apply (bytesWritten_counts_accepted (newSession DOWNSTREAM)
           [SWrite handBackEnv 100] streamWithTenBytes).
  - constructor; [| constructor].
    split; [by intros n st | split; [lia | cbn; lia]].
  - unfold uint64. cbn. lia.
  - vm_compute. reflexivity.
Defined.

(** C6, the counterexample: the scheduler serves stream 16, which holds ten
    bytes; all ten are passed to [writeChain], the transport hands four of
    them back, and the counter stands at six. *)
Lemma bytesWritten_below_bytes_passed :
  streamRun (newSession DOWNSTREAM) [SWrite handBackEnv 100] streamWithTenBytes
  = Some (streamAfterHandBack, handBackEvents)
  /\ bytesWritten_ streamWithTenBytes = 0
  /\ bytesPassed 16 handBackEvents = 10
  /\ bytesAccepted 16 handBackEvents = 6
  /\ bytesWritten_ streamAfterHandBack = 6
  /\ bytesWritten_ streamAfterHandBack
     <> bytesWritten_ streamWithTenBytes + bytesPassed 16 handBackEvents.
Proof. vm_compute. repeat split; discriminate. Qed.
(** ** Serving a request stream *)






(** A transaction with body to add is offered the room left: with a window
    of eight bytes and two bytes buffered, [onWriteReady 6]; the three bytes
    it adds leave with the two, and no FIN is asked for since the
    transaction still has body. *)
Example scheduler_offers_room :
  ((fun r => r.1.2)
     <$> requestStreamWriteImpl (newSession DOWNSTREAM) bodyEnv 100
           streamWithBodyToAdd)
  = Some [EvOnWriteReady 16 6;
          EvWriteChain 16 [x01; x02; x00; x00; x00]%byte false (WriteOk [])].
Proof. vm_compute. reflexivity. Qed.

(** The end of the message leaves with the last bytes. *)
Example scheduler_sends_fin :
  ((fun r => r.1.2)
     <$> requestStreamWriteImpl (newSession DOWNSTREAM) (windowEnv 100) 100
           streamWithTenBytesAndEOM)
  = Some [EvWriteChain 16
            [x01; x02; x03; x04; x05; x06; x07; x08; x09; x0a]%byte
            true (WriteOk [])].
Proof. vm_compute. reflexivity. Qed.


(** The amount offered is an unsigned difference: a transaction with only
    its end of message left is called although ten bytes are buffered
    against a window of four, and it is offered [4 - 10] as an unsigned
    64-bit number. *)
Example scheduler_offers_unsigned_difference :
  wantsOnWriteReady 4 streamWithEOMQueued = true
  /\ ((fun r => r.1.2)
        <$> requestStreamWriteImpl (newSession DOWNSTREAM) (windowEnv 4) 100
              streamWithEOMQueued)
     = Some [EvOnWriteReady 16 (2 ^ 64 - 6);
             EvWriteChain 16 [x01; x02; x03; x04]%byte false (WriteOk [])].
Proof. vm_compute. split; reflexivity. Qed.

(** ** A second control stream of one type *)

Lemma sockCloses_app tr1 tr2 :
  sockCloses (tr1 ++ tr2) = sockCloses tr1 ++ sockCloses tr2.
Proof. unfold sockCloses. apply omap_app. Qed.

Lemma sockCloses_concat {A} (g : A -> list Event) (l : list A) :
  (forall a, sockCloses (g a) = []) ->
  sockCloses (concat (g <$> l)) = [].
Proof.
  intros Hg. induction l as [| a l IH]; [done |].
  rewrite fmap_cons. cbn [concat].
  by rewrite sockCloses_app, Hg, IH.
Qed.

(** Without the socket, a shutdown check closes nothing. *)
Lemma checkForShutdown_closed s :
  sock_ s = false ->
  sockCloses (trace_ (checkForShutdown s)) = sockCloses (trace_ s)
  /\ sock_ (checkForShutdown s) = false.
Proof.
  intros Hs. unfold checkForShutdown. cbv zeta.
  repeat case_match; simpl in *; rewrite ?sockCloses_app, ?app_nil_r;
    try done; congruence.
Qed.

(** A drop that runs closes the socket once: with the error code when
    streams are open, without a code otherwise. *)
Lemma dropConnectionSync_closes env code perr s :
  dropping_ s = false -> sock_ s = true ->
  sockCloses (trace_ (dropConnectionSync env code perr s))
  = sockCloses (trace_ s)
    ++ [if bool_decide (0 < getNumStreams s)%nat then Some code.1 else None]
  /\ sock_ (dropConnectionSync env code perr s) = false.
Proof.
  intros Hd Hs. unfold dropConnectionSync. rewrite Hd. cbv zeta.
  match goal with
  | |- context [bool_decide (getNumStreams ?t = 0%nat)] =>
      set (s3 := t);
      assert (forall b : bool,
                trace_ (if b then s3 else set_checkFailed_ true s3) = trace_ s3
                /\ sock_ (if b then s3 else set_checkFailed_ true s3)
                   = sock_ s3) as Hend by (by intros [])
  end.
  destruct (Hend (bool_decide (getNumStreams s3 = 0%nat))) as [-> ->].
  clear Hend. subst s3.
  change (getNumStreams (set_dropping_ true s)) with (getNumStreams s).
  change (sock_ (set_dropping_ true s)) with (sock_ s). rewrite Hs.
  destruct (bool_decide (0 < getNumStreams s)%nat).
  - match goal with
    | |- context [checkForShutdown ?t] =>
        destruct (checkForShutdown_closed t eq_refl) as [-> ->]
    end.
    split; [| done].
    unfold invokeOnAllStreams, invokeOnStreams. cbn [trace_ emit set_trace_
      cancelLoopCallback set_loopCallbackScheduled_ set_drainState_
      set_streams_ set_sock_ set_dropping_ streams_].
    rewrite !sockCloses_app. cbn [sockCloses omap list_omap app].
    rewrite sockCloses_concat, app_nil_r; [done |].
    intros [k st]. cbn [snd]. rewrite errorOnDroppedTransaction_events.
    unfold errorOnTransactionErr.
    rewrite errorOnTransaction_events. by destruct (detached_ st).
  - match goal with
    | |- context [checkForShutdown ?t] =>
        destruct (checkForShutdown_closed t eq_refl) as [-> ->]
    end.
    split; [| done]. simpl. by rewrite sockCloses_app.
Qed.





(** Two more streams of the type and a drop asked for with another code
    arrive before the loop callback: the socket is closed once, with
    HTTP_WRONG_STREAM_COUNT. *)
Example duplicate_control_streams_close_once :
  (fun s => (sockCloses (trace_ s), drainState_ s))
    <$> run [OpNewUnidirectionalStream 6;
             OpAssignReadCallback quietRead 6 CONTROL;
             OpNewUnidirectionalStream 10;
             OpAssignReadCallback quietRead 10 CONTROL;
             OpDropConnectionAsync
               (ApplicationErrorCode HTTP3.HTTP_CLOSED_CRITICAL_STREAM)
               "HTTP error on control stream" kErrorConnection;
             OpRunLoopCallback goodEnv]
          serverWithControl
  = Some ([Some (ApplicationErrorCode HTTP3.HTTP_WRONG_STREAM_COUNT)], DONE).
Proof. vm_compute. reflexivity. Qed.


(** ** The version profile of an ALPN string *)

(** What a drop leaves alone. *)
Lemma checkForShutdown_version s :
  version_ (checkForShutdown s) = version_ s
  /\ versionUtils_ (checkForShutdown s) = versionUtils_ s.
Proof.
  unfold checkForShutdown. cbv zeta. repeat case_match; split; reflexivity.
Qed.

Lemma dropConnectionSync_version env code perr s :
  version_ (dropConnectionSync env code perr s) = version_ s
  /\ versionUtils_ (dropConnectionSync env code perr s) = versionUtils_ s.
Proof.
  unfold dropConnectionSync. cbv zeta.
  destruct (dropping_ s); [done |].
  match goal with
  | |- context [checkForShutdown ?t] =>
      set (s2 := t); destruct (checkForShutdown_version s2) as [Hv Hu]
  end.
  destruct (bool_decide (getNumStreams (checkForShutdown s2) = 0%nat));
    cbn [version_ versionUtils_ set_checkFailed_];
    rewrite Hv, Hu; subst s2; repeat case_match; split; reflexivity.
Qed.

Lemma onConnectionError_version env code s :
  version_ (onConnectionError env code s) = version_ s
  /\ versionUtils_ (onConnectionError env code s) = versionUtils_ s.
Proof.
  unfold onConnectionError.
  destruct (dropConnectionSync_version env code (proxygenErrorOf env)
              (emit [EvOnConnectionError code.1 code.2] s)) as [-> ->].
  done.
Qed.

Lemma onConnectionError_trace env code s :
  EvOnConnectionError code.1 code.2 ∈ trace_ (onConnectionError env code s).
Proof.
  unfold onConnectionError.
  destruct (ev_trace _ _ (dropConnectionSync_evolves env code (proxygenErrorOf env)
                            (emit [EvOnConnectionError code.1 code.2] s)))
    as (evs & -> & _).
  simpl. set_solver.
Qed.

Lemma profileOfAlpn_cases a :
  profileOfAlpn (Some a)
  = if bool_decide (a = kH1QV1ProtocolString)
       || bool_decide (a = kH1QLigerProtocolString)
       || bool_decide (a = kHQCurrentDraft)
    then Some H1Q_FB_V1
    else if bool_decide (a = kH1QV2ProtocolString) then Some H1Q_FB_V2
    else if bool_decide (a = kH3FBCurrentDraft) || bool_decide (a = kH3CurrentDraft)
    then Some HQ
    else None.
Proof.
  unfold profileOfAlpn, alpnTable. cbn [mbind option_bind].
  rewrite !filter_cons, filter_nil. cbn [fst].
  unfold kH1QV1ProtocolString, kH1QLigerProtocolString, kHQCurrentDraft,
    kH1QV2ProtocolString, kH3FBCurrentDraft, kH3CurrentDraft.
  repeat (case_decide; case_bool_decide; try congruence; cbn [orb]; try reflexivity).
Qed.

(** C9: session setup maps the negotiated ALPN string to a version profile
    exactly so: h1q-fb, h1q and hq-27 select the unframed H1Q-v1 profile;
    h1q-fb-v2 selects the framed H1Q-v2 profile; h3-fb-05 and h3-27 select
    the HTTP/3 profile; for any other string, and without ALPN, setup fails
    with the connection error CONNECT_FAILED and no version profile is
    installed. *)
Theorem alpn_selects_profile env alpn s :
  version_ s = None ->
  versionUtils_ s = None ->
  match profileOfAlpn alpn with
  | Some v =>
      exists a,
        alpn = Some a
        /\ getAndCheckApplicationProtocol env alpn s
           = (true, setVersionUtils (set_alpn_ a (set_version_ (Some v) s)))
        /\ versionUtils_ (getAndCheckApplicationProtocol env alpn s).2 = Some v
  | None =>
      (getAndCheckApplicationProtocol env alpn s).1 = false
      /\ versionUtils_ (getAndCheckApplicationProtocol env alpn s).2 = None
      /\ EvOnConnectionError (LocalErrorCode quic.CONNECT_FAILED) "ALPN not supported"
         ∈ trace_ (getAndCheckApplicationProtocol env alpn s).2
      /\ exists s',
           onTransportReadyCommon env alpn s = Some (false, s')
           /\ versionUtils_ s' = None
  end.
Proof.
  intros Hv Hu.
  assert (forall s0, version_ s0 = None -> versionUtils_ s0 = None ->
    let r := (false, onConnectionError env
                (LocalErrorCode quic.CONNECT_FAILED, "ALPN not supported") s0) in
    getAndCheckApplicationProtocol env alpn s = r ->
    r.1 = false /\ versionUtils_ r.2 = None
    /\ EvOnConnectionError (LocalErrorCode quic.CONNECT_FAILED) "ALPN not supported"
       ∈ trace_ r.2
    /\ exists s', onTransportReadyCommon env alpn s = Some (false, s')
                  /\ versionUtils_ s' = None) as Hfail.
  { intros s0 Hv0 Hu0 r Hr. subst r. cbn [fst snd].
    destruct (onConnectionError_version env
      (LocalErrorCode quic.CONNECT_FAILED, "ALPN not supported") s0) as [_ Hvu].
    split; [done |]. split; [congruence |].
    split; [apply (onConnectionError_trace env
                     (LocalErrorCode quic.CONNECT_FAILED, "ALPN not supported")) |].
    eexists. unfold onTransportReadyCommon. rewrite Hr. cbn [negb].
    split; [reflexivity | congruence]. }
  destruct alpn as [a |].
  - rewrite profileOfAlpn_cases.
    unfold getAndCheckApplicationProtocol in *. cbv zeta in *.
    destruct (bool_decide (a = kH1QV1ProtocolString)
              || bool_decide (a = kH1QLigerProtocolString)
              || bool_decide (a = kHQCurrentDraft)).
    { exists a. cbn. auto. }
    destruct (bool_decide (a = kH1QV2ProtocolString)).
    { exists a. cbn. auto. }
    destruct (bool_decide (a = kH3FBCurrentDraft) || bool_decide (a = kH3CurrentDraft)).
    { exists a. cbn. auto. }
    rewrite Hv in *. apply (Hfail s Hv Hu). reflexivity.
  - cbn [profileOfAlpn mbind option_bind].
    apply (Hfail s Hv Hu). reflexivity.
Qed.

Lemma alpn_selects_profile_witness :
  exists a,
    Some kH3CurrentDraft = Some a
    /\ getAndCheckApplicationProtocol goodEnv (Some kH3CurrentDraft)
         (newSession DOWNSTREAM)
       = (true, setVersionUtils
                  (set_alpn_ a (set_version_ (Some HQ) (newSession DOWNSTREAM))))
    /\ versionUtils_
         (getAndCheckApplicationProtocol goodEnv (Some kH3CurrentDraft)
            (newSession DOWNSTREAM)).2 = Some HQ.
Proof.
  apply (alpn_selects_profile goodEnv (Some kH3CurrentDraft) (newSession DOWNSTREAM)).
  - reflexivity.
  - reflexivity.
Defined.

(** An unknown ALPN string fails the setup; the session, which has no
    stream yet, closes the socket and destroys itself. *)
Example alpn_unknown_fails :
  (fun r => (r.1, versionUtils_ r.2, drainState_ r.2, trace_ r.2))
    <$> onTransportReadyCommon goodEnv (Some "h2") (newSession DOWNSTREAM)
  = Some (false, None, DONE,
          [EvOnConnectionError (LocalErrorCode quic.CONNECT_FAILED)
             "ALPN not supported";
           EvSockClose None; EvDestroy]).
Proof. vm_compute. reflexivity. Qed.

(** ** Skipping below the committed bytes *)

Section TrimBelowCommitted.

Variable streamEgressCommittedByteOffset : HQStreamTransport -> Z.

Lemma set_bytesSkipped_same st :
  uint64 (bytesSkipped_ st) ->
  set_bytesSkipped_ (wrap64 (bytesSkipped_ st + 0)) st = st.
Proof.
  intros Hr. unfold wrap64. rewrite Z.add_0_r, Z.mod_small by exact Hr.
  by destruct st.
Qed.

(** C10: when a partial-reliability skip lands on a stream offset below
    the bytes already committed to the wire, the trim routine returns 0
    and removes nothing from the write buffer; the skip raises no error
    for the rewind: the stream is unchanged, the transaction hears no
    error, and the outcome is the socket's answer to sendDataExpired. *)
Theorem skip_below_committed_ignored s env nextBodyOffset streamOffset st :
  partialReliabilityEnabled_ s = true ->
  is_Some (versionUtils_ s) ->
  onEgressBodySkip env nextBodyOffset = Some streamOffset ->
  streamOffset < streamEgressCommittedByteOffset st ->
  uint64 (bytesSkipped_ st) ->
  trimPendingEgressBody streamEgressCommittedByteOffset streamOffset st = (0, st)
  /\ skipBodyTo streamEgressCommittedByteOffset s env nextBodyOffset st
     = Some (match sendDataExpired env with
             | inr r => inr r
             | inl _ => inl EC_INTERNAL_ERROR
             end,
             st,
             [EvSendDataExpired (streamId st) streamOffset]).
Proof.
  intros Hpr [v Hv] Hskip Hlt Hr.
  assert (trimPendingEgressBody streamEgressCommittedByteOffset streamOffset st
          = (0, st)) as Htrim.
  { unfold trimPendingEgressBody. cbv zeta.
    assert ((streamEgressCommittedByteOffset st >? streamOffset) = true) as ->
      by (apply Z.gtb_lt; lia).
    reflexivity. }
  split; [exact Htrim |].
  unfold skipBodyTo. rewrite Hpr, Hv, Hskip, Htrim. cbn [negb].
  rewrite set_bytesSkipped_same by exact Hr.
  by destruct (sendDataExpired env).
Qed.

End TrimBelowCommitted.

Lemma skip_below_committed_ignored_witness :
  trimPendingEgressBody writtenPlusSkipped 60 streamWithEgress
  = (0, streamWithEgress)
  /\ skipBodyTo writtenPlusSkipped partiallyReliableSession skipEnv 50
       streamWithEgress
     = Some (match sendDataExpired skipEnv with
             | inr r => inr r
             | inl _ => inl EC_INTERNAL_ERROR
             end,
             streamWithEgress,
             [EvSendDataExpired (streamId streamWithEgress) 60]).
Proof.
  apply (skip_below_committed_ignored writtenPlusSkipped
           partiallyReliableSession skipEnv 50 60 streamWithEgress).
  - reflexivity.
  - by eexists.
  - reflexivity.
  - vm_compute. reflexivity.
  - vm_compute. split; [discriminate | reflexivity].
Defined.

(** At or above the committed bytes the trim does remove bytes. *)
Example trim_above_committed :
  trimPendingEgressBody writtenPlusSkipped 102 streamWithEgress
  = (2, set_writeBuf_ [x03]%byte streamWithEgress).
Proof. vm_compute. reflexivity. Qed.

(** * Further properties of the session *)

(** ** Shutdown and drop *)

Lemma checkForShutdown_streams s :
  streams_ (checkForShutdown s)
  = filter (fun kv : Z * HQStreamTransport => readyForDetach kv.2 = false)
      (streams_ s).
Proof. unfold checkForShutdown. cbv zeta. by repeat case_match. Qed.

Lemma checkForShutdown_alive s :
  destroyed_ (checkForShutdown s) = false ->
  sock_ (checkForShutdown s) = sock_ s
  /\ trace_ (checkForShutdown s) = trace_ s
  /\ dropping_ (checkForShutdown s) = dropping_ s
  /\ loopCallbackScheduled_ (checkForShutdown s) = loopCallbackScheduled_ s
  /\ dropInNextLoop_ (checkForShutdown s) = dropInNextLoop_ s.
Proof. unfold checkForShutdown. cbv zeta. by repeat case_match. Qed.

(** X1: [checkForShutdown] erases exactly the streams that are ready for
    detach (detached, nothing buffered either way, no pending EOM, not
    enqueued); a stream that is not ready stays as it is, and as long as
    one is left the session is neither destroyed nor is its socket
    closed. *)
Theorem checkForShutdown_keeps_live_streams s k st :
  streams_ s !! k = Some st ->
  (readyForDetach st = true -> streams_ (checkForShutdown s) !! k = None)
  /\ (readyForDetach st = false ->
      streams_ (checkForShutdown s) !! k = Some st
      /\ destroyed_ (checkForShutdown s) = destroyed_ s
      /\ sock_ (checkForShutdown s) = sock_ s
      /\ trace_ (checkForShutdown s) = trace_ s).
Proof.
  intros Hk. rewrite checkForShutdown_streams. split; intros Hr.
  - apply map_lookup_filter_None. right. intros st' Hk'. cbn [snd].
    assert (st' = st) as -> by congruence. by rewrite Hr.
  - assert (filter (fun kv : Z * HQStreamTransport => readyForDetach kv.2 = false)
              (streams_ s) !! k = Some st) as Hin
      by (by apply map_lookup_filter_Some).
    split; [exact Hin |].
    unfold checkForShutdown. cbv zeta.
    set (s1 := if _ && _ && _ then set_drainState_ DONE s else s).
    assert (streams_ s1 = streams_ s /\ destroyed_ s1 = destroyed_ s
            /\ sock_ s1 = sock_ s /\ trace_ s1 = trace_ s)
      as (Hs1 & Hd1 & Hk1 & Ht1) by (unfold s1; by case_match).
    rewrite Hs1.
    assert (bool_decide
              (getNumStreams
                 (set_streams_
                    (filter (fun kv : Z * HQStreamTransport =>
                               readyForDetach kv.2 = false) (streams_ s)) s1)
               = 0%nat) = false) as ->.
    { apply bool_decide_eq_false. unfold getNumStreams. cbn [streams_ set_streams_].
      intros Hz. apply map_size_empty_inv in Hz. by rewrite Hz in Hin. }
    rewrite andb_false_r. cbn [andb]. done.
Qed.

Lemma checkForShutdown_keeps_live_streams_witness :
  (readyForDetach (newStream 4) = true ->
   streams_ (checkForShutdown serverWithTwoStreams) !! 4 = None)
  /\ (readyForDetach (newStream 4) = false ->
      streams_ (checkForShutdown serverWithTwoStreams) !! 4 = Some (newStream 4)
      /\ destroyed_ (checkForShutdown serverWithTwoStreams)
         = destroyed_ serverWithTwoStreams
      /\ sock_ (checkForShutdown serverWithTwoStreams)
         = sock_ serverWithTwoStreams
      /\ trace_ (checkForShutdown serverWithTwoStreams)
         = trace_ serverWithTwoStreams).
Proof.
  apply (checkForShutdown_keeps_live_streams serverWithTwoStreams 4 (newStream 4)).
  vm_compute. reflexivity.
Defined.

(** A stream that heard an error in both directions holds nothing any
    more: it is ready to be erased as soon as it is detached. *)
Lemma errorOnTransactionErr_drained perr st :
  readBuf_ (errorOnTransactionErr perr st).1 = []
  /\ writeBuf_ (errorOnTransactionErr perr st).1 = []
  /\ pendingEOM_ (errorOnTransactionErr perr st).1 = false
  /\ streamTransportEnqueued (errorOnTransactionErr perr st).1 = false
  /\ detached_ (errorOnTransactionErr perr st).1 = detached_ st.
Proof.
  unfold errorOnTransactionErr, errorOnTransaction, abortEgress, abortIngress.
  cbv zeta. cbn [fst HTTPException.isIngressException
    HTTPException.isEgressException HTTPException.direction
    HTTPException.setProxygenError HTTPException.make].
  change (streamTransportEnqueued
            (set_pendingEOM_ false
               (set_writeBuf_ [] (set_readBuf_ [] (set_ingressError_ true st)))))
    with (streamTransportEnqueued st).
  destruct (streamTransportEnqueued st) eqn:He; cbn; by rewrite ?He.
Qed.

Lemma errorOnTransactionErr_ready perr st :
  readyForDetach (errorOnTransactionErr perr st).1 = detached_ st.
Proof.
  destruct (errorOnTransactionErr_drained perr st) as (H1 & H2 & H3 & H4 & H5).
  unfold readyForDetach. rewrite H1, H2, H3, H4, H5.
  by destruct (detached_ st).
Qed.

(** The stream a drop leaves behind: the one whose transaction is
    attached and stays so when it hears the error. *)
Lemma errorOnDroppedTransaction_ready env perr st :
  readyForDetach (errorOnDroppedTransaction env perr st).1
  = detached_ st || txnDetachesOnError env (streamId st).
Proof.
  unfold errorOnDroppedTransaction.
  pose proof (errorOnTransactionErr_ready perr st) as Hr.
  destruct (errorOnTransactionErr_drained perr st) as (H1 & H2 & H3 & H4 & H5).
  destruct (errorOnTransactionErr perr st) as [st1 ev]. cbn [fst] in *.
  destruct (detached_ st) eqn:Hd; cbn [negb andb orb]; [exact Hr |].
  destruct (txnDetachesOnError env (streamId st)); [| exact Hr].
  unfold readyForDetach, detach. cbn. by rewrite H1, H2, H3, H4.
Qed.

Lemma errorOnDroppedTransaction_left env perr st :
  readyForDetach (errorOnDroppedTransaction env perr st).1 = false ->
  (errorOnDroppedTransaction env perr st).1 = (errorOnTransactionErr perr st).1.
Proof.
  rewrite errorOnDroppedTransaction_ready. intros [Hd Ho]%orb_false_iff.
  unfold errorOnDroppedTransaction. rewrite Hd, Ho.
  by destruct (errorOnTransactionErr perr st).
Qed.

Lemma checkForShutdown_destroys s :
  drainState_ s = DONE ->
  loopCallbackScheduled_ s = false ->
  map_Forall (fun _ st => readyForDetach st = true) (streams_ s) ->
  destroyed_ (checkForShutdown s) = true
  /\ streams_ (checkForShutdown s) = ∅
  /\ sock_ (checkForShutdown s) = false
  /\ drainState_ (checkForShutdown s) = DONE
  /\ dropping_ (checkForShutdown s) = dropping_ s
  /\ loopCallbackScheduled_ (checkForShutdown s) = false
  /\ trace_ (checkForShutdown s)
     = trace_ s ++ (if sock_ s then [EvSockClose None] else []) ++ [EvDestroy].
Proof.
  intros Hd Hl Hall.
  assert (filter (fun kv : Z * HQStreamTransport => readyForDetach kv.2 = false)
            (streams_ s) = ∅) as Hf.
  { apply map_empty_filter. intros k st Hk. cbn [snd].
    rewrite (Hall k st Hk). discriminate. }
  assert (checkForShutdown s
          = emit [EvDestroy]
              (set_destroyed_ true
                 (if sock_ s
                  then emit [EvSockClose None]
                         (set_sock_ false (set_streams_ ∅ s))
                  else set_streams_ ∅ s))) as ->.
  { unfold checkForShutdown. cbv zeta. rewrite Hd.
    rewrite (bool_decide_eq_false_2 (DONE = PENDING)) by discriminate.
    rewrite andb_false_r. unfold getNumStreams.
    cbn [streams_ set_streams_ drainState_ loopCallbackScheduled_ sock_].
    rewrite Hf, Hd, Hl, map_size_empty.
    rewrite !bool_decide_eq_true_2 by reflexivity. reflexivity. }
  destruct (sock_ s) eqn:Hs; repeat split; cbn; auto.
  by rewrite <- app_assoc.
Qed.

(** A shutdown check of a session whose drain is DONE and whose loop
    callback is not scheduled: the streams that are not ready stay, and
    when none does the session is destroyed. *)
Lemma checkForShutdown_done s :
  drainState_ s = DONE ->
  loopCallbackScheduled_ s = false ->
  let m := filter (fun kv : Z * HQStreamTransport =>
                     readyForDetach kv.2 = false) (streams_ s) in
  checkForShutdown s
  = if bool_decide (size m = 0%nat)
    then emit [EvDestroy]
           (set_destroyed_ true
              (if sock_ s
               then emit [EvSockClose None]
                      (set_sock_ false (set_streams_ m s))
               else set_streams_ m s))
    else set_streams_ m s.
Proof.
  intros Hd Hl m. unfold checkForShutdown. cbv zeta. rewrite Hd.
  rewrite (bool_decide_eq_false_2 (DONE = PENDING)) by discriminate.
  rewrite andb_false_r. unfold getNumStreams.
  cbn [streams_ set_streams_ drainState_ loopCallbackScheduled_ sock_].
  fold m. rewrite Hd, Hl.
  rewrite (bool_decide_eq_true_2 (DONE = DONE)) by reflexivity.
  cbn [andb negb]. by rewrite andb_true_r.
Qed.

(** A drop that runs ends in a shutdown check of a session whose drain is
    DONE and whose loop callback is cancelled, after every attached
    transaction heard the error, and in the final check. *)
Lemma dropConnectionSync_shape env code perr s :
  dropping_ s = false ->
  sock_ s = true ->
  exists t,
    dropConnectionSync env code perr s
    = (if bool_decide (getNumStreams (checkForShutdown t) = 0%nat)
       then checkForShutdown t
       else set_checkFailed_ true (checkForShutdown t))
    /\ drainState_ t = DONE /\ loopCallbackScheduled_ t = false
    /\ dropping_ t = true /\ sock_ t = false
    /\ destroyed_ t = destroyed_ s /\ checkFailed_ t = checkFailed_ s
    /\ streams_ t
       = (fun st => (errorOnDroppedTransaction env perr st).1) <$> streams_ s
    /\ exists evs, trace_ t = trace_ s ++ evs
         /\ forall k st,
              streams_ s !! k = Some st -> detached_ st = false ->
              perr ∈ txnErrors (streamId st) evs.
Proof.
  intros Hdrop Hsock.
  unfold dropConnectionSync. rewrite Hdrop. cbv zeta.
  change (getNumStreams (set_dropping_ true s)) with (getNumStreams s).
  eexists. split; [reflexivity |].
  split; [reflexivity |]. split; [reflexivity |].
  destruct (bool_decide (0 < getNumStreams s)%nat) eqn:Hn.
  - split; [reflexivity |]. split; [reflexivity |].
    split; [reflexivity |]. split; [reflexivity |]. split.
    + unfold invokeOnAllStreams, invokeOnStreams. cbv zeta.
      cbn [streams_ emit set_trace_ set_streams_ set_drainState_
           cancelLoopCallback set_loopCallbackScheduled_ set_sock_
           set_dropping_]. reflexivity.
    + destruct (invokeOnStreams_events (fun _ => true)
                  (errorOnDroppedTransaction env perr)
                  (emit [EvSockClose (Some code.1)]
                     (set_sock_ false (set_dropping_ true s))))
        as (evs & Ht & Hin).
      exists ([EvSockClose (Some code.1)] ++ evs). split.
      * rewrite app_assoc. exact Ht.
      * intros k st Hk Hdet. rewrite txnErrors_app. apply elem_of_app. right.
        apply (txnErrors_elem _
                 (HTTPException.setProxygenError perr
                    (HTTPException.make HTTPException.INGRESS_AND_EGRESS))).
        apply (Hin k st); [exact Hk | reflexivity |].
        rewrite errorOnDroppedTransaction_events. unfold errorOnTransactionErr.
        rewrite errorOnTransaction_events, Hdet. by apply list_elem_of_singleton.
  - assert (streams_ s = ∅) as He.
    { apply bool_decide_eq_false in Hn. unfold getNumStreams in Hn.
      apply map_size_empty_inv. lia. }
    change (sock_ (set_dropping_ true s)) with (sock_ s). rewrite Hsock.
    split; [reflexivity |]. split; [reflexivity |].
    split; [reflexivity |]. split; [reflexivity |]. split.
    + cbn. rewrite He. by rewrite fmap_empty.
    + exists [EvSockClose None]. split; [reflexivity |].
      intros k st Hk. by rewrite He in Hk.
Qed.

(** The streams a drop leaves: those whose transaction is attached and
    stays so when it hears the error. *)
Lemma dropConnectionSync_left env perr (m : gmap Z HQStreamTransport) :
  filter (fun kv : Z * HQStreamTransport => readyForDetach kv.2 = false)
    ((fun st => (errorOnDroppedTransaction env perr st).1) <$> m)
  = (fun st => (errorOnTransactionErr perr st).1)
      <$> filter (fun kv : Z * HQStreamTransport =>
                    detached_ kv.2 = false
                    /\ txnDetachesOnError env (streamId kv.2) = false) m.
Proof.
  apply map_eq. intros k.
  rewrite lookup_fmap.
  destruct (m !! k) as [st |] eqn:Hk.
  - destruct (readyForDetach (errorOnDroppedTransaction env perr st).1) eqn:Hr.
    + rewrite (map_lookup_filter_None_2 _ _ k).
      * rewrite (map_lookup_filter_None_2 _ _ k); [done |].
        right. intros st' Hst' [Hd Ho]. cbn [snd] in *.
        assert (st' = st) as -> by congruence.
        rewrite errorOnDroppedTransaction_ready, Hd, Ho in Hr. discriminate.
      * right. intros st' Hst'. rewrite lookup_fmap, Hk in Hst'.
        cbn [snd].
        assert (st' = (errorOnDroppedTransaction env perr st).1) as ->
          by (apply (inj Some); by rewrite <- Hst').
        by rewrite Hr.
    + rewrite (map_lookup_filter_Some_2 _ _ k
                 (errorOnDroppedTransaction env perr st).1).
      * pose proof Hr as Hr'.
        rewrite errorOnDroppedTransaction_ready in Hr'.
        apply orb_false_iff in Hr' as [Hd Ho].
        rewrite (map_lookup_filter_Some_2 _ _ k st); [| exact Hk | done].
        rewrite errorOnDroppedTransaction_left by exact Hr. reflexivity.
      * by rewrite lookup_fmap, Hk.
      * exact Hr.
  - rewrite (map_lookup_filter_None_2 _ _ k).
    + rewrite (map_lookup_filter_None_2 _ _ k); [done |]. by left.
    + left. by rewrite lookup_fmap, Hk.
Qed.

(** A drop that runs and passes its final check destroys the session:
    no stream is left, the drain is DONE and the socket released. *)
Lemma dropConnectionSync_passed env code perr s :
  dropping_ s = false ->
  sock_ s = true ->
  checkFailed_ (dropConnectionSync env code perr s) = false ->
  destroyed_ (dropConnectionSync env code perr s) = true
  /\ streams_ (dropConnectionSync env code perr s) = ∅
  /\ sock_ (dropConnectionSync env code perr s) = false
  /\ drainState_ (dropConnectionSync env code perr s) = DONE
  /\ dropping_ (dropConnectionSync env code perr s) = true
  /\ loopCallbackScheduled_ (dropConnectionSync env code perr s) = false
  /\ checkFailed_ s = false.
Proof.
  intros Hdrop Hsock.
  destruct (dropConnectionSync_shape env code perr s Hdrop Hsock)
    as (t & -> & Hd & Hl & Hdr & Hst & Hde & Hcf & _).
  pose proof (checkForShutdown_done t Hd Hl) as Hc. cbv zeta in Hc.
  destruct (bool_decide (getNumStreams (checkForShutdown t) = 0%nat)) eqn:Hn;
    [| discriminate].
  apply bool_decide_eq_true in Hn. revert Hn. rewrite Hc.
  case_bool_decide as Hm.
  - apply map_size_empty_inv in Hm. rewrite Hm, Hst. cbn. intros _ Hf.
    repeat split; try done. congruence.
  - unfold getNumStreams. cbn [streams_ set_streams_]. done.
Qed.

(** X2: a drop that runs (the session is not dropping yet and holds its
    socket) tears the session down at once: every stream whose
    transaction is attached hears the error, the drain is DONE, the socket
    is released after one close (with the error code when streams were
    open, without a code otherwise) and the loop callback is cancelled.
    The streams left are those whose transaction is attached and stays so
    when it hears the error.  When no stream is left the session is
    destroyed; otherwise the final check,
    [CHECK_EQ(getNumStreams(), 0)], fails and the session is not
    destroyed.  A further drop changes nothing. *)
Theorem dropConnectionSync_tears_down env code perr s :
  dropping_ s = false ->
  sock_ s = true ->
  let s' := dropConnectionSync env code perr s in
  let left :=
    filter (fun kv : Z * HQStreamTransport =>
              detached_ kv.2 = false
              /\ txnDetachesOnError env (streamId kv.2) = false)
      (streams_ s) in
  dropping_ s' = true
  /\ drainState_ s' = DONE
  /\ sock_ s' = false
  /\ loopCallbackScheduled_ s' = false
  /\ sockCloses (trace_ s')
     = sockCloses (trace_ s)
       ++ [if bool_decide (0 < getNumStreams s)%nat then Some code.1 else None]
  /\ (forall k st,
        streams_ s !! k = Some st -> detached_ st = false ->
        perr ∈ txnErrors (streamId st) (drop (length (trace_ s)) (trace_ s')))
  /\ streams_ s' = (fun st => (errorOnTransactionErr perr st).1) <$> left
  /\ (left = ∅ -> destroyed_ s' = true /\ checkFailed_ s' = checkFailed_ s)
  /\ (left <> ∅ -> destroyed_ s' = destroyed_ s /\ checkFailed_ s' = true)
  /\ (forall env' code' perr', dropConnectionSync env' code' perr' s' = s').
Proof.
  intros Hdrop Hsock s' left.
  destruct (dropConnectionSync_closes env code perr s Hdrop Hsock) as [Hcl _].
  destruct (dropConnectionSync_shape env code perr s Hdrop Hsock)
    as (t & Hs' & Hd & Hl & Hdr & Hst & Hde & Hcf & Hstr & evs & Ht & Herr).
  fold s' in Hs', Hcl.
  pose proof (checkForShutdown_done t Hd Hl) as Hc. cbv zeta in Hc.
  rewrite Hstr, dropConnectionSync_left in Hc. fold left in Hc.
  rewrite map_size_fmap in Hc.
  assert (exists evs', trace_ s' = trace_ t ++ evs') as [evs' Ht'].
  { destruct (ev_trace _ _ (checkForShutdown_evolves t)) as (e & He & _).
    exists e. rewrite Hs'.
    destruct (bool_decide (getNumStreams (checkForShutdown t) = 0%nat));
      exact He. }
  assert (forall k st,
            streams_ s !! k = Some st -> detached_ st = false ->
            perr ∈ txnErrors (streamId st)
                     (drop (length (trace_ s)) (trace_ s'))) as Herr'.
  { intros k st Hk Hdet.
    rewrite Ht', Ht, <- app_assoc, drop_app_length, txnErrors_app.
    apply elem_of_app. left. by apply (Herr k st). }
  assert (forall env' code' perr',
            dropping_ s' = true ->
            dropConnectionSync env' code' perr' s' = s') as Hagain.
  { intros env' code' perr' H. unfold dropConnectionSync. by rewrite H. }
  case_bool_decide as Hm.
  - (* no stream is left *)
    apply map_size_empty_inv in Hm.
    assert (s' = checkForShutdown t) as Hs.
    { rewrite Hs', Hc. unfold getNumStreams. rewrite Hst. cbn [streams_ emit
        set_trace_ set_destroyed_ set_streams_]. rewrite Hm, fmap_empty.
      by rewrite map_size_empty, bool_decide_eq_true_2. }
    rewrite Hc, Hst in Hs.
    assert (dropping_ s' = true) as Hdr' by (by rewrite Hs).
    split; [exact Hdr' |]. split; [by rewrite Hs |]. split; [by rewrite Hs |].
    split; [by rewrite Hs |]. split; [exact Hcl |].
    split; [exact Herr' |]. split; [by rewrite Hs |].
    split; [intros _; by rewrite Hs |].
    split; [done | auto].
  - (* streams are left: the final check fails *)
    assert (left <> ∅) as Hne.
    { intros He. apply Hm. by rewrite He, map_size_empty. }
    assert (s' = set_checkFailed_ true (checkForShutdown t)) as Hs.
    { rewrite Hs', Hc. unfold getNumStreams. cbn [streams_ set_streams_].
      rewrite map_size_fmap. by rewrite bool_decide_eq_false_2. }
    rewrite Hc in Hs.
    assert (dropping_ s' = true) as Hdr' by (by rewrite Hs).
    split; [exact Hdr' |]. split; [by rewrite Hs |]. split; [by rewrite Hs |].
    split; [by rewrite Hs |]. split; [exact Hcl |].
    split; [exact Herr' |]. split; [by rewrite Hs |].
    split; [done |].
    split; [intros _; by rewrite Hs | auto].
Qed.

Lemma dropConnectionSync_tears_down_witness :
  let s' := dropConnectionSync goodEnv
              (ApplicationErrorCode HTTP3.HTTP_NO_ERROR, "Stopping")
              kErrorDropped serverWithTwoStreams in
  let left :=
    filter (fun kv : Z * HQStreamTransport =>
              detached_ kv.2 = false
              /\ txnDetachesOnError goodEnv (streamId kv.2) = false)
      (streams_ serverWithTwoStreams) in
  dropping_ s' = true
  /\ drainState_ s' = DONE
  /\ sock_ s' = false
  /\ loopCallbackScheduled_ s' = false
  /\ sockCloses (trace_ s')
     = sockCloses (trace_ serverWithTwoStreams)
       ++ [if bool_decide (0 < getNumStreams serverWithTwoStreams)%nat
           then Some (ApplicationErrorCode HTTP3.HTTP_NO_ERROR, "Stopping").1
           else None]
  /\ (forall k st,
        streams_ serverWithTwoStreams !! k = Some st -> detached_ st = false ->
        kErrorDropped
        ∈ txnErrors (streamId st)
            (drop (length (trace_ serverWithTwoStreams)) (trace_ s')))
  /\ streams_ s'
     = (fun st => (errorOnTransactionErr kErrorDropped st).1) <$> left
  /\ (left = ∅ ->
      destroyed_ s' = true
      /\ checkFailed_ s' = checkFailed_ serverWithTwoStreams)
  /\ (left <> ∅ ->
      destroyed_ s' = destroyed_ serverWithTwoStreams
      /\ checkFailed_ s' = true)
  /\ (forall env' code' perr', dropConnectionSync env' code' perr' s' = s').
Proof.
  apply (dropConnectionSync_tears_down goodEnv
           (ApplicationErrorCode HTTP3.HTTP_NO_ERROR, "Stopping")
           kErrorDropped serverWithTwoStreams); reflexivity.
Defined.

(** With transactions that detach when they hear the error the server
    with two streams is destroyed; with transactions that stay attached
    both streams are left and the final check fails. *)
Example dropConnectionSync_final_check :
  (fun s => (destroyed_ s, checkFailed_ s, size (streams_ s)))
    <$> [dropConnection goodEnv "" serverWithTwoStreams;
         dropConnection attachedEnv "" serverWithTwoStreams]
  = [(true, false, 0%nat); (false, true, 2%nat)].
Proof. vm_compute. reflexivity. Qed.

(** ** The close handshake of the unframed profile *)

(** X3: in the unframed profile a session that is not draining reaches
    DONE once [Connection: close] was both seen and sent, in either order:
    seeing it first moves to CLOSE_RECEIVED and the next message sent,
    whatever its keep-alive, to DONE; sending a message without keep-alive
    first moves to CLOSE_SENT and the close seen then to DONE.  Nothing
    else of the session changes, and messages that keep the connection
    alive leave it as it is. *)
Theorem unframed_close_handshake env s :
  versionUtils_ s = Some H1Q_FB_V1 ->
  drainState_ s = NONE ->
  headersComplete env true s = Some (set_drainState_ CLOSE_RECEIVED s)
  /\ (forall keepalive,
        checkSendingGoaway env keepalive (set_drainState_ CLOSE_RECEIVED s)
        = Some (set_drainState_ DONE s))
  /\ checkSendingGoaway env false s = Some (set_drainState_ CLOSE_SENT s)
  /\ headersComplete env true (set_drainState_ CLOSE_SENT s)
     = Some (set_drainState_ DONE s)
  /\ headersComplete env false s = Some s
  /\ checkSendingGoaway env true s = Some s.
Proof.
  intros Hv Hd. destruct s. cbn in Hv, Hd. subst.
  repeat split; try intros []; reflexivity.
Qed.

Lemma unframed_close_handshake_witness :
  let s := set_versionUtils_ (Some H1Q_FB_V1)
             (set_version_ (Some H1Q_FB_V1) (newSession DOWNSTREAM)) in
  headersComplete goodEnv true s = Some (set_drainState_ CLOSE_RECEIVED s)
  /\ (forall keepalive,
        checkSendingGoaway goodEnv keepalive (set_drainState_ CLOSE_RECEIVED s)
        = Some (set_drainState_ DONE s))
  /\ checkSendingGoaway goodEnv false s = Some (set_drainState_ CLOSE_SENT s)
  /\ headersComplete goodEnv true (set_drainState_ CLOSE_SENT s)
     = Some (set_drainState_ DONE s)
  /\ headersComplete goodEnv false s = Some s
  /\ checkSendingGoaway goodEnv true s = Some s.
Proof.
  apply (unframed_close_handshake goodEnv
           (set_versionUtils_ (Some H1Q_FB_V1)
              (set_version_ (Some H1Q_FB_V1) (newSession DOWNSTREAM))));
    reflexivity.
Defined.

(** ** New streams while draining *)

(** X4: a server of a framed profile that is draining never raises
    [maxIncomingStreamId_]: a new bidirectional stream above it is
    refused with HTTP_REQUEST_REJECTED (STOP_SENDING and RESET, after the
    QPACK cancel of the HTTP/3 profile) and no stream is created; a
    client-initiated one at or below it (streams may arrive out of order) is
    still accepted. *)
Theorem draining_server_keeps_maxIncoming env id v s s' :
  direction_ s = DOWNSTREAM ->
  versionUtils_ s = Some v -> framed v ->
  drainState_ s <> NONE ->
  quic.isBidirectionalStream id = true ->
  onNewBidirectionalStream env id s = Some s' ->
  maxIncomingStreamId_ s' = maxIncomingStreamId_ s
  /\ (quic.isClientStream id = true ->
      if id >? maxIncomingStreamId_ s
      then streams_ s' = streams_ s
           /\ trace_ s'
              = trace_ s ++ versionUtilsAbortStream s id
                  ++ [EvStopSending id HTTP3.HTTP_REQUEST_REJECTED;
                      EvResetStream id HTTP3.HTTP_REQUEST_REJECTED]
      else acceptedStreams (trace_ s') = acceptedStreams (trace_ s) ++ [id]).
Proof.
  intros Hdir Hv Hf Hdrain Hbidi. unfold onNewBidirectionalStream.
  rewrite Hv.
  assert (checkNewStream v id s = GoawayUtils_checkNewStream id s) as ->
    by (by destruct Hf as [-> | ->]).
  unfold GoawayUtils_checkNewStream. rewrite Hbidi, Hdir. cbn [andb].
  rewrite (bool_decide_eq_true_2 (drainState_ s <> NONE)) by exact Hdrain.
  rewrite (bool_decide_eq_false_2 (DOWNSTREAM = UPSTREAM)) by discriminate.
  rewrite (bool_decide_eq_true_2 (DOWNSTREAM = DOWNSTREAM)) by reflexivity.
  cbn [andb orb].
  destruct (quic.isServerStream id) eqn:Hsrv.
  - intros [= <-]. split; [reflexivity |].
    unfold quic.isClientStream. unfold quic.isServerStream in Hsrv.
    rewrite Hsrv. discriminate.
  - destruct (id >? maxIncomingStreamId_ s) eqn:Hgt.
    + intros [= <-]. split; [reflexivity |]. intros _.
      split; [reflexivity |].
      unfold abortStreamS, abortStream. cbn [trace_ emit set_trace_].
      rewrite Hbidi. cbn [andb orb]. by rewrite <- app_assoc.
    + cbn [negb].
      destruct (createStreamTransport env id (emit [EvStreamAccepted id] s))
        as [created s2] eqn:Hc.
      intros [= <-]. cbn [maxIncomingStreamId_ set_maxIncomingStreamId_].
      assert (maxIncomingStreamId_ s2 = maxIncomingStreamId_ s
              /\ acceptedStreams (trace_ s2)
                 = acceptedStreams (trace_ s) ++ [id]) as [Hm Ha].
      { unfold createStreamTransport in Hc.
        destruct (negb (sockGood env) || bool_decide (is_Some (streams_ _ !! id)));
          injection Hc as <- <-; cbn [trace_ emit set_trace_ set_streams_
            maxIncomingStreamId_];
          rewrite ?acceptedStreams_app; cbn; by rewrite ?app_nil_r. }
      split; [| intros _; exact Ha].
      rewrite Hm. rewrite Z.gtb_ltb in Hgt. apply Z.ltb_ge in Hgt. lia.
Qed.

Lemma draining_server_keeps_maxIncoming_witness :
  let s := set_drainState_ FIRST_GOAWAY serverWithTwoStreams in
  let s' := abortStreamS HTTPException.INGRESS_AND_EGRESS 8
              HTTP3.HTTP_REQUEST_REJECTED s in
  maxIncomingStreamId_ s' = maxIncomingStreamId_ s
  /\ (quic.isClientStream 8 = true ->
      if 8 >? maxIncomingStreamId_ s
      then streams_ s' = streams_ s
           /\ trace_ s'
              = trace_ s ++ versionUtilsAbortStream s 8
                  ++ [EvStopSending 8 HTTP3.HTTP_REQUEST_REJECTED;
                      EvResetStream 8 HTTP3.HTTP_REQUEST_REJECTED]
      else acceptedStreams (trace_ s') = acceptedStreams (trace_ s) ++ [8]).
Proof.
  apply (draining_server_keeps_maxIncoming goodEnv 8 HQ
           (set_drainState_ FIRST_GOAWAY serverWithTwoStreams)).
  - reflexivity.
  - reflexivity.
  - by right.
  - discriminate.
  - reflexivity.
  - vm_compute. reflexivity.
Defined.

(** ** New transactions *)

(** X5: [newTransaction] hands out a transaction only on the stream id the
    socket created, only when that id is not in use, the socket is good
    and the session is not in CLOSE_SENT, FIRST_GOAWAY or DONE; the new
    stream is entered fresh and attached, with the egress of its
    transaction paused exactly when the writes of the session are paused
    or, the socket being held, the connection has no room in its buffer
    or no send window left; every stream the session had stays as it was.
    When it hands out none, the streams are unchanged (an id that is
    already in use is aborted with HTTP_INTERNAL_ERROR). *)
Theorem newTransaction_fresh_stream env s :
  match newTransaction env s with
  | (Some id, s') =>
      createBidirectionalStream env = Some id
      /\ sockGood env = true
      /\ drainState_ s <> CLOSE_SENT /\ drainState_ s <> FIRST_GOAWAY
      /\ drainState_ s <> DONE
      /\ streams_ s !! id = None
      /\ streams_ s'
         = <[id := if writesPaused_ s
                      || (sock_ s
                          && ((connectionBufferAvailable env =? 0)
                              || match connectionSendWindow env with
                                 | Some w => w =? 0
                                 | None => false
                                 end))
                   then pauseEgress (newStream id)
                   else newStream id]> (streams_ s)
      /\ trace_ s' = trace_ s ++ [EvStreamCreated id]
      /\ forall k st, streams_ s !! k = Some st -> streams_ s' !! k = Some st
  | (None, s') =>
      streams_ s' = streams_ s
      /\ (trace_ s' = trace_ s
          \/ exists id,
               createBidirectionalStream env = Some id
               /\ trace_ s'
                  = trace_ s
                    ++ abortStream s HTTPException.INGRESS_AND_EGRESS id
                         HTTP3.HTTP_INTERNAL_ERROR)
  end.
Proof.
  unfold newTransaction.
  destruct (bool_decide (drainState_ s = CLOSE_SENT)) eqn:H1;
    [cbn [orb]; auto |].
  destruct (bool_decide (drainState_ s = FIRST_GOAWAY)) eqn:H2;
    [cbn [orb]; auto |].
  destruct (bool_decide (drainState_ s = DONE)) eqn:H3;
    [cbn [orb]; auto |].
  cbn [orb]. apply bool_decide_eq_false in H1, H2, H3.
  destruct (sockGood env) eqn:Hg; cbn [negb]; [| auto].
  destruct (createBidirectionalStream env) as [id |] eqn:Hid; [| auto].
  unfold createStreamTransport. rewrite Hg. cbn [negb orb].
  destruct (bool_decide (is_Some (streams_ s !! id))) eqn:Hex.
  - split; [reflexivity |]. right. by exists id.
  - apply bool_decide_eq_false in Hex.
    assert (streams_ s !! id = None) as Hn
      by (destruct (streams_ s !! id) eqn:E; [destruct Hex; eauto | done]).
    cbn [streams_ emit set_trace_ set_streams_ trace_].
    assert (alter (setNewTransactionPauseState env
                     (emit [EvStreamCreated id]
                        (set_streams_ (<[id:=newStream id]> (streams_ s)) s)))
              id (<[id:=newStream id]> (streams_ s))
            = <[id := if writesPaused_ s
                         || (sock_ s
                             && ((connectionBufferAvailable env =? 0)
                                 || match connectionSendWindow env with
                                    | Some w => w =? 0
                                    | None => false
                                    end))
                      then pauseEgress (newStream id)
                      else newStream id]> (streams_ s)) as ->.
    { rewrite alter_insert_eq. reflexivity. }
    repeat split; try done.
    intros k st Hk. rewrite lookup_insert_ne; [done |]. intros <-. congruence.
Qed.

(** A client whose writes are paused starts its new transaction with the
    egress paused; so does a client whose connection has no send window
    left. *)
Example newTransaction_starts_paused :
  (fun s => txnEgressPaused <$> (txn_ <$> streams_ s !! 0))
    <$> [(newTransaction goodEnv (newSession UPSTREAM)).2;
         (newTransaction goodEnv
            (set_writesPaused_ true (newSession UPSTREAM))).2;
         (newTransaction blockedEnv (newSession UPSTREAM)).2]
  = [Some false; Some true; Some true].
Proof. vm_compute. reflexivity. Qed.

(** ** Control streams *)

Lemma createEgressControlStream_ok env type id s :
  createUnidirectionalStream env type = Some id ->
  controlStreams_ s !! type = None ->
  createEgressControlStream env type s
  = Some (true,
          set_controlStreams_
            (<[type := {| egressStreamId := id; ingressStreamId := None;
                          ingressCodec_ := false; ctrlReadBuf_ := [];
                          ctrlReadEOF_ := false;
                          ctrlWriteBuf_ := streamPreface env type |}]>
               (controlStreams_ s)) s).
Proof.
  intros Hid Hn. unfold createEgressControlStream. by rewrite Hid, Hn.
Qed.

(** The control streams setup opens, when the socket creates them. *)
Lemma createEgressControlStreams_shape v env s :
  controlStreams_ s = ∅ ->
  (forall t, t ∈ egressControlTypes v ->
             is_Some (createUnidirectionalStream env t)) ->
  exists cs,
    createEgressControlStreams v env s = Some (true, set_controlStreams_ cs s)
    /\ forall t,
         cs !! t
         = if bool_decide (t ∈ egressControlTypes v)
           then
             id ← createUnidirectionalStream env t;
             Some {| egressStreamId := id; ingressStreamId := None;
                     ingressCodec_ := false; ctrlReadBuf_ := [];
                     ctrlReadEOF_ := false;
                     ctrlWriteBuf_ :=
                       streamPreface env t
                       ++ (if bool_decide (t = CONTROL)
                           then settingsFrame env else []) |}
           else None.
Proof.
  intros He Hok. destruct v; cbn [createEgressControlStreams].
  - exists ∅. split; [rewrite <- He; by destruct s |].
    intros t. rewrite lookup_empty.
    by rewrite bool_decide_eq_false_2 by (cbn; apply not_elem_of_nil).
  - destruct (Hok H1Q_CONTROL) as [id Hid]; [cbn; set_solver |].
    rewrite (createEgressControlStream_ok env H1Q_CONTROL id s Hid)
      by (by rewrite He).
    eexists. split; [reflexivity |].
    intros t. rewrite He. destruct t; cbn; rewrite ?Hid; cbn; by rewrite ?app_nil_r.
  - destruct (Hok CONTROL) as [i1 H1]; [cbn; set_solver |].
    destruct (Hok QPACK_ENCODER) as [i2 H2]; [cbn; set_solver |].
    destruct (Hok QPACK_DECODER) as [i3 H3]; [cbn; set_solver |].
    rewrite (createEgressControlStream_ok env CONTROL i1 s H1)
      by (by rewrite He).
    cbn [mbind option_bind negb].
    rewrite (createEgressControlStream_ok env QPACK_ENCODER i2 _ H2)
      by (cbn; by rewrite He).
    cbn [mbind option_bind negb].
    rewrite (createEgressControlStream_ok env QPACK_DECODER i3 _ H3)
      by (cbn; by rewrite He).
    cbn [mbind option_bind negb].
    unfold HQ_sendSettings. cbn [controlStreams_ set_controlStreams_].
    rewrite He.
    eexists. split; [reflexivity |]. intros t.
    destruct t; cbn; rewrite ?H1, ?H2, ?H3; cbn; by rewrite ?app_nil_r.
Qed.

(** X6: when the socket creates the unidirectional streams, setup opens
    the control streams of the profile and no other: none in the unframed
    profile, H1Q_CONTROL in the framed HTTP/1 profile, CONTROL,
    QPACK_ENCODER and QPACK_DECODER in HTTP/3.  Each is bound to the id the
    socket gave, has no ingress side yet, and holds its preface to write;
    the HTTP/3 control stream holds the SETTINGS frame after the preface. *)
Theorem createEgressControlStreams_opens v env s :
  controlStreams_ s = ∅ ->
  (forall t, t ∈ egressControlTypes v ->
             is_Some (createUnidirectionalStream env t)) ->
  exists s',
    createEgressControlStreams v env s = Some (true, s')
    /\ trace_ s' = trace_ s
    /\ streams_ s' = streams_ s
    /\ forall t,
         controlStreams_ s' !! t
         = if bool_decide (t ∈ egressControlTypes v)
           then
             id ← createUnidirectionalStream env t;
             Some {| egressStreamId := id; ingressStreamId := None;
                     ingressCodec_ := false; ctrlReadBuf_ := [];
                     ctrlReadEOF_ := false;
                     ctrlWriteBuf_ :=
                       streamPreface env t
                       ++ (if bool_decide (t = CONTROL)
                           then settingsFrame env else []) |}
           else None.
Proof.
  intros He Hok.
  destruct (createEgressControlStreams_shape v env s He Hok) as (cs & -> & Hcs).
  eexists. split; [reflexivity |]. by repeat split.
Qed.

Lemma createEgressControlStreams_opens_witness :
  exists s',
    createEgressControlStreams HQ goodEnv (newSession DOWNSTREAM)
    = Some (true, s')
    /\ trace_ s' = trace_ (newSession DOWNSTREAM)
    /\ streams_ s' = streams_ (newSession DOWNSTREAM)
    /\ forall t,
         controlStreams_ s' !! t
         = if bool_decide (t ∈ egressControlTypes HQ)
           then
             id ← createUnidirectionalStream goodEnv t;
             Some {| egressStreamId := id; ingressStreamId := None;
                     ingressCodec_ := false; ctrlReadBuf_ := [];
                     ctrlReadEOF_ := false;
                     ctrlWriteBuf_ :=
                       streamPreface goodEnv t
                       ++ (if bool_decide (t = CONTROL)
                           then settingsFrame goodEnv else []) |}
           else None.
Proof.
  apply (createEgressControlStreams_opens HQ goodEnv (newSession DOWNSTREAM)).
  - reflexivity.
  - intros t _. by eexists.
Defined.

(** The control stream that uses an id, when one does and no other. *)
Lemma findControlStream_unique id type cs s :
  controlStreams_ s !! type = Some cs ->
  isUsing id cs = true ->
  (forall t cs', controlStreams_ s !! t = Some cs' -> t <> type ->
                 isUsing id cs' = false) ->
  findControlStream id s = Some (type, cs).
Proof.
  intros Hcs Hu Hothers. unfold findControlStream.
  assert (filter (fun kv : UnidirectionalStreamType * HQControlStream =>
                    isUsing id kv.2 = true)
            (map_to_list (controlStreams_ s)) = [(type, cs)]) as ->; [| done].
  apply Permutation_singleton_r, NoDup_Permutation.
  - apply NoDup_filter, NoDup_map_to_list.
  - apply NoDup_singleton.
  - intros [t cs']. rewrite list_elem_of_filter, elem_of_map_to_list,
      list_elem_of_singleton. cbn [snd]. split.
    + intros [Hu' Hl]. destruct (decide (t = type)) as [-> | Hne].
      * congruence.
      * rewrite (Hothers t cs' Hl Hne) in Hu'. discriminate.
    + intros [= -> ->]. done.
Qed.

(** Nothing buffered and no end of stream: the codec is not called. *)
Lemma HQControlStream_processReadData_nothing env type id cs s :
  controlStreams_ s !! type = Some cs ->
  ingressStreamId cs = Some id ->
  ingressCodec_ cs = true ->
  ctrlReadBuf_ cs = [] ->
  ctrlReadEOF_ cs = false ->
  HQControlStream_processReadData env type s = Some s.
Proof.
  intros Hcs Hid Hc Hb He. unfold HQControlStream_processReadData.
  rewrite Hcs. cbn [mbind option_bind]. rewrite Hid. cbn [mbind option_bind].
  rewrite Hc, Hb. cbn [negb].
  change (chainLength [] >? 0) with false.
  cbn [mbind option_bind]. rewrite Hcs. cbn [mbind option_bind].
  by rewrite He.
Qed.

(** X7: when the dispatcher has read the preface of a peer's
    unidirectional stream in a framed profile and the socket consumed it:
    a type the profile does not know is refused with STOP_SENDING
    HTTP_UNKNOWN_STREAM_TYPE and changes no control stream; the first
    stream of a known type becomes the ingress side of the control stream
    of that type, which keeps its egress side and its buffers, and, no
    other control stream using the id, that control stream is read at
    once: a read error goes to [readError], and when the socket has
    nothing for a stream whose buffer is empty, nothing else changes and
    nothing is sent.  Either way the dispatcher no longer owns the
    stream. *)
Theorem assignReadCallback_binds_or_rejects env id type v s :
  versionUtils_ s = Some v -> framed v -> consumeOk env = true ->
  (parseStreamPreface v type = None ->
   exists s',
     assignReadCallback env id type s = Some s'
     /\ trace_ s' = trace_ s ++ [EvStopSending id HTTP3.HTTP_UNKNOWN_STREAM_TYPE]
     /\ controlStreams_ s' = controlStreams_ s
     /\ dropInNextLoop_ s' = dropInNextLoop_ s
     /\ id ∉ pendingUniStreams_ s')
  /\ (forall cs,
        parseStreamPreface v type = Some type ->
        controlStreams_ s !! type = Some cs ->
        ingressCodec_ cs = false ->
        (forall t cs', controlStreams_ s !! t = Some cs' -> t <> type ->
                       isUsing id cs' = false) ->
        exists s1,
          trace_ s1 = trace_ s
          /\ controlStreams_ s1 !! type
             = Some {| egressStreamId := egressStreamId cs;
                       ingressStreamId := Some id;
                       ingressCodec_ := true;
                       ctrlReadBuf_ := ctrlReadBuf_ cs;
                       ctrlReadEOF_ := ctrlReadEOF_ cs;
                       ctrlWriteBuf_ := ctrlWriteBuf_ cs |}
          /\ (forall t, t <> type ->
                        controlStreams_ s1 !! t = controlStreams_ s !! t)
          /\ streams_ s1 = streams_ s
          /\ dropInNextLoop_ s1 = dropInNextLoop_ s
          /\ (id ∉ pendingUniStreams_ s1)
          /\ assignReadCallback env id type s = readControlStream env type s1
          /\ (forall error,
                readResult env = inl error ->
                assignReadCallback env id type s
                = Some (readError id error s1))
          /\ (readResult env = inr ([], false) ->
              ctrlReadBuf_ cs = [] ->
              exists s',
                assignReadCallback env id type s = Some s'
                /\ trace_ s' = trace_ s
                /\ streams_ s' = streams_ s
                /\ dropInNextLoop_ s' = dropInNextLoop_ s
                /\ (id ∉ pendingUniStreams_ s')
                /\ controlStreams_ s' !! type
                   = Some {| egressStreamId := egressStreamId cs;
                             ingressStreamId := Some id;
                             ingressCodec_ := true;
                             ctrlReadBuf_ := [];
                             ctrlReadEOF_ := false;
                             ctrlWriteBuf_ := ctrlWriteBuf_ cs |}
                /\ (forall t, t <> type ->
                              controlStreams_ s' !! t
                              = controlStreams_ s !! t))).
Proof.
  intros Hv Hf Hok.
  assert (forall l : list Z, id ∉ filter (fun i => i ≠ id) l) as Hnot.
  { intros l Hin. apply list_elem_of_filter in Hin as [Hne _]. by apply Hne. }
  split.
  - intros Hp. unfold assignReadCallback, tryCreateIngressControlStream.
    rewrite Hok, Hv, Hp. cbn [mbind option_bind negb].
    eexists. split; [reflexivity |]. repeat split. apply Hnot.
  - intros cs Hp Hcs Hi Hothers.
    set (cs1 := {| egressStreamId := egressStreamId cs;
                   ingressStreamId := Some id;
                   ingressCodec_ := true;
                   ctrlReadBuf_ := ctrlReadBuf_ cs;
                   ctrlReadEOF_ := ctrlReadEOF_ cs;
                   ctrlWriteBuf_ := ctrlWriteBuf_ cs |}).
    set (s1 := set_controlStreams_ (<[type := cs1]> (controlStreams_ s))
                 (set_pendingUniStreams_
                    (filter (fun i => i ≠ id) (pendingUniStreams_ s)) s)).
    assert (controlStreams_ s1 !! type = Some cs1) as Hcs1
      by (subst s1; cbn; by rewrite lookup_insert_eq).
    assert (assignReadCallback env id type s
            = readControlStream env type s1) as Hread.
    { unfold assignReadCallback, tryCreateIngressControlStream,
        createIngressControlStream.
      rewrite Hok, Hv, Hp. cbn [controlStreams_ set_pendingUniStreams_ negb].
      rewrite Hcs, Hi. cbn [mbind option_bind negb].
      change (controlStreamReadAvailable env id s1
              = readControlStream env type s1).
      unfold controlStreamReadAvailable.
      rewrite (findControlStream_unique id type cs1 s1); [done | done | |].
      - unfold isUsing. cbn.
        rewrite (bool_decide_eq_true_2 (Some id = Some id)) by done.
        apply orb_true_r.
      - intros t cs' Hl Hne. apply (Hothers t cs'); [| done].
        subst s1. cbn in Hl. by rewrite lookup_insert_ne in Hl. }
    exists s1.
    split; [reflexivity |]. split; [exact Hcs1 |].
    split; [intros t Hne; subst s1; cbn; by rewrite lookup_insert_ne |].
    split; [reflexivity |]. split; [reflexivity |].
    split; [apply Hnot |]. split; [exact Hread |]. split.
    + intros error Herr. rewrite Hread. unfold readControlStream.
      rewrite Hcs1. cbn [mbind option_bind ingressStreamId cs1].
      by rewrite Herr.
    + intros Hres Hbuf. rewrite Hread. unfold readControlStream.
      rewrite Hcs1. cbn [mbind option_bind ingressStreamId cs1].
      rewrite Hres. cbv zeta.
      set (cs2 := set_ctrlReadEOF_ false
                    (set_ctrlReadBuf_ (ctrlReadBuf_ cs1 ++ []) cs1)).
      set (s2 := set_controlStreams_ (<[type := cs2]> (controlStreams_ s1)) s1).
      assert (controlStreams_ s2 !! type = Some cs2) as Hcs2
        by (subst s2; cbn; by rewrite lookup_insert_eq).
      assert (ctrlReadBuf_ cs2 = []) as Hb2
        by (subst cs2 cs1; cbn; by rewrite Hbuf).
      rewrite (HQControlStream_processReadData_nothing env type id cs2 s2);
        [| exact Hcs2 | reflexivity | reflexivity | exact Hb2 | reflexivity].
      exists s2. split; [reflexivity |].
      split; [reflexivity |]. split; [reflexivity |].
      split; [reflexivity |]. split; [apply Hnot |]. split.
      * rewrite Hcs2. subst cs2 cs1. cbn. by rewrite Hbuf.
      * intros t Hne. subst s2 s1. cbn. by rewrite !lookup_insert_ne.
Qed.

Lemma assignReadCallback_binds_or_rejects_witness :
  (parseStreamPreface HQ CONTROL = None ->
   exists s',
     assignReadCallback quietRead 2 CONTROL serverWithTwoStreams = Some s'
     /\ trace_ s'
        = trace_ serverWithTwoStreams
          ++ [EvStopSending 2 HTTP3.HTTP_UNKNOWN_STREAM_TYPE]
     /\ controlStreams_ s' = controlStreams_ serverWithTwoStreams
     /\ dropInNextLoop_ s' = dropInNextLoop_ serverWithTwoStreams
     /\ 2 ∉ pendingUniStreams_ s')
  /\ (forall cs,
        parseStreamPreface HQ CONTROL = Some CONTROL ->
        controlStreams_ serverWithTwoStreams !! CONTROL = Some cs ->
        ingressCodec_ cs = false ->
        (forall t cs',
           controlStreams_ serverWithTwoStreams !! t = Some cs' ->
           t <> CONTROL -> isUsing 2 cs' = false) ->
        exists s1,
          trace_ s1 = trace_ serverWithTwoStreams
          /\ controlStreams_ s1 !! CONTROL
             = Some {| egressStreamId := egressStreamId cs;
                       ingressStreamId := Some 2;
                       ingressCodec_ := true;
                       ctrlReadBuf_ := ctrlReadBuf_ cs;
                       ctrlReadEOF_ := ctrlReadEOF_ cs;
                       ctrlWriteBuf_ := ctrlWriteBuf_ cs |}
          /\ (forall t, t <> CONTROL ->
                        controlStreams_ s1 !! t
                        = controlStreams_ serverWithTwoStreams !! t)
          /\ streams_ s1 = streams_ serverWithTwoStreams
          /\ dropInNextLoop_ s1 = dropInNextLoop_ serverWithTwoStreams
          /\ (2 ∉ pendingUniStreams_ s1)
          /\ assignReadCallback quietRead 2 CONTROL serverWithTwoStreams
             = readControlStream quietRead CONTROL s1
          /\ (forall error,
                readResult quietRead = inl error ->
                assignReadCallback quietRead 2 CONTROL serverWithTwoStreams
                = Some (readError 2 error s1))
          /\ (readResult quietRead = inr ([], false) ->
              ctrlReadBuf_ cs = [] ->
              exists s',
                assignReadCallback quietRead 2 CONTROL serverWithTwoStreams
                = Some s'
                /\ trace_ s' = trace_ serverWithTwoStreams
                /\ streams_ s' = streams_ serverWithTwoStreams
                /\ dropInNextLoop_ s' = dropInNextLoop_ serverWithTwoStreams
                /\ (2 ∉ pendingUniStreams_ s')
                /\ controlStreams_ s' !! CONTROL
                   = Some {| egressStreamId := egressStreamId cs;
                             ingressStreamId := Some 2;
                             ingressCodec_ := true;
                             ctrlReadBuf_ := [];
                             ctrlReadEOF_ := false;
                             ctrlWriteBuf_ := ctrlWriteBuf_ cs |}
                /\ (forall t, t <> CONTROL ->
                              controlStreams_ s' !! t
                              = controlStreams_ serverWithTwoStreams !! t))).
Proof.
  apply (assignReadCallback_binds_or_rejects quietRead 2 CONTROL HQ
           serverWithTwoStreams).
  - vm_compute. reflexivity.
  - by right.
  - reflexivity.
Defined.

(** The peer's control stream brings a GOAWAY with its first bytes: the
    client binds the stream, reads it at once and starts to drain. *)
Example assignReadCallback_reads_goaway :
  (fun s => (drainState_ s, maxAllowedStreamId_ s,
             ingressStreamId <$> controlStreams_ s !! CONTROL))
    <$> run [OpNewUnidirectionalStream 3;
             OpAssignReadCallback goawayRead 3 CONTROL] clientWithThreeStreams
  = Some (FIRST_GOAWAY, 4, Some (Some 3)).
Proof. vm_compute. reflexivity. Qed.

(** ** Errors on a request stream *)

(** The stream after its egress and ingress were aborted. *)
Lemma errorOnTransaction_both ex st :
  HTTPException.direction ex = HTTPException.INGRESS_AND_EGRESS ->
  let st' := (errorOnTransaction ex st).1 in
  writeBuf_ st' = [] /\ readBuf_ st' = [] /\ pendingEOM_ st' = false
  /\ ingressError_ st' = true /\ streamTransportEnqueued st' = false
  /\ streamId st' = streamId st /\ detached_ st' = detached_ st
  /\ bytesWritten_ st' = bytesWritten_ st /\ txn_ st' = txn_ st.
Proof.
  intros Hd st'. unfold st', errorOnTransaction, abortEgress, abortIngress,
    HTTPException.isIngressException, HTTPException.isEgressException.
  rewrite Hd. cbv zeta. cbn [fst].
  change (streamTransportEnqueued
            (set_pendingEOM_ false
               (set_writeBuf_ [] (set_readBuf_ [] (set_ingressError_ true st)))))
    with (streamTransportEnqueued st).
  destruct (streamTransportEnqueued st) eqn:He; repeat split; cbn; auto.
Qed.

(** X8: STOP_SENDING from the peer on a request stream the session holds
    ends the stream in both directions: the session answers STOP_SENDING
    and RESET with HTTP_REQUEST_CANCELLED (after the QPACK cancel of the
    HTTP/3 profile), the transaction, when attached, hears
    StreamUnacknowledged if the peer's code is HTTP_REQUEST_REJECTED and
    StreamAbort otherwise, and the stream drops what it buffered, clears its
    pending EOM and leaves the egress queue.  For an id the session does
    not hold nothing happens. *)
Theorem onStopSending_ends_stream id error s :
  match findStream id s with
  | None => onStopSending id error s = Some s
  | Some st =>
      exists s' st',
        onStopSending id error s = Some s'
        /\ streams_ s' = <[id := st']> (streams_ s)
        /\ writeBuf_ st' = [] /\ readBuf_ st' = [] /\ pendingEOM_ st' = false
        /\ ingressError_ st' = true /\ streamTransportEnqueued st' = false
        /\ streamId st' = streamId st /\ detached_ st' = detached_ st
        /\ trace_ s'
           = trace_ s
             ++ abortStream s HTTPException.INGRESS_AND_EGRESS (streamId st)
                  HTTP3.HTTP_REQUEST_CANCELLED
             ++ (if detached_ st then []
                 else [EvTxnOnError (streamId st)
                         (HTTPException.setProxygenError
                            (if bool_decide
                                  (error = HTTP3.HTTP_REQUEST_REJECTED)
                             then kErrorStreamUnacknowledged
                             else kErrorStreamAbort)
                            (HTTPException.make
                               HTTPException.INGRESS_AND_EGRESS))])
  end.
Proof.
  unfold onStopSending. destruct (findStream id s) as [st |]; [| done].
  unfold handleWriteError. cbv zeta.
  set (ex := HTTPException.setProxygenError _ _).
  pose proof (errorOnTransaction_both ex st eq_refl) as Hb. cbv zeta in Hb.
  pose proof (errorOnTransaction_events ex st) as He.
  destruct (errorOnTransaction ex st) as [st1 ev] eqn:E.
  cbn [fst snd] in Hb, He. cbn [mbind option_bind].
  destruct Hb as (H1 & H2 & H3 & H4 & H5 & H6 & H7 & _).
  exists (emit (abortStream s (HTTPException.direction ex) (streamId st)
                  HTTP3.HTTP_REQUEST_CANCELLED ++ ev)
            (set_streams_ (<[id := st1]> (streams_ s)) s)), st1.
  repeat split; try done.
  cbn [trace_ emit set_trace_ set_streams_]. rewrite He. unfold ex.
  by destruct (decide (error = HTTP3.HTTP_REQUEST_REJECTED));
    [rewrite bool_decide_eq_true_2 by done
    | rewrite bool_decide_eq_false_2 by done].
Qed.

(** X9: a read error with a local or a transport error code fails the
    transaction without answering the peer: the stream, when the session
    holds it, drops its buffers in both directions and its transaction,
    when attached, hears kErrorConnect for CONNECT_FAILED, kErrorShutdown
    for any other local code and kErrorConnectionReset (with the code as
    errno) for a transport code; no STOP_SENDING or RESET is issued, only
    the transaction is told.  With an application code a detached stream
    is left alone.  For an id the session does not hold nothing happens. *)
Theorem readError_fails_transaction id error s :
  (findStream id s = None -> readError id error s = s)
  /\ (forall st e,
        findStream id s = Some st -> detached_ st = true ->
        error = ApplicationErrorCode e -> readError id error s = s)
  /\ (forall st,
        findStream id s = Some st ->
        (forall e, error <> ApplicationErrorCode e) ->
        exists st',
          streams_ (readError id error s) = <[id := st']> (streams_ s)
          /\ writeBuf_ st' = [] /\ readBuf_ st' = []
          /\ pendingEOM_ st' = false /\ ingressError_ st' = true
          /\ streamTransportEnqueued st' = false
          /\ trace_ (readError id error s)
             = trace_ s
               ++ (if detached_ st then []
                   else [EvTxnOnError (streamId st)
                           match error with
                           | LocalErrorCode quic.CONNECT_FAILED =>
                               HTTPException.setProxygenError kErrorConnect
                                 (HTTPException.make
                                    HTTPException.INGRESS_AND_EGRESS)
                           | TransportErrorCode c =>
                               HTTPException.setErrno (TransportErrorCode c)
                                 (HTTPException.setProxygenError
                                    kErrorConnectionReset
                                    (HTTPException.make
                                       HTTPException.INGRESS_AND_EGRESS))
                           | _ =>
                               HTTPException.setProxygenError kErrorShutdown
                                 (HTTPException.make
                                    HTTPException.INGRESS_AND_EGRESS)
                           end])).
Proof.
  split; [| split].
  - intros Hn. unfold readError, errorOnTransactionId, findNonDetachedStream.
    unfold findStream in Hn. cbv zeta. unfold findStream. rewrite Hn.
    by destruct error.
  - intros st e Hs Hd ->. unfold readError, findNonDetachedStream.
    unfold findStream in Hs. cbv zeta. by rewrite Hs, Hd.
  - intros st Hs Hne. unfold readError, errorOnTransactionId. cbv zeta.
    rewrite Hs.
    destruct error as [e | l | t]; [by destruct (Hne e) | |].
    + set (ex := HTTPException.setProxygenError _ _).
      pose proof (errorOnTransaction_both ex st eq_refl) as Hb.
      cbv zeta in Hb.
      pose proof (errorOnTransaction_events ex st) as He.
      destruct (errorOnTransaction ex st) as [st1 ev] eqn:E.
      cbn [fst snd] in Hb, He.
      destruct Hb as (H1 & H2 & H3 & H4 & H5 & _).
      exists st1. repeat split; try done.
      cbn [trace_ emit set_trace_ set_streams_]. rewrite He. unfold ex.
      by destruct l.
    + set (ex := HTTPException.setErrno _ _).
      pose proof (errorOnTransaction_both ex st eq_refl) as Hb.
      cbv zeta in Hb.
      pose proof (errorOnTransaction_events ex st) as He.
      destruct (errorOnTransaction ex st) as [st1 ev] eqn:E.
      cbn [fst snd] in Hb, He.
      destruct Hb as (H1 & H2 & H3 & H4 & H5 & _).
      exists st1. repeat split; try done.
      cbn [trace_ emit set_trace_ set_streams_]. by rewrite He.
Qed.

Lemma readError_fails_transaction_witness :
  (findStream 4 serverWithTwoStreams = None ->
   readError 4 (LocalErrorCode quic.CONNECT_FAILED) serverWithTwoStreams
   = serverWithTwoStreams)
  /\ (forall st e,
        findStream 4 serverWithTwoStreams = Some st -> detached_ st = true ->
        LocalErrorCode quic.CONNECT_FAILED = ApplicationErrorCode e ->
        readError 4 (LocalErrorCode quic.CONNECT_FAILED) serverWithTwoStreams
        = serverWithTwoStreams)
  /\ (forall st,
        findStream 4 serverWithTwoStreams = Some st ->
        (forall e, LocalErrorCode quic.CONNECT_FAILED <> ApplicationErrorCode e) ->
        exists st',
          streams_ (readError 4 (LocalErrorCode quic.CONNECT_FAILED)
                      serverWithTwoStreams)
          = <[4 := st']> (streams_ serverWithTwoStreams)
          /\ writeBuf_ st' = [] /\ readBuf_ st' = []
          /\ pendingEOM_ st' = false /\ ingressError_ st' = true
          /\ streamTransportEnqueued st' = false
          /\ trace_ (readError 4 (LocalErrorCode quic.CONNECT_FAILED)
                       serverWithTwoStreams)
             = trace_ serverWithTwoStreams
               ++ (if detached_ st then []
                   else [EvTxnOnError (streamId st)
                           (HTTPException.setProxygenError kErrorConnect
                              (HTTPException.make
                                 HTTPException.INGRESS_AND_EGRESS))])).
Proof.
  exact (readError_fails_transaction 4 (LocalErrorCode quic.CONNECT_FAILED)
           serverWithTwoStreams).
Defined.

(** ** Errors on a control stream *)

Lemma handleSessionError_frame isControl err perr s :
  let s' := handleSessionError isControl err perr s in
  trace_ s' = trace_ s /\ streams_ s' = streams_ s
  /\ controlStreams_ s' = controlStreams_ s
  /\ sock_ s' = sock_ s /\ destroyed_ s' = destroyed_ s
  /\ dropping_ s' = dropping_ s
  /\ drainState_ s' = drainState_ s
  /\ maxIncomingStreamId_ s' = maxIncomingStreamId_ s.
Proof.
  unfold handleSessionError, dropConnectionAsync, scheduleLoopCallback.
  cbv zeta. by repeat case_match.
Qed.

(** X10: an error on a control stream never drops the connection within
    the call: it is latched for the next loop callback, which is
    scheduled, and nothing else of the session changes.  A local NO_ERROR
    (the socket closing without error) latches nothing, nor does an error
    that finds a drop latched already.  The code of the latched drop is
    the application code the error carries, except that on a control
    stream an application HTTP_NO_ERROR and every local or transport error
    become HTTP_CLOSED_CRITICAL_STREAM, so that a control stream never
    drops the connection with HTTP_NO_ERROR; on a request stream a local
    or transport error is latched with HTTP_NO_ERROR. *)
Theorem handleSessionError_latches isControl err perr s :
  let s' := handleSessionError isControl err perr s in
  trace_ s' = trace_ s /\ streams_ s' = streams_ s
  /\ controlStreams_ s' = controlStreams_ s
  /\ sock_ s' = sock_ s /\ destroyed_ s' = destroyed_ s
  /\ drainState_ s' = drainState_ s
  /\ (err = LocalErrorCode quic.NO_ERROR -> s' = s)
  /\ (forall x, dropInNextLoop_ s = Some x -> s' = s)
  /\ (err <> LocalErrorCode quic.NO_ERROR ->
      dropInNextLoop_ s = None ->
      exists code,
        s' = set_loopCallbackScheduled_ true
               (set_dropInNextLoop_
                  (Some (ApplicationErrorCode code,
                         if isControl then "HTTP error on control stream"
                         else "HTTP error on request stream", perr)) s)
        /\ dropInNextLoop_ s'
           = Some (ApplicationErrorCode code,
                   if isControl then "HTTP error on control stream"
                   else "HTTP error on request stream", perr)
        /\ loopCallbackScheduled_ s' = true
        /\ (isControl = true -> code <> HTTP3.HTTP_NO_ERROR)
        /\ (forall e, err = ApplicationErrorCode e ->
                      e <> HTTP3.HTTP_NO_ERROR -> code = e)
        /\ (err = ApplicationErrorCode HTTP3.HTTP_NO_ERROR ->
            code = if isControl then HTTP3.HTTP_CLOSED_CRITICAL_STREAM
                   else HTTP3.HTTP_NO_ERROR)
        /\ ((forall e, err <> ApplicationErrorCode e) ->
            code = if isControl then HTTP3.HTTP_CLOSED_CRITICAL_STREAM
                   else HTTP3.HTTP_NO_ERROR)).
Proof.
  intros s'.
  set (msg := if isControl then "HTTP error on control stream"
              else "HTTP error on request stream").
  assert ((err = LocalErrorCode quic.NO_ERROR /\ s' = s)
          \/ (err <> LocalErrorCode quic.NO_ERROR
              /\ exists code,
                   s' = dropConnectionAsync (ApplicationErrorCode code, msg)
                          perr s
                   /\ (isControl = true -> code <> HTTP3.HTTP_NO_ERROR)
                   /\ (forall e, err = ApplicationErrorCode e ->
                                 e <> HTTP3.HTTP_NO_ERROR -> code = e)
                   /\ (err = ApplicationErrorCode HTTP3.HTTP_NO_ERROR ->
                       code = if isControl
                              then HTTP3.HTTP_CLOSED_CRITICAL_STREAM
                              else HTTP3.HTTP_NO_ERROR)
                   /\ ((forall e, err <> ApplicationErrorCode e) ->
                       code = if isControl
                              then HTTP3.HTTP_CLOSED_CRITICAL_STREAM
                              else HTTP3.HTTP_NO_ERROR)))
    as [[-> ->] | (Hne & code & -> & Hc1 & Hc2 & Hc3 & Hc4)].
  { unfold s', handleSessionError. cbv zeta. fold msg.
    destruct err as [e | l | t].
    - right. split; [discriminate |]. cbn [negb]. eexists.
      split; [reflexivity |]. split; [| split; [| split]].
      + intros ->. cbn [andb]. by case_bool_decide.
      + intros e' [= <-] Hn.
        by rewrite (bool_decide_eq_false_2 _ Hn), andb_false_r.
      + intros [= ->]. by destruct isControl.
      + intros Hall. by destruct (Hall e).
    - destruct l; [left; by split | right | right | right].
      all: split; [discriminate |]; cbn [negb]; eexists.
      all: split; [reflexivity |].
      all: split; [intros ->; cbn [andb]; by case_bool_decide |].
      all: split; [discriminate |].
      all: split; [discriminate | intros _; by destruct isControl].
    - right. split; [discriminate |]. cbn [negb]. eexists.
      split; [reflexivity |].
      split; [intros ->; cbn [andb]; by case_bool_decide |].
      split; [discriminate |].
      split; [discriminate | intros _; by destruct isControl]. }
  - repeat split; done.
  - unfold dropConnectionAsync, scheduleLoopCallback.
    destruct (dropInNextLoop_ s) eqn:Hl.
    + repeat split; done.
    + cbn [fst snd loopCallbackScheduled_ set_dropInNextLoop_].
      destruct (loopCallbackScheduled_ s) eqn:Hsch.
      * repeat split; try done. intros _ _. exists code.
        split; [| repeat split; done].
        unfold set_loopCallbackScheduled_, set_dropInNextLoop_. cbn.
        by rewrite Hsch.
      * repeat split; try done. intros _ _. exists code.
        repeat split; try done.
Qed.

(** A control stream that is reset with HTTP_NO_ERROR still drops the
    connection, with HTTP_CLOSED_CRITICAL_STREAM. *)
Example handleSessionError_critical_stream :
  dropInNextLoop_
    (handleSessionError true (ApplicationErrorCode HTTP3.HTTP_NO_ERROR)
       kErrorConnection serverWithControl)
  = Some (ApplicationErrorCode HTTP3.HTTP_CLOSED_CRITICAL_STREAM,
          "HTTP error on control stream", kErrorConnection).
Proof. vm_compute. reflexivity. Qed.

(** ** Writing within the budget *)

Lemma chainLength_nonneg buf : 0 <= chainLength buf.
Proof. unfold chainLength. lia. Qed.

Lemma wrap64_nonneg z : 0 <= wrap64 z.
Proof. unfold wrap64. apply Z.mod_pos_bound. lia. Qed.

Lemma chainLength_take_le n buf :
  0 <= n -> chainLength (take (Z.to_nat n) buf) = Z.min n (chainLength buf).
Proof. intros Hn. unfold chainLength. rewrite length_take. lia. Qed.

(** What a write that did not fail leaves: the bytes handed back go to the
    front of the buffer, and the count is what was passed less what came
    back. *)
Lemma writeBase_inr id wb data n eof res r wb' ev :
  writeBase id wb data n eof res = (inr r, wb', ev) ->
  0 <= n ->
  exists nw,
    res = WriteOk nw /\ wb' = nw ++ wb
    /\ ev = [EvWriteChain id data eof (WriteOk nw)]
    /\ 0 <= r
    /\ (chainLength nw <= n -> n < 2 ^ 64 -> r = n - chainLength nw).
Proof.
  unfold writeBase. cbv zeta. intros H Hn.
  destruct res as [e | nw]; [discriminate |]. exists nw.
  destruct (negb (chainLength nw =? 0)) eqn:Hz; injection H as <- <- <-.
  - repeat split; [apply wrap64_nonneg |].
    intros Hle Hlt. unfold wrap64. pose proof (chainLength_nonneg nw).
    apply Z.mod_small. lia.
  - apply negb_false_iff, Z.eqb_eq in Hz.
    assert (nw = []) as ->
      by (destruct nw; [done | unfold chainLength in Hz; cbn [length] in Hz; lia]).
    repeat split; [lia |]. intros _ _. cbn. lia.
Qed.

Lemma bytesTaken_app tr1 tr2 :
  bytesTaken (tr1 ++ tr2) = bytesTaken tr1 + bytesTaken tr2.
Proof.
  induction tr1 as [|e tr1 IH]; [reflexivity |].
  destruct e; cbn [app bytesTaken]; try exact IH.
  destruct res; cbn [bytesTaken]; rewrite IH; lia.
Qed.

Lemma bytesTaken_notWrite tr : Forall notWriteEvent tr -> bytesTaken tr = 0.
Proof.
  induction 1 as [|e tr He _ IH]; [reflexivity |].
  destruct e; cbn [bytesTaken]; try exact IH; destruct He.
Qed.

(** X11: one write of a control stream passes the transport the first
    [canSend] bytes of the stream's buffer, [canSend] being the smaller of
    the stream window and the budget, and never asks for FIN.  When the
    transport hands back no more than it was given, the call returns what
    the transport took, keeps the bytes not passed in their order behind
    the bytes handed back, and latches no drop.  When the write fails, the
    call returns 0 and the error goes to [handleSessionError] as a write
    error. *)
Theorem controlStreamWriteImpl_writes env type maxEgress s cs w :
  controlStreams_ s !! type = Some cs ->
  ctrlFlowControl env = inr w ->
  0 <= w -> 0 <= maxEgress < 2 ^ 64 ->
  let canSend := Z.min w maxEgress in
  let data := take (Z.to_nat canSend) (ctrlWriteBuf_ cs) in
  let rest := drop (Z.to_nat canSend) (ctrlWriteBuf_ cs) in
  chainLength data <= w /\ chainLength data <= maxEgress
  /\ data ++ rest = ctrlWriteBuf_ cs
  /\ match ctrlWriteResult env with
     | WriteOk nw =>
         chainLength nw <= chainLength data ->
         exists s',
           controlStreamWriteImpl env type maxEgress s
           = Some (chainLength data - chainLength nw, s')
           /\ trace_ s'
              = trace_ s
                ++ [EvWriteChain (egressStreamId cs) data false (WriteOk nw)]
           /\ controlStreams_ s'
              = <[type := set_ctrlWriteBuf_ (nw ++ rest) cs]> (controlStreams_ s)
           /\ dropInNextLoop_ s' = dropInNextLoop_ s
     | WriteError e =>
         exists s1,
           controlStreamWriteImpl env type maxEgress s
           = Some (0, handleSessionError true (quicControlStreamError env e)
                        kErrorWrite s1)
           /\ trace_ s1
              = trace_ s
                ++ [EvWriteChain (egressStreamId cs) data false (WriteError e)]
           /\ controlStreams_ s1
              = <[type := set_ctrlWriteBuf_ rest cs]> (controlStreams_ s)
     end.
Proof.
  intros Hcs Hfc Hw Hm canSend data rest.
  assert (0 <= canSend) as Hc by (unfold canSend; lia).
  assert (chainLength data = Z.min canSend (chainLength (ctrlWriteBuf_ cs)))
    as Hlen by (by apply chainLength_take_le).
  pose proof (chainLength_nonneg (ctrlWriteBuf_ cs)) as Hb.
  split; [unfold canSend in Hlen; lia |].
  split; [unfold canSend in Hlen; lia |].
  split; [apply take_drop |].
  unfold controlStreamWriteImpl. rewrite Hcs, Hfc. cbv zeta.
  unfold splitAtMost. fold canSend. fold data. fold rest. rewrite <- Hlen.
  unfold writeBase. cbv zeta.
  destruct (ctrlWriteResult env) as [e | nw].
  - eexists. split; [reflexivity |]. by split.
  - intros Hle. pose proof (chainLength_nonneg nw) as Hnw.
    destruct (negb (chainLength nw =? 0)) eqn:Hz.
    + assert (wrap64 (chainLength data - chainLength nw)
              = chainLength data - chainLength nw) as ->.
      { unfold wrap64. apply Z.mod_small. unfold canSend in Hlen. lia. }
      assert ((maxEgress >=? chainLength data - chainLength nw) = true) as ->
        by (apply Z.geb_le; unfold canSend in Hlen; lia).
      cbn [negb]. eexists. split; [reflexivity |]. by repeat split.
    + apply negb_false_iff, Z.eqb_eq in Hz. rewrite Hz, Z.sub_0_r.
      assert ((maxEgress >=? chainLength data) = true) as ->
        by (apply Z.geb_le; unfold canSend in Hlen; lia).
      assert (nw = []) as ->
        by (destruct nw;
            [done | unfold chainLength in Hz; cbn [length] in Hz; lia]).
      cbn [negb]. eexists. split; [reflexivity |]. by repeat split.
Qed.

Lemma controlStreamWriteImpl_writes_witness :
  let cs := serverControlStream in
  let canSend := Z.min 2 100 in
  let data := take (Z.to_nat canSend) (ctrlWriteBuf_ cs) in
  let rest := drop (Z.to_nat canSend) (ctrlWriteBuf_ cs) in
  chainLength data <= 2 /\ chainLength data <= 100
  /\ data ++ rest = ctrlWriteBuf_ cs
  /\ (chainLength (@nil byte) <= chainLength data ->
      exists s',
        controlStreamWriteImpl (ctrlWindowEnv 2) CONTROL 100 serverWithControl
        = Some (chainLength data - chainLength (@nil byte), s')
        /\ trace_ s'
           = trace_ serverWithControl
             ++ [EvWriteChain (egressStreamId cs) data false (WriteOk [])]
        /\ controlStreams_ s'
           = <[CONTROL := set_ctrlWriteBuf_ ([] ++ rest) cs]>
               (controlStreams_ serverWithControl)
        /\ dropInNextLoop_ s' = dropInNextLoop_ serverWithControl).
Proof.
  apply (controlStreamWriteImpl_writes (ctrlWindowEnv 2) CONTROL 100
           serverWithControl serverControlStream 2).
  - vm_compute. reflexivity.
  - reflexivity.
  - lia.
  - lia.
Defined.

(** One control-stream write stays within the budget. *)
Lemma controlStreamWriteImpl_budget env type maxEgress s sent s' :
  ctrlWindowOk env -> 0 <= maxEgress ->
  controlStreamWriteImpl env type maxEgress s = Some (sent, s') ->
  0 <= sent <= maxEgress
  /\ streams_ s' = streams_ s
  /\ exists evs,
       trace_ s' = trace_ s ++ evs
       /\ (Forall handsBackPart evs -> maxEgress < 2 ^ 64 ->
           bytesTaken evs = sent).
Proof.
  intros Hw Hm. unfold controlStreamWriteImpl, ctrlWindowOk in *.
  destruct (controlStreams_ s !! type) as [cs |]; [| discriminate].
  destruct (ctrlFlowControl env) as [e | w].
  - intros [= <- <-].
    destruct (handleSessionError_frame true (quicControlStreamError env e)
                (toProxygenError env e) s) as (Ht & Hs & _).
    split; [lia |]. split; [exact Hs |]. exists []. rewrite app_nil_r.
    by split.
  - cbv zeta. unfold splitAtMost.
    set (canSend := Z.min w maxEgress).
    assert (0 <= canSend) as Hc by (unfold canSend; lia).
    set (data := take (Z.to_nat canSend) (ctrlWriteBuf_ cs)).
    assert (chainLength data = Z.min canSend (chainLength (ctrlWriteBuf_ cs)))
      as Hlen by (by apply chainLength_take_le).
    rewrite <- Hlen.
    destruct (writeBase (egressStreamId cs) _ data (chainLength data) false
                (ctrlWriteResult env)) as [[writeRes wb] ev] eqn:Hwb.
    destruct writeRes as [e | r].
    + intros [= <- <-].
      match goal with
      | |- context [handleSessionError ?a ?b ?c ?t] =>
          destruct (handleSessionError_frame a b c t) as (Ht & Hs & _)
      end.
      split; [lia |]. split; [exact Hs |]. exists ev. split; [exact Ht |].
      intros _ _. unfold writeBase in Hwb. cbv zeta in Hwb.
      destruct (ctrlWriteResult env); [| by repeat case_match].
      by injection Hwb as _ _ <-.
    + destruct (negb (maxEgress >=? r)) eqn:Hge; [discriminate |].
      intros [= <- <-].
      apply negb_false_iff, Z.geb_le in Hge.
      apply writeBase_inr in Hwb as (nw & Hres & -> & -> & H0 & Hr);
        [| apply chainLength_nonneg].
      split; [lia |]. split; [reflexivity |].
      eexists. split; [reflexivity |].
      intros Hhb Hlt. rewrite Forall_singleton in Hhb. cbn in Hhb.
      cbn [bytesTaken]. rewrite Hr; [lia | exact Hhb |].
      pose proof (chainLength_nonneg (ctrlWriteBuf_ cs)).
      unfold canSend in Hlen. lia.
Qed.

Lemma writeControlStreamsLoop_budget env types :
  (forall t, ctrlWindowOk (env t)) ->
  forall maxEgress s remaining s',
    0 <= maxEgress ->
    writeControlStreamsLoop env types maxEgress s = Some (remaining, s') ->
    0 <= remaining <= maxEgress
    /\ streams_ s' = streams_ s
    /\ exists evs,
         trace_ s' = trace_ s ++ evs
         /\ (Forall handsBackPart evs -> maxEgress < 2 ^ 64 ->
             bytesTaken evs = maxEgress - remaining).
Proof.
  intros Henv. induction types as [| t types IH];
    intros maxEgress s remaining s' Hm; cbn [writeControlStreamsLoop].
  - intros [= <- <-]. split; [lia |]. split; [done |]. exists [].
    rewrite app_nil_r. split; [done |]. intros _ _. cbn. lia.
  - destruct (controlStreams_ s !! t) as [cs |]; [| discriminate].
    destruct (chainLength (ctrlWriteBuf_ cs) =? 0); [by apply IH |].
    destruct (controlStreamWriteImpl (env t) t maxEgress s)
      as [[sent s1] |] eqn:Hw; [| discriminate].
    cbn [mbind option_bind].
    apply controlStreamWriteImpl_budget in Hw
      as (Hsent & Hs1 & evs1 & Ht1 & Htaken1); [| apply Henv | exact Hm].
    destruct (maxEgress - sent =? 0) eqn:Hz.
    + intros [= <- <-]. split; [lia |]. split; [exact Hs1 |].
      exists evs1. split; [exact Ht1 |]. intros Hhb Hlt.
      rewrite Htaken1 by done. lia.
    + intros Hloop.
      apply IH in Hloop as (Hrem & Hs2 & evs2 & Ht2 & Htaken2); [| lia].
      split; [lia |]. split; [congruence |].
      exists (evs1 ++ evs2). split; [by rewrite Ht2, Ht1, app_assoc |].
      intros Hhb Hlt. apply Forall_app in Hhb as [Hhb1 Hhb2].
      rewrite bytesTaken_app, Htaken1, Htaken2 by (done || lia). lia.
Qed.

(** X12: in one pass over the control streams the transport takes no more
    than the budget: [writeControlStreams] returns a count between 0 and
    [maxEgress], which is what the transport took over all the writes of the
    pass (when it hands back no more than it is given); the request streams
    are not touched. *)
Theorem writeControlStreams_within_budget env maxEgress s sent s' :
  (forall t, ctrlWindowOk (env t)) ->
  0 <= maxEgress ->
  writeControlStreams env maxEgress s = Some (sent, s') ->
  0 <= sent <= maxEgress
  /\ streams_ s' = streams_ s
  /\ exists evs,
       trace_ s' = trace_ s ++ evs
       /\ (Forall handsBackPart evs -> maxEgress < 2 ^ 64 ->
           bytesTaken evs = sent).
Proof.
  intros Henv Hm. unfold writeControlStreams.
  destruct (writeControlStreamsLoop env _ maxEgress s)
    as [[remaining s1] |] eqn:Hl; [| discriminate].
  cbn [mbind option_bind]. intros [= <- <-].
  apply (writeControlStreamsLoop_budget env _ Henv) in Hl
    as (Hrem & Hs & evs & Ht & Htaken); [| exact Hm].
  split; [lia |]. split; [exact Hs |]. exists evs. by split.
Qed.

Lemma writeControlStreams_within_budget_witness :
  exists sent s',
    writeControlStreams (fun _ => ctrlWindowEnv 2) 3 serverWithControl
    = Some (sent, s')
    /\ 0 <= sent <= 3
    /\ streams_ s' = streams_ serverWithControl
    /\ exists evs,
         trace_ s' = trace_ serverWithControl ++ evs
         /\ (Forall handsBackPart evs -> 3 < 2 ^ 64 -> bytesTaken evs = sent).
Proof.
  destruct (writeControlStreams (fun _ => ctrlWindowEnv 2) 3 serverWithControl)
    as [[sent s'] |] eqn:E; [| by vm_compute in E].
  exists sent, s'. split; [reflexivity |].
  apply (writeControlStreams_within_budget (fun _ => ctrlWindowEnv 2) 3
           serverWithControl sent s'); [intros t; cbn; lia | lia | exact E].
Defined.

(** One request-stream write stays within the budget, and returns what the
    transport took. *)
Lemma requestStreamWriteImpl_budget s env maxEgress st st' ev sent :
  windowOk env -> 0 <= maxEgress ->
  requestStreamWriteImpl s env maxEgress st = Some (st', ev, sent) ->
  0 <= sent <= maxEgress
  /\ (Forall handsBackPart ev -> maxEgress < 2 ^ 64 -> bytesTaken ev = sent).
Proof.
  intros Hw Hm. unfold requestStreamWriteImpl, windowOk in *.
  destruct (negb (streamTransportEnqueued st)); [discriminate |].
  destruct (flowControl env) as [e | w].
  - destruct (handleWriteError s (LocalErrorCode e) st) as [[st1 ev1] |] eqn:He;
      [| discriminate].
    intros [= <- <- <-]. split; [lia |]. intros _ _.
    apply bytesTaken_notWrite. by apply handleWriteError_counter in He as (_ & _ & ?).
  - cbv zeta. unfold splitAtMost.
    set (canSend := Z.min w maxEgress).
    assert (0 <= canSend) as Hc by (unfold canSend; lia).
    set (n := wrap64 (canSend - chainLength (writeBuf_ st))).
    set (st1 := if wantsOnWriteReady canSend st
                then txnOnWriteReady env n st else st).
    set (ev1 := if wantsOnWriteReady canSend st
                then [EvOnWriteReady (streamId st) n] else []).
    assert (bytesTaken ev1 = 0) as Ha1
      by (unfold ev1; by destruct (wantsOnWriteReady canSend st)).
    destruct (wantsOnWriteReady canSend st && (chainLength (writeBuf_ st1) =? 0)
              && negb (pendingEOM_ st1)).
    { intros [= <- <- <-]. split; [lia |]. by intros _ _. }
    set (data := take (Z.to_nat canSend) (writeBuf_ st1)).
    assert (chainLength data = Z.min canSend (chainLength (writeBuf_ st1)))
      as Hlen by (by apply chainLength_take_le).
    rewrite <- Hlen.
    set (st2 := set_writeBuf_ (drop (Z.to_nat canSend) (writeBuf_ st1)) st1).
    set (eof := pendingEOM_ st2 && negb (hasPendingBody st2)).
    destruct (negb ((chainLength data >? 0) || eof)); [discriminate |].
    destruct (handleWrite s data (chainLength data) eof (writeResult env) st2)
      as [[[st3 ev2] sent2] |] eqn:Hh; [| discriminate].
    destruct (negb (maxEgress >=? sent2)) eqn:Hge; [discriminate |].
    apply negb_false_iff, Z.geb_le in Hge.
    intros [= <- <- <-].
    unfold handleWrite in Hh. cbv zeta in Hh.
    destruct (writeBase (streamId st2) (writeBuf_ st2) data (chainLength data)
                eof (writeResult env)) as [[writeRes wb] evw] eqn:Hwb.
    destruct writeRes as [e | r].
    + destruct (handleWriteError s (LocalErrorCode e) (set_writeBuf_ wb st2))
        as [[st4 ev4] |] eqn:He; [| discriminate].
      injection Hh as <- <- <-. split; [lia |]. intros _ _.
      rewrite !bytesTaken_app, Ha1.
      rewrite (bytesTaken_notWrite ev4)
        by (by apply handleWriteError_counter in He as (_ & _ & ?)).
      unfold writeBase in Hwb. cbv zeta in Hwb.
      destruct (writeResult env); [| by repeat case_match].
      by injection Hwb as _ _ <-.
    + injection Hh as <- <- <-.
      apply writeBase_inr in Hwb as (nw & Hres & -> & -> & H0 & Hr);
        [| apply chainLength_nonneg].
      split; [lia |]. intros Hhb Hlt.
      apply Forall_app in Hhb as [_ Hhb]. rewrite Forall_singleton in Hhb.
      cbn in Hhb. rewrite bytesTaken_app, Ha1. cbn [bytesTaken].
      rewrite Hr; [lia | exact Hhb |].
      pose proof (chainLength_nonneg (writeBuf_ st1)).
      unfold canSend in Hlen. lia.
Qed.

(** X13: in one pass over the request streams the egress queue hands out,
    the transport takes no more than the budget: [writeRequestStreams]
    returns the budget left, between 0 and [maxEgress], and what the
    budget lost is what the transport took over all the writes of the pass
    (when it hands back no more than it is given).  The control streams
    and the request streams that are not in the queue are not touched. *)
Theorem writeRequestStreams_within_budget queue :
  Forall (fun qe : Z * WriteEnv => windowOk qe.2) queue ->
  forall maxEgress s remaining s',
    0 <= maxEgress ->
    writeRequestStreams queue maxEgress s = Some (remaining, s') ->
    0 <= remaining <= maxEgress
    /\ controlStreams_ s' = controlStreams_ s
    /\ (forall k, k ∉ queue.*1 -> streams_ s' !! k = streams_ s !! k)
    /\ exists evs,
         trace_ s' = trace_ s ++ evs
         /\ (Forall handsBackPart evs -> maxEgress < 2 ^ 64 ->
             bytesTaken evs = maxEgress - remaining).
Proof.
  induction 1 as [| [id env] queue Hw _ IH];
    intros maxEgress s remaining s' Hm; cbn [writeRequestStreams].
  - intros [= <- <-]. split; [lia |]. split; [done |]. split; [done |].
    exists []. rewrite app_nil_r. split; [done |]. intros _ _. cbn. lia.
  - destruct (streams_ s !! id) as [st |]; [| discriminate].
    destruct (requestStreamWriteImpl s env maxEgress st)
      as [[[st1 ev1] sent] |] eqn:Hr; [| discriminate].
    cbn [mbind option_bind].
    apply requestStreamWriteImpl_budget in Hr as [Hsent Htaken1];
      [| exact Hw | exact Hm].
    set (s1 := emit ev1 (set_streams_ (<[id := st1]> (streams_ s)) s)).
    assert (forall k, k ∉ ((id, env) :: queue).*1 ->
                      streams_ s1 !! k = streams_ s !! k) as Hother.
    { intros k Hk. cbn [fmap list_fmap fst] in Hk.
      apply not_elem_of_cons in Hk as [Hne _].
      cbn. by rewrite lookup_insert_ne. }
    destruct ((maxEgress - sent =? 0) && negb (bool_decide (queue = []))).
    + intros [= <- <-]. split; [lia |]. split; [done |].
      split; [exact Hother |].
      exists ev1. split; [done |]. intros Hhb Hlt.
      rewrite Htaken1 by done. lia.
    + intros Hloop.
      apply IH in Hloop as (Hrem & Hcs & Hk2 & evs2 & Ht2 & Htaken2); [| lia].
      split; [lia |]. split; [by rewrite Hcs |]. split.
      * intros k Hk. rewrite Hk2, Hother; [done | exact Hk |].
        cbn [fmap list_fmap fst] in Hk.
        by apply not_elem_of_cons in Hk as [_ ?].
      * exists (ev1 ++ evs2). split; [by rewrite Ht2, app_assoc |].
        intros Hhb Hlt. apply Forall_app in Hhb as [Hhb1 Hhb2].
        rewrite bytesTaken_app, Htaken1, Htaken2 by (done || lia). lia.
Qed.

Lemma writeRequestStreams_within_budget_witness :
  exists remaining s',
    writeRequestStreams twoStreamQueue 6 serverWritingTwo
    = Some (remaining, s')
    /\ 0 <= remaining <= 6
    /\ controlStreams_ s' = controlStreams_ serverWritingTwo
    /\ (forall k, k ∉ twoStreamQueue.*1 ->
                  streams_ s' !! k = streams_ serverWritingTwo !! k)
    /\ exists evs,
         trace_ s' = trace_ serverWritingTwo ++ evs
         /\ (Forall handsBackPart evs -> 6 < 2 ^ 64 ->
             bytesTaken evs = 6 - remaining).
Proof.
  destruct (writeRequestStreams twoStreamQueue 6 serverWritingTwo)
    as [[remaining s'] |] eqn:E; [| by vm_compute in E].
  exists remaining, s'. split; [reflexivity |].
  apply (writeRequestStreams_within_budget twoStreamQueue); [| lia | exact E].
  repeat constructor; cbn; lia.
Defined.

(** Two streams share a budget of six bytes: the first takes the four
    bytes of its window, the second the two bytes left. *)
Example writeRequestStreams_shares_budget :
  (fun r => (r.1, bytesPassed 16 (trace_ r.2), bytesPassed 20 (trace_ r.2)))
    <$> writeRequestStreams twoStreamQueue 6 serverWritingTwo
  = Some (0, 4, 2).
Proof. vm_compute. reflexivity. Qed.

(** ** After a write *)

(** X14: when the scheduler has served a request stream and the
    transport took the write (handing [nw] back): the stream's buffer is
    the bytes handed back followed by the bytes that were not passed, in
    their order; the pending EOM is cleared only when FIN was asked for and
    every byte was taken; a stream that is still in the egress queue has
    something left to send and did not use up its window; and when the
    write used up the window without FIN, the transaction is paused unless
    its egress is complete. *)
Theorem requestStreamWriteImpl_after_write s env maxEgress w nw st st' ev sent :
  requestStreamWriteImpl s env maxEgress st = Some (st', ev, sent) ->
  flowControl env = inr w ->
  writeResult env = WriteOk nw ->
  0 <= w -> 0 <= maxEgress ->
  let canSend := Z.min w maxEgress in
  let st1 :=
    if wantsOnWriteReady canSend st
    then txnOnWriteReady env
           (wrap64 (canSend - chainLength (writeBuf_ st))) st
    else st in
  forall id data eof res,
    EvWriteChain id data eof res ∈ ev ->
    writeBuf_ st' = nw ++ drop (length data) (writeBuf_ st1)
    /\ data ++ drop (length data) (writeBuf_ st1) = writeBuf_ st1
    /\ pendingEOM_ st'
       = pendingEOM_ st1 && negb (eof && (sent =? chainLength data))
    /\ (streamTransportEnqueued st' = true ->
        hasPendingEgress st' = true /\ ~ (sent = w /\ eof = false))
    /\ (sent = w -> eof = false -> txnEgressComplete (txn_ st') = false ->
        txnEgressPaused (txn_ st') = true).
Proof.
  intros Hrun Hfc Hres Hw Hm canSend st1 id data eof res.
  assert (0 <= canSend) as Hc by (unfold canSend; lia).
  revert Hrun. unfold requestStreamWriteImpl.
  destruct (negb (streamTransportEnqueued st)); [discriminate |].
  rewrite Hfc, Hres. cbv zeta. unfold splitAtMost.
  fold canSend. fold st1.
  set (ev1 := if wantsOnWriteReady canSend st
              then [EvOnWriteReady (streamId st) _] else []).
  assert (EvWriteChain id data eof res ∉ ev1) as Hnot1.
  { unfold ev1. destruct (wantsOnWriteReady canSend st).
    - rewrite list_elem_of_singleton. discriminate.
    - apply not_elem_of_nil. }
  destruct (wantsOnWriteReady canSend st
            && (chainLength (writeBuf_ st1) =? 0)
            && negb (pendingEOM_ st1)).
  { intros [= <- <- <-] Hin. by destruct Hnot1. }
  set (d := take (Z.to_nat canSend) (writeBuf_ st1)).
  set (rest := drop (Z.to_nat canSend) (writeBuf_ st1)).
  set (st2 := set_writeBuf_ rest st1).
  set (e := pendingEOM_ st2 && negb (hasPendingBody st2)).
  set (n := Z.min canSend (chainLength (writeBuf_ st1))).
  assert (chainLength d = n) as Hlen by (by apply chainLength_take_le).
  assert (rest = drop (length d) (writeBuf_ st1)) as Hrest.
  { unfold rest, d. rewrite length_take. unfold n in Hlen.
    destruct (decide (Z.to_nat canSend <= length (writeBuf_ st1))%nat).
    - by rewrite Nat.min_l.
    - rewrite Nat.min_r by lia. by rewrite !drop_ge by lia. }
  destruct (negb ((n >? 0) || e)); [discriminate |].
  unfold handleWrite, writeBase. cbv zeta.
  set (sent0 := if negb (chainLength nw =? 0)
                then wrap64 (n - chainLength nw) else n).
  assert ((if negb (chainLength nw =? 0)
           then (@inr quic.LocalErrorCode Z (wrap64 (n - chainLength nw)),
                 nw ++ writeBuf_ st2, [EvWriteChain (streamId st2) d e (WriteOk nw)])
           else (inr n, writeBuf_ st2, [EvWriteChain (streamId st2) d e (WriteOk nw)]))
          = (inr sent0, nw ++ rest, [EvWriteChain (streamId st2) d e (WriteOk nw)]))
    as ->.
  { unfold sent0. destruct (negb (chainLength nw =? 0)) eqn:Hz; [done |].
    apply negb_false_iff, Z.eqb_eq in Hz.
    assert (nw = []) as ->
      by (destruct nw;
          [done | unfold chainLength in Hz; cbn [length] in Hz; lia]).
    done. }
  set (st3pre := if (sent0 =? n) && e
                 then set_pendingEOM_ false
                        (incrementPendingByteEvents
                           (set_writeBuf_ (nw ++ rest) st2))
                 else set_writeBuf_ (nw ++ rest) st2).
  set (st3 := set_bytesWritten_ (wrap64 (bytesWritten_ st3pre + sent0)) st3pre).
  destruct (negb (maxEgress >=? sent0)); [discriminate |].
  set (blocked := (sent0 =? w) && negb e).
  set (st4 := if streamTransportEnqueued st3
                 && (negb (hasPendingEgress st3) || blocked)
              then set_streamTransportEnqueued false st3 else st3).
  set (st5 := if blocked && negb (txnEgressComplete (txn_ st4))
              then pauseEgress st4 else st4).
  intros [= <- <- <-].
  rewrite elem_of_app, list_elem_of_singleton.
  intros [Hin | [= -> -> -> ->]]; [by destruct Hnot1 |].
  assert (writeBuf_ st3 = nw ++ rest /\ txn_ st3 = txn_ st3pre
          /\ pendingEOM_ st3 = pendingEOM_ st1 && negb (e && (sent0 =? n))
          /\ transactionEnqueued st3 = transactionEnqueued st1)
    as (Hwb3 & Htx3 & Heom3 & Hte3).
  { unfold st3, st3pre. rewrite (andb_comm e).
    destruct ((sent0 =? n) && e); cbn; by rewrite ?andb_false_r, ?andb_true_r. }
  assert (writeBuf_ st4 = writeBuf_ st3 /\ pendingEOM_ st4 = pendingEOM_ st3
          /\ txn_ st4 = txn_ st3
          /\ hasPendingEgress st4 = hasPendingEgress st3
          /\ (streamTransportEnqueued st4 = true ->
              hasPendingEgress st3 = true /\ blocked = false))
    as (Hwb4 & Heom4 & Htx4 & Hpe4 & Henq4).
  { unfold st4.
    destruct (streamTransportEnqueued st3) eqn:Hq; cbn [andb];
      [| repeat split; try done; congruence].
    destruct (hasPendingEgress st3) eqn:Hp, blocked eqn:Hb; cbn;
      repeat split; try done; congruence. }
  assert (writeBuf_ st5 = writeBuf_ st4 /\ pendingEOM_ st5 = pendingEOM_ st4
          /\ streamTransportEnqueued st5 = streamTransportEnqueued st4
          /\ hasPendingEgress st5 = hasPendingEgress st4
          /\ txnEgressComplete (txn_ st5) = txnEgressComplete (txn_ st4)
          /\ (blocked = true -> txnEgressComplete (txn_ st4) = false ->
              txnEgressPaused (txn_ st5) = true))
    as (Hwb5 & Heom5 & Henq5 & Hpe5 & Hec5 & Hpause).
  { unfold st5.
    destruct blocked, (txnEgressComplete (txn_ st4)) eqn:Hcomp; cbn;
      repeat split; try done; congruence. }
  rewrite Hwb5, Hwb4, Hwb3, Heom5, Heom4, Heom3, Hlen, <- Hrest.
  split; [reflexivity |]. split; [apply take_drop |].
  split; [reflexivity |]. split.
  - rewrite Henq5, Hpe5, Hpe4. intros Hq. destruct (Henq4 Hq) as [Hp Hb].
    split; [exact Hp |]. intros [Hs ->]. unfold blocked in Hb.
    rewrite Hs, Z.eqb_refl in Hb. discriminate.
  - intros Hs -> Hcomp. rewrite Hec5 in Hcomp. apply Hpause; [| exact Hcomp].
    unfold blocked. by rewrite Hs, Z.eqb_refl.
Qed.

Lemma requestStreamWriteImpl_after_write_witness :
  let st1 :=
    if wantsOnWriteReady (Z.min 4 100) streamWithTenBytesAndEOM
    then txnOnWriteReady (windowEnv 4)
           (wrap64 (Z.min 4 100
                    - chainLength (writeBuf_ streamWithTenBytesAndEOM)))
           streamWithTenBytesAndEOM
    else streamWithTenBytesAndEOM in
  let data := [x01; x02; x03; x04]%byte in
  writeBuf_ streamAfterWindow = [] ++ drop (length data) (writeBuf_ st1)
  /\ data ++ drop (length data) (writeBuf_ st1) = writeBuf_ st1
  /\ pendingEOM_ streamAfterWindow
     = pendingEOM_ st1 && negb (false && (4 =? chainLength data))
  /\ (streamTransportEnqueued streamAfterWindow = true ->
      hasPendingEgress streamAfterWindow = true /\ ~ (4 = 4 /\ false = false))
  /\ (4 = 4 -> false = false ->
      txnEgressComplete (txn_ streamAfterWindow) = false ->
      txnEgressPaused (txn_ streamAfterWindow) = true).
Proof.
  apply (requestStreamWriteImpl_after_write (newSession DOWNSTREAM)
           (windowEnv 4) 100 4 [] streamWithTenBytesAndEOM streamAfterWindow
           windowEvents 4
           ltac:(vm_compute; reflexivity) eq_refl eq_refl
           ltac:(lia) ltac:(lia)
           16 [x01; x02; x03; x04]%byte false (WriteOk [])).
  unfold windowEvents. constructor.
Defined.

(** ** What the calls keep *)

Lemma quietEvents_closes evs : Forall quietEvent evs -> sockCloses evs = [].
Proof.
  induction 1 as [| ev evs Hev _ IH]; [done |].
  change (ev :: evs) with ([ev] ++ evs). rewrite sockCloses_app, IH.
  by destruct ev.
Qed.

Lemma quietEvents_goaways evs : Forall quietEvent evs -> goawayIds evs = [].
Proof.
  induction 1 as [| ev evs Hev _ IH]; [done |].
  change (ev :: evs) with ([ev] ++ evs). rewrite goawayIds_app, IH.
  by destruct ev.
Qed.

Lemma quietEvents_accepts evs : Forall quietEvent evs -> acceptedStreams evs = [].
Proof.
  induction 1 as [| ev evs Hev _ IH]; [done |].
  change (ev :: evs) with ([ev] ++ evs). rewrite acceptedStreams_app, IH.
  by destruct ev.
Qed.

Lemma quietEvents_concat {A} (g : A -> list Event) (l : list A) :
  (forall a, Forall quietEvent (g a)) ->
  Forall quietEvent (concat (g <$> l)).
Proof.
  intros Hg. induction l as [| a l IH]; [constructor |].
  rewrite fmap_cons. cbn [concat]. apply Forall_app. auto.
Qed.

(** The events of a request stream are quiet. *)
Lemma abortStream_quiet s dir id err : Forall quietEvent (abortStream s dir id err).
Proof.
  unfold abortStream, versionUtilsAbortStream. apply Forall_app.
  split; repeat case_match; repeat constructor.
Qed.

Lemma errorOnTransaction_quiet ex st :
  Forall quietEvent (errorOnTransaction ex st).2.
Proof.
  unfold errorOnTransaction. simpl.
  destruct (detached_ st); repeat constructor.
Qed.

Lemma onResetStream_quiet s code ex st :
  Forall quietEvent (onResetStream s code ex st).2.
Proof.
  unfold onResetStream, sendAbortImpl. cbv zeta.
  destruct (errorOnTransaction _ st) as [st1 ev1] eqn:E. simpl.
  apply Forall_app. split; [| apply abortStream_quiet].
  change ev1 with (st1, ev1).2. rewrite <- E. apply errorOnTransaction_quiet.
Qed.

Lemma handleWriteError_quiet s err st st1 ev :
  handleWriteError s err st = Some (st1, ev) -> Forall quietEvent ev.
Proof.
  unfold handleWriteError. intros H.
  destruct err; simpl in H; try discriminate;
    injection H as <- <-;
    (apply Forall_app; split; [apply abortStream_quiet |]);
    destruct (detached_ st); repeat constructor.
Qed.

Lemma handleWrite_quiet s data n eof res st st1 ev sent :
  handleWrite s data n eof res st = Some (st1, ev, sent) ->
  Forall quietEvent ev.
Proof.
  unfold handleWrite, writeBase. intros H.
  destruct res as [e | nw].
  - destruct (handleWriteError _ _ _) as [[st' ev1] |] eqn:E; [| discriminate].
    injection H as <- <- <-. simpl. constructor; [done |].
    exact (handleWriteError_quiet _ _ _ _ _ E).
  - destruct (negb _); injection H as <- <- <-; repeat constructor.
Qed.

Lemma requestStreamWriteImpl_quiet s env maxEgress st st1 ev sent :
  requestStreamWriteImpl s env maxEgress st = Some (st1, ev, sent) ->
  Forall quietEvent ev.
Proof.
  unfold requestStreamWriteImpl. intros H.
  destruct (negb (streamTransportEnqueued st)); [discriminate |].
  destruct (flowControl env) as [e | w].
  - destruct (handleWriteError _ _ _) as [[st' ev1] |] eqn:E; [| discriminate].
    injection H as <- <- <-. eapply handleWriteError_quiet, E.
  - set (canSend := Z.min w maxEgress) in *.
    set (wants := wantsOnWriteReady canSend st) in *.
    destruct (wants && _ && _).
    + injection H as <- <- <-. destruct wants; repeat constructor.
    + unfold splitAtMost in H. simpl in H.
      destruct (negb _); [discriminate |].
      destruct (handleWrite _ _ _ _ _ _) as [[[st3 ev2] sent'] |] eqn:E;
        [| discriminate].
      destruct (negb (maxEgress >=? sent')); [discriminate |].
      injection H as <- <- <-. apply Forall_app. split.
      * destruct wants; repeat constructor.
      * exact (handleWrite_quiet _ _ _ _ _ _ _ _ _ E).
Qed.

(** *** What a call that does not close the socket keeps *)

Lemma lifeKept_refl s : lifeKept s s.
Proof. constructor; auto. Qed.

Lemma lifeKept_trans s1 s2 s3 :
  lifeKept s1 s2 -> lifeKept s2 s3 -> lifeKept s1 s3.
Proof.
  intros [d1 k1 p1 c1 h1 l1] [d2 k2 p2 c2 h2 l2].
  constructor; try congruence; [auto |].
  destruct l1 as [E1 | [N1 S1]], l2 as [E2 | [N2 S2]].
  - left. congruence.
  - right. split; [congruence | done].
  - right. split; [done | auto].
  - right. split; done.
Qed.

(** An update that leaves alone every field [lifeKept] reads. *)
Lemma lifeKept_frame s s' :
  destroyed_ s' = destroyed_ s ->
  sock_ s' = sock_ s ->
  dropping_ s' = dropping_ s ->
  loopCallbackScheduled_ s' = loopCallbackScheduled_ s ->
  dropInNextLoop_ s' = dropInNextLoop_ s ->
  trace_ s' = trace_ s ->
  lifeKept s s'.
Proof.
  intros Hd Hs Hp Hl Hn Ht. constructor; try congruence. by left.
Qed.

Lemma lifeKept_emit s evs : sockCloses evs = [] -> lifeKept s (emit evs s).
Proof.
  intros He. constructor; cbn; auto.
  by rewrite sockCloses_app, He, app_nil_r.
Qed.

(** A session that is alive stays alive over a call that keeps its life. *)
Lemma lifeKept_lifeInv s s' :
  lifeInv s -> destroyed_ s = false -> lifeKept s s' -> lifeInv s'.
Proof.
  unfold lifeInv. intros Hi Hd [d k p c h l].
  rewrite Hd in Hi. rewrite d, Hd, k, p, c.
  destruct Hi as (H1 & H2 & H3 & H4). repeat split; try done.
  intros Hn. destruct l as [E | [_ S]]; [| done].
  rewrite E in Hn. auto.
Qed.

Ltac life_frame s t :=
  apply (lifeKept_trans s t); [| by apply lifeKept_frame].

Ltac life_emit s t :=
  apply (lifeKept_trans s t);
  [| apply lifeKept_emit;
      first [ reflexivity | apply quietEvents_closes, abortStream_quiet ] ].

Ltac life_basic :=
  lazymatch goal with
  | |- lifeKept ?s ?s => apply lifeKept_refl
  | |- lifeKept ?s (emit _ ?t) => life_emit s t
  | |- lifeKept ?s (abortStreamS _ _ _ ?t) => unfold abortStreamS
  | |- lifeKept ?s (rejectStream _ ?t) => unfold rejectStream
  | |- lifeKept ?s (set_streams_ _ ?t) => life_frame s t
  | |- lifeKept ?s (set_drainState_ _ ?t) => life_frame s t
  | |- lifeKept ?s (set_alpn_ _ ?t) => life_frame s t
  | |- lifeKept ?s (set_maxIncomingStreamId_ _ ?t) => life_frame s t
  | |- lifeKept ?s (set_maxAllowedStreamId_ _ ?t) => life_frame s t
  | |- lifeKept ?s (set_controlStreams_ _ ?t) => life_frame s t
  | |- lifeKept ?s (set_pendingUniStreams_ _ ?t) => life_frame s t
  | |- lifeKept ?s (if ?c then _ else _) => destruct c eqn:?
  end.

Lemma invokeOnStreams_life p f s :
  (forall st, Forall quietEvent (f st).2) ->
  lifeKept s (invokeOnStreams p f s).
Proof.
  intros Hf. unfold invokeOnStreams.
  eapply lifeKept_trans; [| apply lifeKept_emit, quietEvents_closes].
  - by apply lifeKept_frame.
  - apply quietEvents_concat. intros [k st]. simpl.
    destruct (p st); [apply Hf | constructor].
Qed.

Lemma scheduleLoopCallback_life s : lifeKept s (scheduleLoopCallback s).
Proof.
  unfold scheduleLoopCallback.
  destruct (loopCallbackScheduled_ s) eqn:E; [apply lifeKept_refl |].
  constructor; auto.
Qed.

Lemma dropConnectionAsync_life code perr s :
  lifeKept s (dropConnectionAsync code perr s).
Proof.
  unfold dropConnectionAsync.
  destruct (dropInNextLoop_ s) eqn:E; [apply lifeKept_refl |].
  unfold scheduleLoopCallback. cbn [loopCallbackScheduled_ set_dropInNextLoop_].
  destruct (loopCallbackScheduled_ s) eqn:El; constructor; cbn; auto.
Qed.

Lemma GoawayUtils_sendGoaway_life env s s' :
  GoawayUtils_sendGoaway env s = Some s' -> lifeKept s s'.
Proof.
  unfold GoawayUtils_sendGoaway. cbv zeta.
  case_bool_decide as Hdir; [intros [= <-]; apply lifeKept_refl |].
  case_bool_decide as Hdone; [intros [= <-]; apply lifeKept_refl |].
  destruct (controlStreams_ s !! _) as [cs |]; [| discriminate].
  destruct (streamWriteOffset env), (streamWriteBufferedBytes env);
    try (intros [= <-]; repeat life_basic).
  destruct (_ =? 0); [intros [= <-]; repeat life_basic |].
  destruct (negb _); [intros [= <-]; repeat life_basic |].
  case_bool_decide as Hp; intros [= <-]; repeat life_basic.
Qed.

Lemma sendGoaway_life v env s s' :
  sendGoaway v env s = Some s' -> lifeKept s s'.
Proof.
  destruct v; simpl; [intros [= <-]; apply lifeKept_refl | ..];
    apply GoawayUtils_sendGoaway_life.
Qed.

Lemma drainImpl_life env s s' : drainImpl env s = Some s' -> lifeKept s s'.
Proof.
  unfold drainImpl. cbv zeta.
  case_bool_decide as Hn; [intros [= <-]; apply lifeKept_refl |].
  simpl. destruct (versionUtils_ s) as [v |] eqn:Hv.
  - intros H. eapply lifeKept_trans; [| eapply sendGoaway_life, H].
    repeat life_basic.
  - intros [= <-]. repeat life_basic.
Qed.

Lemma onGoawayAck_life env s s' : onGoawayAck env s = Some s' -> lifeKept s s'.
Proof.
  unfold onGoawayAck.
  case_bool_decide as H1.
  - destruct (versionUtils_ s) as [v |] eqn:Hv; [| done].
    destruct (sendGoaway v env s) as [s1 |] eqn:E; [| done].
    simpl. intros [= <-].
    eapply lifeKept_trans; [eapply sendGoaway_life; eauto |].
    apply scheduleLoopCallback_life.
  - case_bool_decide as H2; simpl; intros [= <-];
      (eapply lifeKept_trans; [| apply scheduleLoopCallback_life]);
      repeat life_basic.
Qed.

Lemma onGoawayCanceled_life s : lifeKept s (onGoawayCanceled s).
Proof.
  unfold onGoawayCanceled.
  eapply lifeKept_trans; [| apply scheduleLoopCallback_life].
  repeat life_basic.
Qed.

Lemma headersComplete_life env close s s' :
  headersComplete env close s = Some s' -> lifeKept s s'.
Proof.
  unfold headersComplete.
  destruct (versionUtils_ s) as [[] |] eqn:Hv; try done;
    try (intros [= <-]; apply lifeKept_refl).
  unfold H1QFBV1_headersComplete.
  case_bool_decide as Hd; [intros [= <-]; apply lifeKept_refl |].
  destruct close; [| intros [= <-]; apply lifeKept_refl].
  case_bool_decide as Hc; [intros [= <-]; repeat life_basic |].
  case_bool_decide as Hn.
  - destruct (drainImpl env s) as [s1 |] eqn:E; [| done]. simpl.
    intros [= <-]. eapply lifeKept_trans; [eapply drainImpl_life, E |].
    repeat life_basic.
  - simpl. intros [= <-]. repeat life_basic.
Qed.

Lemma checkSendingGoaway_life env keepalive s s' :
  checkSendingGoaway env keepalive s = Some s' -> lifeKept s s'.
Proof.
  unfold checkSendingGoaway.
  destruct (versionUtils_ s) as [[] |] eqn:Hv;
    try (intros [= <-]; apply lifeKept_refl).
  unfold H1QFBV1_checkSendingGoaway, notifyPendingShutdown.
  set (o := if _ && _ then _ else _).
  destruct o as [s1 |] eqn:E; [| done]. simpl. intros [= <-].
  assert (lifeKept s s1) as H1.
  { subst o. destruct (_ && _).
    - by eapply drainImpl_life.
    - injection E as <-. apply lifeKept_refl. }
  eapply lifeKept_trans; [exact H1 |]. repeat life_basic.
Qed.

Lemma checkNewStream_life v id s : lifeKept s (checkNewStream v id s).2.
Proof.
  destruct v; simpl;
    [ unfold H1QFBV1_checkNewStream
    | unfold GoawayUtils_checkNewStream
    | unfold GoawayUtils_checkNewStream ];
    repeat case_match; simpl; repeat life_basic.
Qed.

Lemma createStreamTransport_life env id s :
  lifeKept s (createStreamTransport env id s).2.
Proof.
  unfold createStreamTransport. case_match; simpl; repeat life_basic.
Qed.

Lemma onNewBidirectionalStream_life env id s s' :
  onNewBidirectionalStream env id s = Some s' -> lifeKept s s'.
Proof.
  unfold onNewBidirectionalStream.
  destruct (versionUtils_ s) as [v |]; [| done].
  pose proof (checkNewStream_life v id s) as H1.
  destruct (checkNewStream v id s) as [ok s1]. simpl in H1.
  destruct ok; simpl; [| by intros [= <-]].
  set (s1a := emit [EvStreamAccepted id] s1).
  pose proof (createStreamTransport_life env id s1a) as H2.
  destruct (createStreamTransport env id s1a) as [b s2]. simpl in H2.
  intros [= <-].
  eapply lifeKept_trans; [exact H1 |].
  eapply lifeKept_trans; [| eapply lifeKept_trans; [exact H2 |]].
  - subst s1a. constructor; cbn; auto. by rewrite sockCloses_app, app_nil_r.
  - repeat life_basic.
Qed.

Lemma onNewUnidirectionalStream_life id s s' :
  onNewUnidirectionalStream id s = Some s' -> lifeKept s s'.
Proof.
  unfold onNewUnidirectionalStream.
  destruct (versionUtils_ s) as [v |]; [| done].
  pose proof (checkNewStream_life v id s) as H1.
  destruct (checkNewStream v id s) as [ok s1]. simpl in H1.
  destruct ok; simpl; intros [= <-]; [| done].
  eapply lifeKept_trans; [exact H1 |].
  constructor; cbn; auto. by rewrite sockCloses_app, app_nil_r.
Qed.

Lemma newTransaction_life env s : lifeKept s (newTransaction env s).2.
Proof.
  unfold newTransaction.
  destruct (_ || _ || _); [apply lifeKept_refl |].
  destruct (negb _); [apply lifeKept_refl |].
  destruct (createBidirectionalStream env) as [id |]; [| apply lifeKept_refl].
  pose proof (createStreamTransport_life env id s) as H1.
  destruct (createStreamTransport env id s) as [b s1]. simpl in H1.
  destruct b; simpl.
  - eapply lifeKept_trans; [exact H1 |]. repeat life_basic.
  - eapply lifeKept_trans; [exact H1 |]. repeat life_basic.
Qed.

Lemma HQ_sendSettings_life env s s' :
  HQ_sendSettings env s = Some s' -> lifeKept s s'.
Proof.
  unfold HQ_sendSettings. destruct (controlStreams_ s !! CONTROL); [| done].
  intros [= <-]. repeat life_basic.
Qed.

Lemma createIngressControlStream_life id type s ok s' :
  createIngressControlStream id type s = Some (ok, s') -> lifeKept s s'.
Proof.
  unfold createIngressControlStream.
  destruct (controlStreams_ s !! type) as [cs |]; [| done].
  destruct (ingressCodec_ cs); intros [= <- <-].
  - apply dropConnectionAsync_life.
  - repeat life_basic.
Qed.

Lemma errorOnTransactionId_life id ex s :
  lifeKept s (errorOnTransactionId id ex s).
Proof.
  unfold errorOnTransactionId, findStream.
  destruct (streams_ s !! id) as [st |]; [| apply lifeKept_refl].
  pose proof (errorOnTransaction_quiet ex st) as Hq.
  destruct (errorOnTransaction ex st) as [st1 ev]. cbn [snd] in Hq.
  eapply lifeKept_trans; [| apply lifeKept_emit, quietEvents_closes, Hq].
  repeat life_basic.
Qed.

Lemma readError_life id error s : lifeKept s (readError id error s).
Proof.
  unfold readError. cbv zeta.
  destruct error as [code | code | code];
    [| apply errorOnTransactionId_life | apply errorOnTransactionId_life].
  unfold findNonDetachedStream.
  destruct (streams_ s !! id) as [st |]; [| apply lifeKept_refl].
  destruct (detached_ st); [apply lifeKept_refl |].
  pose proof (onResetStream_quiet s code
                (HTTPException.make HTTPException.INGRESS_AND_EGRESS) st) as Hq.
  destruct (onResetStream _ _ _ st) as [st1 ev]. cbn [snd] in Hq.
  eapply lifeKept_trans; [| apply lifeKept_emit, quietEvents_closes, Hq].
  repeat life_basic.
Qed.

Lemma handleSessionError_life isControl err perr s :
  lifeKept s (handleSessionError isControl err perr s).
Proof.
  unfold handleSessionError. cbv zeta.
  destruct err as [e | e | e]; cbn [negb].
  - apply dropConnectionAsync_life.
  - destruct e; cbn [negb];
      first [apply lifeKept_refl | apply dropConnectionAsync_life].
  - apply dropConnectionAsync_life.
Qed.

Lemma onStream_life id f s s' :
  (forall st st1 ev, f st = Some (st1, ev) -> Forall quietEvent ev) ->
  onStream id f s = Some s' -> lifeKept s s'.
Proof.
  intros Hf. unfold onStream.
  destruct (streams_ s !! id) as [st |]; [| done]. cbn [mbind option_bind].
  destruct (f st) as [[st1 ev] |] eqn:E; [| done]. cbn [mbind option_bind].
  intros [= <-].
  eapply lifeKept_trans; [| apply lifeKept_emit, quietEvents_closes; eauto].
  repeat life_basic.
Qed.

(** *** The calls that close the socket *)

(** The two ways a shutdown check ends: the streams that are ready are
    erased (and an upstream drain may complete); and when nothing is left
    to wait for, the socket is released and the session destroyed. *)
Lemma checkForShutdown_unfold s :
  exists d m,
    let s2 := set_streams_ m (set_drainState_ d s) in
    (drainState_ s = DONE -> d = DONE)
    /\ (streams_ s = ∅ -> m = ∅)
    /\ (checkForShutdown s = s2
        \/ (d = DONE /\ m = ∅
            /\ checkForShutdown s
               = emit [EvDestroy]
                   (set_destroyed_ true
                      (if sock_ s
                       then emit [EvSockClose None] (set_sock_ false s2)
                       else s2)))).
Proof.
  unfold checkForShutdown. cbv zeta.
  set (c := bool_decide (version_ s ≠ Some H1Q_FB_V1) && _ && _).
  exists (if c then DONE else drainState_ s).
  exists (filter (fun kv : Z * HQStreamTransport => readyForDetach kv.2 = false)
            (streams_ s)).
  assert ((if c then set_drainState_ DONE s else s)
          = set_drainState_ (if c then DONE else drainState_ s) s) as ->.
  { destruct c; [done |]. by destruct s. }
  cbn [streams_ set_drainState_ set_streams_ drainState_ getNumStreams
       loopCallbackScheduled_ sock_].
  split; [| split].
  - intros ->. by destruct c.
  - intros ->. apply map_filter_empty.
  - destruct (bool_decide _ && bool_decide _ && negb _) eqn:Hc; [| by left].
    right. apply andb_true_iff in Hc as [Hc _].
    apply andb_true_iff in Hc as [Hd Hm].
    apply bool_decide_eq_true in Hd, Hm. apply map_size_empty_inv in Hm.
    done.
Qed.

Lemma checkForShutdown_lifeInv s : lifeInv s -> lifeInv (checkForShutdown s).
Proof.
  destruct (checkForShutdown_unfold s) as (d & m & Hd & Hm & [-> | (-> & -> & ->)]).
  - unfold lifeInv. cbn. destruct (destroyed_ s); [| done].
    intros (H1 & H2 & H3 & H4). auto.
  - unfold lifeInv. cbn [destroyed_ emit set_trace_ set_destroyed_].
    destruct (destroyed_ s).
    + intros (H1 & H2 & H3 & H4). rewrite H1. cbn.
      by rewrite sockCloses_app, app_nil_r.
    + intros (H1 & H2 & H3 & H4). rewrite H1. cbn.
      by rewrite !sockCloses_app, H3.
Qed.

Lemma checkForShutdown_failed s :
  checkFailed_ (checkForShutdown s) = checkFailed_ s.
Proof.
  destruct (checkForShutdown_unfold s)
    as (d & m & _ & _ & [-> | (_ & _ & ->)]); [done |].
  by destruct (sock_ s).
Qed.

(** A drop, which passes its final check, on a session that holds its
    socket and closed nothing yet. *)
Lemma dropConnectionSync_lifeInv env code perr s :
  sock_ s = true -> dropping_ s = false -> sockCloses (trace_ s) = [] ->
  checkFailed_ (dropConnectionSync env code perr s) = false ->
  lifeInv (dropConnectionSync env code perr s).
Proof.
  intros Hs Hp Hc Hf.
  destruct (dropConnectionSync_passed env code perr s Hp Hs Hf)
    as (H1 & H2 & H3 & H4 & _).
  destruct (dropConnectionSync_closes env code perr s Hp Hs) as [Hcl _].
  unfold lifeInv. rewrite H1. repeat split; try done. by rewrite Hcl, Hc.
Qed.

Lemma onConnectionError_lifeInv env code s :
  lifeInv s -> destroyed_ s = false ->
  checkFailed_ (onConnectionError env code s) = false ->
  lifeInv (onConnectionError env code s).
Proof.
  unfold lifeInv at 1. intros Hi Hd. rewrite Hd in Hi.
  destruct Hi as (Hs & Hp & Hc & _). unfold onConnectionError.
  apply dropConnectionSync_lifeInv; cbn; auto.
  by rewrite sockCloses_app, Hc.
Qed.

Lemma dropConnection_lifeInv env msg s :
  lifeInv s -> destroyed_ s = false ->
  checkFailed_ (dropConnection env msg s) = false ->
  lifeInv (dropConnection env msg s).
Proof.
  unfold lifeInv at 1. intros Hi Hd. rewrite Hd in Hi.
  destruct Hi as (Hs & Hp & Hc & _). unfold dropConnection.
  by apply dropConnectionSync_lifeInv.
Qed.

Lemma closeWhenIdle_lifeInv env s s' :
  lifeInv s -> destroyed_ s = false ->
  closeWhenIdle env s = Some s' -> lifeInv s'.
Proof.
  intros Hi Hd. unfold closeWhenIdle.
  destruct (drainImpl env s) as [s1 |] eqn:E; [| done].
  simpl. intros [= <-]. apply checkForShutdown_lifeInv.
  apply (lifeKept_lifeInv s); [done | done |].
  eapply lifeKept_trans; [eapply drainImpl_life, E |].
  repeat life_basic.
Qed.

Lemma onGoaway_stream_quiet code st :
  Forall quietEvent
    (let '(st1, ev1) := errorOnTransactionErr kErrorStreamUnacknowledged st in
     (st1, [EvTxnOnGoaway (streamId st) code] ++ ev1)).2.
Proof.
  pose proof (errorOnTransaction_quiet
                (HTTPException.setProxygenError kErrorStreamUnacknowledged
                   (HTTPException.make HTTPException.INGRESS_AND_EGRESS)) st)
    as Ha.
  unfold errorOnTransactionErr.
  destruct (errorOnTransaction _ st) as [st1 ev1].
  constructor; [exact I | exact Ha].
Qed.

Lemma onGoaway_lifeInv env lastGood code s s' :
  lifeInv s -> destroyed_ s = false ->
  onGoaway env lastGood code s = Some s' -> lifeInv s'.
Proof.
  intros Hi Hd. unfold onGoaway. cbv zeta.
  destruct (negb _); [done |]. case_bool_decide; [done |].
  set (s1 := set_maxAllowedStreamId_ _ s).
  destruct (drainImpl env s1) as [s2 |] eqn:E; [| done].
  cbn [mbind option_bind]. intros [= <-].
  apply checkForShutdown_lifeInv.
  apply (lifeKept_lifeInv s); [done | done |].
  eapply lifeKept_trans; [apply (lifeKept_trans s s1 s2) |].
  - subst s1. repeat life_basic.
  - eapply drainImpl_life, E.
  - set (s3 := invokeOnNonDetachedStreams _ s2).
    assert (lifeKept s2 s3) as H3.
    { subst s3. apply invokeOnStreams_life. intros st.
      destruct (_ >? _); [| repeat constructor].
      apply onGoaway_stream_quiet. }
    eapply lifeKept_trans; [exact H3 |]. repeat life_basic.
Qed.

Lemma runLoopCallback_lifeInv env s :
  lifeInv s -> destroyed_ s = false ->
  checkFailed_ (runLoopCallback env s) = false ->
  lifeInv (runLoopCallback env s).
Proof.
  intros Hi Hd. unfold runLoopCallback. cbv zeta.
  rewrite checkForShutdown_failed. intros Hf.
  apply checkForShutdown_lifeInv. revert Hf.
  cbn [dropInNextLoop_ set_loopCallbackScheduled_].
  destruct (dropInNextLoop_ s) as [[[c m] p] |] eqn:El.
  - revert Hi. unfold lifeInv. rewrite Hd. intros (H1 & H2 & H3 & H4) Hf.
    by apply dropConnectionSync_lifeInv.
  - revert Hi. unfold lifeInv. cbn. rewrite Hd, El.
    intros (H1 & H2 & H3 & H4). done.
Qed.

(** A call that keeps the life of the session and says how it went. *)
Lemma lifeKept_alive s s' :
  lifeInv s -> destroyed_ s = false -> lifeKept s s' ->
  lifeInv s' /\ destroyed_ s' = false.
Proof.
  intros Hi Hd Hk. split; [by eapply lifeKept_lifeInv |].
  by rewrite (lk_destroyed _ _ Hk).
Qed.

Lemma createEgressControlStream_lifeInv env type s ok s' :
  lifeInv s -> destroyed_ s = false ->
  createEgressControlStream env type s = Some (ok, s') ->
  (ok = true -> lifeInv s' /\ destroyed_ s' = false)
  /\ (checkFailed_ s' = false -> lifeInv s').
Proof.
  intros Hi Hd. unfold createEgressControlStream.
  destruct (createUnidirectionalStream env type).
  - destruct (controlStreams_ s !! type); [done |].
    intros [= <- <-].
    destruct (lifeKept_alive s (set_controlStreams_
                 (<[type := {| egressStreamId := z; ingressStreamId := None;
                               ingressCodec_ := false; ctrlReadBuf_ := [];
                               ctrlReadEOF_ := false;
                               ctrlWriteBuf_ := streamPreface env type |}]>
                    (controlStreams_ s)) s) Hi Hd) as [H1 H2]; [| done].
    repeat life_basic.
  - intros [= <- <-]. split; [done |]. by apply onConnectionError_lifeInv.
Qed.

Lemma createEgressControlStreams_lifeInv v env s ok s' :
  lifeInv s -> destroyed_ s = false ->
  createEgressControlStreams v env s = Some (ok, s') ->
  (ok = true -> lifeInv s' /\ destroyed_ s' = false)
  /\ (checkFailed_ s' = false -> lifeInv s').
Proof.
  intros Hi Hd. destruct v; simpl.
  - by intros [= <- <-].
  - by apply createEgressControlStream_lifeInv.
  - destruct (createEgressControlStream env CONTROL s) as [[ok1 s1] |] eqn:E1;
      [| done]. simpl.
    destruct (createEgressControlStream_lifeInv _ _ _ _ _ Hi Hd E1) as [D1 F1].
    destruct ok1; simpl; [| by intros [= <- <-]].
    destruct (D1 eq_refl) as [I1 A1].
    destruct (createEgressControlStream env QPACK_ENCODER s1) as [[ok2 s2] |] eqn:E2;
      [| done]. simpl.
    destruct (createEgressControlStream_lifeInv _ _ _ _ _ I1 A1 E2) as [D2 F2].
    destruct ok2; simpl; [| by intros [= <- <-]].
    destruct (D2 eq_refl) as [I2 A2].
    destruct (createEgressControlStream env QPACK_DECODER s2) as [[ok3 s3] |] eqn:E3;
      [| done]. simpl.
    destruct (createEgressControlStream_lifeInv _ _ _ _ _ I2 A2 E3) as [D3 F3].
    destruct ok3; simpl; [| by intros [= <- <-]].
    destruct (D3 eq_refl) as [I3 A3].
    destruct (HQ_sendSettings env s3) as [s4 |] eqn:E4; [| done]. simpl.
    intros [= <- <-].
    destruct (lifeKept_alive s3 s4 I3 A3 (HQ_sendSettings_life _ _ _ E4)).
    done.
Qed.

Lemma getAndCheckApplicationProtocol_lifeInv env alpn s :
  lifeInv s -> destroyed_ s = false ->
  ((getAndCheckApplicationProtocol env alpn s).1 = true ->
   lifeInv (getAndCheckApplicationProtocol env alpn s).2
   /\ destroyed_ (getAndCheckApplicationProtocol env alpn s).2 = false)
  /\ (checkFailed_ (getAndCheckApplicationProtocol env alpn s).2 = false ->
      lifeInv (getAndCheckApplicationProtocol env alpn s).2).
Proof.
  intros Hi Hd. unfold getAndCheckApplicationProtocol. cbv zeta.
  assert (forall a v,
    lifeKept s (setVersionUtils (set_alpn_ a (set_version_ (Some v) s)))) as Hset.
  { intros a v. by apply lifeKept_frame. }
  assert (forall o c,
            checkFailed_ (onConnectionError env c (set_version_ o s)) = false ->
            lifeInv (onConnectionError env c (set_version_ o s))) as Hc.
  { intros o c. apply onConnectionError_lifeInv; [| done].
    apply (lifeKept_lifeInv s); [done | done |]. by apply lifeKept_frame. }
  assert (forall c,
            checkFailed_ (onConnectionError env c s) = false ->
            lifeInv (onConnectionError env c s)) as Hc'.
  { intros c. by apply onConnectionError_lifeInv. }
  destruct alpn as [a |]; simpl.
  - repeat case_match; simpl in *; try congruence.
    all: first
      [ split; intros _;
        [ split;
          [ apply (lifeKept_lifeInv s); [done | done | by apply lifeKept_frame]
          | done ]
        | apply (lifeKept_lifeInv s); [done | done | by apply lifeKept_frame] ]
      | split; [done | first [apply Hc | apply Hc']] ].
  - split; [done | apply Hc'].
Qed.

Lemma onTransportReadyCommon_lifeInv env alpn s ok s' :
  lifeInv s -> destroyed_ s = false ->
  onTransportReadyCommon env alpn s = Some (ok, s') ->
  checkFailed_ s' = false ->
  lifeInv s'.
Proof.
  intros Hi Hd. unfold onTransportReadyCommon.
  destruct (getAndCheckApplicationProtocol_lifeInv env alpn s Hi Hd) as [D1 F1].
  destruct (getAndCheckApplicationProtocol env alpn s) as [ok1 s1].
  simpl in D1, F1. destruct ok1; simpl; [| by intros [= <- <-]].
  destruct (D1 eq_refl) as [I1 A1].
  destruct (versionUtils_ s1) as [v |]; [| done].
  destruct (createEgressControlStreams v env s1) as [[ok2 s2] |] eqn:E2; [| done].
  destruct (createEgressControlStreams_lifeInv _ _ _ _ _ I1 A1 E2) as [D2 F2].
  cbn [mbind option_bind]. destruct ok2; simpl; [| by intros [= <- <-]].
  destruct (D2 eq_refl) as [I2 A2].
  case_bool_decide.
  - destruct (sendGoaway v env s2) as [s3 |] eqn:E3; [| done].
    cbn [mbind option_bind]. intros [= <- <-] _.
    by apply (lifeKept_lifeInv s2), (sendGoaway_life _ _ _ _ E3).
  - cbn [mbind option_bind]. by intros [= <- <-].
Qed.

(** *** Reading a control stream *)

(** A destroyed session stays as it is when only its latch, its marks
    and its control streams change. *)
Lemma lifeInv_dead s s' :
  lifeInv s -> destroyed_ s = true ->
  destroyed_ s' = true -> sock_ s' = sock_ s -> streams_ s' = streams_ s ->
  drainState_ s' = drainState_ s ->
  sockCloses (trace_ s') = sockCloses (trace_ s) ->
  lifeInv s'.
Proof.
  unfold lifeInv. intros Hi Hd Hd' Hs Hm Hr Hc. rewrite Hd in Hi.
  rewrite Hd', Hs, Hm, Hr, Hc. exact Hi.
Qed.

Lemma checkForShutdown_dead s :
  destroyed_ s = true -> sock_ s = false -> streams_ s = ∅ ->
  drainState_ s = DONE ->
  destroyed_ (checkForShutdown s) = true
  /\ sock_ (checkForShutdown s) = false
  /\ streams_ (checkForShutdown s) = ∅
  /\ drainState_ (checkForShutdown s) = DONE
  /\ sockCloses (trace_ (checkForShutdown s)) = sockCloses (trace_ s).
Proof.
  intros Hd Hs Hm Hr.
  destruct (checkForShutdown_unfold s)
    as (d & m & Hd' & Hm' & [-> | (_ & _ & ->)]);
    rewrite (Hd' Hr), (Hm' Hm).
  - done.
  - rewrite Hs. cbn. by rewrite sockCloses_app, app_nil_r.
Qed.

Lemma onGoaway_dead env lastGood code s s' :
  destroyed_ s = true -> sock_ s = false -> streams_ s = ∅ ->
  drainState_ s = DONE ->
  onGoaway env lastGood code s = Some s' ->
  destroyed_ s' = true /\ sock_ s' = false /\ streams_ s' = ∅
  /\ drainState_ s' = DONE
  /\ sockCloses (trace_ s') = sockCloses (trace_ s).
Proof.
  intros Hd Hs Hm Hr. unfold onGoaway. cbv zeta.
  destruct (negb _); [done |]. case_bool_decide; [done |].
  unfold drainImpl. cbn [drainState_ set_maxAllowedStreamId_].
  rewrite Hr. rewrite (bool_decide_eq_true_2 (DONE ≠ NONE)) by discriminate.
  cbn [mbind option_bind]. intros [= <-].
  match goal with
  | |- context [checkForShutdown ?t] =>
      assert (destroyed_ t = true /\ sock_ t = false /\ streams_ t = ∅
              /\ drainState_ t = DONE
              /\ sockCloses (trace_ t) = sockCloses (trace_ s))
        as (T1 & T2 & T3 & T4 & T5);
      [| destruct (checkForShutdown_dead t T1 T2 T3 T4)
           as (C1 & C2 & C3 & C4 & C5);
         rewrite C5; done ]
  end.
  unfold invokeOnNonDetachedStreams, invokeOnStreams. cbv zeta.
  cbn [drainState_ streams_ set_streams_ emit set_trace_
       set_maxAllowedStreamId_ trace_].
  rewrite Hr, Hm, fmap_empty, map_to_list_empty.
  rewrite (bool_decide_eq_false_2 (DONE = NONE)) by discriminate.
  rewrite (bool_decide_eq_false_2 (DONE = PENDING)) by discriminate.
  rewrite (bool_decide_eq_false_2 (DONE = FIRST_GOAWAY)) by discriminate.
  cbn. by rewrite app_nil_r.
Qed.

Lemma controlCallback_lifeInv ingressId cb s s' :
  lifeInv s ->
  controlCallback ingressId cb s = Some s' -> lifeInv s'.
Proof.
  intros Hi. destruct (destroyed_ s) eqn:Hd.
  - (* the session was destroyed by an earlier callback *)
    pose proof Hi as Hi'. unfold lifeInv in Hi'. rewrite Hd in Hi'.
    destruct Hi' as (Hs & Hm & Hr & _).
    destruct cb as [| env lastGood code | error]; cbn [controlCallback].
    + unfold onSettings. destruct (versionUtils_ s); [| done].
      by intros [= <-].
    + intros H.
      destruct (onGoaway_dead _ _ _ _ _ Hd Hs Hm Hr H)
        as (G1 & G2 & G3 & G4 & G5).
      apply (lifeInv_dead s); congruence.
    + unfold HQControlStream_onError.
      destruct (findControlStream ingressId s); [| done].
      intros [= <-].
      destruct (handleSessionError_frame true (ApplicationErrorCode error)
                  kErrorConnection s) as (F1 & F2 & F3 & F4 & F5 & F6 & F7 & _).
      apply (lifeInv_dead s); congruence.
  - destruct cb as [| env lastGood code | error]; cbn [controlCallback].
    + unfold onSettings. destruct (versionUtils_ s); [| done].
      by intros [= <-].
    + by apply onGoaway_lifeInv.
    + unfold HQControlStream_onError.
      destruct (findControlStream ingressId s); [| done].
      intros [= <-].
      by apply (lifeKept_lifeInv s), handleSessionError_life.
Qed.

Lemma controlCallbacks_lifeInv ingressId cbs s s' :
  lifeInv s ->
  controlCallbacks ingressId cbs s = Some s' -> lifeInv s'.
Proof.
  revert s. induction cbs as [| cb cbs IH]; intros s Hi; cbn [controlCallbacks].
  - by intros [= <-].
  - destruct (controlCallback ingressId cb s) as [s1 |] eqn:E; [| done].
    cbn [mbind option_bind]. apply IH.
    by eapply controlCallback_lifeInv.
Qed.

(** An update of the control streams alone. *)
Lemma lifeInv_controlStreams m s :
  lifeInv s -> lifeInv (set_controlStreams_ m s).
Proof. unfold lifeInv. cbn. done. Qed.

Lemma HQControlStream_processReadData_lifeInv env type s s' :
  lifeInv s ->
  HQControlStream_processReadData env type s = Some s' -> lifeInv s'.
Proof.
  intros Hi. unfold HQControlStream_processReadData.
  destruct (controlStreams_ s !! type) as [cs |]; [| done].
  cbn [mbind option_bind].
  destruct (ingressStreamId cs) as [ingressId |]; [| done].
  cbn [mbind option_bind].
  destruct (negb (ingressCodec_ cs)); [done |].
  set (o := if chainLength (ctrlReadBuf_ cs) >? 0 then _ else _).
  assert (forall s1, o = Some s1 -> lifeInv s1) as Ho.
  { subst o. intros s1. destruct (_ >? 0); [| by intros [= <-]].
    destruct (onUnidirectionalIngress env _) as [cbs ret].
    destruct (controlCallbacks ingressId cbs _) as [s2 |] eqn:E; [| done].
    cbn [mbind option_bind].
    destruct (controlStreams_ s2 !! type) as [cs2 |]; [| done].
    cbn [mbind option_bind]. intros [= <-].
    apply lifeInv_controlStreams.
    eapply controlCallbacks_lifeInv; [| exact E].
    by apply lifeInv_controlStreams. }
  destruct o as [s1 |]; [| done]. cbn [mbind option_bind].
  specialize (Ho s1 eq_refl).
  destruct (controlStreams_ s1 !! type) as [cs1 |]; [| done].
  cbn [mbind option_bind].
  destruct (_ && _); [| by intros [= <-]].
  by apply controlCallbacks_lifeInv.
Qed.

Lemma readControlStream_lifeInv env type s s' :
  lifeInv s -> destroyed_ s = false ->
  readControlStream env type s = Some s' -> lifeInv s'.
Proof.
  intros Hi Hd. unfold readControlStream.
  destruct (controlStreams_ s !! type) as [cs |]; [| done].
  cbn [mbind option_bind].
  destruct (ingressStreamId cs) as [ingressId |]; [| done].
  cbn [mbind option_bind].
  destruct (readResult env) as [error | [data eof]].
  - intros [= <-]. by apply (lifeKept_lifeInv s), readError_life.
  - apply HQControlStream_processReadData_lifeInv.
    by apply lifeInv_controlStreams.
Qed.

Lemma controlStreamReadAvailable_lifeInv env id s s' :
  lifeInv s -> destroyed_ s = false ->
  controlStreamReadAvailable env id s = Some s' -> lifeInv s'.
Proof.
  intros Hi Hd. unfold controlStreamReadAvailable.
  destruct (findControlStream id s) as [[type cs] |].
  - by apply readControlStream_lifeInv.
  - by intros [= <-].
Qed.

Lemma assignReadCallback_lifeInv env id type s s' :
  lifeInv s -> destroyed_ s = false ->
  assignReadCallback env id type s = Some s' -> lifeInv s'.
Proof.
  intros Hi Hd. unfold assignReadCallback, tryCreateIngressControlStream.
  destruct (negb (consumeOk env)); [done |].
  destruct (versionUtils_ s) as [v |]; [| done]. cbv zeta.
  set (s0 := set_pendingUniStreams_ _ s).
  assert (lifeKept s s0) as H0 by (subst s0; repeat life_basic).
  destruct (parseStreamPreface v type) as [t |]; simpl.
  - destruct (createIngressControlStream id t s0) as [[ok s1] |] eqn:E; [| done].
    pose proof (createIngressControlStream_life _ _ _ _ _ E) as H1.
    pose proof (lifeKept_trans _ _ _ H0 H1) as H01.
    destruct (lifeKept_alive s s1 Hi Hd H01) as [I1 A1].
    simpl. destruct ok; simpl.
    + by apply controlStreamReadAvailable_lifeInv.
    + intros [= <-]. apply (lifeKept_lifeInv s1); [done | done |].
      repeat life_basic.
  - intros [= <-]. apply (lifeKept_lifeInv s); [done | done |].
    eapply lifeKept_trans; [exact H0 |]. repeat life_basic.
Qed.

(** *** Every call keeps what holds of the socket *)

Lemma apply_op_lifeInv op s s' :
  lifeInv s -> apply_op op s = Some s' -> lifeInv s'.
Proof.
  intros Hi H. apply apply_op_dispatch in H as (Hd & _ & Hf & H).
  revert H. unfold dispatch.
  destruct op.
  - destruct (sock_ s); [| done]. simpl.
    case_bool_decide as Hu; [| done]. case_bool_decide as Hv; [| done]. simpl.
    destruct (onTransportReadyCommon env alpn s) as [[ok s1] |] eqn:E; [| done].
    simpl. intros [= <-]. by eapply onTransportReadyCommon_lifeInv.
  - intros H. by apply (lifeKept_lifeInv s), (drainImpl_life _ _ _ H).
  - by apply closeWhenIdle_lifeInv.
  - intros [= <-]. by apply dropConnection_lifeInv.
  - destruct (sock_ s); [| done]. intros [= <-].
    by apply onConnectionError_lifeInv.
  - intros [= <-]. by apply (lifeKept_lifeInv s), dropConnectionAsync_life.
  - destruct (sock_ s && _); [| done]. intros H.
    by apply (lifeKept_lifeInv s), (onNewBidirectionalStream_life _ _ _ _ H).
  - destruct (sock_ s && _); [| done]. intros H.
    by apply (lifeKept_lifeInv s), (onNewUnidirectionalStream_life _ _ _ H).
  - destruct (sock_ s); [| done]. by apply assignReadCallback_lifeInv.
  - destruct (sock_ s); [| done]. intros H.
    by apply (lifeKept_lifeInv s), (onGoawayAck_life _ _ _ H).
  - intros [= <-]. by apply (lifeKept_lifeInv s), onGoawayCanceled_life.
  - intros H. by apply (lifeKept_lifeInv s), (headersComplete_life _ _ _ _ H).
  - intros H. by apply (lifeKept_lifeInv s), (checkSendingGoaway_life _ _ _ _ H).
  - destruct (versionUtils_ s) as [[] |] eqn:Hv; try done;
      by apply onGoaway_lifeInv.
  - intros [= <-]. by apply (lifeKept_lifeInv s), newTransaction_life.
  - intros [= <-]. by apply runLoopCallback_lifeInv.
  - intros [= <-]. by apply checkForShutdown_lifeInv.
  - destruct (sock_ s); [| done]. unfold readErrorApplication. intros H.
    apply (lifeKept_lifeInv s); [done | done |].
    revert H. apply onStream_life. intros st st1 ev.
    destruct (detached_ st); intros [= <- <-]; [constructor |].
    apply onResetStream_quiet.
  - destruct (sock_ s); [| done]. unfold writeRequestStream. intros H.
    apply (lifeKept_lifeInv s); [done | done |].
    revert H. apply onStream_life. intros st st1 ev.
    destruct (requestStreamWriteImpl s env maxEgress st) as [[[st2 ev2] n] |] eqn:E;
      [| done].
    cbn [mbind option_bind]. intros [= <- <-].
    eapply requestStreamWriteImpl_quiet, E.
  - unfold detachTransaction. intros H.
    apply (lifeKept_lifeInv s); [done | done |].
    revert H. apply onStream_life.
    intros st st1 ev [= <- <-]. constructor.
Qed.

Lemma initial_lifeInv s : initial s -> lifeInv s.
Proof.
  intros (_ & _ & _ & Hl & Hp & Hs & _ & Hd & _ & _ & _ & Ht).
  unfold lifeInv. rewrite Hd, Ht, Hl. done.
Qed.

Lemma reachable_lifeInv s : reachable s -> lifeInv s.
Proof.
  induction 1 as [s Hi | s op s' _ IH Hop].
  - by apply initial_lifeInv.
  - by eapply apply_op_lifeInv.
Qed.

(** *** What a call that announces no GOAWAY and accepts no stream keeps *)

Lemma marksKept_refl s : marksKept s s.
Proof. constructor; auto. Qed.

Lemma marksKept_trans s1 s2 s3 :
  marksKept s1 s2 -> marksKept s2 s3 -> marksKept s1 s3.
Proof.
  intros [d1 m1 g1 a1 r1] [d2 m2 g2 a2 r2].
  constructor; try congruence.
  intros H3. pose proof (r2 H3) as E. rewrite E in H3. rewrite E. auto.
Qed.

(** An update that leaves alone every field [marksKept] reads. *)
Lemma marksKept_frame s s' :
  direction_ s' = direction_ s ->
  maxIncomingStreamId_ s' = maxIncomingStreamId_ s ->
  drainState_ s' = drainState_ s ->
  trace_ s' = trace_ s ->
  marksKept s s'.
Proof. intros Hd Hm Hr Ht. constructor; congruence. Qed.

Lemma marksKept_emit s evs :
  goawayIds evs = [] -> acceptedStreams evs = [] -> marksKept s (emit evs s).
Proof.
  intros Hg Ha. constructor; cbn; auto.
  - by rewrite goawayIds_app, Hg, app_nil_r.
  - by rewrite acceptedStreams_app, Ha, app_nil_r.
Qed.

Lemma marksKept_quiet s evs : Forall quietEvent evs -> marksKept s (emit evs s).
Proof.
  intros He. apply marksKept_emit.
  - by apply quietEvents_goaways.
  - by apply quietEvents_accepts.
Qed.

(** A move of the drain to a state that is no GOAWAY state. *)
Lemma marksKept_drain s d :
  d <> FIRST_GOAWAY -> d <> SECOND_GOAWAY -> marksKept s (set_drainState_ d s).
Proof. intros H1 H2. constructor; cbn; auto. intros [? | ?]; congruence. Qed.

Ltac marks_frame s t :=
  apply (marksKept_trans s t); [| by apply marksKept_frame].

Ltac marks_emit s t :=
  apply (marksKept_trans s t);
  [| first [ by apply marksKept_emit
           | apply marksKept_quiet, abortStream_quiet ] ].

Ltac marks_basic :=
  lazymatch goal with
  | |- marksKept ?s ?s => apply marksKept_refl
  | |- marksKept ?s (emit _ ?t) => marks_emit s t
  | |- marksKept ?s (abortStreamS _ _ _ ?t) => unfold abortStreamS
  | |- marksKept ?s (rejectStream _ ?t) => unfold rejectStream
  | |- marksKept ?s (set_streams_ _ ?t) => marks_frame s t
  | |- marksKept ?s (set_sock_ _ ?t) => marks_frame s t
  | |- marksKept ?s (set_destroyed_ _ ?t) => marks_frame s t
  | |- marksKept ?s (set_checkFailed_ _ ?t) => marks_frame s t
  | |- marksKept ?s (set_dropping_ _ ?t) => marks_frame s t
  | |- marksKept ?s (set_alpn_ _ ?t) => marks_frame s t
  | |- marksKept ?s (set_loopCallbackScheduled_ _ ?t) => marks_frame s t
  | |- marksKept ?s (cancelLoopCallback ?t) => marks_frame s t
  | |- marksKept ?s (set_controlStreams_ _ ?t) => marks_frame s t
  | |- marksKept ?s (set_pendingUniStreams_ _ ?t) => marks_frame s t
  | |- marksKept ?s (set_maxAllowedStreamId_ _ ?t) => marks_frame s t
  | |- marksKept ?s (set_dropInNextLoop_ _ ?t) => marks_frame s t
  | |- marksKept ?s (set_drainState_ ?d ?t) =>
      apply (marksKept_trans s t); [| by apply marksKept_drain ]
  | |- marksKept ?s (if ?c then _ else _) => destruct c eqn:?
  end.

Lemma invokeOnStreams_marks p f s :
  (forall st, Forall quietEvent (f st).2) ->
  marksKept s (invokeOnStreams p f s).
Proof.
  intros Hf. unfold invokeOnStreams.
  eapply marksKept_trans; [| apply marksKept_quiet].
  - by apply marksKept_frame.
  - apply quietEvents_concat. intros [k st]. simpl.
    destruct (p st); [apply Hf | constructor].
Qed.

Lemma scheduleLoopCallback_marks s : marksKept s (scheduleLoopCallback s).
Proof. unfold scheduleLoopCallback. repeat marks_basic. Qed.

Lemma checkForShutdown_marks s : marksKept s (checkForShutdown s).
Proof. unfold checkForShutdown. cbv zeta. repeat marks_basic. Qed.

Lemma errorOnTransactionErr_quiet perr st :
  Forall quietEvent (errorOnTransactionErr perr st).2.
Proof. apply errorOnTransaction_quiet. Qed.

Lemma dropConnectionSync_marks env code perr s :
  marksKept s (dropConnectionSync env code perr s).
Proof.
  unfold dropConnectionSync. cbv zeta.
  destruct (dropping_ s); [apply marksKept_refl |].
  assert (forall t, marksKept s t ->
            marksKept s (if bool_decide (getNumStreams t = 0%nat) then t
                         else set_checkFailed_ true t)) as Hend.
  { intros t Ht. case_bool_decide; [done |]. marks_frame s t. exact Ht. }
  apply Hend.
  eapply marksKept_trans; [| apply checkForShutdown_marks].
  repeat marks_basic.
  unfold invokeOnAllStreams.
  eapply marksKept_trans; [| apply invokeOnStreams_marks].
  - repeat marks_basic.
  - intros st. rewrite errorOnDroppedTransaction_events.
    apply errorOnTransactionErr_quiet.
Qed.

Lemma dropConnectionAsync_marks code perr s :
  marksKept s (dropConnectionAsync code perr s).
Proof.
  unfold dropConnectionAsync.
  destruct (dropInNextLoop_ s) eqn:E; [apply marksKept_refl |].
  eapply marksKept_trans; [| apply scheduleLoopCallback_marks].
  repeat marks_basic.
Qed.

Lemma onConnectionError_marks env code s :
  marksKept s (onConnectionError env code s).
Proof.
  unfold onConnectionError.
  eapply marksKept_trans; [| apply dropConnectionSync_marks].
  repeat marks_basic.
Qed.

Lemma onGoawayCanceled_marks s : marksKept s (onGoawayCanceled s).
Proof.
  unfold onGoawayCanceled.
  eapply marksKept_trans; [| apply scheduleLoopCallback_marks].
  repeat marks_basic.
Qed.

(** A drain of the unframed profile announces nothing. *)
Lemma drainImpl_unframed env s s' :
  versionUtils_ s = Some H1Q_FB_V1 ->
  drainImpl env s = Some s' -> marksKept s s'.
Proof.
  intros Hv. unfold drainImpl. cbv zeta.
  case_bool_decide as Hn; [intros [= <-]; apply marksKept_refl |].
  simpl. rewrite Hv. simpl. intros [= <-]. repeat marks_basic.
Qed.

Lemma headersComplete_marks env close s s' :
  headersComplete env close s = Some s' -> marksKept s s'.
Proof.
  unfold headersComplete.
  destruct (versionUtils_ s) as [[] |] eqn:Hv; try done;
    try (intros [= <-]; apply marksKept_refl).
  unfold H1QFBV1_headersComplete.
  case_bool_decide as Hd; [intros [= <-]; apply marksKept_refl |].
  destruct close; [| intros [= <-]; apply marksKept_refl].
  case_bool_decide as Hc; [intros [= <-]; repeat marks_basic |].
  case_bool_decide as Hn.
  - destruct (drainImpl env s) as [s1 |] eqn:E; [| done]. simpl.
    intros [= <-]. eapply marksKept_trans; [eapply drainImpl_unframed, E; done |].
    repeat marks_basic.
  - simpl. intros [= <-]. repeat marks_basic.
Qed.

Lemma checkSendingGoaway_marks env keepalive s s' :
  checkSendingGoaway env keepalive s = Some s' -> marksKept s s'.
Proof.
  unfold checkSendingGoaway.
  destruct (versionUtils_ s) as [[] |] eqn:Hv;
    try (intros [= <-]; apply marksKept_refl).
  unfold H1QFBV1_checkSendingGoaway, notifyPendingShutdown.
  set (o := if _ && _ then _ else _).
  destruct o as [s1 |] eqn:E; [| done]. simpl. intros [= <-].
  assert (marksKept s s1) as H1.
  { subst o. destruct (_ && _).
    - by eapply drainImpl_unframed.
    - injection E as <-. apply marksKept_refl. }
  eapply marksKept_trans; [exact H1 |]. repeat marks_basic.
Qed.

Lemma checkNewStream_marks v id s : marksKept s (checkNewStream v id s).2.
Proof.
  destruct v; simpl;
    [ unfold H1QFBV1_checkNewStream
    | unfold GoawayUtils_checkNewStream
    | unfold GoawayUtils_checkNewStream ];
    repeat case_match; simpl; repeat marks_basic.
Qed.

Lemma createStreamTransport_marks env id s :
  marksKept s (createStreamTransport env id s).2.
Proof.
  unfold createStreamTransport. case_match; simpl; repeat marks_basic.
Qed.

Lemma newTransaction_marks env s : marksKept s (newTransaction env s).2.
Proof.
  unfold newTransaction.
  destruct (_ || _ || _); [apply marksKept_refl |].
  destruct (negb _); [apply marksKept_refl |].
  destruct (createBidirectionalStream env) as [id |]; [| apply marksKept_refl].
  pose proof (createStreamTransport_marks env id s) as H1.
  destruct (createStreamTransport env id s) as [b s1]. simpl in H1.
  destruct b; simpl.
  - eapply marksKept_trans; [exact H1 |]. repeat marks_basic.
  - eapply marksKept_trans; [exact H1 |]. repeat marks_basic.
Qed.

Lemma createEgressControlStream_marks env type s ok s' :
  createEgressControlStream env type s = Some (ok, s') -> marksKept s s'.
Proof.
  unfold createEgressControlStream.
  destruct (createUnidirectionalStream env type).
  - destruct (controlStreams_ s !! type); [done |].
    intros [= <- <-]. repeat marks_basic.
  - intros [= <- <-]. apply onConnectionError_marks.
Qed.

Lemma HQ_sendSettings_marks env s s' :
  HQ_sendSettings env s = Some s' -> marksKept s s'.
Proof.
  unfold HQ_sendSettings. destruct (controlStreams_ s !! CONTROL); [| done].
  intros [= <-]. repeat marks_basic.
Qed.

Lemma createEgressControlStreams_marks v env s ok s' :
  createEgressControlStreams v env s = Some (ok, s') -> marksKept s s'.
Proof.
  destruct v; simpl.
  - intros [= <- <-]. apply marksKept_refl.
  - apply createEgressControlStream_marks.
  - destruct (createEgressControlStream env CONTROL s) as [[ok1 s1] |] eqn:E1;
      [| done]. simpl.
    pose proof (createEgressControlStream_marks _ _ _ _ _ E1) as H1.
    destruct ok1; simpl; [| by intros [= <- <-]].
    destruct (createEgressControlStream env QPACK_ENCODER s1) as [[ok2 s2] |] eqn:E2;
      [| done]. simpl.
    pose proof (createEgressControlStream_marks _ _ _ _ _ E2) as H2.
    destruct ok2; simpl; [| intros [= <- <-]; eauto using marksKept_trans].
    destruct (createEgressControlStream env QPACK_DECODER s2) as [[ok3 s3] |] eqn:E3;
      [| done]. simpl.
    pose proof (createEgressControlStream_marks _ _ _ _ _ E3) as H3.
    destruct ok3; simpl; [| intros [= <- <-]; eauto using marksKept_trans].
    destruct (HQ_sendSettings env s3) as [s4 |] eqn:E4; [| done]. simpl.
    pose proof (HQ_sendSettings_marks _ _ _ E4) as H4.
    intros [= <- <-]. eauto using marksKept_trans.
Qed.

Lemma createIngressControlStream_marks id type s ok s' :
  createIngressControlStream id type s = Some (ok, s') -> marksKept s s'.
Proof.
  unfold createIngressControlStream.
  destruct (controlStreams_ s !! type) as [cs |]; [| done].
  destruct (ingressCodec_ cs); intros [= <- <-].
  - apply dropConnectionAsync_marks.
  - repeat marks_basic.
Qed.

Lemma errorOnTransactionId_marks id ex s :
  marksKept s (errorOnTransactionId id ex s).
Proof.
  unfold errorOnTransactionId, findStream.
  destruct (streams_ s !! id) as [st |]; [| apply marksKept_refl].
  pose proof (errorOnTransaction_quiet ex st) as Hq.
  destruct (errorOnTransaction ex st) as [st1 ev]. cbn [snd] in Hq.
  eapply marksKept_trans; [| apply marksKept_quiet, Hq].
  repeat marks_basic.
Qed.

Lemma readError_marks id error s : marksKept s (readError id error s).
Proof.
  unfold readError. cbv zeta.
  destruct error as [code | code | code];
    [| apply errorOnTransactionId_marks | apply errorOnTransactionId_marks].
  unfold findNonDetachedStream.
  destruct (streams_ s !! id) as [st |]; [| apply marksKept_refl].
  destruct (detached_ st); [apply marksKept_refl |].
  pose proof (onResetStream_quiet s code
                (HTTPException.make HTTPException.INGRESS_AND_EGRESS) st) as Hq.
  destruct (onResetStream _ _ _ st) as [st1 ev]. cbn [snd] in Hq.
  eapply marksKept_trans; [| apply marksKept_quiet, Hq].
  repeat marks_basic.
Qed.

Lemma handleSessionError_marks isControl err perr s :
  marksKept s (handleSessionError isControl err perr s).
Proof.
  unfold handleSessionError. cbv zeta.
  destruct err as [e | e | e]; cbn [negb].
  - apply dropConnectionAsync_marks.
  - destruct e; cbn [negb];
      first [apply marksKept_refl | apply dropConnectionAsync_marks].
  - apply dropConnectionAsync_marks.
Qed.

Lemma getAndCheckApplicationProtocol_marks env alpn s :
  marksKept s (getAndCheckApplicationProtocol env alpn s).2.
Proof.
  unfold getAndCheckApplicationProtocol. cbv zeta.
  assert (forall a o,
    marksKept s (setVersionUtils (set_alpn_ a (set_version_ o s)))) as Hset.
  { intros a o. by apply marksKept_frame. }
  assert (forall o c, marksKept s (onConnectionError env c (set_version_ o s)))
    as Hc.
  { intros o c. eapply marksKept_trans; [| apply onConnectionError_marks].
    by apply marksKept_frame. }
  destruct alpn as [a |]; simpl.
  - repeat case_match; simpl in *; try congruence.
    all: first [ apply Hset | apply Hc | apply onConnectionError_marks
               | by apply marksKept_frame ].
  - apply onConnectionError_marks.
Qed.

Lemma runLoopCallback_marks env s : marksKept s (runLoopCallback env s).
Proof.
  unfold runLoopCallback. cbv zeta.
  eapply marksKept_trans; [| apply checkForShutdown_marks].
  destruct (dropInNextLoop_ _) as [[[c m] p] |].
  - eapply marksKept_trans; [| apply dropConnectionSync_marks]. repeat marks_basic.
  - repeat marks_basic.
Qed.

Lemma onStream_marks id f s s' :
  (forall st st1 ev, f st = Some (st1, ev) -> Forall quietEvent ev) ->
  onStream id f s = Some s' -> marksKept s s'.
Proof.
  intros Hf. unfold onStream.
  destruct (streams_ s !! id) as [st |]; [| done]. cbn [mbind option_bind].
  destruct (f st) as [[st1 ev] |] eqn:E; [| done]. cbn [mbind option_bind].
  intros [= <-].
  eapply marksKept_trans; [| apply marksKept_quiet; eauto]. repeat marks_basic.
Qed.

(** *** The calls that announce a GOAWAY or accept a stream *)

(** A call that keeps the marks keeps what holds of them. *)
Lemma marksKept_marksInv s s' :
  marksInv s -> evolves s s' -> marksKept s s' -> marksInv s'.
Proof.
  intros [Hg Ha] He [d m g a r].
  assert (forall v, versionUtils_ s = Some v -> versionUtils_ s' = Some v) as Hu.
  { intros v Hv. destruct (ev_version _ _ He) as [[_ ->] | [Hn _]]; congruence. }
  split.
  - unfold goawayInv in *. rewrite g, d, m.
    destruct Hg as [(G1 & G2 & G3) | (D & (v & Hv & Hf) & G)].
    + left. split; [done |]. split.
      * intros H2. apply G2. by rewrite <- (r (or_intror H2)).
      * intros H1. apply G3. by rewrite <- (r (or_introl H1)).
    + right. split; [done |]. split; [exists v; auto |].
      pose proof (ev_drain _ _ He) as Hle. unfold drain_le in Hle.
      assert (drainState_ s' <> CLOSE_SENT /\ drainState_ s' <> CLOSE_RECEIVED)
        as [C1 C2].
      { assert (versionUtils_ s' <> Some H1Q_FB_V1) as Hn1.
        { rewrite (Hu v Hv). destruct Hf as [-> | ->]; discriminate. }
        split; intros Hc.
        - destruct (ev_close _ _ He Hn1 (or_introl Hc)) as [X | X];
            rewrite X in G; destruct G as [[_ [? | ?]] | [_ [? | ?]]]; congruence.
        - destruct (ev_close _ _ He Hn1 (or_intror Hc)) as [X | X];
            rewrite X in G; destruct G as [[_ [? | ?]] | [_ [? | ?]]]; congruence. }
      destruct G as [[G1 G2] | [G1 G2]]; [left | right]; (split; [done |]).
      * destruct (drainState_ s') eqn:E'; auto; try congruence;
          try (destruct G2 as [X | X]; rewrite X in Hle; simpl in Hle; lia).
        pose proof (r (or_intror eq_refl)) as X. destruct G2; congruence.
      * destruct (drainState_ s') eqn:E'; auto; try congruence;
          destruct G2 as [X | X]; rewrite X in Hle; simpl in Hle; lia.
  - unfold acceptedInv in *. rewrite a. destruct Ha as [A1 A2].
    destruct (ev_version _ _ He) as [[_ ->] | [Hn _]]; [done |].
    rewrite (A1 Hn). split; [done | constructor].
Qed.

(** What a GOAWAY that is sent changes: the id the state asks for is
    announced, and the drain moves on by one GOAWAY state, or to DONE when
    the frame could not be generated or its delivery not be followed. *)
Lemma GoawayUtils_sendGoaway_shape env s s' :
  direction_ s = DOWNSTREAM ->
  drainState_ s <> DONE ->
  GoawayUtils_sendGoaway env s = Some s' ->
  direction_ s' = direction_ s
  /\ versionUtils_ s' = versionUtils_ s
  /\ maxIncomingStreamId_ s' = maxIncomingStreamId_ s
  /\ acceptedStreams (trace_ s') = acceptedStreams (trace_ s)
  /\ goawayIds (trace_ s') = goawayIds (trace_ s) ++ [getGoawayStreamId s]
  /\ (drainState_ s' = DONE
      \/ (drainState_ s = PENDING /\ drainState_ s' = FIRST_GOAWAY)
      \/ (drainState_ s <> PENDING /\ drainState_ s' = SECOND_GOAWAY)).
Proof.
  intros Hdir Hdone. unfold GoawayUtils_sendGoaway. cbv zeta.
  rewrite bool_decide_eq_false_2 by (rewrite Hdir; discriminate).
  rewrite bool_decide_eq_false_2 by done.
  destruct (controlStreams_ s !! _) as [cs |]; [| discriminate].
  destruct (streamWriteOffset env), (streamWriteBufferedBytes env);
    try (intros [= <-]; cbn;
         rewrite ?acceptedStreams_app, ?goawayIds_app; cbn;
         rewrite ?app_nil_r; repeat split; auto).
  destruct (_ =? 0);
    [intros [= <-]; cbn;
     rewrite ?acceptedStreams_app, ?goawayIds_app; cbn;
     rewrite ?app_nil_r; repeat split; auto |].
  destruct (negb _);
    [intros [= <-]; cbn;
     rewrite ?acceptedStreams_app, ?goawayIds_app; cbn;
     rewrite ?app_nil_r; repeat split; auto |].
  cbn [drainState_ emit set_trace_ set_controlStreams_].
  case_bool_decide as Hp; intros [= <-]; cbn;
    rewrite ?acceptedStreams_app, ?goawayIds_app; cbn;
    rewrite ?app_nil_r; repeat split; auto.
Qed.

Lemma GoawayUtils_sendGoaway_marksInv env s s' :
  marksInv s ->
  (exists v, versionUtils_ s = Some v /\ framed v) ->
  drainState_ s = PENDING \/ drainState_ s = FIRST_GOAWAY ->
  GoawayUtils_sendGoaway env s = Some s' -> marksInv s'.
Proof.
  intros [Hg Ha] Hv Hd H.
  destruct (direction_ s) eqn:Hdir.
  - unfold GoawayUtils_sendGoaway in H. rewrite Hdir in H.
    rewrite bool_decide_eq_true_2 in H by done. by injection H as <-.
  - destruct (GoawayUtils_sendGoaway_shape env s s' Hdir)
      as (S1 & S2 & S3 & S4 & S5 & S6); [destruct Hd; congruence | done |].
    split.
    + unfold goawayInv. right. rewrite S1, S2, S3, S5.
      split; [done |]. split; [done |].
      unfold getGoawayStreamId. destruct Hd as [Hp | Hf].
      * rewrite Hp. cbn. left.
        destruct Hg as [(G1 & _) | (_ & _ & [[_ [G | G]] | [_ [G | G]]])];
          try congruence.
        rewrite G1. split; [done |].
        destruct S6 as [? | [[_ ?] | [? _]]]; auto. done.
      * rewrite Hf. cbn. right.
        destruct Hg as [(_ & _ & G) | (_ & _ & [[G1 _] | [_ [G | G]]])];
          try congruence.
        { specialize (G Hf). congruence. }
        rewrite G1. split; [done |].
        destruct S6 as [? | [[? _] | [_ ?]]]; auto. congruence.
    + unfold acceptedInv. by rewrite S2, S4.
Qed.

Lemma sendGoaway_marksInv v env s s' :
  marksInv s -> versionUtils_ s = Some v ->
  drainState_ s = PENDING \/ drainState_ s = FIRST_GOAWAY ->
  sendGoaway v env s = Some s' -> marksInv s'.
Proof.
  intros Hi Hv Hd. destruct v; simpl.
  - by intros [= <-].
  - apply GoawayUtils_sendGoaway_marksInv; try done.
    exists H1Q_FB_V2. split; [done | by left].
  - apply GoawayUtils_sendGoaway_marksInv; try done.
    exists HQ. split; [done | by right].
Qed.

Lemma drainImpl_marksInv env s s' :
  marksInv s -> drainImpl env s = Some s' -> marksInv s'.
Proof.
  intros Hi. unfold drainImpl. cbv zeta.
  case_bool_decide as Hn; [by intros [= <-] |].
  assert (drainState_ s = NONE) as Hnone by by destruct (drainState_ s).
  assert (marksInv (set_drainState_ PENDING s)) as H1.
  { apply (marksKept_marksInv s); [done | | by apply marksKept_drain].
    apply evolves_drain; [| by left].
    rewrite Hnone. unfold drain_le. simpl. lia. }
  simpl. destruct (versionUtils_ s) as [v |] eqn:Hv.
  - apply sendGoaway_marksInv; auto.
  - by intros [= <-].
Qed.

Lemma closeWhenIdle_marksInv env s s' :
  marksInv s -> closeWhenIdle env s = Some s' -> marksInv s'.
Proof.
  intros Hi. unfold closeWhenIdle.
  destruct (drainImpl env s) as [s1 |] eqn:E; [| done].
  simpl. intros [= <-].
  pose proof (drainImpl_marksInv _ _ _ Hi E) as H1.
  apply (marksKept_marksInv s1); [done | |].
  - eapply evolves_trans; [| apply checkForShutdown_evolves]. repeat evo_basic.
  - eapply marksKept_trans; [| apply checkForShutdown_marks]. repeat marks_basic.
Qed.

Lemma onGoawayAck_marksInv env s s' :
  marksInv s -> onGoawayAck env s = Some s' -> marksInv s'.
Proof.
  intros Hi. unfold onGoawayAck.
  assert (forall t, marksInv t -> marksInv (scheduleLoopCallback t)) as Hs.
  { intros t Ht. apply (marksKept_marksInv t); [done | |].
    - apply scheduleLoopCallback_evolves.
    - apply scheduleLoopCallback_marks. }
  case_bool_decide as H1.
  - destruct (versionUtils_ s) as [v |] eqn:Hv; [| done].
    destruct (sendGoaway v env s) as [s1 |] eqn:E; [| done].
    simpl. intros [= <-]. apply Hs.
    eapply sendGoaway_marksInv; eauto.
  - case_bool_decide as H2; simpl; intros [= <-]; apply Hs; [| done].
    apply (marksKept_marksInv s); [done | | by apply marksKept_drain].
    repeat evo_basic.
Qed.

Lemma onTransportReadyCommon_marksInv env alpn s ok s' :
  versionUtils_ s = None -> version_ s = None ->
  marksInv s ->
  onTransportReadyCommon env alpn s = Some (ok, s') ->
  marksInv s'.
Proof.
  intros Hu Hv Hi. unfold onTransportReadyCommon.
  pose proof (getAndCheckApplicationProtocol_evolves env alpn s Hu Hv) as H1.
  pose proof (getAndCheckApplicationProtocol_marks env alpn s) as M1.
  pose proof (getAndCheckApplicationProtocol_utils env alpn s) as Hok.
  destruct (getAndCheckApplicationProtocol env alpn s) as [ok1 s1].
  simpl in H1, M1.
  pose proof (marksKept_marksInv _ _ Hi H1 M1) as I1.
  destruct ok1; simpl; [| by intros [= <- <-]].
  destruct (Hok s1 eq_refl) as (v & Hv1 & _). rewrite Hv1.
  destruct (createEgressControlStreams v env s1) as [[ok2 s2] |] eqn:E2; [| done].
  pose proof (createEgressControlStreams_evolves _ _ _ _ _ E2) as H2.
  pose proof (createEgressControlStreams_marks _ _ _ _ _ E2) as M2.
  pose proof (marksKept_marksInv _ _ I1 H2 M2) as I2.
  cbn [mbind option_bind]. destruct ok2; simpl; [| by intros [= <- <-]].
  assert (versionUtils_ s2 = Some v) as Hv2.
  { destruct (ev_version _ _ H2) as [[_ ->] | [Hn _]]; congruence. }
  case_bool_decide.
  - destruct (sendGoaway v env s2) as [s3 |] eqn:E3; [| done].
    cbn [mbind option_bind]. intros [= <- <-].
    eapply sendGoaway_marksInv; eauto.
  - cbn [mbind option_bind]. by intros [= <- <-].
Qed.

(** On a client no GOAWAY was announced, and the drain may take any state
    but the second GOAWAY. *)
Lemma marksInv_upstream s d :
  marksInv s -> direction_ s = UPSTREAM -> d <> SECOND_GOAWAY ->
  marksInv (set_drainState_ d s).
Proof.
  intros [Hg Ha] Hdir Hd. split; [| exact Ha].
  destruct Hg as [(G1 & _) | (D & _)]; [| congruence].
  left. cbn. auto.
Qed.

Lemma onGoaway_marksInv env lastGood code s s' :
  marksInv s -> onGoaway env lastGood code s = Some s' -> marksInv s'.
Proof.
  intros Hi. unfold onGoaway. cbv zeta.
  case_bool_decide as Hdir; [| done]. simpl. case_bool_decide; [done |].
  set (s1 := set_maxAllowedStreamId_ _ s).
  assert (marksInv s1) as I1 by exact Hi.
  destruct (drainImpl env s1) as [s2 |] eqn:E; [| done].
  cbn [mbind option_bind]. intros [= <-].
  pose proof (drainImpl_marksInv _ _ _ I1 E) as I2.
  assert (direction_ s2 = UPSTREAM) as Hdir2.
  { by rewrite (ev_direction _ _ (drainImpl_evolves _ _ _ E)). }
  set (s3 := invokeOnNonDetachedStreams _ s2).
  assert (marksInv s3) as I3.
  { assert (forall st,
              Forall quietEvent
                (if streamId st >? maxAllowedStreamId_ s2
                 then
                   let '(st1, ev1) :=
                     errorOnTransactionErr kErrorStreamUnacknowledged st in
                   (st1, [EvTxnOnGoaway (streamId st) code] ++ ev1)
                 else (st, [EvTxnOnGoaway (streamId st) code])).2) as Hq.
    { intros st. destruct (_ >? _); [| repeat constructor].
      apply onGoaway_stream_quiet. }
    apply (marksKept_marksInv s2); [done | |].
    - subst s3. apply invokeOnStreams_evolves. intros st.
      apply quietEvents_accepts, Hq.
    - subst s3. by apply invokeOnStreams_marks. }
  assert (direction_ s3 = UPSTREAM) as Hdir3 by exact Hdir2.
  match goal with
  | |- marksInv (checkForShutdown ?t) =>
      apply (marksKept_marksInv t);
        [| apply checkForShutdown_evolves | apply checkForShutdown_marks]
  end.
  repeat case_match; try done; by apply marksInv_upstream.
Qed.

(** What a new stream that passes the check is. *)
Lemma checkNewStream_ok v id s s1 :
  checkNewStream v id s = (true, s1) ->
  s1 = s
  /\ (quic.isBidirectionalStream id = true -> quic.isClientStream id = true)
  /\ (v = H1Q_FB_V1 -> quic.isBidirectionalStream id = true)
  /\ (framed v -> drainState_ s <> NONE -> direction_ s = DOWNSTREAM ->
      quic.isBidirectionalStream id = true -> id <= maxIncomingStreamId_ s).
Proof.
  destruct v; cbn [checkNewStream];
    unfold H1QFBV1_checkNewStream, GoawayUtils_checkNewStream,
      quic.isBidirectionalStream, quic.isClientStream,
      quic.isUnidirectionalStream, quic.isServerStream;
    generalize (Z.testbit id 1) (Z.testbit id 0); intros b1 b0.
  - destruct b1, b0; cbn [orb andb negb]; intros [= <-];
      repeat split; try done; intros [? | ?]; discriminate.
  - destruct b1, b0; cbn [orb andb negb]; try done;
      destruct (bool_decide _ && _) eqn:H; try done;
      intros [= <-]; repeat split; try done.
    intros _ Hn Hd _.
    rewrite (bool_decide_eq_true_2 (drainState_ s ≠ NONE)) in H by done.
    rewrite (bool_decide_eq_true_2 (direction_ s = DOWNSTREAM)) in H by done.
    rewrite (bool_decide_eq_false_2 (direction_ s = UPSTREAM)) in H
      by (rewrite Hd; discriminate).
    cbn in H. lia.
  - destruct b1, b0; cbn [orb andb negb]; try done;
      destruct (bool_decide _ && _) eqn:H; try done;
      intros [= <-]; repeat split; try done.
    intros _ Hn Hd _.
    rewrite (bool_decide_eq_true_2 (drainState_ s ≠ NONE)) in H by done.
    rewrite (bool_decide_eq_true_2 (direction_ s = DOWNSTREAM)) in H by done.
    rewrite (bool_decide_eq_false_2 (direction_ s = UPSTREAM)) in H
      by (rewrite Hd; discriminate).
    cbn in H. lia.
Qed.

Lemma createStreamTransport_maxIncoming env id m s :
  set_maxIncomingStreamId_ m (createStreamTransport env id s).2
  = (createStreamTransport env id (set_maxIncomingStreamId_ m s)).2.
Proof. unfold createStreamTransport. cbn. by case_match. Qed.

Lemma onNewBidirectionalStream_marksInv env id s s' :
  quic.isBidirectionalStream id = true ->
  marksInv s -> onNewBidirectionalStream env id s = Some s' -> marksInv s'.
Proof.
  intros Hb Hi. unfold onNewBidirectionalStream.
  destruct (versionUtils_ s) as [v |] eqn:Hv; [| done].
  pose proof (checkNewStream_evolves v id s) as H1.
  pose proof (checkNewStream_marks v id s) as M1.
  pose proof (checkNewStream_ok v id s) as Hok.
  destruct (checkNewStream v id s) as [ok s1]. simpl in H1, M1.
  destruct ok; simpl;
    [| intros [= <-]; by apply (marksKept_marksInv s)].
  destruct (Hok s1 eq_refl) as (-> & Hc & Hv1 & Hmax). clear Hok H1 M1.
  set (s1a := emit [EvStreamAccepted id] s).
  pose proof (createStreamTransport_maxIncoming env id
                (Z.max (maxIncomingStreamId_ s) id) s1a) as Hcomm.
  destruct (createStreamTransport env id s1a) as [b s2] eqn:E. simpl in Hcomm.
  assert (maxIncomingStreamId_ s2 = maxIncomingStreamId_ s) as Hm2.
  { pose proof (mk_maxIncoming _ _ (createStreamTransport_marks env id s1a)) as X.
    by rewrite E in X. }
  intros [= <-]. rewrite Hm2, Hcomm.
  set (t := set_maxIncomingStreamId_ _ s1a).
  apply (marksKept_marksInv t);
    [| apply createStreamTransport_evolves | apply createStreamTransport_marks].
  destruct Hi as [Hg Ha]. split.
  - unfold goawayInv. cbn. rewrite goawayIds_app, app_nil_r.
    destruct Hg as [G | (D & (v' & Hv' & Hf) & [G | [G1 G2]])];
      [by left | right; split; [done |]; split; [eauto |]; by left |].
    right. split; [done |]. split; [eauto |]. right. split; [| done].
    rewrite Z.max_l; [done |].
    apply Hmax; auto; [congruence | destruct G2; congruence].
  - unfold acceptedInv. cbn. rewrite Hv, acceptedStreams_app.
    destruct Ha as [A1 A2]. rewrite Hv in A2. split; [done |].
    apply Forall_app. split; [done |].
    repeat constructor; [done |]. intros [= ->]. auto.
Qed.

Lemma onNewUnidirectionalStream_marksInv id s s' :
  marksInv s -> onNewUnidirectionalStream id s = Some s' -> marksInv s'.
Proof.
  intros Hi. unfold onNewUnidirectionalStream.
  destruct (versionUtils_ s) as [v |] eqn:Hv; [| done].
  pose proof (checkNewStream_evolves v id s) as H1.
  pose proof (checkNewStream_marks v id s) as M1.
  pose proof (checkNewStream_ok v id s) as Hok.
  destruct (checkNewStream v id s) as [ok s1]. simpl in H1, M1.
  destruct ok; simpl;
    [| intros [= <-]; by apply (marksKept_marksInv s)].
  destruct (Hok s1 eq_refl) as (-> & Hc & Hv1 & _). clear Hok H1 M1.
  intros [= <-]. destruct Hi as [Hg Ha]. split.
  - unfold goawayInv. cbn. by rewrite goawayIds_app, app_nil_r.
  - unfold acceptedInv. cbn. rewrite Hv, acceptedStreams_app.
    destruct Ha as [A1 A2]. rewrite Hv in A2. split; [done |].
    apply Forall_app. split; [done |].
    repeat constructor; [done |]. intros [= ->]. auto.
Qed.

(** *** Reading a control stream *)

Lemma controlCallback_marksInv ingressId cb s s' :
  marksInv s ->
  controlCallback ingressId cb s = Some s' -> marksInv s'.
Proof.
  intros Hi. destruct cb as [| env lastGood code | error]; cbn [controlCallback].
  - unfold onSettings. destruct (versionUtils_ s); [| done]. by intros [= <-].
  - by apply onGoaway_marksInv.
  - unfold HQControlStream_onError.
    destruct (findControlStream ingressId s); [| done]. intros [= <-].
    apply (marksKept_marksInv s);
      [done | apply handleSessionError_evolves | apply handleSessionError_marks].
Qed.

Lemma controlCallbacks_marksInv ingressId cbs s s' :
  marksInv s ->
  controlCallbacks ingressId cbs s = Some s' -> marksInv s'.
Proof.
  revert s. induction cbs as [| cb cbs IH]; intros s Hi; cbn [controlCallbacks].
  - by intros [= <-].
  - destruct (controlCallback ingressId cb s) as [s1 |] eqn:E; [| done].
    cbn [mbind option_bind]. apply IH.
    by eapply controlCallback_marksInv.
Qed.

(** An update of the control streams alone. *)
Lemma marksInv_controlStreams m s :
  marksInv s -> marksInv (set_controlStreams_ m s).
Proof. intros Hi. exact Hi. Qed.

Lemma HQControlStream_processReadData_marksInv env type s s' :
  marksInv s ->
  HQControlStream_processReadData env type s = Some s' -> marksInv s'.
Proof.
  intros Hi. unfold HQControlStream_processReadData.
  destruct (controlStreams_ s !! type) as [cs |]; [| done].
  cbn [mbind option_bind].
  destruct (ingressStreamId cs) as [ingressId |]; [| done].
  cbn [mbind option_bind].
  destruct (negb (ingressCodec_ cs)); [done |].
  set (o := if chainLength (ctrlReadBuf_ cs) >? 0 then _ else _).
  assert (forall s1, o = Some s1 -> marksInv s1) as Ho.
  { subst o. intros s1. destruct (_ >? 0); [| by intros [= <-]].
    destruct (onUnidirectionalIngress env _) as [cbs ret].
    destruct (controlCallbacks ingressId cbs _) as [s2 |] eqn:E; [| done].
    cbn [mbind option_bind].
    destruct (controlStreams_ s2 !! type) as [cs2 |]; [| done].
    cbn [mbind option_bind]. intros [= <-].
    apply marksInv_controlStreams.
    eapply controlCallbacks_marksInv; [| exact E].
    by apply marksInv_controlStreams. }
  destruct o as [s1 |]; [| done]. cbn [mbind option_bind].
  specialize (Ho s1 eq_refl).
  destruct (controlStreams_ s1 !! type) as [cs1 |]; [| done].
  cbn [mbind option_bind].
  destruct (_ && _); [| by intros [= <-]].
  by apply controlCallbacks_marksInv.
Qed.

Lemma controlStreamReadAvailable_marksInv env id s s' :
  marksInv s ->
  controlStreamReadAvailable env id s = Some s' -> marksInv s'.
Proof.
  intros Hi. unfold controlStreamReadAvailable.
  destruct (findControlStream id s) as [[type cs0] |]; [| by intros [= <-]].
  unfold readControlStream.
  destruct (controlStreams_ s !! type) as [cs |]; [| done].
  cbn [mbind option_bind].
  destruct (ingressStreamId cs) as [ingressId |]; [| done].
  cbn [mbind option_bind].
  destruct (readResult env) as [error | [data eof]].
  - intros [= <-].
    apply (marksKept_marksInv s);
      [done | apply readError_evolves | apply readError_marks].
  - apply HQControlStream_processReadData_marksInv.
    by apply marksInv_controlStreams.
Qed.

Lemma assignReadCallback_marksInv env id type s s' :
  marksInv s ->
  assignReadCallback env id type s = Some s' -> marksInv s'.
Proof.
  intros Hi. unfold assignReadCallback, tryCreateIngressControlStream.
  destruct (negb (consumeOk env)); [done |].
  destruct (versionUtils_ s) as [v |]; [| done]. cbv zeta.
  set (s0 := set_pendingUniStreams_ _ s).
  assert (marksInv s0) as I0 by exact Hi.
  destruct (parseStreamPreface v type) as [t |]; simpl.
  - destruct (createIngressControlStream id t s0) as [[ok s1] |] eqn:E; [| done].
    assert (marksInv s1) as I1.
    { apply (marksKept_marksInv s0); [done | |].
      - eapply createIngressControlStream_evolves, E.
      - eapply createIngressControlStream_marks, E. }
    simpl. destruct ok; simpl.
    + by apply controlStreamReadAvailable_marksInv.
    + intros [= <-]. apply (marksKept_marksInv s1); [done | |];
        unfold rejectStream; [repeat evo_basic | repeat marks_basic].
  - intros [= <-]. apply (marksKept_marksInv s0); [done | |];
      unfold rejectStream; [repeat evo_basic | repeat marks_basic].
Qed.

(** *** Every call keeps what holds of the GOAWAYs and the streams *)

Lemma apply_op_marksInv op s s' :
  versionInv s -> marksInv s -> apply_op op s = Some s' -> marksInv s'.
Proof.
  intros Hinv Hi Hop.
  pose proof (apply_op_evolves op s s' Hinv Hop) as He.
  apply apply_op_dispatch in Hop as (Hd & _ & _ & Hop).
  revert Hop. unfold dispatch.
  destruct op.
  - destruct (sock_ s); [| done]. simpl.
    case_bool_decide as Hu; [| done]. case_bool_decide as Hv; [| done]. simpl.
    destruct (onTransportReadyCommon env alpn s) as [[ok s1] |] eqn:E; [| done].
    simpl. intros [= <-]. by eapply onTransportReadyCommon_marksInv.
  - by apply drainImpl_marksInv.
  - by apply closeWhenIdle_marksInv.
  - intros [= <-]. unfold dropConnection in *.
    apply (marksKept_marksInv s); [done | done |].
    apply dropConnectionSync_marks.
  - destruct (sock_ s); [| done]. intros [= <-].
    apply (marksKept_marksInv s); [done | done |]. apply onConnectionError_marks.
  - intros [= <-]. apply (marksKept_marksInv s); [done | done |].
    apply dropConnectionAsync_marks.
  - destruct (sock_ s); [| done]. simpl.
    destruct (quic.isBidirectionalStream id) eqn:Hid; [| done].
    by apply onNewBidirectionalStream_marksInv.
  - destruct (sock_ s && _); [| done].
    by apply onNewUnidirectionalStream_marksInv.
  - destruct (sock_ s); [| done]. by apply assignReadCallback_marksInv.
  - destruct (sock_ s); [| done]. by apply onGoawayAck_marksInv.
  - intros [= <-]. apply (marksKept_marksInv s); [done | done |].
    apply onGoawayCanceled_marks.
  - intros H. apply (marksKept_marksInv s); [done | done |].
    by eapply headersComplete_marks.
  - intros H. apply (marksKept_marksInv s); [done | done |].
    by eapply checkSendingGoaway_marks.
  - destruct (versionUtils_ s) as [[] |] eqn:Hv; try done;
      by apply onGoaway_marksInv.
  - intros [= <-]. apply (marksKept_marksInv s); [done | done |].
    apply newTransaction_marks.
  - intros [= <-]. apply (marksKept_marksInv s); [done | done |].
    apply runLoopCallback_marks.
  - intros [= <-]. apply (marksKept_marksInv s); [done | done |].
    apply checkForShutdown_marks.
  - destruct (sock_ s); [| done]. unfold readErrorApplication. intros H.
    apply (marksKept_marksInv s); [done | done |].
    revert H. apply onStream_marks. intros st st1 ev.
    destruct (detached_ st); intros [= <- <-]; [constructor |].
    apply onResetStream_quiet.
  - destruct (sock_ s); [| done]. unfold writeRequestStream. intros H.
    apply (marksKept_marksInv s); [done | done |].
    revert H. apply onStream_marks. intros st st1 ev.
    destruct (requestStreamWriteImpl s env maxEgress st) as [[[st2 ev2] n] |] eqn:E;
      [| done].
    cbn [mbind option_bind]. intros [= <- <-].
    eapply requestStreamWriteImpl_quiet, E.
  - unfold detachTransaction. intros H.
    apply (marksKept_marksInv s); [done | done |].
    revert H. apply onStream_marks.
    intros st st1 ev [= <- <-]. constructor.
Qed.

Lemma initial_marksInv s : initial s -> marksInv s.
Proof.
  intros (_ & Hu & Hn & _ & _ & _ & _ & _ & _ & _ & _ & Ht).
  split.
  - left. rewrite Ht, Hn. repeat split; done.
  - unfold acceptedInv. rewrite Ht. split; [done | constructor].
Qed.

Lemma reachable_marksInv s : reachable s -> marksInv s.
Proof.
  induction 1 as [s Hi | s op s' Hr IH Hop].
  - by apply initial_marksInv.
  - eapply apply_op_marksInv; eauto. by apply reachable_versionInv.
Qed.

(** ** The idle timeout *)

Lemma checkForShutdown_pending s :
  version_ s <> Some H1Q_FB_V1 -> direction_ s = UPSTREAM ->
  drainState_ s = PENDING ->
  checkForShutdown s = checkForShutdown (set_drainState_ DONE s).
Proof.
  intros Hv Hdir Hd. unfold checkForShutdown at 1. cbv zeta.
  rewrite (bool_decide_eq_true_2 (version_ s ≠ Some H1Q_FB_V1)) by done.
  rewrite (bool_decide_eq_true_2 (direction_ s = UPSTREAM)) by done.
  rewrite (bool_decide_eq_true_2 (drainState_ s = PENDING)) by done.
  cbn [andb]. unfold checkForShutdown. cbv zeta.
  change (drainState_ (set_drainState_ DONE s)) with DONE.
  rewrite (bool_decide_eq_false_2 (DONE = PENDING)) by discriminate.
  by rewrite andb_false_r.
Qed.

Lemma closeWhenIdle_destroys env v s :
  streams_ s = ∅ ->
  loopCallbackScheduled_ s = false ->
  drainState_ s = NONE ->
  version_ s = Some v -> versionUtils_ s = Some v ->
  v = H1Q_FB_V1 \/ direction_ s = UPSTREAM ->
  exists s',
    closeWhenIdle env s = Some s'
    /\ destroyed_ s' = true /\ sock_ s' = false /\ drainState_ s' = DONE
    /\ trace_ s'
       = trace_ s ++ (if sock_ s then [EvSockClose None] else []) ++ [EvDestroy].
Proof.
  intros Hs Hl Hd Hv Hu Hcase.
  assert (drainImpl env s = Some (set_drainState_ PENDING s)) as Hdr.
  { destruct Hcase as [-> | Hdir].
    - unfold drainImpl. cbv zeta.
      rewrite bool_decide_eq_false_2 by (rewrite Hd; auto).
      change (versionUtils_ (set_drainState_ PENDING s)) with (versionUtils_ s).
      by rewrite Hu.
    - rewrite (drainImpl_upstream env s Hdir).
      by rewrite bool_decide_eq_false_2 by (rewrite Hd; auto). }
  unfold closeWhenIdle. rewrite Hdr. cbn [mbind option_bind].
  change (version_ (set_drainState_ PENDING s)) with (version_ s).
  assert (forall t,
            drainState_ t = DONE -> loopCallbackScheduled_ t = false ->
            streams_ t = ∅ -> trace_ t = trace_ s -> sock_ t = sock_ s ->
            destroyed_ (checkForShutdown t) = true
            /\ sock_ (checkForShutdown t) = false
            /\ drainState_ (checkForShutdown t) = DONE
            /\ trace_ (checkForShutdown t)
               = trace_ s ++ (if sock_ s then [EvSockClose None] else [])
                   ++ [EvDestroy]) as Hfin.
  { intros t Hdt Hlt Hst Htt Hkt.
    destruct (checkForShutdown_destroys t Hdt Hlt)
      as (H1 & _ & H3 & H4 & _ & _ & H7).
    - rewrite Hst. apply map_Forall_empty.
    - by rewrite H7, Htt, Hkt. }
  eexists. split; [reflexivity |].
  case_bool_decide as Hv1.
  - by apply Hfin.
  - destruct Hcase as [-> | Hdir]; [by destruct Hv1 |].
    rewrite checkForShutdown_pending by done. by apply Hfin.
Qed.

Lemma checkForShutdown_draining s :
  drainState_ s <> DONE -> drainState_ s <> PENDING ->
  trace_ (checkForShutdown s) = trace_ s
  /\ destroyed_ (checkForShutdown s) = destroyed_ s
  /\ sock_ (checkForShutdown s) = sock_ s
  /\ drainState_ (checkForShutdown s) = drainState_ s.
Proof.
  intros Hd Hp. unfold checkForShutdown. cbv zeta.
  rewrite (bool_decide_eq_false_2 (drainState_ s = PENDING)) by done.
  rewrite andb_false_r.
  change (drainState_ (set_streams_ ?m s)) with (drainState_ s).
  rewrite (bool_decide_eq_false_2 (drainState_ s = DONE)) by done.
  by cbn [andb].
Qed.

(** X15: the idle timeout is ignored while the session has a stream.
    With no stream, no loop callback pending and no drain begun, it closes
    the session of the unframed profile and the client session of a framed
    profile at once (the socket is closed without a code and the session
    destroyed), while the server of a framed profile starts the drain
    instead: it announces the first GOAWAY and stays. *)
Theorem timeoutExpired_idle env s :
  ((0 < getNumStreams s)%nat -> timeoutExpired env s = Some s)
  /\ (forall v,
        getNumStreams s = 0%nat ->
        loopCallbackScheduled_ s = false -> drainState_ s = NONE ->
        version_ s = Some v -> versionUtils_ s = Some v ->
        v = H1Q_FB_V1 \/ direction_ s = UPSTREAM ->
        exists s',
          timeoutExpired env s = Some s'
          /\ destroyed_ s' = true /\ sock_ s' = false /\ drainState_ s' = DONE
          /\ trace_ s'
             = trace_ s ++ (if sock_ s then [EvSockClose None] else [])
                 ++ [EvDestroy])
  /\ (getNumStreams s = 0%nat ->
      drainState_ s = NONE ->
      framedDownstream s -> goawayDelivered env ->
      exists s',
        timeoutExpired env s = Some s'
        /\ destroyed_ s' = destroyed_ s /\ sock_ s' = sock_ s
        /\ drainState_ s' = FIRST_GOAWAY
        /\ goawayIds (trace_ s') = goawayIds (trace_ s) ++ [2 ^ 62 - 1]
        /\ sockCloses (trace_ s') = sockCloses (trace_ s)).
Proof.
  split; [| split].
  - intros Hn. unfold timeoutExpired. by rewrite bool_decide_eq_true_2.
  - intros v Hn Hl Hd Hv Hu Hcase. unfold timeoutExpired.
    rewrite bool_decide_eq_false_2 by lia.
    apply (closeWhenIdle_destroys env v); try done.
    by apply map_size_empty_inv.
  - intros Hn Hd Hfd Henv. unfold timeoutExpired.
    rewrite bool_decide_eq_false_2 by lia.
    unfold closeWhenIdle, drainImpl. cbv zeta.
    rewrite bool_decide_eq_false_2 by (rewrite Hd; auto).
    change (versionUtils_ (set_drainState_ PENDING s)) with (versionUtils_ s).
    pose proof Hfd as (Hdir & v & Hv & Hver & Hu & Hcs). rewrite Hu.
    assert (sendGoaway v env (set_drainState_ PENDING s)
            = GoawayUtils_sendGoaway env (set_drainState_ PENDING s)) as ->
      by (by destruct Hv as [-> | ->]).
    destruct (GoawayUtils_sendGoaway_delivered env (set_drainState_ PENDING s))
      as (s1 & ct & id & off & Hsend & Ht & Hd1 & _ & Hfd1);
      [exact Hfd | exact Henv | discriminate |].
    rewrite Hsend.
    cbn [mbind option_bind].
    destruct Hfd1 as (_ & v1 & Hv1 & Hver1 & _).
    rewrite bool_decide_eq_false_2
      by (rewrite Hver1; destruct Hv1 as [-> | ->]; discriminate).
    change (drainState_ (set_drainState_ PENDING s)) with PENDING in Hd1.
    rewrite bool_decide_eq_true_2 in Hd1 by reflexivity.
    destruct (checkForShutdown_draining s1) as (Ht2 & Hde2 & Hs2 & Hd2);
      [rewrite Hd1; discriminate | rewrite Hd1; discriminate |].
    pose proof (GoawayUtils_sendGoaway_life env (set_drainState_ PENDING s) s1)
      as [L1 L2 _ L4 _ _].
    { unfold GoawayUtils_sendGoaway. exact Hsend. }
    eexists. split; [reflexivity |].
    rewrite Hde2, Hs2, Hd2, Ht2, L1, L2, L4, Hd1.
    repeat split; try done.
    by rewrite Ht, goawayIds_app.
Qed.

Lemma timeoutExpired_idle_witness :
  exists s',
    timeoutExpired goodEnv idleServer = Some s'
    /\ destroyed_ s' = destroyed_ idleServer /\ sock_ s' = sock_ idleServer
    /\ drainState_ s' = FIRST_GOAWAY
    /\ goawayIds (trace_ s') = goawayIds (trace_ idleServer) ++ [2 ^ 62 - 1]
    /\ sockCloses (trace_ s') = sockCloses (trace_ idleServer).
Proof.
  apply (timeoutExpired_idle goodEnv idleServer).
  - vm_compute. reflexivity.
  - vm_compute. reflexivity.
  - split; [vm_compute; reflexivity |].
    exists HQ. repeat split; try (vm_compute; reflexivity); [by right |].
    vm_compute. eauto.
  - exact goodEnv_delivered.
Defined.

(** ** What holds in every state the session reaches *)

Lemma drainedServer_reachable : reachable drainedServer.
Proof.
  apply (reachable_run drainOps serverWithTwoStreams).
  - exact serverWithTwoStreams_reachable.
  - vm_compute. reflexivity.
Qed.

Lemma droppedServer_reachable : reachable droppedServer.
Proof.
  apply (reachable_step drainedServer (OpDropConnection goodEnv "")).
  - exact drainedServer_reachable.
  - vm_compute. reflexivity.
Qed.

Lemma latchedServer_reachable : reachable latchedServer.
Proof.
  apply (reachable_step serverWithTwoStreams
           (OpDropConnectionAsync
              (ApplicationErrorCode HTTP3.HTTP_WRONG_STREAM_COUNT)
              "HTTP wrong stream count" kErrorConnection)).
  - exact serverWithTwoStreams_reachable.
  - vm_compute. reflexivity.
Qed.

(** X16: in every state the session reaches, the socket is closed with
    the session and only then.  A session that is not destroyed holds its
    socket, is not dropping and has asked for no close; a destroyed
    session has released the socket after exactly one close, holds no
    stream, and its drain is DONE. *)
Theorem socket_closed_once s :
  reachable s ->
  (destroyed_ s = false ->
   sock_ s = true /\ dropping_ s = false /\ sockCloses (trace_ s) = [])
  /\ (destroyed_ s = true ->
      sock_ s = false /\ streams_ s = ∅ /\ drainState_ s = DONE
      /\ length (sockCloses (trace_ s)) = 1%nat).
Proof.
  intros Hr. pose proof (reachable_lifeInv s Hr) as Hi.
  unfold lifeInv in Hi. destruct (destroyed_ s).
  - split; [done |]. by intros _.
  - split; [| done]. intros _. by destruct Hi as (? & ? & ? & _).
Qed.

Lemma socket_closed_once_witness :
  (destroyed_ droppedServer = false ->
   sock_ droppedServer = true /\ dropping_ droppedServer = false
   /\ sockCloses (trace_ droppedServer) = [])
  /\ (destroyed_ droppedServer = true ->
      sock_ droppedServer = false /\ streams_ droppedServer = ∅
      /\ drainState_ droppedServer = DONE
      /\ length (sockCloses (trace_ droppedServer)) = 1%nat).
Proof.
  apply (socket_closed_once droppedServer).
  exact droppedServer_reachable.
Defined.

(** X17: a latched drop is never lost.  In every state the session
    reaches, when a drop is latched for the next loop the loop callback
    is pending; and the loop callback then runs that drop: the socket is
    released after one close (with the latched code when streams are
    open, without a code otherwise), the drain is DONE, and the streams
    left are those whose transaction is attached and stays so when it
    hears the error.  When no stream is left the session is destroyed and
    the call has a result; otherwise the final check of the drop fails,
    the session is not destroyed and the call has none. *)
Theorem latched_drop_runs env s code msg perr :
  reachable s ->
  destroyed_ s = false ->
  dropInNextLoop_ s = Some (code, msg, perr) ->
  let left :=
    filter (fun kv : Z * HQStreamTransport =>
              detached_ kv.2 = false
              /\ txnDetachesOnError env (streamId kv.2) = false)
      (streams_ s) in
  loopCallbackScheduled_ s = true
  /\ sock_ (runLoopCallback env s) = false
  /\ drainState_ (runLoopCallback env s) = DONE
  /\ sockCloses (trace_ (runLoopCallback env s))
     = [if bool_decide (0 < getNumStreams s)%nat then Some code else None]
  /\ streams_ (runLoopCallback env s)
     = (fun st => (errorOnTransactionErr perr st).1) <$> left
  /\ (left = ∅ ->
      destroyed_ (runLoopCallback env s) = true
      /\ (checkFailed_ s = false ->
          apply_op (OpRunLoopCallback env) s = Some (runLoopCallback env s)))
  /\ (left <> ∅ ->
      destroyed_ (runLoopCallback env s) = false
      /\ checkFailed_ (runLoopCallback env s) = true
      /\ apply_op (OpRunLoopCallback env) s = None).
Proof.
  intros Hr Hd Hl left. pose proof (reachable_lifeInv s Hr) as Hi.
  unfold lifeInv in Hi. rewrite Hd in Hi. destruct Hi as (Hs & Hp & Hc & Hsch).
  split; [apply Hsch; by rewrite Hl |].
  assert (apply_op (OpRunLoopCallback env) s
          = if checkFailed_ s then None
            else if checkFailed_ (runLoopCallback env s) then None
                 else Some (runLoopCallback env s)) as Hop.
  { unfold apply_op. rewrite Hd. cbn [orb dispatch].
    case (checkFailed_ s); reflexivity. }
  rewrite Hop. clear Hop.
  unfold runLoopCallback. cbv zeta.
  cbn [dropInNextLoop_ set_loopCallbackScheduled_]. rewrite Hl.
  set (s0 := set_loopCallbackScheduled_ false s).
  destruct (dropConnectionSync_shape env (code, msg) perr s0 Hp Hs)
    as (t & Ht & Hdone & Hlt & Hdrt & Hst & Hde & Hcf & Hstr & _).
  destruct (dropConnectionSync_closes env (code, msg) perr s0 Hp Hs)
    as [Hcl Hsock].
  set (D := dropConnectionSync env (code, msg) perr s0) in *.
  pose proof (checkForShutdown_done t Hdone Hlt) as Hc1. cbv zeta in Hc1.
  rewrite Hstr, dropConnectionSync_left in Hc1.
  change (streams_ s0) with (streams_ s) in Hc1. fold left in Hc1.
  rewrite map_size_fmap in Hc1.
  change (trace_ s0) with (trace_ s) in Hcl. rewrite Hc in Hcl.
  change (getNumStreams s0) with (getNumStreams s) in Hcl.
  cbn [app fst] in Hcl.
  change (destroyed_ s0) with (destroyed_ s) in Hde. rewrite Hd in Hde.
  change (checkFailed_ s0) with (checkFailed_ s) in Hcf.
  destruct (checkForShutdown_closed D Hsock) as [Hcl2 Hsock2].
  rewrite checkForShutdown_failed.
  split; [exact Hsock2 |].
  case_bool_decide as Hm.
  - (* no stream is left: the drop destroyed the session *)
    apply map_size_empty_inv in Hm.
    assert (D = checkForShutdown t) as HD.
    { rewrite Ht, Hc1. unfold getNumStreams. rewrite Hst. cbn [streams_ emit
        set_trace_ set_destroyed_ set_streams_]. rewrite Hm, fmap_empty.
      by rewrite map_size_empty, bool_decide_eq_true_2. }
    rewrite Hc1, Hst, Hm, fmap_empty in HD.
    assert (destroyed_ D = true /\ sock_ D = false /\ streams_ D = ∅
            /\ drainState_ D = DONE) as (D1 & D2 & D3 & D4)
      by (by rewrite HD).
    destruct (checkForShutdown_dead D D1 D2 D3 D4) as (C1 & C2 & C3 & C4 & C5).
    split; [exact C4 |]. split; [by rewrite C5, Hcl |].
    split; [by rewrite C3, Hm, fmap_empty |].
    split; [| done].
    intros _. split; [exact C1 |]. intros Hf. rewrite Hf.
    assert (checkFailed_ D = false) as ->
      by (rewrite HD; cbn; by rewrite Hcf).
    reflexivity.
  - (* streams are left: the final check fails *)
    assert (left <> ∅) as Hne.
    { intros He. apply Hm. by rewrite He, map_size_empty. }
    assert (D = set_checkFailed_ true (checkForShutdown t)) as HD.
    { rewrite Ht, Hc1. unfold getNumStreams. cbn [streams_ set_streams_].
      rewrite map_size_fmap. by rewrite bool_decide_eq_false_2. }
    rewrite Hc1 in HD.
    assert (checkForShutdown D = D) as HcD.
    { assert (drainState_ D = DONE) as E1 by (by rewrite HD).
      assert (loopCallbackScheduled_ D = false) as E2 by (by rewrite HD).
      rewrite (checkForShutdown_done D E1 E2). cbv zeta.
      assert (filter (fun kv : Z * HQStreamTransport =>
                        readyForDetach kv.2 = false) (streams_ D)
              = streams_ D) as ->.
      { rewrite HD. cbn [streams_ set_streams_ set_checkFailed_].
        unfold left. rewrite <- (dropConnectionSync_left env).
        apply map_filter_filter_l. intros k st _ Hx. exact Hx. }
      assert (size (streams_ D) <> 0%nat) as Hsz.
      { rewrite HD. cbn [streams_ set_streams_ set_checkFailed_].
        by rewrite map_size_fmap. }
      rewrite bool_decide_eq_false_2 by exact Hsz.
      rewrite HD. reflexivity. }
    rewrite HcD in *.
    split; [by rewrite HD |]. split; [by rewrite Hcl |].
    split; [by rewrite HD |].
    split; [done |].
    intros _. split; [rewrite HD; cbn; exact Hde |].
    split; [by rewrite HD |].
    case (checkFailed_ s); [done |]. by rewrite HD.
Qed.

Lemma latched_drop_runs_witness :
  let left :=
    filter (fun kv : Z * HQStreamTransport =>
              detached_ kv.2 = false
              /\ txnDetachesOnError goodEnv (streamId kv.2) = false)
      (streams_ latchedServer) in
  loopCallbackScheduled_ latchedServer = true
  /\ sock_ (runLoopCallback goodEnv latchedServer) = false
  /\ drainState_ (runLoopCallback goodEnv latchedServer) = DONE
  /\ sockCloses (trace_ (runLoopCallback goodEnv latchedServer))
     = [if bool_decide (0 < getNumStreams latchedServer)%nat
        then Some (ApplicationErrorCode HTTP3.HTTP_WRONG_STREAM_COUNT)
        else None]
  /\ streams_ (runLoopCallback goodEnv latchedServer)
     = (fun st => (errorOnTransactionErr kErrorConnection st).1) <$> left
  /\ (left = ∅ ->
      destroyed_ (runLoopCallback goodEnv latchedServer) = true
      /\ (checkFailed_ latchedServer = false ->
          apply_op (OpRunLoopCallback goodEnv) latchedServer
          = Some (runLoopCallback goodEnv latchedServer)))
  /\ (left <> ∅ ->
      destroyed_ (runLoopCallback goodEnv latchedServer) = false
      /\ checkFailed_ (runLoopCallback goodEnv latchedServer) = true
      /\ apply_op (OpRunLoopCallback goodEnv) latchedServer = None).
Proof.
  apply (latched_drop_runs goodEnv latchedServer
           (ApplicationErrorCode HTTP3.HTTP_WRONG_STREAM_COUNT)
           "HTTP wrong stream count" kErrorConnection).
  - exact latchedServer_reachable.
  - vm_compute. reflexivity.
  - vm_compute. reflexivity.
Defined.

(** The latched drop on the server with two streams: the transactions
    detach and the session is destroyed; when they stay attached the
    loop callback stops on the final check. *)
Example latched_drop_final_check :
  ((fun s => (destroyed_ s, size (streams_ s)))
     <$> apply_op (OpRunLoopCallback goodEnv) latchedServer,
   apply_op (OpRunLoopCallback attachedEnv) latchedServer)
  = (Some (true, 0%nat), None).
Proof. vm_compute. reflexivity. Qed.

(** X18: in every state the session reaches, at most two GOAWAYs were
    announced: none; or the first, with the greatest stream id there is
    (2^62-1); or the first and the second, the second with
    maxIncomingStreamId, which stays the greatest incoming stream id from
    then on.  Only a server of a framed profile announces any; in
    SECOND_GOAWAY both were announced, and a server in FIRST_GOAWAY
    announced the first only. *)
Theorem goaways_announced s :
  reachable s ->
  (goawayIds (trace_ s) = []
   \/ goawayIds (trace_ s) = [quic.kEightByteLimit]
   \/ goawayIds (trace_ s) = [quic.kEightByteLimit; maxIncomingStreamId_ s])
  /\ (goawayIds (trace_ s) <> [] ->
      direction_ s = DOWNSTREAM
      /\ (versionUtils_ s = Some H1Q_FB_V2 \/ versionUtils_ s = Some HQ))
  /\ (drainState_ s = SECOND_GOAWAY ->
      goawayIds (trace_ s) = [quic.kEightByteLimit; maxIncomingStreamId_ s])
  /\ (direction_ s = DOWNSTREAM -> drainState_ s = FIRST_GOAWAY ->
      goawayIds (trace_ s) = [quic.kEightByteLimit]).
Proof.
  intros Hr. destruct (reachable_marksInv s Hr) as [Hg _].
  destruct Hg as [(G1 & G2 & G3) | (D & (v & Hv & Hf) & G)].
  - split; [by left |]. split; [done |]. split; [done |].
    intros Hd Hf. specialize (G3 Hf). congruence.
  - assert (versionUtils_ s = Some H1Q_FB_V2 \/ versionUtils_ s = Some HQ) as Hu
      by (destruct Hf as [-> | ->]; auto).
    destruct G as [[G1 G2] | [G1 G2]].
    + split; [right; by left |]. split; [done |]. split; [| done].
      intros Hs. destruct G2; congruence.
    + split; [right; by right |]. split; [done |]. split; [done |].
      intros _ Hs. destruct G2; congruence.
Qed.

Lemma goaways_announced_witness :
  (goawayIds (trace_ drainedServer) = []
   \/ goawayIds (trace_ drainedServer) = [quic.kEightByteLimit]
   \/ goawayIds (trace_ drainedServer)
      = [quic.kEightByteLimit; maxIncomingStreamId_ drainedServer])
  /\ (goawayIds (trace_ drainedServer) <> [] ->
      direction_ drainedServer = DOWNSTREAM
      /\ (versionUtils_ drainedServer = Some H1Q_FB_V2
          \/ versionUtils_ drainedServer = Some HQ))
  /\ (drainState_ drainedServer = SECOND_GOAWAY ->
      goawayIds (trace_ drainedServer)
      = [quic.kEightByteLimit; maxIncomingStreamId_ drainedServer])
  /\ (direction_ drainedServer = DOWNSTREAM ->
      drainState_ drainedServer = FIRST_GOAWAY ->
      goawayIds (trace_ drainedServer) = [quic.kEightByteLimit]).
Proof.
  apply (goaways_announced drainedServer).
  exact drainedServer_reachable.
Defined.

(** X19: in every state the session reaches, no accepted bidirectional
    stream was initiated by the server, and a session of the unframed
    profile accepted bidirectional streams only. *)
Theorem accepted_streams_by_profile s :
  reachable s ->
  Forall (fun id =>
            (quic.isBidirectionalStream id = true ->
             quic.isClientStream id = true)
            /\ (versionUtils_ s = Some H1Q_FB_V1 ->
                quic.isBidirectionalStream id = true))
    (acceptedStreams (trace_ s)).
Proof.
  intros Hr. by destruct (reachable_marksInv s Hr) as [_ [_ Ha]].
Qed.

Lemma accepted_streams_by_profile_witness :
  Forall (fun id =>
            (quic.isBidirectionalStream id = true ->
             quic.isClientStream id = true)
            /\ (versionUtils_ serverWithControl = Some H1Q_FB_V1 ->
                quic.isBidirectionalStream id = true))
    (acceptedStreams (trace_ serverWithControl)).
Proof.
  apply (accepted_streams_by_profile serverWithControl).
  exact serverWithControl_reachable.
Defined.

(** X23: in every state the session reaches, the drain state fits the
    profile and the role: the version and its utils agree; without a
    profile and in the unframed profile the session is in no GOAWAY state;
    outside the unframed profile it is in no close state; and a client is
    never in SECOND_GOAWAY. *)
Theorem drain_states_by_profile s :
  reachable s ->
  version_ s = versionUtils_ s
  /\ (versionUtils_ s = None \/ versionUtils_ s = Some H1Q_FB_V1 ->
      drainState_ s <> FIRST_GOAWAY /\ drainState_ s <> SECOND_GOAWAY)
  /\ (versionUtils_ s <> Some H1Q_FB_V1 ->
      drainState_ s <> CLOSE_SENT /\ drainState_ s <> CLOSE_RECEIVED)
  /\ (direction_ s = UPSTREAM -> drainState_ s <> SECOND_GOAWAY).
Proof.
  intros Hr.
  destruct (reachable_versionInv s Hr) as [H1 H2].
  destruct (reachable_drainInv s Hr) as [H3 H4].
  done.
Qed.

Lemma drain_states_by_profile_witness :
  version_ drainedServer = versionUtils_ drainedServer
  /\ (versionUtils_ drainedServer = None
      \/ versionUtils_ drainedServer = Some H1Q_FB_V1 ->
      drainState_ drainedServer <> FIRST_GOAWAY
      /\ drainState_ drainedServer <> SECOND_GOAWAY)
  /\ (versionUtils_ drainedServer <> Some H1Q_FB_V1 ->
      drainState_ drainedServer <> CLOSE_SENT
      /\ drainState_ drainedServer <> CLOSE_RECEIVED)
  /\ (direction_ drainedServer = UPSTREAM ->
      drainState_ drainedServer <> SECOND_GOAWAY).
Proof.
  apply (drain_states_by_profile drainedServer).
  exact drainedServer_reachable.
Defined.

(** X24: over any run of calls from a state the session reaches, the role
    stays, a profile once installed stays, the greatest incoming stream id
    never drops, a drop once latched is never replaced, and the trace only
    grows. *)
Theorem run_keeps_marks s ops s' :
  reachable s ->
  run ops s = Some s' ->
  direction_ s' = direction_ s
  /\ (forall v, versionUtils_ s = Some v -> versionUtils_ s' = Some v)
  /\ maxIncomingStreamId_ s <= maxIncomingStreamId_ s'
  /\ (forall x, dropInNextLoop_ s = Some x -> dropInNextLoop_ s' = Some x)
  /\ (exists evs, trace_ s' = trace_ s ++ evs).
Proof.
  intros Hr Hrun. pose proof (run_evolves ops s s' Hr Hrun) as He.
  split; [apply (ev_direction _ _ He) |]. split.
  - intros v Hv. destruct (ev_version _ _ He) as [[_ ->] | [Hn _]]; congruence.
  - split; [apply (ev_maxIncoming _ _ He) |].
    split; [apply (ev_latch _ _ He) |].
    destruct (ev_trace _ _ He) as (evs & Ht & _). by exists evs.
Qed.

Lemma run_keeps_marks_witness :
  direction_ drainedServer = direction_ serverWithTwoStreams
  /\ (forall v, versionUtils_ serverWithTwoStreams = Some v ->
                versionUtils_ drainedServer = Some v)
  /\ maxIncomingStreamId_ serverWithTwoStreams
     <= maxIncomingStreamId_ drainedServer
  /\ (forall x, dropInNextLoop_ serverWithTwoStreams = Some x ->
                dropInNextLoop_ drainedServer = Some x)
  /\ (exists evs, trace_ drainedServer = trace_ serverWithTwoStreams ++ evs).
Proof.
  apply (run_keeps_marks serverWithTwoStreams drainOps drainedServer).
  - exact serverWithTwoStreams_reachable.
  - vm_compute. reflexivity.
Defined.

(** ** A second GOAWAY from the server *)

(** What a GOAWAY from the server leaves of the marks of the client. *)
Lemma onGoaway_upstream env lastGood code s s' :
  onGoaway env lastGood code s = Some s' ->
  direction_ s = UPSTREAM /\ version_ s <> Some H1Q_FB_V1
  /\ direction_ s' = UPSTREAM /\ version_ s' = version_ s
  /\ maxAllowedStreamId_ s' = Z.min (maxAllowedStreamId_ s) lastGood
  /\ drainState_ s'
     = match drainState_ s with
       | NONE | PENDING => FIRST_GOAWAY
       | FIRST_GOAWAY => DONE
       | d => d
       end.
Proof.
  unfold onGoaway. cbv zeta.
  case_bool_decide as Hdir; [| done]. cbn [negb].
  case_bool_decide as Hv; [done |].
  set (sA := set_maxAllowedStreamId_ _ s).
  rewrite (drainImpl_upstream env sA Hdir). cbn [mbind option_bind].
  set (sB := if bool_decide (drainState_ sA ≠ NONE) then sA
             else set_drainState_ PENDING sA).
  set (s3 := invokeOnNonDetachedStreams _ sB).
  assert (direction_ s3 = direction_ s /\ version_ s3 = version_ s
          /\ maxAllowedStreamId_ s3 = Z.min (maxAllowedStreamId_ s) lastGood
          /\ drainState_ s3
             = match drainState_ s with NONE => PENDING | d => d end)
    as (D3 & V3 & M3 & R3).
  { unfold s3, invokeOnNonDetachedStreams, invokeOnStreams. cbv zeta.
    cbn [direction_ version_ maxAllowedStreamId_ drainState_ emit set_trace_
         set_streams_].
    unfold sB. change (drainState_ sA) with (drainState_ s).
    destruct (drainState_ s) eqn:E; case_bool_decide; try done; cbn;
      repeat split; done. }
  set (t := if bool_decide (drainState_ s3 = NONE)
               || bool_decide (drainState_ s3 = PENDING)
            then set_drainState_ FIRST_GOAWAY s3
            else if bool_decide (drainState_ s3 = FIRST_GOAWAY)
            then set_drainState_ DONE s3 else s3).
  assert (direction_ t = direction_ s /\ version_ t = version_ s
          /\ maxAllowedStreamId_ t = Z.min (maxAllowedStreamId_ s) lastGood
          /\ drainState_ t
             = match drainState_ s with
               | NONE | PENDING => FIRST_GOAWAY
               | FIRST_GOAWAY => DONE
               | d => d
               end) as (Dt & Vt & Mt & Rt).
  { unfold t. rewrite R3. rewrite <- D3, <- V3, <- M3.
    destruct (drainState_ s) eqn:E; repeat case_bool_decide; try done;
      cbn [orb]; cbn; repeat split; done. }
  intros [= <-].
  destruct (checkForShutdown_version t) as [Vc _].
  rewrite Vc, checkForShutdown_maxAllowed,
    (ev_direction _ _ (checkForShutdown_evolves t)),
    checkForShutdown_drainState
    by (rewrite Rt; destruct (drainState_ s); discriminate).
  rewrite Dt, Vt, Mt, Rt. done.
Qed.

Lemma onGoaway_upstream_some env lastGood code s :
  direction_ s = UPSTREAM -> version_ s <> Some H1Q_FB_V1 ->
  is_Some (onGoaway env lastGood code s).
Proof.
  intros Hdir Hv. unfold onGoaway. cbv zeta.
  rewrite (bool_decide_eq_true_2 (direction_ s = UPSTREAM)) by done.
  rewrite (bool_decide_eq_false_2 (version_ s = Some H1Q_FB_V1)) by done.
  cbn [negb]. rewrite drainImpl_upstream by done. cbn [mbind option_bind].
  by eexists.
Qed.

(** X20: on a client that is not draining yet, the first GOAWAY of the
    server moves the drain to FIRST_GOAWAY, and a second GOAWAY, whatever
    its id (the same id included), moves it on to DONE; the greatest
    stream id allowed is then the least of what it was and the two ids. *)
Theorem second_goaway_completes_drain env l1 c1 env' l2 c2 s s1 :
  drainState_ s = NONE \/ drainState_ s = PENDING ->
  onGoaway env l1 c1 s = Some s1 ->
  drainState_ s1 = FIRST_GOAWAY
  /\ maxAllowedStreamId_ s1 = Z.min (maxAllowedStreamId_ s) l1
  /\ exists s2,
       onGoaway env' l2 c2 s1 = Some s2
       /\ drainState_ s2 = DONE
       /\ maxAllowedStreamId_ s2
          = Z.min (Z.min (maxAllowedStreamId_ s) l1) l2.
Proof.
  intros Hd H1.
  destruct (onGoaway_upstream _ _ _ _ _ H1) as (Hdir & Hv & D1 & V1 & M1 & R1).
  assert (drainState_ s1 = FIRST_GOAWAY) as R1'.
  { rewrite R1. by destruct Hd as [-> | ->]. }
  split; [done |]. split; [done |].
  destruct (onGoaway_upstream_some env' l2 c2 s1) as [s2 H2];
    [done | by rewrite V1 |].
  exists s2. split; [done |].
  destruct (onGoaway_upstream _ _ _ _ _ H2) as (_ & _ & _ & _ & M2 & R2).
  rewrite M2, M1, R2, R1'. done.
Qed.

Lemma second_goaway_completes_drain_witness :
  drainState_ clientAfterGoaway = FIRST_GOAWAY
  /\ maxAllowedStreamId_ clientAfterGoaway
     = Z.min (maxAllowedStreamId_ clientWithThreeStreams) 4
  /\ exists s2,
       onGoaway goodEnv 4 EC_NO_ERROR clientAfterGoaway = Some s2
       /\ drainState_ s2 = DONE
       /\ maxAllowedStreamId_ s2
          = Z.min (Z.min (maxAllowedStreamId_ clientWithThreeStreams) 4) 4.
Proof.
  apply (second_goaway_completes_drain goodEnv 4 EC_NO_ERROR goodEnv 4
           EC_NO_ERROR clientWithThreeStreams clientAfterGoaway).
  - left. vm_compute. reflexivity.
  - vm_compute. reflexivity.
Defined.

(** ** A shutdown asked before the transport is ready *)

Lemma getAndCheckApplicationProtocol_ok env a v s :
  version_ s = None ->
  profileOfAlpn (Some a) = Some v ->
  getAndCheckApplicationProtocol env (Some a) s
  = (true, setVersionUtils (set_alpn_ a (set_version_ (Some v) s))).
Proof.
  intros Hv. rewrite profileOfAlpn_cases.
  unfold getAndCheckApplicationProtocol. cbv zeta.
  destruct (bool_decide (a = kH1QV1ProtocolString)
            || bool_decide (a = kH1QLigerProtocolString)
            || bool_decide (a = kHQCurrentDraft)); [by intros [= <-] |].
  destruct (bool_decide (a = kH1QV2ProtocolString)); [by intros [= <-] |].
  destruct (bool_decide (a = kH3FBCurrentDraft) || bool_decide (a = kH3CurrentDraft));
    [by intros [= <-] | done].
Qed.

(** X21: a shutdown asked of a server before its transport is ready is
    not lost.  [notifyPendingShutdown] only marks the drain PENDING; when
    the transport becomes ready with a framed profile, setup opens the
    control streams and announces the first GOAWAY at once (stream id
    2^62-1), and the drain is in FIRST_GOAWAY. *)
Theorem pending_shutdown_announced_when_ready env0 env a v s :
  initial s ->
  direction_ s = DOWNSTREAM ->
  profileOfAlpn (Some a) = Some v ->
  framed v ->
  (forall t, t ∈ egressControlTypes v ->
             is_Some (createUnidirectionalStream env t)) ->
  goawayDelivered env ->
  notifyPendingShutdown env0 s = Some (set_drainState_ PENDING s)
  /\ exists s2,
       onTransportReadyCommon env (Some a) (set_drainState_ PENDING s)
       = Some (true, s2)
       /\ versionUtils_ s2 = Some v
       /\ drainState_ s2 = FIRST_GOAWAY
       /\ goawayIds (trace_ s2) = [quic.kEightByteLimit].
Proof.
  intros (Hver & Hu & Hd & _ & _ & _ & _ & _ & _ & Hcs & _ & Ht)
         Hdir Ha Hf Hok Henv.
  split.
  { unfold notifyPendingShutdown, drainImpl. cbv zeta.
    rewrite bool_decide_eq_false_2 by (rewrite Hd; auto).
    change (versionUtils_ (set_drainState_ PENDING s)) with (versionUtils_ s).
    by rewrite Hu. }
  unfold onTransportReadyCommon.
  rewrite (getAndCheckApplicationProtocol_ok env a v) by done.
  cbn [negb].
  set (s1 := setVersionUtils _).
  change (versionUtils_ s1) with (Some v).
  destruct (createEgressControlStreams_shape v env s1 Hcs Hok)
    as (cs & -> & Hlook).
  cbn [mbind option_bind negb].
  set (s2 := set_controlStreams_ cs s1).
  change (drainState_ s2) with PENDING.
  rewrite (bool_decide_eq_true_2 (PENDING = PENDING)) by done.
  assert (sendGoaway v env s2 = GoawayUtils_sendGoaway env s2) as ->
    by (by destruct Hf as [-> | ->]).
  destruct (GoawayUtils_sendGoaway_delivered env s2)
    as (s3 & ct & id & off & Hsend & Ht3 & Hd3 & _ & Hfd3);
    [| exact Henv | discriminate |].
  { split; [exact Hdir |]. exists v. repeat split; try done.
    change (controlStreams_ s2) with cs. rewrite Hlook.
    assert (goawayControlType v ∈ egressControlTypes v) as Hin
      by (destruct Hf as [-> | ->]; cbn; set_solver).
    rewrite bool_decide_eq_true_2 by done.
    destruct (Hok _ Hin) as [i ->]. by eexists. }
  rewrite Hsend. cbn [mbind option_bind]. eexists. split; [reflexivity |].
  change (drainState_ s2) with PENDING in Hd3.
  rewrite bool_decide_eq_true_2 in Hd3 by done.
  split; [| split; [exact Hd3 |]].
  - assert (versionUtils_ s2 = Some H1Q_FB_V2 \/ versionUtils_ s2 = Some HQ)
      as Hfr by (destruct Hf as [-> | ->]; auto).
    destruct (ev_version _ _ (GoawayUtils_sendGoaway_evolves env s2 s3 Hfr Hsend))
      as [[_ ->] | [Hn _]]; done.
  - rewrite Ht3, goawayIds_app. change (trace_ s2) with (trace_ s).
    rewrite Ht. done.
Qed.

Lemma pending_shutdown_announced_when_ready_witness :
  notifyPendingShutdown goodEnv (newSession DOWNSTREAM)
  = Some (set_drainState_ PENDING (newSession DOWNSTREAM))
  /\ exists s2,
       onTransportReadyCommon goodEnv (Some kH3CurrentDraft)
         (set_drainState_ PENDING (newSession DOWNSTREAM))
       = Some (true, s2)
       /\ versionUtils_ s2 = Some HQ
       /\ drainState_ s2 = FIRST_GOAWAY
       /\ goawayIds (trace_ s2) = [quic.kEightByteLimit].
Proof.
  apply (pending_shutdown_announced_when_ready goodEnv goodEnv kH3CurrentDraft
           HQ (newSession DOWNSTREAM)).
  - apply initial_newSession.
  - reflexivity.
  - vm_compute. reflexivity.
  - by right.
  - intros t _. by eexists.
  - exact goodEnv_delivered.
Defined.

(** ** A write that fails *)

Lemma handleWriteError_local s e st :
  quic.isBidirectionalStream (streamId st) = true ->
  exists st' ev,
    handleWriteError s (LocalErrorCode e) st = Some (st', ev)
    /\ endedByWriteError s e st st' ev.
Proof.
  intros Hb. unfold handleWriteError, abortStream, errorOnTransaction,
    abortEgress, abortIngress. cbv zeta.
  cbn [HTTPException.direction HTTPException.setProxygenError
       HTTPException.setErrno HTTPException.make
       HTTPException.isIngressException HTTPException.isEgressException].
  rewrite Hb. cbn [orb andb].
  eexists _, _. split; [reflexivity |].
  unfold endedByWriteError, writeException.
  cbn [streamTransportEnqueued set_pendingEOM_ set_writeBuf_ set_readBuf_
       set_ingressError_].
  destruct (streamTransportEnqueued st) eqn:Hq; cbn; rewrite ?Hq;
    repeat split; try done; by rewrite <- !app_assoc.
Qed.

(** X22: a write that fails ends the request stream.  When flow control
    answers an error for the stream, or the transport refuses the bytes,
    nothing counts as sent: the stream drops what it buffered in both
    directions, leaves the egress queue and keeps its count of written
    bytes; the peer is asked to stop sending and the stream is reset, both
    with HTTP_REQUEST_CANCELLED, and the transaction, if still attached,
    hears the write error (kErrorWrite with the error number). *)
Theorem write_error_ends_stream s e st :
  quic.isBidirectionalStream (streamId st) = true ->
  (forall env maxEgress,
     streamTransportEnqueued st = true ->
     flowControl env = inl e ->
     exists st' ev,
       requestStreamWriteImpl s env maxEgress st = Some (st', ev, 0)
       /\ endedByWriteError s e st st' ev)
  /\ (forall data n eof,
        exists st' ev,
          handleWrite s data n eof (WriteError e) st
          = Some (st', EvWriteChain (streamId st) data eof (WriteError e) :: ev, 0)
          /\ endedByWriteError s e st st' ev).
Proof.
  intros Hb. split.
  - intros env maxEgress Hq Hfc. unfold requestStreamWriteImpl.
    rewrite Hq, Hfc. cbn [negb].
    destruct (handleWriteError_local s e st Hb) as (st' & ev & -> & He).
    by exists st', ev.
  - intros data n eof. unfold handleWrite, writeBase. cbv zeta.
    destruct (handleWriteError_local s e (set_writeBuf_ (writeBuf_ st) st) Hb)
      as (st' & ev & -> & He).
    by exists st', ev.
Qed.

Lemma write_error_ends_stream_witness :
  (forall env maxEgress,
     streamTransportEnqueued streamWithTenBytes = true ->
     flowControl env = inl quic.STREAM_NOT_EXISTS ->
     exists st' ev,
       requestStreamWriteImpl serverWithTwoStreams env maxEgress
         streamWithTenBytes = Some (st', ev, 0)
       /\ endedByWriteError serverWithTwoStreams quic.STREAM_NOT_EXISTS
            streamWithTenBytes st' ev)
  /\ (forall data n eof,
        exists st' ev,
          handleWrite serverWithTwoStreams data n eof
            (WriteError quic.STREAM_NOT_EXISTS) streamWithTenBytes
          = Some (st',
                  EvWriteChain (streamId streamWithTenBytes) data eof
                    (WriteError quic.STREAM_NOT_EXISTS) :: ev, 0)
          /\ endedByWriteError serverWithTwoStreams quic.STREAM_NOT_EXISTS
               streamWithTenBytes st' ev).
Proof.
  apply (write_error_ends_stream serverWithTwoStreams quic.STREAM_NOT_EXISTS
           streamWithTenBytes).
  vm_compute. reflexivity.
Defined.

(** ** Partial reliability *)

Section TrimAboveCommitted.

Variable streamEgressCommittedByteOffset : HQStreamTransport -> Z.

(** X25: a partial-reliability skip to a stream offset at or above the
    bytes already committed drops the bytes in between from the front of
    the write buffer (all of it when it holds fewer) and counts the whole
    distance as skipped, whatever the buffer held; the bytes written, the
    read buffer and the pending EOM stay, the socket is told the offset
    and its answer is the outcome.  When the committed count is the bytes
    written plus the bytes skipped, it is the offset asked for afterwards,
    so that the same skip again trims nothing. *)
Theorem skip_above_committed_trims s env nextBodyOffset streamOffset st :
  partialReliabilityEnabled_ s = true ->
  is_Some (versionUtils_ s) ->
  onEgressBodySkip env nextBodyOffset = Some streamOffset ->
  streamEgressCommittedByteOffset st <= streamOffset ->
  let skipped := streamOffset - streamEgressCommittedByteOffset st in
  exists st',
    skipBodyTo streamEgressCommittedByteOffset s env nextBodyOffset st
    = Some (match sendDataExpired env with
            | inr r => inr r
            | inl _ => inl EC_INTERNAL_ERROR
            end,
            st',
            [EvSendDataExpired (streamId st) streamOffset])
    /\ writeBuf_ st' = drop (Z.to_nat skipped) (writeBuf_ st)
    /\ bytesSkipped_ st' = wrap64 (bytesSkipped_ st + skipped)
    /\ bytesWritten_ st' = bytesWritten_ st
    /\ readBuf_ st' = readBuf_ st
    /\ pendingEOM_ st' = pendingEOM_ st
    /\ ((forall t, streamEgressCommittedByteOffset t
                   = wrap64 (bytesWritten_ t + bytesSkipped_ t)) ->
        0 <= streamOffset < 2 ^ 64 ->
        streamEgressCommittedByteOffset st' = streamOffset
        /\ trimPendingEgressBody streamEgressCommittedByteOffset streamOffset st'
           = (0, st')).
Proof.
  intros Hpr [v Hv] Hskip Hle skipped.
  unfold skipBodyTo. rewrite Hpr, Hv, Hskip. cbn [negb].
  unfold trimPendingEgressBody. cbv zeta.
  assert ((streamEgressCommittedByteOffset st >? streamOffset) = false) as ->
    by (rewrite Z.gtb_ltb; apply Z.ltb_ge; lia).
  fold skipped.
  set (st1 := if skipped >? 0
              then set_writeBuf_ (trimStartAtMost skipped (writeBuf_ st)) st
              else st).
  assert (writeBuf_ st1 = drop (Z.to_nat skipped) (writeBuf_ st)
          /\ bytesSkipped_ st1 = bytesSkipped_ st
          /\ bytesWritten_ st1 = bytesWritten_ st
          /\ readBuf_ st1 = readBuf_ st
          /\ pendingEOM_ st1 = pendingEOM_ st) as (W1 & S1 & B1 & R1 & P1).
  { unfold st1. destruct (skipped >? 0) eqn:Hs; [done |].
    rewrite Z.gtb_ltb in Hs. apply Z.ltb_ge in Hs.
    assert (skipped = 0) as -> by (unfold skipped in *; lia). done. }
  eexists. split; [by destruct (sendDataExpired env) |].
  cbn [writeBuf_ bytesSkipped_ bytesWritten_ readBuf_ pendingEOM_
       set_bytesSkipped_].
  rewrite W1, S1, B1, R1, P1. do 5 (split; [done |]).
  intros Hc Hr.
  assert (streamEgressCommittedByteOffset
            (set_bytesSkipped_ (wrap64 (bytesSkipped_ st + skipped)) st1)
          = streamOffset) as Hnew.
  { rewrite Hc. cbn [bytesWritten_ bytesSkipped_ set_bytesSkipped_].
    rewrite B1. unfold skipped. rewrite Hc. unfold wrap64.
    rewrite Zplus_mod_idemp_r.
    set (a := bytesWritten_ st + bytesSkipped_ st).
    replace (bytesWritten_ st + (bytesSkipped_ st + (streamOffset - a mod 2 ^ 64)))
      with (streamOffset + (a - a mod 2 ^ 64)) by (unfold a; lia).
    pose proof (Z.div_mod a (2 ^ 64) ltac:(lia)) as Hdm.
    replace (a - a mod 2 ^ 64) with ((a / 2 ^ 64) * 2 ^ 64) by lia.
    rewrite Z_mod_plus_full. apply Z.mod_small. lia. }
  split; [exact Hnew |].
  rewrite Hnew. rewrite Z.gtb_ltb, Z.ltb_irrefl, Z.sub_diag. reflexivity.
Qed.

End TrimAboveCommitted.

Lemma skip_above_committed_trims_witness :
  let skipped := 102 - writtenPlusSkipped streamWithEgress in
  exists st',
    skipBodyTo writtenPlusSkipped partiallyReliableSession skipEnv 92
      streamWithEgress
    = Some (match sendDataExpired skipEnv with
            | inr r => inr r
            | inl _ => inl EC_INTERNAL_ERROR
            end,
            st',
            [EvSendDataExpired (streamId streamWithEgress) 102])
    /\ writeBuf_ st' = drop (Z.to_nat skipped) (writeBuf_ streamWithEgress)
    /\ bytesSkipped_ st' = wrap64 (bytesSkipped_ streamWithEgress + skipped)
    /\ bytesWritten_ st' = bytesWritten_ streamWithEgress
    /\ readBuf_ st' = readBuf_ streamWithEgress
    /\ pendingEOM_ st' = pendingEOM_ streamWithEgress
    /\ ((forall t, writtenPlusSkipped t
                   = wrap64 (bytesWritten_ t + bytesSkipped_ t)) ->
        0 <= 102 < 2 ^ 64 ->
        writtenPlusSkipped st' = 102
        /\ trimPendingEgressBody writtenPlusSkipped 102 st' = (0, st')).
Proof.
  apply (skip_above_committed_trims writtenPlusSkipped
           partiallyReliableSession skipEnv 92 102 streamWithEgress).
  - reflexivity.
  - by eexists.
  - reflexivity.
  - vm_compute. discriminate.
Defined.

Lemma errorOnTransaction_egress st :
  exists st',
    errorOnTransaction (HTTPException.make HTTPException.EGRESS) st
    = (st', if detached_ st then []
            else [EvTxnOnError (streamId st)
                    (HTTPException.make HTTPException.EGRESS)])
    /\ egressAborted st st'.
Proof.
  unfold errorOnTransaction, abortEgress. cbv zeta.
  cbn [HTTPException.isIngressException HTTPException.isEgressException
       HTTPException.direction HTTPException.make].
  eexists. split; [reflexivity |]. unfold egressAborted.
  cbn [streamTransportEnqueued set_pendingEOM_ set_writeBuf_].
  destruct (streamTransportEnqueued st) eqn:Hq; cbn; rewrite ?Hq; done.
Qed.

Section PartialReliabilityErrors.

Variable streamEgressCommittedByteOffset : HQStreamTransport -> Z.

(** X26: the errors of a partial-reliability skip or reject.  Without
    partial reliability both answer PROTOCOL_ERROR and leave the stream.
    When the codec cannot place the body offset, both answer
    INTERNAL_ERROR and abort the egress only (a failed skip announces no
    expiry to the socket): the transaction, if attached, hears an egress
    error, the write buffer and the pending EOM are dropped, and what the
    stream read stays.  A
    reject the codec places leaves the stream as it is, and its outcome is
    the socket's answer. *)
Theorem partial_reliability_errors s skipEnv rejectEnv nextBodyOffset st :
  let skip :=
    skipBodyTo streamEgressCommittedByteOffset s skipEnv nextBodyOffset st in
  let reject := rejectBodyTo s rejectEnv nextBodyOffset st in
  let heard :=
    if detached_ st then []
    else [EvTxnOnError (streamId st)
            (HTTPException.make HTTPException.EGRESS)] in
  (partialReliabilityEnabled_ s = false ->
   skip = Some (inl EC_PROTOCOL_ERROR, st, [])
   /\ reject = Some (inl EC_PROTOCOL_ERROR, st, []))
  /\ (partialReliabilityEnabled_ s = true -> is_Some (versionUtils_ s) ->
      (onEgressBodySkip skipEnv nextBodyOffset = None ->
       exists st',
         skip = Some (inl EC_INTERNAL_ERROR, st', heard)
         /\ egressAborted st st')
      /\ (onEgressBodyReject rejectEnv nextBodyOffset = None ->
          exists st',
            reject = Some (inl EC_INTERNAL_ERROR, st', heard)
            /\ egressAborted st st')
      /\ (forall streamOffset,
            onEgressBodyReject rejectEnv nextBodyOffset = Some streamOffset ->
            reject
            = Some (match sendDataRejected rejectEnv with
                    | inr r => inr r
                    | inl _ => inl EC_INTERNAL_ERROR
                    end, st, []))).
Proof.
  cbv zeta. split.
  - intros Hpr. unfold skipBodyTo, rejectBodyTo. by rewrite Hpr.
  - intros Hpr [v Hv]. unfold skipBodyTo, rejectBodyTo.
    rewrite Hpr, Hv. cbn [negb].
    destruct (errorOnTransaction_egress st) as (st' & He & Ha).
    split; [| split].
    + intros ->. rewrite He. by exists st'.
    + intros ->. rewrite He. by exists st'.
    + intros o ->. by destruct (sendDataRejected rejectEnv).
Qed.

End PartialReliabilityErrors.

(** ** The control streams of a session *)

Lemma ctrlKept_refl s : ctrlKept s s.
Proof. constructor; auto. Qed.

Lemma ctrlKept_trans s1 s2 s3 :
  ctrlKept s1 s2 -> ctrlKept s2 s3 -> ctrlKept s1 s3.
Proof. intros [u1 v1 c1] [u2 v2 c2]. constructor; try congruence. auto. Qed.

(** An update that leaves alone every field [ctrlKept] reads. *)
Lemma ctrlKept_frame s s' :
  versionUtils_ s' = versionUtils_ s ->
  version_ s' = version_ s ->
  controlStreams_ s' = controlStreams_ s ->
  ctrlKept s s'.
Proof. intros Hu Hv Hc. constructor; try done. by rewrite Hc. Qed.

(** A control stream that is entered or replaced. *)
Lemma ctrlKept_insert s t cs :
  ctrlKept s (set_controlStreams_ (<[t := cs]> (controlStreams_ s)) s).
Proof.
  constructor; try done. intros t' Ht. cbn.
  destruct (decide (t = t')) as [-> | Hne].
  - rewrite lookup_insert_eq. by eexists.
  - by rewrite lookup_insert_ne.
Qed.

Ltac ctrl_frame s t :=
  apply (ctrlKept_trans s t); [| by apply ctrlKept_frame].

Ltac ctrl_basic :=
  lazymatch goal with
  | |- ctrlKept ?s ?s => apply ctrlKept_refl
  | |- ctrlKept ?s (emit _ ?t) => ctrl_frame s t
  | |- ctrlKept ?s (abortStreamS _ _ _ ?t) => unfold abortStreamS
  | |- ctrlKept ?s (rejectStream _ ?t) => unfold rejectStream
  | |- ctrlKept ?s (set_streams_ _ ?t) => ctrl_frame s t
  | |- ctrlKept ?s (set_sock_ _ ?t) => ctrl_frame s t
  | |- ctrlKept ?s (set_destroyed_ _ ?t) => ctrl_frame s t
  | |- ctrlKept ?s (set_checkFailed_ _ ?t) => ctrl_frame s t
  | |- ctrlKept ?s (set_dropping_ _ ?t) => ctrl_frame s t
  | |- ctrlKept ?s (set_alpn_ _ ?t) => ctrl_frame s t
  | |- ctrlKept ?s (set_loopCallbackScheduled_ _ ?t) => ctrl_frame s t
  | |- ctrlKept ?s (cancelLoopCallback ?t) => ctrl_frame s t
  | |- ctrlKept ?s (set_pendingUniStreams_ _ ?t) => ctrl_frame s t
  | |- ctrlKept ?s (set_maxAllowedStreamId_ _ ?t) => ctrl_frame s t
  | |- ctrlKept ?s (set_maxIncomingStreamId_ _ ?t) => ctrl_frame s t
  | |- ctrlKept ?s (set_dropInNextLoop_ _ ?t) => ctrl_frame s t
  | |- ctrlKept ?s (set_drainState_ _ ?t) => ctrl_frame s t
  | |- ctrlKept ?s (set_controlStreams_ (<[_ := _]> (controlStreams_ ?t)) ?t) =>
      apply (ctrlKept_trans s t); [| apply ctrlKept_insert ]
  | |- ctrlKept ?s (if ?c then _ else _) => destruct c eqn:?
  end.

Lemma invokeOnStreams_ctrl p f s : ctrlKept s (invokeOnStreams p f s).
Proof. unfold invokeOnStreams. repeat ctrl_basic. Qed.

Lemma scheduleLoopCallback_ctrl s : ctrlKept s (scheduleLoopCallback s).
Proof. unfold scheduleLoopCallback. repeat ctrl_basic. Qed.

Lemma checkForShutdown_ctrl s : ctrlKept s (checkForShutdown s).
Proof. unfold checkForShutdown. cbv zeta. repeat ctrl_basic. Qed.

Lemma dropConnectionSync_ctrl env code perr s :
  ctrlKept s (dropConnectionSync env code perr s).
Proof.
  unfold dropConnectionSync. cbv zeta.
  destruct (dropping_ s); [apply ctrlKept_refl |].
  assert (forall t, ctrlKept s t ->
            ctrlKept s (if bool_decide (getNumStreams t = 0%nat) then t
                        else set_checkFailed_ true t)) as Hend.
  { intros t Ht. case_bool_decide; [done |]. ctrl_frame s t. exact Ht. }
  apply Hend.
  eapply ctrlKept_trans; [| apply checkForShutdown_ctrl].
  repeat ctrl_basic.
  unfold invokeOnAllStreams.
  eapply ctrlKept_trans; [| apply invokeOnStreams_ctrl].
  repeat ctrl_basic.
Qed.

Lemma dropConnectionAsync_ctrl code perr s :
  ctrlKept s (dropConnectionAsync code perr s).
Proof.
  unfold dropConnectionAsync.
  destruct (dropInNextLoop_ s) eqn:E; [apply ctrlKept_refl |].
  eapply ctrlKept_trans; [| apply scheduleLoopCallback_ctrl].
  repeat ctrl_basic.
Qed.

Lemma onConnectionError_ctrl env code s :
  ctrlKept s (onConnectionError env code s).
Proof.
  unfold onConnectionError.
  eapply ctrlKept_trans; [| apply dropConnectionSync_ctrl].
  repeat ctrl_basic.
Qed.

Lemma GoawayUtils_sendGoaway_ctrl env s s' :
  GoawayUtils_sendGoaway env s = Some s' -> ctrlKept s s'.
Proof.
  unfold GoawayUtils_sendGoaway. cbv zeta.
  case_bool_decide as Hdir; [intros [= <-]; apply ctrlKept_refl |].
  case_bool_decide as Hdone; [intros [= <-]; apply ctrlKept_refl |].
  destruct (controlStreams_ s !! _) as [cs |]; [| discriminate].
  destruct (streamWriteOffset env), (streamWriteBufferedBytes env);
    try (intros [= <-]; repeat ctrl_basic).
  destruct (_ =? 0); [intros [= <-]; repeat ctrl_basic |].
  destruct (negb _); [intros [= <-]; repeat ctrl_basic |].
  case_bool_decide as Hp; intros [= <-]; repeat ctrl_basic.
Qed.

Lemma sendGoaway_ctrl v env s s' :
  sendGoaway v env s = Some s' -> ctrlKept s s'.
Proof.
  destruct v; simpl; [intros [= <-]; apply ctrlKept_refl | ..];
    apply GoawayUtils_sendGoaway_ctrl.
Qed.

Lemma drainImpl_ctrl env s s' : drainImpl env s = Some s' -> ctrlKept s s'.
Proof.
  unfold drainImpl. cbv zeta.
  case_bool_decide as Hn; [intros [= <-]; apply ctrlKept_refl |].
  simpl. destruct (versionUtils_ s) as [v |] eqn:Hv.
  - intros H. eapply ctrlKept_trans; [| eapply sendGoaway_ctrl, H].
    repeat ctrl_basic.
  - intros [= <-]. repeat ctrl_basic.
Qed.

Lemma closeWhenIdle_ctrl env s s' :
  closeWhenIdle env s = Some s' -> ctrlKept s s'.
Proof.
  unfold closeWhenIdle. destruct (drainImpl env s) as [s1 |] eqn:E; [| done].
  simpl. intros [= <-].
  eapply ctrlKept_trans; [eapply drainImpl_ctrl, E |].
  eapply ctrlKept_trans; [| apply checkForShutdown_ctrl].
  repeat ctrl_basic.
Qed.

Lemma onGoawayAck_ctrl env s s' : onGoawayAck env s = Some s' -> ctrlKept s s'.
Proof.
  unfold onGoawayAck.
  case_bool_decide as H1.
  - destruct (versionUtils_ s) as [v |] eqn:Hv; [| done].
    destruct (sendGoaway v env s) as [s1 |] eqn:E; [| done].
    simpl. intros [= <-].
    eapply ctrlKept_trans; [eapply sendGoaway_ctrl; eauto |].
    apply scheduleLoopCallback_ctrl.
  - case_bool_decide as H2; simpl; intros [= <-];
      (eapply ctrlKept_trans; [| apply scheduleLoopCallback_ctrl]);
      repeat ctrl_basic.
Qed.

Lemma onGoawayCanceled_ctrl s : ctrlKept s (onGoawayCanceled s).
Proof.
  unfold onGoawayCanceled.
  eapply ctrlKept_trans; [| apply scheduleLoopCallback_ctrl].
  repeat ctrl_basic.
Qed.

Lemma headersComplete_ctrl env close s s' :
  headersComplete env close s = Some s' -> ctrlKept s s'.
Proof.
  unfold headersComplete.
  destruct (versionUtils_ s) as [[] |] eqn:Hv; try done;
    try (intros [= <-]; apply ctrlKept_refl).
  unfold H1QFBV1_headersComplete.
  case_bool_decide as Hd; [intros [= <-]; apply ctrlKept_refl |].
  destruct close; [| intros [= <-]; apply ctrlKept_refl].
  case_bool_decide as Hc; [intros [= <-]; repeat ctrl_basic |].
  case_bool_decide as Hn.
  - destruct (drainImpl env s) as [s1 |] eqn:E; [| done]. simpl.
    intros [= <-]. eapply ctrlKept_trans; [eapply drainImpl_ctrl, E |].
    repeat ctrl_basic.
  - simpl. intros [= <-]. repeat ctrl_basic.
Qed.

Lemma checkSendingGoaway_ctrl env keepalive s s' :
  checkSendingGoaway env keepalive s = Some s' -> ctrlKept s s'.
Proof.
  unfold checkSendingGoaway.
  destruct (versionUtils_ s) as [[] |] eqn:Hv;
    try (intros [= <-]; apply ctrlKept_refl).
  unfold H1QFBV1_checkSendingGoaway, notifyPendingShutdown.
  set (o := if _ && _ then _ else _).
  destruct o as [s1 |] eqn:E; [| done]. simpl. intros [= <-].
  assert (ctrlKept s s1) as H1.
  { subst o. destruct (_ && _).
    - by eapply drainImpl_ctrl.
    - injection E as <-. apply ctrlKept_refl. }
  eapply ctrlKept_trans; [exact H1 |]. repeat ctrl_basic.
Qed.

Lemma onGoaway_ctrl env lastGood code s s' :
  onGoaway env lastGood code s = Some s' -> ctrlKept s s'.
Proof.
  unfold onGoaway. cbv zeta.
  destruct (negb _); [done |]. case_bool_decide; [done |].
  set (s1 := set_maxAllowedStreamId_ _ s).
  destruct (drainImpl env s1) as [s2 |] eqn:E; [| done].
  cbn [mbind option_bind]. intros [= <-].
  eapply ctrlKept_trans; [| apply checkForShutdown_ctrl].
  eapply ctrlKept_trans; [apply (ctrlKept_trans s s1 s2) |].
  - subst s1. repeat ctrl_basic.
  - eapply drainImpl_ctrl, E.
  - set (s3 := invokeOnNonDetachedStreams _ s2).
    assert (ctrlKept s2 s3) as H3 by apply invokeOnStreams_ctrl.
    eapply ctrlKept_trans; [exact H3 |]. repeat ctrl_basic.
Qed.

Lemma checkNewStream_ctrl v id s : ctrlKept s (checkNewStream v id s).2.
Proof.
  destruct v; simpl;
    [ unfold H1QFBV1_checkNewStream
    | unfold GoawayUtils_checkNewStream
    | unfold GoawayUtils_checkNewStream ];
    repeat case_match; simpl; repeat ctrl_basic.
Qed.

Lemma createStreamTransport_ctrl env id s :
  ctrlKept s (createStreamTransport env id s).2.
Proof.
  unfold createStreamTransport. case_match; simpl; repeat ctrl_basic.
Qed.

Lemma onNewBidirectionalStream_ctrl env id s s' :
  onNewBidirectionalStream env id s = Some s' -> ctrlKept s s'.
Proof.
  unfold onNewBidirectionalStream.
  destruct (versionUtils_ s) as [v |]; [| done].
  pose proof (checkNewStream_ctrl v id s) as H1.
  destruct (checkNewStream v id s) as [ok s1]. simpl in H1.
  destruct ok; simpl; [| by intros [= <-]].
  set (s1a := emit [EvStreamAccepted id] s1).
  pose proof (createStreamTransport_ctrl env id s1a) as H2.
  destruct (createStreamTransport env id s1a) as [b s2]. simpl in H2.
  intros [= <-].
  eapply ctrlKept_trans; [exact H1 |].
  eapply ctrlKept_trans; [| eapply ctrlKept_trans; [exact H2 |]].
  - subst s1a. repeat ctrl_basic.
  - repeat ctrl_basic.
Qed.

Lemma onNewUnidirectionalStream_ctrl id s s' :
  onNewUnidirectionalStream id s = Some s' -> ctrlKept s s'.
Proof.
  unfold onNewUnidirectionalStream.
  destruct (versionUtils_ s) as [v |]; [| done].
  pose proof (checkNewStream_ctrl v id s) as H1.
  destruct (checkNewStream v id s) as [ok s1]. simpl in H1.
  destruct ok; simpl; intros [= <-]; [| done].
  eapply ctrlKept_trans; [exact H1 |]. repeat ctrl_basic.
Qed.

Lemma newTransaction_ctrl env s : ctrlKept s (newTransaction env s).2.
Proof.
  unfold newTransaction.
  destruct (_ || _ || _); [apply ctrlKept_refl |].
  destruct (negb _); [apply ctrlKept_refl |].
  destruct (createBidirectionalStream env) as [id |]; [| apply ctrlKept_refl].
  pose proof (createStreamTransport_ctrl env id s) as H1.
  destruct (createStreamTransport env id s) as [b s1]. simpl in H1.
  destruct b; simpl.
  - eapply ctrlKept_trans; [exact H1 |]. repeat ctrl_basic.
  - eapply ctrlKept_trans; [exact H1 |]. repeat ctrl_basic.
Qed.

Lemma createIngressControlStream_ctrl id type s ok s' :
  createIngressControlStream id type s = Some (ok, s') -> ctrlKept s s'.
Proof.
  unfold createIngressControlStream.
  destruct (controlStreams_ s !! type) as [cs |]; [| done].
  destruct (ingressCodec_ cs); intros [= <- <-].
  - apply dropConnectionAsync_ctrl.
  - repeat ctrl_basic.
Qed.

Lemma errorOnTransactionId_ctrl id ex s :
  ctrlKept s (errorOnTransactionId id ex s).
Proof.
  unfold errorOnTransactionId, findStream.
  destruct (streams_ s !! id) as [st |]; [| apply ctrlKept_refl].
  destruct (errorOnTransaction ex st) as [st1 ev]. repeat ctrl_basic.
Qed.

Lemma readError_ctrl id error s : ctrlKept s (readError id error s).
Proof.
  unfold readError. cbv zeta.
  destruct error as [code | code | code];
    [| apply errorOnTransactionId_ctrl | apply errorOnTransactionId_ctrl].
  unfold findNonDetachedStream.
  destruct (streams_ s !! id) as [st |]; [| apply ctrlKept_refl].
  destruct (detached_ st); [apply ctrlKept_refl |].
  destruct (onResetStream _ _ _ st) as [st1 ev]. repeat ctrl_basic.
Qed.

Lemma handleSessionError_ctrl isControl err perr s :
  ctrlKept s (handleSessionError isControl err perr s).
Proof.
  unfold handleSessionError. cbv zeta.
  destruct err as [e | e | e]; cbn [negb].
  - apply dropConnectionAsync_ctrl.
  - destruct e; cbn [negb];
      first [apply ctrlKept_refl | apply dropConnectionAsync_ctrl].
  - apply dropConnectionAsync_ctrl.
Qed.

Lemma controlCallbacks_ctrl ingressId cbs s s' :
  controlCallbacks ingressId cbs s = Some s' -> ctrlKept s s'.
Proof.
  revert s. induction cbs as [| cb cbs IH]; intros s; cbn [controlCallbacks].
  - intros [= <-]. apply ctrlKept_refl.
  - destruct (controlCallback ingressId cb s) as [s1 |] eqn:E; [| done].
    cbn [mbind option_bind]. intros H.
    eapply ctrlKept_trans; [| apply IH, H].
    destruct cb as [| env lastGood code | error]; cbn [controlCallback] in E.
    + unfold onSettings in E. destruct (versionUtils_ s); [| done].
      injection E as <-. apply ctrlKept_refl.
    + eapply onGoaway_ctrl, E.
    + unfold HQControlStream_onError in E.
      destruct (findControlStream ingressId s); [| done].
      injection E as <-. apply handleSessionError_ctrl.
Qed.

Lemma HQControlStream_processReadData_ctrl env type s s' :
  HQControlStream_processReadData env type s = Some s' -> ctrlKept s s'.
Proof.
  unfold HQControlStream_processReadData.
  destruct (controlStreams_ s !! type) as [cs |]; [| done].
  cbn [mbind option_bind].
  destruct (ingressStreamId cs) as [ingressId |]; [| done].
  cbn [mbind option_bind].
  destruct (negb (ingressCodec_ cs)); [done |].
  set (o := if chainLength (ctrlReadBuf_ cs) >? 0 then _ else _).
  assert (forall s1, o = Some s1 -> ctrlKept s s1) as Ho.
  { subst o. intros s1.
    destruct (_ >? 0); [| by intros [= <-]; apply ctrlKept_refl].
    destruct (onUnidirectionalIngress env _) as [cbs ret].
    destruct (controlCallbacks ingressId cbs _) as [s2 |] eqn:E; [| done].
    cbn [mbind option_bind].
    destruct (controlStreams_ s2 !! type) as [cs2 |]; [| done].
    cbn [mbind option_bind]. intros [= <-].
    eapply ctrlKept_trans; [| apply ctrlKept_insert].
    eapply ctrlKept_trans; [| apply (controlCallbacks_ctrl _ _ _ _ E)].
    apply ctrlKept_insert. }
  destruct o as [s1 |]; [| done]. cbn [mbind option_bind].
  specialize (Ho s1 eq_refl).
  destruct (controlStreams_ s1 !! type) as [cs1 |]; [| done].
  cbn [mbind option_bind].
  destruct (_ && _); [| by intros [= <-]].
  intros H. eapply ctrlKept_trans; [exact Ho |].
  apply (controlCallbacks_ctrl _ _ _ _ H).
Qed.

Lemma controlStreamReadAvailable_ctrl env id s s' :
  controlStreamReadAvailable env id s = Some s' -> ctrlKept s s'.
Proof.
  unfold controlStreamReadAvailable.
  destruct (findControlStream id s) as [[type cs0] |];
    [| by intros [= <-]; apply ctrlKept_refl].
  unfold readControlStream.
  destruct (controlStreams_ s !! type) as [cs |]; [| done].
  cbn [mbind option_bind].
  destruct (ingressStreamId cs) as [ingressId |]; [| done].
  cbn [mbind option_bind].
  destruct (readResult env) as [error | [data eof]].
  - intros [= <-]. apply readError_ctrl.
  - intros H. eapply ctrlKept_trans;
      [| apply (HQControlStream_processReadData_ctrl _ _ _ _ H)].
    apply ctrlKept_insert.
Qed.

Lemma assignReadCallback_ctrl env id type s s' :
  assignReadCallback env id type s = Some s' -> ctrlKept s s'.
Proof.
  unfold assignReadCallback, tryCreateIngressControlStream.
  destruct (negb (consumeOk env)); [done |].
  destruct (versionUtils_ s) as [v |]; [| done]. cbv zeta.
  set (s0 := set_pendingUniStreams_ _ s).
  assert (ctrlKept s s0) as H0 by (subst s0; repeat ctrl_basic).
  destruct (parseStreamPreface v type) as [t |]; simpl.
  - destruct (createIngressControlStream id t s0) as [[ok s1] |] eqn:E; [| done].
    pose proof (createIngressControlStream_ctrl _ _ _ _ _ E) as H1.
    simpl. destruct ok; simpl.
    + intros H. pose proof (controlStreamReadAvailable_ctrl _ _ _ _ H).
      eauto using ctrlKept_trans.
    + intros [= <-].
      eapply ctrlKept_trans; [eapply ctrlKept_trans; [exact H0 | exact H1] |].
      repeat ctrl_basic.
  - intros [= <-]. eapply ctrlKept_trans; [exact H0 |]. repeat ctrl_basic.
Qed.

Lemma runLoopCallback_ctrl env s : ctrlKept s (runLoopCallback env s).
Proof.
  unfold runLoopCallback. cbv zeta.
  eapply ctrlKept_trans; [| apply checkForShutdown_ctrl].
  destruct (dropInNextLoop_ _) as [[[c m] p] |].
  - eapply ctrlKept_trans; [| apply dropConnectionSync_ctrl]. repeat ctrl_basic.
  - repeat ctrl_basic.
Qed.

Lemma onStream_ctrl id f s s' : onStream id f s = Some s' -> ctrlKept s s'.
Proof.
  unfold onStream.
  destruct (streams_ s !! id) as [st |]; [| done]. cbn [mbind option_bind].
  destruct (f st) as [[st1 ev] |] eqn:E; [| done]. cbn [mbind option_bind].
  intros [= <-]. repeat ctrl_basic.
Qed.

(** A call that keeps the control streams keeps what holds of them. *)
Lemma ctrlKept_ctrlInv s s' :
  ctrlInv s -> destroyed_ s = false -> ctrlKept s s' -> ctrlInv s'.
Proof.
  intros Hi Hd [u _ c] _ v Hv t Ht. apply c. apply (Hi Hd v); [| done].
  by rewrite <- u.
Qed.

Lemma onConnectionError_destroys env code s :
  lifeInv s -> destroyed_ s = false ->
  checkFailed_ (onConnectionError env code s) = false ->
  destroyed_ (onConnectionError env code s) = true.
Proof.
  unfold lifeInv. intros Hi Hd. rewrite Hd in Hi.
  destruct Hi as (Hs & Hp & _). unfold onConnectionError. intros Hf.
  by destruct (dropConnectionSync_passed env code (proxygenErrorOf env)
                 (emit [EvOnConnectionError code.1 code.2] s) Hp Hs Hf)
    as (H1 & _).
Qed.

Lemma createEgressControlStream_ctrl env type s ok s' :
  lifeInv s -> destroyed_ s = false ->
  createEgressControlStream env type s = Some (ok, s') ->
  if ok
  then ctrlKept s s' /\ is_Some (controlStreams_ s' !! type)
  else checkFailed_ s' = false -> destroyed_ s' = true.
Proof.
  intros Hi Hd. unfold createEgressControlStream.
  destruct (createUnidirectionalStream env type).
  - destruct (controlStreams_ s !! type); [done |].
    intros [= <- <-]. split; [apply ctrlKept_insert |].
    cbn. rewrite lookup_insert_eq. by eexists.
  - intros [= <- <-]. by apply onConnectionError_destroys.
Qed.

Lemma HQ_sendSettings_ctrl env s s' :
  HQ_sendSettings env s = Some s' -> ctrlKept s s'.
Proof.
  unfold HQ_sendSettings. destruct (controlStreams_ s !! CONTROL); [| done].
  intros [= <-]. repeat ctrl_basic.
Qed.

Lemma createEgressControlStreams_ctrl v env s ok s' :
  lifeInv s -> destroyed_ s = false ->
  createEgressControlStreams v env s = Some (ok, s') ->
  if ok
  then ctrlKept s s'
       /\ forall t, t ∈ egressControlTypes v -> is_Some (controlStreams_ s' !! t)
  else checkFailed_ s' = false -> destroyed_ s' = true.
Proof.
  intros Hi Hd. destruct v; simpl.
  - intros [= <- <-]. split; [apply ctrlKept_refl |].
    intros t Ht. by apply not_elem_of_nil in Ht.
  - intros H. pose proof (createEgressControlStream_ctrl _ _ _ _ _ Hi Hd H) as Hc.
    destruct ok; [| done]. destruct Hc as [Hk Hs]. split; [done |].
    intros t Ht. apply list_elem_of_singleton in Ht. by subst.
  - destruct (createEgressControlStream env CONTROL s) as [[ok1 s1] |] eqn:E1;
      [| done]. simpl.
    pose proof (createEgressControlStream_ctrl _ _ _ _ _ Hi Hd E1) as C1.
    destruct (createEgressControlStream_lifeInv _ _ _ _ _ Hi Hd E1) as [A1 _].
    destruct ok1; simpl; [| by intros [= <- <-]].
    destruct (A1 eq_refl) as [I1 D1]. destruct C1 as [K1 S1].
    destruct (createEgressControlStream env QPACK_ENCODER s1) as [[ok2 s2] |] eqn:E2;
      [| done]. simpl.
    pose proof (createEgressControlStream_ctrl _ _ _ _ _ I1 D1 E2) as C2.
    destruct (createEgressControlStream_lifeInv _ _ _ _ _ I1 D1 E2) as [A2 _].
    destruct ok2; simpl; [| by intros [= <- <-]].
    destruct (A2 eq_refl) as [I2 D2]. destruct C2 as [K2 S2].
    destruct (createEgressControlStream env QPACK_DECODER s2) as [[ok3 s3] |] eqn:E3;
      [| done]. simpl.
    pose proof (createEgressControlStream_ctrl _ _ _ _ _ I2 D2 E3) as C3.
    destruct ok3; simpl; [| by intros [= <- <-]].
    destruct C3 as [K3 S3].
    destruct (HQ_sendSettings env s3) as [s4 |] eqn:E4; [| done]. simpl.
    pose proof (HQ_sendSettings_ctrl _ _ _ E4) as K4.
    intros [= <- <-]. split; [eauto using ctrlKept_trans |].
    intros t Ht. apply (ck_streams _ _ K4).
    cbn in Ht. rewrite !elem_of_cons in Ht.
    destruct Ht as [-> | [-> | [-> | Ht]]].
    + apply (ck_streams _ _ K3), (ck_streams _ _ K2), S1.
    + apply (ck_streams _ _ K3), S2.
    + exact S3.
    + by apply not_elem_of_nil in Ht.
Qed.

Lemma onTransportReadyCommon_ctrlInv env alpn s ok s' :
  lifeInv s -> destroyed_ s = false ->
  onTransportReadyCommon env alpn s = Some (ok, s') ->
  checkFailed_ s' = false ->
  ctrlInv s'.
Proof.
  intros Hi Hd. unfold onTransportReadyCommon.
  destruct (getAndCheckApplicationProtocol_lifeInv env alpn s Hi Hd) as [A1 _].
  assert ((getAndCheckApplicationProtocol env alpn s).1 = false ->
          checkFailed_ (getAndCheckApplicationProtocol env alpn s).2 = false ->
          destroyed_ (getAndCheckApplicationProtocol env alpn s).2 = true) as F1.
  { unfold getAndCheckApplicationProtocol. cbv zeta.
    assert (forall o c,
              checkFailed_ (onConnectionError env c (set_version_ o s)) = false ->
              destroyed_ (onConnectionError env c (set_version_ o s)) = true)
      as Hc.
    { intros o c. apply onConnectionError_destroys; [| done].
      apply (lifeKept_lifeInv s); [done | done |]. by apply lifeKept_frame. }
    destruct alpn as [a |]; simpl.
    - repeat case_match; simpl in *; try congruence; intros _;
        first [ apply Hc | by apply onConnectionError_destroys ].
    - intros _. by apply onConnectionError_destroys. }
  destruct (getAndCheckApplicationProtocol env alpn s) as [ok1 s1].
  simpl in A1, F1. destruct ok1; simpl.
  2: { intros [= <- <-] Hf. unfold ctrlInv. rewrite F1 by done. done. }
  destruct (A1 eq_refl) as [I1 D1].
  destruct (versionUtils_ s1) as [v |] eqn:Hv1; [| done].
  destruct (createEgressControlStreams v env s1) as [[ok2 s2] |] eqn:E2; [| done].
  pose proof (createEgressControlStreams_ctrl _ _ _ _ _ I1 D1 E2) as C2.
  cbn [mbind option_bind]. destruct ok2; simpl.
  2: { intros [= <- <-] Hf. unfold ctrlInv. rewrite C2 by done. done. }
  destruct C2 as [K2 S2].
  assert (ctrlInv s2) as I2.
  { intros _ v' Hv' t Ht. apply S2.
    rewrite (ck_utils _ _ K2), Hv1 in Hv'. by injection Hv' as <-. }
  destruct (createEgressControlStreams_lifeInv _ _ _ _ _ I1 D1 E2) as [A2 _].
  destruct (A2 eq_refl) as [_ D2].
  case_bool_decide.
  - destruct (sendGoaway v env s2) as [s3 |] eqn:E3; [| done].
    cbn [mbind option_bind]. intros [= <- <-] _.
    by apply (ctrlKept_ctrlInv s2), (sendGoaway_ctrl _ _ _ _ E3).
  - cbn [mbind option_bind]. by intros [= <- <-].
Qed.

(** *** Every call keeps what holds of the control streams *)

Lemma apply_op_ctrlInv op s s' :
  lifeInv s -> ctrlInv s -> apply_op op s = Some s' -> ctrlInv s'.
Proof.
  intros Hl Hi H. apply apply_op_dispatch in H as (Hd & _ & Hf & H).
  revert H. unfold dispatch.
  destruct op.
  - destruct (sock_ s); [| done]. simpl.
    case_bool_decide as Hu; [| done]. case_bool_decide as Hv; [| done]. simpl.
    destruct (onTransportReadyCommon env alpn s) as [[ok s1] |] eqn:E; [| done].
    simpl. intros [= <-]. by eapply onTransportReadyCommon_ctrlInv.
  - intros H. by apply (ctrlKept_ctrlInv s), (drainImpl_ctrl _ _ _ H).
  - intros H. by apply (ctrlKept_ctrlInv s), (closeWhenIdle_ctrl _ _ _ H).
  - intros [= <-]. unfold dropConnection.
    by apply (ctrlKept_ctrlInv s), dropConnectionSync_ctrl.
  - destruct (sock_ s); [| done]. intros [= <-].
    by apply (ctrlKept_ctrlInv s), onConnectionError_ctrl.
  - intros [= <-]. by apply (ctrlKept_ctrlInv s), dropConnectionAsync_ctrl.
  - destruct (sock_ s && _); [| done]. intros H.
    by apply (ctrlKept_ctrlInv s), (onNewBidirectionalStream_ctrl _ _ _ _ H).
  - destruct (sock_ s && _); [| done]. intros H.
    by apply (ctrlKept_ctrlInv s), (onNewUnidirectionalStream_ctrl _ _ _ H).
  - destruct (sock_ s); [| done]. intros H.
    by apply (ctrlKept_ctrlInv s), (assignReadCallback_ctrl _ _ _ _ _ H).
  - destruct (sock_ s); [| done]. intros H.
    by apply (ctrlKept_ctrlInv s), (onGoawayAck_ctrl _ _ _ H).
  - intros [= <-]. by apply (ctrlKept_ctrlInv s), onGoawayCanceled_ctrl.
  - intros H. by apply (ctrlKept_ctrlInv s), (headersComplete_ctrl _ _ _ _ H).
  - intros H. by apply (ctrlKept_ctrlInv s), (checkSendingGoaway_ctrl _ _ _ _ H).
  - destruct (versionUtils_ s) as [[] |] eqn:Hv; try done; intros H;
      by apply (ctrlKept_ctrlInv s), (onGoaway_ctrl _ _ _ _ _ H).
  - intros [= <-]. by apply (ctrlKept_ctrlInv s), newTransaction_ctrl.
  - intros [= <-]. by apply (ctrlKept_ctrlInv s), runLoopCallback_ctrl.
  - intros [= <-]. by apply (ctrlKept_ctrlInv s), checkForShutdown_ctrl.
  - destruct (sock_ s); [| done]. unfold readErrorApplication. intros H.
    by apply (ctrlKept_ctrlInv s), (onStream_ctrl _ _ _ _ H).
  - destruct (sock_ s); [| done]. unfold writeRequestStream. intros H.
    by apply (ctrlKept_ctrlInv s), (onStream_ctrl _ _ _ _ H).
  - unfold detachTransaction. intros H.
    by apply (ctrlKept_ctrlInv s), (onStream_ctrl _ _ _ _ H).
Qed.

Lemma reachable_ctrlInv s : reachable s -> ctrlInv s.
Proof.
  induction 1 as [s Hi | s op s' Hr IH Hop].
  - destruct Hi as (_ & Hu & _). intros _ v Hv. congruence.
  - eapply apply_op_ctrlInv; eauto. by apply reachable_lifeInv.
Qed.

Lemma sendGoaway_some v env s :
  version_ s = Some v ->
  (forall t, t ∈ egressControlTypes v -> is_Some (controlStreams_ s !! t)) ->
  is_Some (sendGoaway v env s).
Proof.
  intros Hv Hc.
  assert (v <> H1Q_FB_V1 -> is_Some (GoawayUtils_sendGoaway env s)) as Hg.
  { intros Hn. unfold GoawayUtils_sendGoaway. cbv zeta.
    case_bool_decide; [by eexists |]. case_bool_decide; [by eexists |].
    destruct (Hc (if bool_decide (version_ s = Some H1Q_FB_V2)
                  then H1Q_CONTROL else CONTROL)) as [cs ->].
    { rewrite Hv. destruct v; [done | ..]; cbn; set_solver. }
    repeat case_match; by eexists. }
  destruct v; cbn [sendGoaway]; [by eexists | ..]; by apply Hg.
Qed.

(** X27: in every state the session reaches and is not destroyed in, the
    egress control streams of its profile exist, so that a drain never
    looks for a control stream that is missing: [notifyPendingShutdown],
    [closeWhenIdle] and [onGoawayAck] run to their end, whatever the codec
    and the socket answer. *)
Theorem drain_finds_control_stream env s :
  reachable s ->
  destroyed_ s = false ->
  (forall v t, versionUtils_ s = Some v -> t ∈ egressControlTypes v ->
               is_Some (controlStreams_ s !! t))
  /\ is_Some (notifyPendingShutdown env s)
  /\ is_Some (closeWhenIdle env s)
  /\ is_Some (onGoawayAck env s).
Proof.
  intros Hr Hd.
  pose proof (reachable_ctrlInv s Hr Hd) as Hc.
  destruct (reachable_versionInv s Hr) as [Hvu Hgo].
  assert (is_Some (drainImpl env s)) as Hdr.
  { unfold drainImpl. cbv zeta. case_bool_decide; [by eexists |].
    change (versionUtils_ (set_drainState_ PENDING s)) with (versionUtils_ s).
    destruct (versionUtils_ s) as [v |] eqn:Hv; [| by eexists].
    apply sendGoaway_some; [exact Hvu | by apply Hc]. }
  split; [intros v t Hv Ht; by apply (Hc v) |].
  split; [exact Hdr |]. split.
  - unfold closeWhenIdle. destruct Hdr as [s1 ->]. by eexists.
  - unfold onGoawayAck. case_bool_decide as Hf.
    + destruct (versionUtils_ s) as [v |] eqn:Hv.
      * destruct (sendGoaway_some v env s Hvu (Hc v eq_refl)) as [s1 ->].
        by eexists.
      * destruct Hgo as [Hn _]; [by left | done].
    + case_bool_decide; by eexists.
Qed.

Lemma drain_finds_control_stream_witness :
  (forall v t, versionUtils_ serverWithTwoStreams = Some v ->
               t ∈ egressControlTypes v ->
               is_Some (controlStreams_ serverWithTwoStreams !! t))
  /\ is_Some (notifyPendingShutdown goodEnv serverWithTwoStreams)
  /\ is_Some (closeWhenIdle goodEnv serverWithTwoStreams)
  /\ is_Some (onGoawayAck goodEnv serverWithTwoStreams).
Proof.
  apply (drain_finds_control_stream goodEnv serverWithTwoStreams).
  - exact serverWithTwoStreams_reachable.
  - vm_compute. reflexivity.
Defined.
